(* ===== verification/_CoqProject ===== *)
-Q . S2P
Prelude.v
Machine.v
Threads.v
Pool.v
Types.v
ByteCodec.v
ShmLayout.v
Ring.v
Spsc.v
Credits.v
FilePayload.v
EventFd.v
Os.v
Platform.v
Session.v
SessionRings.v
SessionHost.v
Executor.v
ClientState.v
ClientRecovery.v
ClientCore.v
ClientWorkers.v
ClientConfig.v
ClientFutures.v
ClientCalls.v
ClientTotal.v
ClientLive.v
ClientInvariant.v
ClientClosed.v
ClientSpec.v
ClientDemo.v
ServerState.v
ServerCore.v
ServerThreads.v
ServerConfig.v
ServerDemo.v
EndToEnd.v
Sockets.v
VesMessages.v
VesRules.v
VesHandlers.v
Registry.v
VesTyping.v
FailureMonitor.v
Supervisor.v
SystemAbility.v
VesControl.v
ServiceSocket.v
VesProxy.v
VesChannel.v
TypedCalls.v
VesClient.v
TypedEndToEnd.v
VesService.v
VesServiceSpec.v
VesServiceCalls.v
