(* ===== verification/Prelude.v ===== *)
(** * MemRpc and the Virus Executor Service

    A model of the C++ sources under src/: the MemRpc framework for remote
    procedure calls over shared memory (src/memrpc), the Virus Executor Service
    built on it (src/virus_executor_service), and the stand-in for the
    platform's system abilities both use on Linux
    (src/third_party/ohos_sa_mock), with the theorems that make them correct.

    ** The program

    A client process and a server process share a memory object with three
    rings: requests of high and of normal priority, and responses.  The server
    creates it ([SessionHost]), the client gets its descriptors through a
    bootstrap channel and attaches ([Session]).  [RpcClient] queues calls,
    pushes them from a submit worker, resolves the futures of its callers from
    a response worker, and recovers from timeouts, idleness and the death of
    the server under a policy of its user.  [RpcServer] drains the rings, runs
    handlers on executors and writes the replies back.  Payloads too large for
    a ring entry travel as files.  On top of that, the service process owns a
    session and a server, answers commands on a Unix socket and publishes
    events; its client finds it through a registry, which a supervisor runs and
    which can start and stop the service.

    ** The files

    Foundations.  [Prelude]: notations, tactics, machine integers, bytes and
    lists.  [Machine]: the state monad of a program with undefined behaviour
    and fuel, and its logic.  [Threads], [Pool]: programs with several threads,
    the logic of one thread, the proof of an invariant of all interleavings
    from proofs about one thread at a time, and executable schedules.

    The framework, src/memrpc.
    - [Types], [ByteCodec]: core/{types,protocol,bootstrap,codec}.h,
      core/byte_reader.cpp, core/byte_writer.cpp.
    - [ShmLayout], [Ring], [Spsc], [Session], [SessionRings]: core/shm_layout.h
      and core/session.cpp; the ring alone, under interleaved producer and
      consumer, and as part of a session.
    - [Credits]: the wake-ups of a producer that waits for room, over both
      processes.
    - [FilePayload]: core/file_payload.cpp.  [EventFd]: core/runtime_utils.h.
    - [Os], [Platform]: the system calls as parameters with their laws.
    - [SessionHost]: bootstrap/shared_memory_session_host.cpp.
    - [ClientState], [ClientRecovery], [ClientCore], [ClientWorkers],
      [ClientConfig]: client/rpc_client.cpp, whose classes are the sections of
      these files; [ClientFutures] to [ClientSpec]: what is proved of it;
      [ClientDemo]: an instance of its parameters.
    - [Executor], [ServerState], [ServerCore], [ServerThreads], [ServerConfig],
      [ServerDemo]: server/rpc_server.cpp in the same way.
    - [TypedCalls]: client/typed_future.h and the typed part of
      client/rpc_client.h.

    The service, src/virus_executor_service and src/third_party/ohos_sa_mock.
    - [VesMessages], [VesRules], [VesHandlers], [VesTyping], [FailureMonitor]:
      messages, sample rules, the scan engine, the test kit's service and its
      failure monitor.
    - [Sockets], [Registry], [Supervisor]: transport/registry_*.cpp and
      app/ves_supervisor_main.cpp.
    - [SystemAbility]: system abilities, remote objects and brokers.
    - [VesControl], [ServiceSocket], [VesProxy], [VesChannel]: the control
      socket on both sides, the proxy with its monitor thread, and the
      bootstrap channel of the client (transport/ves_control_{stub.h,
      proxy.cpp}, mock_service_socket.cpp).
    - [VesClient]: client/ves_client.cpp.
    - [VesService], [VesServiceSpec], [VesServiceCalls]:
      service/ves_session_service.cpp and service/virus_executor_service.cpp.
    - [EndToEnd], [TypedEndToEnd]: client and server composed.

    ** How code becomes definitions

    A struct or class is a record whose fields keep the C++ names behind a
    short prefix; an enum is an inductive type or, where any number may come
    off the wire, a number.  A w-bit integer is a [Z] with its wrap-around
    written out ([u32], [i32], [u64] of this file).  A function without state
    is a function; an operation on an object is a [machine]; an operation that
    takes several locks one after the other, or waits, is a [thread].  Errors
    are the status codes and option values of the code; undefined behaviour is
    the result [Undefined] or [RunUndefined], the end of the process is
    [TAbort].  Log output is left out.

    A step of a thread is what the code does inside one critical section, or
    one access to an atomic variable, to shared memory or to the kernel; a
    [yield] marks each place between two of them where others may run.  The
    rings are also modelled finer, down to single loads and stores, in [Spsc]
    and [Credits].  A mutex that is held across steps is a field of the state
    (the lifecycle of the service, the operations of the proxy, the completion
    queue of the server).

    Code that is not under src/ is a parameter: the kernel's descriptors,
    memory, files, sockets, processes and clock ([Os], [PosixFs],
    [EventFdKernel], [Sockets], [Processes], ...), the callbacks of users, and
    handlers.  What the code relies on are the classes of laws beside them, and
    each has an instance in memory, to which the theorems are applied.

    ** What is shown

    - Rings: pushes and pops refine a bounded queue, also when a producer and a
      consumer interleave access by access, without a slot being written while
      it is read; a session refines three such queues.
    - Codecs and files: what is encoded is decoded, whatever a peer writes
      causes no undefined behaviour and no access outside the payload
      directory, and payload files are removed on every path.
    - Sessions: attaching takes over its descriptors and releases them on every
      failure; at most one client process is attached; opening a session leaks
      nothing.
    - The client, in every interleaving of its operations and threads: no call
      is lost, a reply is final, a closed client has answered every call, the
      published session is the attached one; and the effect of engine death,
      timeouts and transport failures on the calls.
    - The server and both ends together: a request reaches the handler as the
      caller made it, inline or by file, and the reply comes back, up to typed
      calls; when a producer waits for a request credit one will come.
    - The service: an invariant of the process under all interleavings, types
      of all messages, control calls that do what calls over shared memory do,
      heartbeats that report its state, the restart budget of its client, a
      control proxy that never has two monitors or two session sockets, a
      service socket that closes each connection once, a supervisor that
      signals no process but its own children, services that are found where
      they were published.
    - Theorems that exhibit defects: a ring capacity that does not divide 2^32,
      a clean-up that trusts a size the peer wrote, lost wake-ups of the
      response writer and of a producer of responses, a transport failure that
      strands requests, descriptors kept by every opened session, a session
      without a server, an engine that is not started again after it died, a
      stop that waits for a silent client.  They run the model on a concrete
      input or schedule, or show it for all.

    ** Bounds and fuel

    A loop of a thread that ends only when the program stops takes fuel, and
    out of fuel it has no further step: theorems about all interleavings hold
    for every fuel, because they speak of every prefix of a run.  Where a
    result is claimed to be produced, the fuel is computed from the input and
    proved to be enough (the length of a message for the loops over a socket,
    one attempt per twenty milliseconds for loading an ability), or the
    function is total ([ClientTotal] for the recursion of recovery decisions,
    which nests at most twice).  [env_fuel] of [Platform] bounds only how often
    a system call is interrupted.

    ** Assumptions

    One [Init] of a client and one [Start] or [Stop] of a server run at a time
    (the role [ExclusiveRole] of [Pool]); what happens when [Init] overlaps
    [Shutdown] is shown in [ClientDemo].  Callbacks do not call the object that
    calls them.  An operation of the bootstrap channel is one step.  [OnStart]
    of the service is called once, before its other operations.  The memory
    model is sequentially consistent at the granularity of steps.  Some states
    carry a record of what happened that no operation reads: [sv_trace] of the
    server, [px_open], [so_connections] and [so_stray], [wo_signalled],
    [pc_notified].

    ** Not modelled

    Logging (memrpc/src/core/log.cpp).  The main functions of the engine, of
    the demonstration client and of the stress client: they parse arguments,
    print, and call operations that are modelled.  The hook of the tests in
    [CloseSession] of the session service.  Destructors where they only repeat
    a modelled operation ([Stop], [Shutdown], [ResetSocketConnection]), and the
    retention of the proxy by its monitor thread.  The crash handlers of the
    test kit beyond what they return.  Executors supplied by the user, except
    through the interface of [Executor]. *)

From Stdlib Require Import Lia String.
From Stdlib Require Strings.Byte.
From Stdlib Require Export ZArith.
From stdpp Require Export base list gmap strings.
From coqutil Require Import Byte Word.LittleEndianList.

#[global] Open Scope Z_scope.

(** ** Record update

    [r <| proj := v |>] is the record [r] with the field [proj] replaced.  A
    record becomes updatable by giving its eta-expansion as an [Eta]
    instance; the setter of a field is computed from it. *)

Class Eta (R : Type) := eta_expand : R -> R.

Class FieldSetter {R T : Type} (proj : R -> T) := MkFieldSetter { set_field : (T -> T) -> R -> R }.

Arguments set_field {R T} proj {_} _ _ /.

Ltac solve_field_setter :=
  match goal with
  | |- @FieldSetter ?R ?T ?proj =>
      let eta := eval red in (eta_expand (R := R)) in
      let eta := eval hnf in eta in
      match eval pattern proj in eta with
      | ?body _ =>
          let s := eval cbv beta in (fun (f : T -> T) => body (fun r : R => f (proj r))) in
          exact (MkFieldSetter R T proj s)
      end
  end.

#[global] Hint Extern 1 (FieldSetter _) => solve_field_setter : typeclass_instances.

Declare Scope memrpc_scope.
Delimit Scope memrpc_scope with memrpc.

Notation "r <| proj := v |>" := (set_field proj (fun _ => v) r)
  (at level 1, left associativity, proj constr) : memrpc_scope.

#[global] Open Scope memrpc_scope.

(** ** Machine integers

    An unsigned w-bit integer is a [Z] in [0, 2^w); an operation that may
    leave the range is followed by the wrap-around. *)

Definition u8 (z : Z) : Z := z mod 2 ^ 8.
Definition u16 (z : Z) : Z := z mod 2 ^ 16.
Definition u32 (z : Z) : Z := z mod 2 ^ 32.
Definition u64 (z : Z) : Z := z mod 2 ^ 64.
Definition i32 (z : Z) : Z := (z + 2 ^ 31) mod 2 ^ 32 - 2 ^ 31.

Definition is_u32 (z : Z) : Prop := 0 <= z < 2 ^ 32.
Definition is_i32 (z : Z) : Prop := - 2 ^ 31 <= z < 2 ^ 31.

Lemma u32_range z : is_u32 (u32 z).
Proof. unfold is_u32, u32. apply Z.mod_pos_bound. lia. Qed.

Lemma u32_id z : is_u32 z -> u32 z = z.
Proof. unfold is_u32, u32. intros. by apply Z.mod_small. Qed.

Lemma u64_id z : 0 <= z < 2 ^ 64 -> u64 z = z.
Proof. unfold u64. intros. by apply Z.mod_small. Qed.

Lemma i32_u32 z : is_i32 z -> i32 (u32 z) = z.
Proof.
  unfold is_i32, i32, u32. intros Hz.
  rewrite Zplus_mod_idemp_l, Z.mod_small by lia. lia.
Qed.

(** ** Results of operations that C++ leaves undefined on some inputs *)

Inductive defined (A : Type) : Type :=
| Defined (a : A)
| Undefined.
Arguments Defined {A} _.
Arguments Undefined {A}.

(** The result of code with loops that run as long as the environment says:
    it returns, meets undefined behaviour, or is still running when the fuel
    of the model is used up. *)
Inductive run (A : Type) : Type :=
| Returns (a : A)
| RunUndefined
| OutOfFuel.
Arguments Returns {A} _.
Arguments RunUndefined {A}.
Arguments OutOfFuel {A}.

Definition run_bind {A B} (m : run A) (k : A -> run B) : run B :=
  match m with
  | Returns a => k a
  | RunUndefined => RunUndefined
  | OutOfFuel => OutOfFuel
  end.

Notation "'let!' x := m 'in' k" := (run_bind m (fun x => k))
  (at level 10, x pattern, m at level 100, k at level 200,
   format "'[v' 'let!'  x  :=  m  'in' '/' k ']'") : memrpc_scope.

Definition run_of_defined {A} (d : defined A) : run A :=
  match d with Defined a => Returns a | Undefined => RunUndefined end.

(** A pointer argument through which a function returns a value: the model
    returns the value, and keeps the argument only for its null check. *)
Inductive outptr : Type := Null | Ptr.

(** ** Bytes and byte strings *)

Abbreviation byte := Corelib.Init.Byte.byte.
Abbreviation bytes := (list byte).

#[export] Instance byte_eq_dec : EqDecision byte := Byte.byte_eq_dec.

Definition Zlen {A} (l : list A) : Z := Z.of_nat (length l).

Definition to_bytes (s : string) : bytes := list_byte_of_string s.
Definition of_bytes (b : bytes) : string := string_of_list_byte b.

Lemma of_to_bytes s : of_bytes (to_bytes s) = s.
Proof. apply string_of_list_byte_of_string. Qed.

Lemma to_of_bytes b : to_bytes (of_bytes b) = b.
Proof. apply list_byte_of_string_of_list_byte. Qed.

(** An integer object of [n] bytes in memory, on the little-endian targets
    the project supports (x86_64, AArch64). *)
Definition le_bytes (n : nat) (z : Z) : bytes := le_split n z.
Definition le_value (b : bytes) : Z := le_combine b.

Lemma length_le_bytes n z : length (le_bytes n z) = n.
Proof. apply length_le_split. Qed.

Lemma le_value_bytes4 z : le_value (le_bytes 4 z) = u32 z.
Proof. unfold le_value, le_bytes, u32. by rewrite le_combine_split. Qed.

Lemma le_value_bytes2 z : le_value (le_bytes 2 z) = u16 z.
Proof. unfold le_value, le_bytes, u16. by rewrite le_combine_split. Qed.

Lemma le_value_bytes1 z : le_value (le_bytes 1 z) = u8 z.
Proof. unfold le_value, le_bytes, u8. by rewrite le_combine_split. Qed.

Lemma le_value_bytes8 z : le_value (le_bytes 8 z) = u64 z.
Proof. unfold le_value, le_bytes, u64. by rewrite le_combine_split. Qed.

Lemma le_value_nonneg b : 0 <= le_value b.
Proof. apply le_combine_bound. Qed.

Lemma le_value_short b : (length b <= 4)%nat -> is_u32 (le_value b).
Proof.
  intros Hb. unfold is_u32, le_value. pose proof (le_combine_bound b) as H.
  assert (2 ^ (8 * Z.of_nat (length b)) <= 2 ^ 32) by (apply Z.pow_le_mono_r; lia). lia.
Qed.

Lemma le_value_range4 b : length b = 4%nat -> is_u32 (le_value b).
Proof. intros Hb. apply le_value_short. lia. Qed.

#[global] Opaque le_bytes le_value.

(** ** Lists indexed by [Z] *)

Definition Ztake {A} (n : Z) (l : list A) : list A := take (Z.to_nat n) l.
Definition Zdrop {A} (n : Z) (l : list A) : list A := drop (Z.to_nat n) l.

(** [n] elements of [l] from index [off]. *)
Definition Zslice {A} (off n : Z) (l : list A) : list A := Ztake n (Zdrop off l).

Lemma Zlen_nonneg {A} (l : list A) : 0 <= Zlen l.
Proof. unfold Zlen. lia. Qed.

Lemma Zlen_app {A} (l k : list A) : Zlen (l ++ k) = Zlen l + Zlen k.
Proof. unfold Zlen. rewrite length_app. lia. Qed.

Lemma Zlen_nil {A} : Zlen (@nil A) = 0.
Proof. done. Qed.

Lemma Zlen_cons {A} (x : A) l : Zlen (x :: l) = 1 + Zlen l.
Proof. unfold Zlen. simpl. lia. Qed.

Lemma Zlen_le_bytes n z : Zlen (le_bytes n z) = Z.of_nat n.
Proof. unfold Zlen. by rewrite length_le_bytes. Qed.

Lemma Zlen_to_bytes s : Zlen (to_bytes s) = Z.of_nat (String.length s).
Proof.
  unfold Zlen, to_bytes, list_byte_of_string. rewrite length_map.
  induction s as [|c s IH]; [done|]. simpl in *. lia.
Qed.

Lemma Ztake_app_exact {A} (n : Z) (l k : list A) : n = Zlen l -> Ztake n (l ++ k) = l.
Proof. intros ->. unfold Ztake, Zlen. rewrite Nat2Z.id. by rewrite take_app_length. Qed.

Lemma Ztake_all {A} (l : list A) : Ztake (Zlen l) l = l.
Proof. unfold Ztake, Zlen. rewrite Nat2Z.id. apply firstn_all. Qed.

Lemma Zdrop_app_exact {A} (n : Z) (l k : list A) : n = Zlen l -> Zdrop n (l ++ k) = k.
Proof. intros ->. unfold Zdrop, Zlen. rewrite Nat2Z.id. by rewrite drop_app_length. Qed.

(** Reading back the middle part of a concatenation. *)
Lemma Zslice_app_mid {A} (off n : Z) (a b c : list A) :
  off = Zlen a -> n = Zlen b -> Zslice off n (a ++ b ++ c) = b.
Proof. intros. unfold Zslice. rewrite Zdrop_app_exact by done. by rewrite Ztake_app_exact. Qed.

Lemma Zslice_skip {A} (off n : Z) (a b : list A) : Zlen a <= off -> Zslice off n (a ++ b) = Zslice (off - Zlen a) n b.
Proof.
  unfold Zslice, Zdrop, Zlen. intros Ha. rewrite drop_app_ge by lia. do 2 f_equal. lia.
Qed.

Lemma Zslice_head {A} (n : Z) (a b : list A) : n = Zlen a -> Zslice 0 n (a ++ b) = a.
Proof. intros Hn. unfold Zslice, Zdrop. cbn [drop]. by apply Ztake_app_exact. Qed.

Lemma Zslice_whole {A} (n : Z) (a : list A) : n = Zlen a -> Zslice 0 n a = a.
Proof. intros ->. unfold Zslice, Zdrop. cbn [drop]. apply Ztake_all. Qed.

Lemma Zlen_Ztake {A} n (l : list A) : 0 <= n <= Zlen l -> Zlen (Ztake n l) = n.
Proof. unfold Zlen, Ztake. intros. rewrite length_take. lia. Qed.

Lemma Zlen_Zslice {A} off n (l : list A) :
  0 <= off -> 0 <= n -> off + n <= Zlen l -> Zlen (Zslice off n l) = n.
Proof.
  unfold Zslice, Zdrop. intros. rewrite Zlen_Ztake; [done|].
  unfold Zlen in *. rewrite length_drop. lia.
Qed.

Create HintDb memrpc.
Create Rewrite HintDb memrpc.
#[export] Hint Rewrite @Zlen_app @Zlen_nil @Zlen_cons @Zlen_le_bytes
  le_value_bytes4 le_value_bytes2 le_value_bytes1 le_value_bytes8 of_to_bytes to_of_bytes : memrpc.
#[export] Hint Resolve Zlen_nonneg u32_range u32_id u64_id i32_u32 : memrpc.

(** ** Tactics *)

(** Case on the scrutinee of a [match] or [if] of the goal, keeping the
    equation. *)
Ltac case_branch :=
  match goal with
  | |- context [match ?x with _ => _ end] =>
      lazymatch x with
      | context [match _ with _ => _ end] => fail
      | _ => let E := fresh "E" in destruct x eqn:E
      end
  end.

(** Turn boolean tests among the hypotheses into propositions. *)
Ltac bool_to_prop :=
  repeat match goal with
  | H : (_ && _)%bool = true |- _ => apply andb_true_iff in H as [? ?]
  | H : (_ || _)%bool = false |- _ => apply orb_false_iff in H as [? ?]
  | H : negb _ = true |- _ => apply negb_true_iff in H
  | H : negb _ = false |- _ => apply negb_false_iff in H
  | H : (_ =? _) = true |- _ => apply Z.eqb_eq in H
  | H : (_ =? _) = false |- _ => apply Z.eqb_neq in H
  | H : (_ <? _) = true |- _ => apply Z.ltb_lt in H
  | H : (_ <? _) = false |- _ => apply Z.ltb_ge in H
  | H : (_ <=? _) = true |- _ => apply Z.leb_le in H
  | H : (_ <=? _) = false |- _ => apply Z.leb_gt in H
  | H : bool_decide _ = true |- _ => apply bool_decide_eq_true in H
  | H : bool_decide _ = false |- _ => apply bool_decide_eq_false in H
  end.

(** Find the field at an offset of a concatenation whose parts have known
    lengths; [len] rewrites with the lengths. *)
Ltac find_field len :=
  repeat first
    [ rewrite Zslice_head by (len; lia)
    | rewrite Zslice_whole by (len; lia)
    | rewrite Zslice_skip by (len; lia);
      match goal with |- context [Zslice (?o - Zlen ?a) _ _] =>
        let e := fresh in let x := fresh in evar (x : Z);
        assert (e : o - Zlen a = x) by (len; ring_simplify; subst x; reflexivity);
        unfold x in e; rewrite e; clear e x end ].
