(* ===== verification/Machine.v ===== *)
(** * Operations on a state

    The monad the client and the server are written in.  An operation takes
    the state of the program and, when it returns, gives a result and the next
    state; it may also run into undefined behaviour or out of fuel.  [triple]
    is the logic of such operations. *)

From Stdlib Require Import Lia.
From S2P Require Import Prelude.

Declare Scope machine_scope.
Delimit Scope machine_scope with machine.

Definition machine (St A : Type) : Type := St -> run (A * St).

#[export] Instance machine_ret {St} : MRet (machine St) := fun A a s => Returns (a, s).

Section Machine.
Context {St : Type}.

Definition bind {A B} (m : machine St A) (k : A -> machine St B) : machine St B :=
  fun s => let! (a, s) := m s in k a s.

#[local] Notation "x ← y ; z" := (bind y (fun x => z)) : machine_scope.
#[local] Notation "y ;; z" := (bind y (fun _ => z)) : machine_scope.
#[local] Open Scope machine_scope.

Definition gets {A} (f : St -> A) : machine St A := fun s => Returns (f s, s).
Definition modify (f : St -> St) : machine St unit := fun s => Returns (tt, f s).
Definition diverge {A} : machine St A := fun _ => OutOfFuel.
Definition lift_run {A} (r : run A) : machine St A := fun s => let! a := r in Returns (a, s).

Definition when (b : bool) (m : machine St unit) : machine St unit := if b then m else mret tt.

Fixpoint for_each {A} (l : list A) (body : A -> machine St unit) : machine St unit :=
  match l with
  | [] => mret tt
  | a :: l => body a ;; for_each l body
  end.

End Machine.

Notation "x ← y ; z" := (bind y (fun x => z)) : machine_scope.
Notation "' x ← y ; z" := (bind y (fun x => z)) : machine_scope.
Notation "y ;; z" := (bind y (fun _ => z)) : machine_scope.

(** A deadline in ns: [None] is [time_point::max()]. *)
Definition deadline : Type := option Z.

Definition deadline_passed (d : deadline) (now : Z) : bool :=
  match d with None => false | Some t => t <=? now end.

Definition NS_PER_MS : Z := 1000000.

(** ** Reasoning about operations *)

Section Logic.
Context {St : Type}.

(** [triple P m Q]: from a state satisfying [P], what [m] returns satisfies
    [Q].  [preserves I m] is the special case of an invariant. *)
Definition triple {A} (P : St -> Prop) (m : machine St A) (Q : A -> St -> Prop) : Prop :=
  forall c a c', P c -> m c = Returns (a, c') -> Q a c'.

Definition preserves {A} (I : St -> Prop) (m : machine St A) : Prop := triple I m (fun _ => I).

(** [m] never runs into undefined behaviour and does not exhaust its fuel. *)
Definition returns {A} (P : St -> Prop) (m : machine St A) : Prop :=
  forall c, P c -> exists a c', m c = Returns (a, c').

Lemma triple_ret {A} (P : St -> Prop) (a : A) (Q : A -> St -> Prop) :
  (forall c, P c -> Q a c) -> triple P (mret a) Q.
Proof. intros HQ c a' c' Hp [= <- <-]. by apply HQ. Qed.

Lemma triple_bind {A B} (P : St -> Prop) (m : machine St A) (k : A -> machine St B) R Q :
  triple P m R -> (forall a, triple (R a) (k a) Q) -> triple P (bind m k) Q.
Proof.
  intros Hm Hk c b c' Hp. unfold bind. destruct (m c) as [[a c1]| |] eqn:E; [|done..].
  cbn. apply Hk. by eapply Hm.
Qed.

Lemma bind_returns {A B} (m : machine St A) (k : A -> machine St B) c r :
  bind m k c = Returns r -> exists a c1, m c = Returns (a, c1) /\ k a c1 = Returns r.
Proof. unfold bind. destruct (m c) as [[a c1]| |]; [|done..]. eauto. Qed.

Lemma triple_gets {A} (P : St -> Prop) (f : St -> A) (Q : A -> St -> Prop) :
  (forall c, P c -> Q (f c) c) -> triple P (gets f) Q.
Proof. intros HQ c a c' Hp [= <- <-]. by apply HQ. Qed.

Lemma triple_modify (P : St -> Prop) f (Q : unit -> St -> Prop) :
  (forall c, P c -> Q tt (f c)) -> triple P (modify f) Q.
Proof. intros HQ c [] c' Hp [= <-]. by apply HQ. Qed.

Lemma triple_weaken {A} (P P' : St -> Prop) (m : machine St A) (Q Q' : A -> St -> Prop) :
  triple P' m Q' -> (forall c, P c -> P' c) -> (forall a c, Q' a c -> Q a c) -> triple P m Q.
Proof. intros Hm HP HQ c a c' Hp Hr. apply HQ. eapply Hm; [by apply HP|done]. Qed.

Lemma preserves_ret {A} I (a : A) : preserves I (mret a).
Proof. by apply triple_ret. Qed.

Lemma preserves_bind {A B} I (m : machine St A) (k : A -> machine St B) :
  preserves I m -> (forall a, preserves I (k a)) -> preserves I (bind m k).
Proof. intros Hm Hk. eapply triple_bind; [exact Hm|exact Hk]. Qed.

Lemma preserves_gets {A} I (f : St -> A) : preserves I (gets f).
Proof. by apply triple_gets. Qed.

Lemma preserves_gets_bind {A B} (I : St -> Prop) (f : St -> A) (k : A -> machine St B) Q :
  (forall c, triple (fun c' => c' = c /\ I c) (k (f c)) Q) -> triple I (bind (gets f) k) Q.
Proof. intros Hk c b c' Hi Hr. eapply (Hk c); [by split|exact Hr]. Qed.

Lemma preserves_modify (I : St -> Prop) f : (forall c, I c -> I (f c)) -> preserves I (modify f).
Proof. intros Hf. by apply triple_modify. Qed.

Lemma preserves_diverge {A} I : preserves I (@diverge St A).
Proof. by intros c a c' _. Qed.

Lemma preserves_lift {A} I (r : run A) : preserves I (lift_run r).
Proof. intros c a c' Hi. unfold lift_run. destruct r; [|done..]. by intros [= <- <-]. Qed.

Lemma preserves_when I b m : preserves I m -> preserves I (when b m).
Proof. destruct b; [done|]. intros _. apply preserves_ret. Qed.

Lemma preserves_for_each {A} I (l : list A) body :
  (forall a, preserves I (body a)) -> preserves I (for_each l body).
Proof.
  intros Hb. induction l as [|a l IH]; [apply preserves_ret|]. cbn. apply preserves_bind; [apply Hb|done].
Qed.

Lemma preserves_if {A} I (b : bool) (m1 m2 : machine St A) :
  preserves I m1 -> preserves I m2 -> preserves I (if b then m1 else m2).
Proof. by destruct b. Qed.

End Logic.

(** Forward reasoning: split a run of [bind] at its first operation. *)
Tactic Notation "step" hyp(H) "as" simple_intropattern(a) simple_intropattern(c) simple_intropattern(E) :=
  apply bind_returns in H as (a & c & E & H).
