(* ===== verification/Threads.v ===== *)
(** * Threads

    What a thread of a program does is a sequence of steps.  A step is an
    operation on the program's state ([Machine.machine]) and contains at most
    one critical section; between two steps, and while the thread waits, other
    threads run.  [twp] is the logic the invariants are proved with: one thread
    at a time, with assertions that the steps of the others keep. *)

From Stdlib Require Import Lia.
From S2P Require Import Prelude Machine.

Declare Scope thread_scope.

(** The steady clock of a state, in ns. *)
Class Clock (St : Type) := clock : St -> Z.

Section Thread.
Context {St W : Type}.

(** A thread has returned, makes a step, waits until [cond] holds or [d] has
    passed, starts a background thread, or has ended the process
    ([std::terminate]). *)
Inductive thread (A : Type) : Type :=
| TRet (a : A)
| TAtom {X : Type} (m : machine St X) (k : X -> thread A)
| TPause (d : deadline) (cond : St -> bool) (k : thread A)
| TSpawn (w : W) (k : thread A)
| TAbort.
#[global] Arguments TRet {A} _.
#[global] Arguments TAtom {A X} _ _.
#[global] Arguments TPause {A} _ _ _.
#[global] Arguments TSpawn {A} _ _.
#[global] Arguments TAbort {A}.

#[export] Instance thread_ret : MRet thread := fun A a => TRet a.

Fixpoint tbind {A B} (t : thread A) (k : A -> thread B) : thread B :=
  match t with
  | TRet a => k a
  | TAtom m k' => TAtom m (fun x => tbind (k' x) k)
  | TPause d cond t => TPause d cond (tbind t k)
  | TSpawn w t => TSpawn w (tbind t k)
  | TAbort => TAbort
  end.

Definition atomic {A} (m : machine St A) : thread A := TAtom m TRet.

(** Between two critical sections the others may run. *)
Definition yield : thread unit := TPause None (fun _ => true) (TRet tt).

Definition spawn (w : W) : thread unit := TSpawn w (TRet tt).

(** The fuel of a loop is exhausted. *)
Definition tdiverge {A} : thread A := atomic diverge.

Context `{Clock St}.

Definition awake (d : deadline) (cond : St -> bool) (c : St) : bool :=
  cond c || deadline_passed d (clock c).

(** Where a thread that runs stops. *)
Inductive stop (A : Type) : Type :=
| AtEnd (a : A)
| AtPause (d : deadline) (cond : St -> bool) (k : thread A)
| AtSpawn (w : W) (k : thread A)
| AtAbort.
#[global] Arguments AtEnd {A} _.
#[global] Arguments AtPause {A} _ _ _.
#[global] Arguments AtSpawn {A} _ _.
#[global] Arguments AtAbort {A}.

Fixpoint advance {A} (t : thread A) (c : St) : run (stop A * St) :=
  match t with
  | TRet a => Returns (AtEnd a, c)
  | TAtom m k => let! (x, c) := m c in advance (k x) c
  | TPause d cond k => Returns (AtPause d cond k, c)
  | TSpawn w k => Returns (AtSpawn w k, c)
  | TAbort => Returns (AtAbort, c)
  end.

(** One run of a thread that may be waiting. *)
Definition resume {A} (t : thread A) (c : St) : run (stop A * St) :=
  match t with
  | TPause d cond k => if awake d cond c then advance k c else Returns (AtPause d cond k, c)
  | _ => advance t c
  end.

(** A thread that no other thread interrupts; a wait with a deadline lasts
    until then, one without must not last, and no background thread is
    started. *)
Fixpoint alone {A} (t : thread A) : machine St A :=
  match t with
  | TRet a => mret a
  | TAtom m k => bind m (fun x => alone (k x))
  | TPause d cond k => fun c => if cond c || bool_decide (is_Some d) then alone k c else OutOfFuel
  | TSpawn w k => diverge
  | TAbort => diverge
  end.

Fixpoint tfor_each {A} (l : list A) (body : A -> thread unit) : thread unit :=
  match l with
  | [] => TRet tt
  | a :: l => tbind (body a) (fun _ => tfor_each l body)
  end.

(** [condition_variable::wait] and [wait_until] with a predicate, tested
    before waiting and after waking up. *)
Definition cv_wait (pred : St -> bool) : thread unit :=
  TAtom (gets pred) (fun ready => if ready : bool then TRet tt else TPause None pred (TRet tt)).

Definition cv_wait_until (wakeAt : deadline) (pred : St -> bool) : thread bool :=
  TAtom (gets pred) (fun ready =>
    if ready : bool then TRet true else TPause wakeAt pred (atomic (gets pred))).

End Thread.

Arguments thread St W A : clear implicits.
#[warnings="-uniform-inheritance"] Coercion atomic : machine >-> thread.

Notation "x ← y ; z" := (tbind y (fun x => z)) : thread_scope.
Notation "' x ← y ; z" := (tbind y (fun x => z)) : thread_scope.
Notation "y ;; z" := (tbind y (fun _ => z)) : thread_scope.

(** ** Threads that run alone *)

Section Alone.
Context {St W : Type} `{Clock St}.

Lemma alone_bind {A B} (t : thread St W A) (k : A -> thread St W B) c :
  alone (tbind t k) c = bind (alone t) (fun a => alone (k a)) c.
Proof.
  revert c. induction t as [a|X m k' IH|d cond t IH|w t IH|]; intros c; cbn.
  - done.
  - unfold bind. destruct (m c) as [[x c1]| |]; [|done..]. cbn. apply IH.
  - unfold bind. destruct (_ || _); [apply IH|done].
  - done.
  - done.
Qed.

Lemma alone_yield {B} (t : thread St W B) c : alone (tbind yield (fun _ => t)) c = alone t c.
Proof. done. Qed.

Lemma alone_atomic {A B} (m : machine St A) (k : A -> thread St W B) c :
  alone (tbind (atomic m) k) c = bind m (fun a => alone (k a)) c.
Proof. done. Qed.

Lemma alone_gets {A B} (f : St -> A) (k : A -> thread St W B) c :
  alone (tbind (atomic (gets f)) k) c = alone (k (f c)) c.
Proof. done. Qed.

Lemma alone_modify {B} (f : St -> St) (k : unit -> thread St W B) c :
  alone (tbind (atomic (modify f)) k) c = alone (k tt) (f c).
Proof. done. Qed.

Lemma alone_pause {B} d (cond : St -> bool) (k : unit -> thread St W B) c :
  cond c = true -> alone (tbind (TPause d cond (mret tt)) k) c = alone (k tt) c.
Proof. intros Hc. cbn [tbind alone]. by rewrite Hc. Qed.

Lemma alone_returns {A B} (t : thread St W A) (k : A -> thread St W B) c a c' :
  alone t c = Returns (a, c') -> alone (tbind t k) c = alone (k a) c'.
Proof. intros Ht. rewrite alone_bind. unfold bind. by rewrite Ht. Qed.

Lemma for_each_ext {A} (l : list A) (m m' : A -> machine St unit) c :
  (forall a c, m a c = m' a c) -> for_each l m c = for_each l m' c.
Proof.
  intros He. revert c. induction l as [|a l IH]; intros c; [done|]. cbn. unfold bind. rewrite He.
  destruct (m' a c) as [[[] c1]| |]; [|done..]. apply IH.
Qed.

Lemma alone_for_each {A} (l : list A) (t : A -> thread St W unit) (m : A -> machine St unit) c :
  (forall a c, alone (t a) c = m a c) -> alone (tfor_each l t) c = for_each l m c.
Proof.
  intros He. revert c. induction l as [|a l IH]; intros c; [done|]. cbn [tfor_each for_each].
  rewrite alone_bind. unfold bind. rewrite He. destruct (m a c) as [[[] c1]| |]; [|done..]. apply IH.
Qed.

Lemma bind_ext {A B} (m : machine St A) (k k' : A -> machine St B) c :
  (forall a c, k a c = k' a c) -> bind m k c = bind m k' c.
Proof. intros He. unfold bind. destruct (m c) as [[a c1]| |]; [|done..]. apply He. Qed.

(** A thread that, whatever the state, runs to its end alone with a result
    that satisfies [Q]. *)
Fixpoint always {A} (t : thread St W A) (Q : A -> Prop) : Prop :=
  match t with
  | TRet a => Q a
  | TAtom m k => forall c, exists x c', m c = Returns (x, c') /\ always (k x) Q
  | TPause d cond k => (forall c, cond c || bool_decide (is_Some d) = true) /\ always k Q
  | TSpawn _ _ | TAbort => False
  end.

Lemma always_alone {A} (t : thread St W A) Q c : always t Q -> exists a c', alone t c = Returns (a, c') /\ Q a.
Proof.
  revert c. induction t as [a|X m k IH|d cond t IH|w t IH|]; intros c; cbn; [|..|done|done].
  - by exists a, c.
  - intros Hm. destruct (Hm c) as (x & c1 & Hx & Hk). unfold bind. rewrite Hx. by apply IH.
  - intros [Hc Ht]. rewrite Hc. by apply IH.
Qed.

End Alone.

(** ** The logic of threads *)

(** Whether a thread may end the process.  It may unless a proof chooses the
    other policy, which makes every [TAbort] unreachable. *)
Class AbortPolicy : Type := may_abort : Prop.

#[export] Instance aborts_allowed : AbortPolicy | 100 := True.

Definition aborts_refused : AbortPolicy := False.

Section Logic.
Context {St W : Type} `{Clock St} {AP : AbortPolicy}.

(** An assertion speaks about the client and about a frame: what the other
    threads rely on.  [rest l] are the assertions a thread may hold while it
    pauses. *)
Context {F L : Type}.
Definition assertion : Type := F -> St -> Prop.
Variable rest : L -> assertion.

Definition holds {A} (P : assertion) (m : machine St A) (Q : A -> assertion) : Prop :=
  forall fr, triple (P fr) m (fun a => Q a fr).

Fixpoint twp {A} (P : assertion) (t : thread St W A) (Q : A -> assertion) : Prop :=
  match t with
  | TRet a => forall fr c, P fr c -> Q a fr c
  | TAtom m k => exists R, holds P m R /\ forall x, twp (R x) (k x) Q
  | TPause d cond k =>
      exists l, (forall fr c, P fr c -> rest l fr c) /\
                twp (fun fr c => rest l fr c /\ awake d cond c = true) k Q
  | TSpawn w k => exists l, (forall fr c, P fr c -> rest l fr c) /\ twp (rest l) k Q
  | TAbort => forall fr c, P fr c -> may_abort
  end.

Lemma twp_weaken {A} (P P' : assertion) (t : thread St W A) (Q Q' : A -> assertion) :
  (forall fr c, P' fr c -> P fr c) -> (forall a fr c, Q a fr c -> Q' a fr c) -> twp P t Q -> twp P' t Q'.
Proof.
  intros HP HQ. revert P P' HP. induction t as [a|X m k IH|d cond k IH|w k IH|]; intros P P' HP; cbn.
  - intros Hr fr c Hc. auto.
  - intros (R & Hm & Hk). exists R. split; [|intros x; by eapply IH; [|apply Hk]].
    intros fr c x c' Hc. apply Hm. auto.
  - intros (l & Hl & Hk). exists l. split; [auto|]. by eapply IH; [|exact Hk].
  - intros (l & Hl & Hk). exists l. split; [auto|]. by eapply IH; [|exact Hk].
  - eauto.
Qed.

Lemma twp_pre {A} (P P' : assertion) (t : thread St W A) Q :
  (forall fr c, P' fr c -> P fr c) -> twp P t Q -> twp P' t Q.
Proof. intros HP. by apply twp_weaken. Qed.

Lemma twp_post {A} (P : assertion) (t : thread St W A) (Q Q' : A -> assertion) :
  (forall a fr c, Q a fr c -> Q' a fr c) -> twp P t Q -> twp P t Q'.
Proof. intros HQ. by apply twp_weaken. Qed.

Lemma twp_bind {A B} (P : assertion) (t : thread St W A) (k : A -> thread St W B) R Q :
  twp P t R -> (forall a, twp (R a) (k a) Q) -> twp P (tbind t k) Q.
Proof.
  intros Ht Hk. revert P Ht. induction t as [a|X m k' IH|d cond t IH|w t IH|]; intros P; cbn.
  - intros Hr. eapply twp_weaken; [exact Hr|done|apply Hk].
  - intros (R' & Hm & Ht). exists R'. split; [done|]. intros x. by apply IH.
  - intros (l & Hl & Ht). exists l. split; [done|]. by apply IH.
  - intros (l & Hl & Ht). exists l. split; [done|]. by apply IH.
  - done.
Qed.

Lemma twp_ret {A} (P : assertion) (a : A) (Q : A -> assertion) :
  (forall fr c, P fr c -> Q a fr c) -> twp P (mret a) Q.
Proof. done. Qed.

Lemma twp_atomic {A} (P : assertion) (m : machine St A) (Q : A -> assertion) : holds P m Q -> twp P (atomic m) Q.
Proof. intros Hm. exists Q. split; [done|]. intros x. by cbn. Qed.

(** Nothing is said about a loop whose fuel is exhausted. *)
Lemma twp_diverge {A} (P : assertion) (Q : A -> assertion) : twp P tdiverge Q.
Proof. apply twp_atomic. by intros fr c a c' _. Qed.

Lemma twp_yield l : twp (rest l) yield (fun _ => rest l).
Proof. exists l. split; [done|]. by intros fr c [? _]. Qed.

Lemma twp_spawn l w : twp (rest l) (spawn w) (fun _ => rest l).
Proof. exists l. split; [done|]. by cbn. Qed.

Lemma twp_cv_wait l pred : twp (rest l) (cv_wait pred) (fun _ fr c => rest l fr c /\ pred c = true).
Proof.
  exists (fun ready fr c => rest l fr c /\ pred c = ready). split; [by intros fr c b c' Hc [= <- <-]|].
  intros [|]; cbn; [done|]. exists l. split; [by intros fr c []|].
  intros fr c [Hc Hw]. split; [done|]. unfold awake in Hw. cbn in Hw. by rewrite orb_false_r in Hw.
Qed.

Lemma twp_cv_wait_until l d pred :
  twp (rest l) (cv_wait_until d pred) (fun ready fr c => rest l fr c /\ pred c = ready).
Proof.
  exists (fun ready fr c => rest l fr c /\ pred c = ready). split; [by intros fr c b c' Hc [= <- <-]|].
  intros [|]; cbn [twp]; [done|]. exists l. split; [by intros fr c []|].
  apply twp_atomic. by intros fr c b c' [Hc _] [= <- <-].
Qed.

(** A thread that keeps the assertion it starts with. *)
Definition stays (l : L) {A} (t : thread St W A) : Prop := twp (rest l) t (fun _ => rest l).

Lemma twp_abort {A} (P : assertion) (Q : A -> assertion) : may_abort -> twp P TAbort Q.
Proof. by intros Hm fr c _. Qed.

Lemma stays_ret l {A} (a : A) : stays l (mret a).
Proof. by apply twp_ret. Qed.

Lemma stays_bind l {A B} (t : thread St W A) (k : A -> thread St W B) :
  stays l t -> (forall a, stays l (k a)) -> stays l (tbind t k).
Proof. intros Ht Hk. eapply twp_bind; [exact Ht|exact Hk]. Qed.

(** The same in front of a thread that does more. *)
Lemma stays_then l {A B} (t : thread St W A) (k : A -> thread St W B) Q :
  stays l t -> (forall a, twp (rest l) (k a) Q) -> twp (rest l) (tbind t k) Q.
Proof. intros Ht Hk. eapply twp_bind; [exact Ht|exact Hk]. Qed.

Lemma stays_end l {A} (t : thread St W A) : stays l t -> twp (rest l) t (fun _ => rest l).
Proof. done. Qed.

Lemma stays_atomic l {A} (m : machine St A) : (forall fr, preserves (rest l fr) m) -> stays l (atomic m).
Proof. intros Hm. by apply twp_atomic. Qed.

Lemma stays_yield l : stays l yield.
Proof. apply twp_yield. Qed.

Lemma stays_spawn l w : stays l (spawn w).
Proof. apply twp_spawn. Qed.

Lemma stays_diverge l {A} : stays l (@tdiverge St W A).
Proof. apply twp_diverge. Qed.

Lemma stays_pause l d cond {A} (t : thread St W A) : stays l t -> stays l (TPause d cond t).
Proof. intros Ht. exists l. split; [done|]. eapply twp_weaken; [| |exact Ht]; [by intros fr c []|done]. Qed.

Lemma stays_cv_wait l pred : stays l (cv_wait pred).
Proof. eapply twp_weaken; [| |apply (twp_cv_wait l)]; [done|]. by intros a fr c []. Qed.

Lemma stays_cv_wait_until l d pred : stays l (cv_wait_until d pred).
Proof. eapply twp_weaken; [| |apply (twp_cv_wait_until l)]; [done|]. by intros a fr c []. Qed.

Lemma stays_for_each l {A} (xs : list A) body : (forall a, stays l (body a)) -> stays l (tfor_each xs body).
Proof. intros Hb. induction xs as [|x xs IH]; cbn [tfor_each]; [apply (stays_ret l tt)|]. apply stays_bind; [apply Hb|]. intros _. exact IH. Qed.

(** A step, remembered: what is known afterwards is what was known before and
    what the step has done. *)
Lemma twp_step {A B} (P : assertion) (m : machine St A) (k : A -> thread St W B) Q :
  (forall a, twp (fun fr c' => exists c, P fr c /\ m c = Returns (a, c')) (k a) Q) -> twp P (tbind (atomic m) k) Q.
Proof. intros Hk. eexists. split; [|exact Hk]. intros fr c a c' Hc Hm. by exists c. Qed.

Lemma twp_gets {A B} (P : assertion) (f : St -> A) (k : A -> thread St W B) Q :
  (forall a, twp (fun fr c => P fr c /\ f c = a) (k a) Q) -> twp P (tbind (atomic (gets f)) k) Q.
Proof. intros Hk. eexists. split; [|exact Hk]. by intros fr c a c' Hc [= <- <-]. Qed.

Lemma twp_modify {B} (P : assertion) (f : St -> St) (k : unit -> thread St W B) Q :
  twp (fun fr c' => exists c, P fr c /\ c' = f c) (k tt) Q -> twp P (tbind (atomic (modify f)) k) Q.
Proof.
  intros Hk. exists (fun _ fr c' => exists c, P fr c /\ c' = f c). split; [|by intros []].
  intros fr c a c' Hc [= _ <-]. by exists c.
Qed.

Lemma twp_modify_end (P : assertion) (f : St -> St) (Q : unit -> assertion) :
  (forall fr c, P fr c -> Q tt fr (f c)) -> twp P (atomic (modify f)) Q.
Proof. intros HQ. apply twp_atomic. intros fr c [] c' Hc [= <-]. auto. Qed.

(** Running a thread up to where it stops. *)
Lemma advance_sound {A} (P : assertion) (t : thread St W A) Q fr c s c' :
  twp P t Q -> P fr c -> advance t c = Returns (s, c') ->
  match s with
  | AtEnd a => Q a fr c'
  | AtPause d cond k => exists l, rest l fr c' /\ twp (rest l) (TPause d cond k) Q
  | AtSpawn w k => exists l, rest l fr c' /\ twp (rest l) k Q
  | AtAbort => may_abort
  end.
Proof.
  revert P c. induction t as [a|X m k IH|d cond k IH|w k IH|]; intros P c; cbn.
  - intros Hr Hc [= <- <-]. by apply Hr.
  - intros (R & Hm & Hk) Hc. destruct (m c) as [[x c1]| |] eqn:E; [|done..]. cbn. intros Hr.
    eapply IH; [apply Hk|by eapply Hm|exact Hr].
  - intros (l & Hl & Hk) Hc [= <- <-]. exists l. split; [by apply Hl|]. by exists l.
  - intros (l & Hl & Hk) Hc [= <- <-]. exists l. split; [by apply Hl|done].
  - intros Ha Hc [= <- <-]. by eapply Ha.
Qed.

Lemma resume_sound {A} l (t : thread St W A) Q fr c s c' :
  twp (rest l) t Q -> rest l fr c -> resume t c = Returns (s, c') ->
  match s with
  | AtEnd a => Q a fr c'
  | AtPause d cond k => exists l, rest l fr c' /\ twp (rest l) (TPause d cond k) Q
  | AtSpawn w k => exists l, rest l fr c' /\ twp (rest l) k Q
  | AtAbort => may_abort
  end.
Proof.
  intros Ht Hc. destruct t as [a|X m k|d cond k|w k|]; try by apply (advance_sound (rest l)).
  cbn. destruct Ht as (l' & Hl & Hk). destruct (awake d cond c) eqn:E.
  - apply (advance_sound _ _ _ _ _ _ _ Hk). split; [by apply Hl|done].
  - intros [= <- <-]. exists l'. split; [by apply Hl|]. by exists l'.
Qed.

End Logic.

(** ** Threads of a part of the program

    [get] is the state of the part, [set] replaces it, and [worker] names its
    background threads. *)
Section Zoom.
Context {St St' W W' : Type} (get : St' -> St) (set : St -> St' -> St') (worker : W -> W').

Definition focus {A} (m : machine St A) : machine St' A := fun e => let! (a, s) := m (get e) in Returns (a, set s e).

Fixpoint zoom {A} (t : thread St W A) : thread St' W' A :=
  match t with
  | TRet a => TRet a
  | TAtom m k => TAtom (focus m) (fun x => zoom (k x))
  | TPause d cond k => TPause d (fun e => cond (get e)) (zoom k)
  | TSpawn w k => TSpawn (worker w) (zoom k)
  | TAbort => TAbort
  end.

(** What holds whatever the state of the part is kept by its threads. *)
Lemma stays_zoom `{Clock St'} {AP : AbortPolicy} {F L : Type} (rest : L -> @assertion St' F) l {A} (t : thread St W A) :
  may_abort -> (forall fr e s, rest l fr e -> rest l fr (set s e)) -> stays rest l (zoom t).
Proof.
  intros Hma Hset. unfold stays. induction t as [a|X m k IH|d cond k IH|w k IH|]; cbn [zoom twp]; [done| | | |done].
  - exists (fun _ => rest l). split; [|exact IH]. intros fr e x e' He. unfold focus.
    destruct (m (get e)) as [[y s]| |]; [|done..]. intros [= <- <-]. by apply Hset.
  - exists l. split; [done|]. eapply twp_pre; [|exact IH]. by intros fr e [].
  - exists l. by split.
Qed.

Lemma always_zoom {A} (t : thread St W A) Q : always t Q -> always (zoom t) Q.
Proof.
  induction t as [a|X m k IH|d cond k IH|w k IH|]; cbn; [done| | |done|done].
  - intros Hm e. destruct (Hm (get e)) as (x & s & Hx & Hk). exists x, (set s e). unfold focus. rewrite Hx. auto.
  - intros [Hc Ht]. auto.
Qed.

End Zoom.

(** Walk through a thread that keeps its assertion; [base] deals with steps. *)
Ltac stays_step base :=
  lazymatch goal with
  | |- forall _, _ => intros ?
  | |- stays _ _ (tbind _ _) => apply stays_bind
  | |- stays _ _ (tfor_each _ _) => apply stays_for_each
  | |- stays _ _ (match ?x with _ => _ end) => destruct x
  | |- stays _ _ (mret _) => apply stays_ret
  | |- stays _ _ yield => apply stays_yield
  | |- stays _ _ (spawn _) => apply stays_spawn
  | |- stays _ _ tdiverge => apply stays_diverge
  | |- stays _ _ TAbort => apply twp_abort; exact I
  | |- stays _ _ (TPause _ _ _) => apply stays_pause
  | |- stays _ _ (cv_wait _) => apply stays_cv_wait
  | |- stays _ _ (cv_wait_until _ _) => apply stays_cv_wait_until
  | |- stays _ _ (atomic _) => solve [auto with threads nocore | base]
  | |- stays _ _ _ => solve [auto with threads nocore]
  end.
Create HintDb threads.

(** The first part of a thread, then the rest for any result. *)
Tactic Notation "tw" tactic3(tac) "as" simple_intropattern(x) := eapply twp_bind; [tac|intros x; cbn beta].
Tactic Notation "tw" tactic3(tac) := tw tac as ?.
