(* ===== verification/Pool.v ===== *)
(** * Programs with several threads

    A configuration is the state of a program with its threads: operations in
    progress, called from any number of threads, and the background threads
    they have started.  [step] interleaves them.  [Invariant] is what a proof
    about all interleavings consists of, one thread at a time. *)

From Stdlib Require Import Lia.
From S2P Require Import Prelude Machine Threads.

(** An operation of the exclusive role is not called while another one of that
    role is in progress. *)
Inductive role : Type := ExclusiveRole | SharedRole.

#[export] Instance role_eq_dec : EqDecision role.
Proof. solve_decision. Defined.

(** What a program consists of: the operations called from outside, those
    among them that are a single step and return a handle, the background
    threads with a bound on their loops, what the environment does between the
    steps, and the initial states. *)
Class System (St W : Type) `{Clock St} : Type := {
  sys_op : Type;
  sys_op_role : sys_op -> role;
  sys_perform : sys_op -> thread St W unit;
  sys_call : Type;
  sys_invoke : sys_call -> machine St nat;
  sys_run_worker : nat -> W -> thread St W unit;
  sys_environment : St -> St -> Prop;
  sys_tick : nat -> St -> St;
  sys_tick_environment n s : sys_environment s (sys_tick n s);
  sys_initial : St -> Prop;
}.

Record running (St W : Type) : Type := { th_role : role; th_code : thread St W unit }.
Arguments th_role {St W} _.
Arguments th_code {St W} _.
Arguments Build_running {St W} _ _.

(** [cf_calls]: the handles returned so far. *)
Record config (St W : Type) : Type := {
  cf_state : St;
  cf_pool : list (running St W);
  cf_calls : list nat;
}.
Arguments cf_state {St W} _.
Arguments cf_pool {St W} _.
Arguments cf_calls {St W} _.
Arguments Build_config {St W} _ _ _.

Section Config.
Context `{System St W}.

(** What becomes of a thread that stopped, and of one it started. *)
Inductive continues (th : running St W) : stop unit -> list (running St W) -> list (running St W) -> Prop :=
| cont_end : continues th (AtEnd tt) [] []
| cont_pause d cond k :
    continues th (AtPause d cond k) [{| th_role := th_role th; th_code := TPause d cond k |}] []
| cont_spawn w k fuel :
    continues th (AtSpawn w k) [{| th_role := th_role th; th_code := k |}]
      [{| th_role := SharedRole; th_code := sys_run_worker fuel w |}].

Inductive step : config St W -> config St W -> Prop :=
| step_call c pool calls op :
    (sys_op_role op = ExclusiveRole -> Forall (fun th => th_role th = SharedRole) pool) ->
    step {| cf_state := c; cf_pool := pool; cf_calls := calls |}
         {| cf_state := c; cf_pool := pool ++ [{| th_role := sys_op_role op; th_code := sys_perform op |}];
            cf_calls := calls |}
| step_invoke c pool calls call f c' :
    sys_invoke call c = Returns (f, c') ->
    step {| cf_state := c; cf_pool := pool; cf_calls := calls |}
         {| cf_state := c'; cf_pool := pool; cf_calls := f :: calls |}
| step_run c pool1 th pool2 calls s c' now new :
    resume (th_code th) c = Returns (s, c') -> continues th s now new ->
    step {| cf_state := c; cf_pool := pool1 ++ th :: pool2; cf_calls := calls |}
         {| cf_state := c'; cf_pool := (pool1 ++ now ++ pool2) ++ new; cf_calls := calls |}
| step_environment c pool calls c' :
    sys_environment c c' ->
    step {| cf_state := c; cf_pool := pool; cf_calls := calls |}
         {| cf_state := c'; cf_pool := pool; cf_calls := calls |}.

Definition reachable (cfg : config St W) : Prop :=
  exists s0, sys_initial s0 /\ rtc step {| cf_state := s0; cf_pool := []; cf_calls := [] |} cfg.

(** A thread is about to end the process. *)
Definition crashes (cfg : config St W) : Prop :=
  exists th c', th ∈ cf_pool cfg /\ resume (th_code th) (cf_state cfg) = Returns (AtAbort, c').

(** A thread waits for a condition that does not hold, or for its deadline. *)
Definition blocked (s : St) (th : running St W) : bool :=
  match th_code th with
  | TPause d cond _ => negb (awake d cond s)
  | _ => false
  end.

(** Time passes and nothing else happens. *)
Definition later (n : nat) (cfg : config St W) : config St W :=
  {| cf_state := sys_tick n (cf_state cfg); cf_pool := cf_pool cfg; cf_calls := cf_calls cfg |}.

End Config.

(** ** Proofs about all interleavings

    [rest r l] is what a thread of role [r] knows while it pauses, [Global]
    what all threads together know, [idle] what a thread knows at its start
    and at its end. *)
Class Invariant `{System St W} {AP : AbortPolicy} {F L : Type} (rest : role -> L -> @assertion St F) (idle : L)
    (compat : list nat -> role -> list (role * L) -> list (role * L) -> F -> Prop)
    (Global : list nat -> list (role * L) -> St -> Prop) : Prop := {
  inv_split calls l1 r l l2 c :
    Global calls (l1 ++ (r, l) :: l2) c <-> exists fr, compat calls r l1 l2 fr /\ rest r l fr c;
  inv_new calls ls r c :
    (r = ExclusiveRole -> Forall (fun l => l.1 = SharedRole) ls) -> Global calls ls c -> Global calls (ls ++ [(r, idle)]) c;
  inv_drop calls l1 r l2 c : Global calls (l1 ++ (r, idle) :: l2) c -> Global calls (l1 ++ l2) c;
  inv_ops op : stays (rest (sys_op_role op)) idle (sys_perform op);
  inv_workers fuel w : stays (rest SharedRole) idle (sys_run_worker fuel w);
  inv_environment calls ls c c' : sys_environment c c' -> Global calls ls c -> Global calls ls c';
  inv_calls calls ls call c f c' :
    sys_invoke call c = Returns (f, c') -> Global calls ls c -> Global (f :: calls) ls c';
}.

Section Soundness.
Context `{System St W} {AP : AbortPolicy} {F L : Type} (rest : role -> L -> @assertion St F) (idle : L).
Context (compat : list nat -> role -> list (role * L) -> list (role * L) -> F -> Prop).
Context (Global : list nat -> list (role * L) -> St -> Prop).
Context {Inv : Invariant rest idle compat Global}.

Definition thread_ok (th : running St W) (l : role * L) : Prop :=
  th_role th = l.1 /\ twp (rest l.1) (rest l.1 l.2) (th_code th) (fun _ => rest l.1 idle).

Definition config_ok (cfg : config St W) : Prop :=
  exists ls, Forall2 thread_ok (cf_pool cfg) ls /\ Global (cf_calls cfg) ls (cf_state cfg).

Lemma pool_roles pool ls : Forall2 thread_ok pool ls ->
  Forall (fun th => th_role th = SharedRole) pool -> Forall (fun l => l.1 = SharedRole) ls.
Proof. induction 1 as [|th l pool ls [Hr _] _ IH]; intros Hp; [done|]. apply Forall_cons in Hp as [? ?]. constructor; [congruence|auto]. Qed.

Lemma run_ok pool1 th pool2 calls c s c' now new :
  config_ok {| cf_state := c; cf_pool := pool1 ++ th :: pool2; cf_calls := calls |} ->
  resume (th_code th) c = Returns (s, c') -> continues th s now new ->
  config_ok {| cf_state := c'; cf_pool := (pool1 ++ now ++ pool2) ++ new; cf_calls := calls |}.
Proof.
  intros (ls & Hp & Hg) Hr Hc. cbn in Hp, Hg.
  apply Forall2_app_inv_l in Hp as (l1 & ls' & H1 & Hp & ->).
  apply Forall2_cons_inv_l in Hp as ([r l] & l2 & [Hrole Ht] & H2 & ->). cbn in Hrole, Ht.
  apply inv_split in Hg as (fr & Hfr & Hl).
  pose proof (resume_sound (rest r) l (th_code th) _ fr c s c' Ht Hl Hr) as Hs.
  assert (Hpool : forall l' code, twp (rest r) (rest r l') code (fun _ => rest r idle) ->
    Forall2 thread_ok (pool1 ++ {| th_role := th_role th; th_code := code |} :: pool2) (l1 ++ (r, l') :: l2)).
  { intros l' code Hcode. apply Forall2_app; [done|]. by constructor; [split|]. }
  destruct Hc as [|d cond k|w k fuel].
  - exists (l1 ++ l2). rewrite app_nil_r. split; [by apply Forall2_app|]. cbn.
    apply (inv_drop calls l1 r l2), inv_split. by exists fr.
  - destruct Hs as (l' & Hl' & Ht'). exists (l1 ++ (r, l') :: l2). rewrite app_nil_r. split; [by apply Hpool|].
    apply inv_split. by exists fr.
  - destruct Hs as (l' & Hl' & Ht'). exists ((l1 ++ (r, l') :: l2) ++ [(SharedRole, idle)]). split.
    + apply Forall2_app; [by apply Hpool|]. constructor; [|done]. split; [done|]. apply inv_workers.
    + apply inv_new; [done|]. apply inv_split. by exists fr.
Qed.

Lemma step_ok cfg cfg' : config_ok cfg -> step cfg cfg' -> config_ok cfg'.
Proof.
  intros Hok Hs. destruct Hs as [c pool calls op Hinit|c pool calls call f c' Hr|c pool1 th pool2 calls s c' now new Hr Hc|
    c pool calls c' Henv].
  - destruct Hok as (ls & Hp & Hg). cbn in *. exists (ls ++ [(sys_op_role op, idle)]). split.
    + apply Forall2_app; [done|]. constructor; [|done]. split; [done|]. apply inv_ops.
    + apply inv_new; [|done]. intros Hop. by eapply pool_roles, Hinit.
  - destruct Hok as (ls & Hp & Hg). exists ls. split; [done|]. cbn. by eapply inv_calls.
  - by eapply run_ok.
  - destruct Hok as (ls & Hp & Hg). exists ls. split; [done|]. by eapply inv_environment.
Qed.

Lemma steps_ok cfg cfg' : config_ok cfg -> rtc step cfg cfg' -> config_ok cfg'.
Proof. intros Hok. induction 1 as [|? ? ? ? _ IH]; [done|]. by eapply IH, step_ok. Qed.

(** [Global] at the start makes every reachable configuration all right. *)
Lemma reachable_ok cfg : (forall s, sys_initial s -> Global [] [] s) -> reachable cfg -> config_ok cfg.
Proof. intros Hg (s0 & Hi & Hs). eapply steps_ok, Hs. exists []. split; [constructor|]. by apply Hg. Qed.

(** A thread ends the process only where that is allowed. *)
Lemma reachable_safe cfg : (forall s, sys_initial s -> Global [] [] s) -> reachable cfg -> crashes cfg -> may_abort.
Proof.
  intros Hg Hr (th & c' & Hth & Ha). apply (reachable_ok _ Hg) in Hr as (ls & Hp & Hok).
  apply list_elem_of_split in Hth as (pool1 & pool2 & Epool). rewrite Epool in Hp.
  apply Forall2_app_inv_l in Hp as (l1 & ls' & _ & Hp & ->).
  apply Forall2_cons_inv_l in Hp as ([r l] & l2 & [Hrole Ht] & _ & ->).
  apply inv_split in Hok as (fr & _ & Hl). cbn in Ht. exact (resume_sound (rest r) l (th_code th) _ fr _ _ _ Ht Hl Ha).
Qed.

End Soundness.

(** ** Counting threads

    How many threads, by their labels, hold something there is once. *)
Section Counting.
Context {L : Type} (f : L -> nat).

Definition sum_of (ls : list L) : nat := fold_right (fun l n => f l + n)%nat 0%nat ls.

Lemma sum_of_cons l ls : sum_of (l :: ls) = (f l + sum_of ls)%nat.
Proof. done. Qed.

Lemma sum_of_permutation ls ls' : ls ≡ₚ ls' -> sum_of ls = sum_of ls'.
Proof. unfold sum_of. induction 1; cbn in *; [done|lia|lia|congruence]. Qed.

Lemma sum_of_zero ls l : sum_of ls = 0%nat -> l ∈ ls -> f l = 0%nat.
Proof. unfold sum_of. induction 2; cbn in *; [lia|]. apply IHlist_elem_of. cbn in *. lia. Qed.

End Counting.
#[global] Arguments sum_of {L} _ _ : simpl never.

(** ** Running a schedule *)

Section Schedule.
Context `{System St W}.

Inductive move : Type :=
| MCall (op : sys_op)
| MInvoke (call : sys_call)
| MRun (i : nat) (fuel : nat)            (* [fuel] is for a background thread it starts *)
| MTime (n : nat).

Definition exec1 (m : move) (cfg : config St W) : option (config St W) :=
  let '{| cf_state := c; cf_pool := pool; cf_calls := calls |} := cfg in
  match m with
  | MCall op =>
      if bool_decide (sys_op_role op = SharedRole) || forallb (fun th => bool_decide (th_role th = SharedRole)) pool
      then Some {| cf_state := c; cf_pool := pool ++ [{| th_role := sys_op_role op; th_code := sys_perform op |}];
                   cf_calls := calls |}
      else None
  | MInvoke call =>
      match sys_invoke call c with
      | Returns (f, c') => Some {| cf_state := c'; cf_pool := pool; cf_calls := f :: calls |}
      | _ => None
      end
  | MRun i fuel =>
      match pool !! i with
      | None => None
      | Some th =>
          let keep now new c' :=
            Some {| cf_state := c'; cf_pool := (take i pool ++ now ++ drop (S i) pool) ++ new; cf_calls := calls |} in
          match resume (th_code th) c with
          | Returns (AtEnd _, c') => keep [] [] c'
          | Returns (AtPause d cond k, c') => keep [{| th_role := th_role th; th_code := TPause d cond k |}] [] c'
          | Returns (AtSpawn w k, c') =>
              keep [{| th_role := th_role th; th_code := k |}] [{| th_role := SharedRole; th_code := sys_run_worker fuel w |}] c'
          | _ => None
          end
      end
  | MTime n =>
      Some {| cf_state := sys_tick n c; cf_pool := pool; cf_calls := calls |}
  end.

Fixpoint exec (ms : list move) (cfg : config St W) : option (config St W) :=
  match ms with
  | [] => Some cfg
  | m :: ms => match exec1 m cfg with None => None | Some cfg => exec ms cfg end
  end.

Lemma exec1_step m cfg cfg' : exec1 m cfg = Some cfg' -> step cfg cfg'.
Proof.
  destruct cfg as [c pool calls]. destruct m as [op|call|i fuel|n]; cbn [exec1].
  - destruct (_ || _) eqn:E; [|done]. intros [= <-]. apply step_call. intros Hop. apply orb_true_iff in E as [E|E].
    + bool_to_prop. congruence.
    + apply Forall_forall. intros th Hth. rewrite forallb_forall in E. apply list_elem_of_In, E in Hth. by bool_to_prop.
  - destruct (sys_invoke call c) as [[f c']| |] eqn:E; [|done..]. intros [= <-]. by eapply step_invoke.
  - destruct (pool !! i) as [th|] eqn:Ei; [|done]. rewrite <- (take_drop_middle pool i th Ei) at 1.
    destruct (resume (th_code th) c) as [[[[]|d cond k|w k|] c']| |] eqn:E; try done; intros [= <-].
    + apply (step_run c _ th _ calls (AtEnd tt) c' [] []); [exact E|constructor].
    + by eapply (step_run c _ th _ calls _ c' [_] []); [exact E|constructor].
    + by eapply (step_run c _ th _ calls _ c' [_] [_]); [exact E|constructor].
  - intros [= <-]. apply step_environment, sys_tick_environment.
Qed.

Lemma exec_steps ms cfg cfg' : exec ms cfg = Some cfg' -> rtc step cfg cfg'.
Proof.
  revert cfg. induction ms as [|m ms IH]; intros cfg; cbn; [by intros [= <-]|].
  destruct (exec1 m cfg) as [cfg1|] eqn:E; [|done]. intros Hr. eapply rtc_l; [by eapply exec1_step|by apply IH].
Qed.

(** Does the next step of thread [i] end the process? *)
Definition aborts (i : nat) (cfg : config St W) : bool :=
  match cf_pool cfg !! i with
  | Some th => match resume (th_code th) (cf_state cfg) with Returns (AtAbort, _) => true | _ => false end
  | None => false
  end.

Lemma aborts_crashes i cfg : aborts i cfg = true -> crashes cfg.
Proof.
  unfold aborts. destruct (cf_pool cfg !! i) as [th|] eqn:E; [|done].
  destruct (resume _ _) as [[[| | |] c']| |] eqn:Er; try done. intros _. exists th, c'.
  split; [by eapply list_elem_of_lookup_2|done].
Qed.

End Schedule.
