(* ===== verification/Types.v ===== *)
(** * Data of the framework

    The enums and structs of memrpc/include/memrpc/core/{types,protocol,
    bootstrap}.h and of the public client and server headers.  A field keeps
    its C++ name behind a short prefix of its struct, because the structs
    share field names. *)

From Stdlib Require Import Lia.
From S2P Require Import Prelude.

(** ** types.h *)

Inductive Priority : Type := Normal | High.

#[export] Instance Priority_eq_dec : EqDecision Priority.
Proof. solve_decision. Defined.

(** [static_cast<uint8_t>(Priority)]. *)
Definition Priority_to_u8 (p : Priority) : Z :=
  match p with Normal => 0 | High => 1 end.

(** The enumerators of [StatusCode] and, as [StatusUnnamed], the other values
    an object of this enum holds after a cast from an integer. *)
Inductive StatusCode : Type :=
| Ok
| QueueFull
| QueueTimeout
| ExecTimeout
| PeerDisconnected
| ProtocolMismatch
| EngineInternalError
| InvalidArgument
| CrashedDuringExecution
| CooldownActive
| ClientClosed
| PayloadTooLarge
| StatusUnnamed (raw : Z).

#[export] Instance StatusCode_eq_dec : EqDecision StatusCode.
Proof. solve_decision. Defined.

(** [status == s], as a test. *)
Definition status_is (s t : StatusCode) : bool := bool_decide (s = t).

Lemma status_is_true s t : status_is s t = true <-> s = t.
Proof. apply bool_decide_eq_true. Qed.

Lemma status_is_refl s : status_is s s = true.
Proof. by apply status_is_true. Qed.

Lemma status_is_false s t : s <> t -> status_is s t = false.
Proof. apply bool_decide_eq_false_2. Qed.

(** [static_cast<uint32_t>(StatusCode)]. *)
Definition StatusCode_to_u32 (s : StatusCode) : Z :=
  match s with
  | Ok => 0
  | QueueFull => 1
  | QueueTimeout => 2
  | ExecTimeout => 3
  | PeerDisconnected => 4
  | ProtocolMismatch => 5
  | EngineInternalError => 6
  | InvalidArgument => 7
  | CrashedDuringExecution => 8
  | CooldownActive => 9
  | ClientClosed => 10
  | PayloadTooLarge => 11
  | StatusUnnamed raw => raw
  end.

(** [static_cast<StatusCode>(uint32_t)]: the underlying type is [uint8_t]. *)
Definition StatusCode_of_u32 (v : Z) : StatusCode :=
  match u8 v with
  | 0 => Ok
  | 1 => QueueFull
  | 2 => QueueTimeout
  | 3 => ExecTimeout
  | 4 => PeerDisconnected
  | 5 => ProtocolMismatch
  | 6 => EngineInternalError
  | 7 => InvalidArgument
  | 8 => CrashedDuringExecution
  | 9 => CooldownActive
  | 10 => ClientClosed
  | 11 => PayloadTooLarge
  | raw => StatusUnnamed raw
  end.

(** A status that names an enumerator. *)
Definition status_named (s : StatusCode) : bool :=
  match s with StatusUnnamed _ => false | _ => true end.

Lemma StatusCode_of_to_u32 s : status_named s = true -> StatusCode_of_u32 (StatusCode_to_u32 s) = s.
Proof. by destruct s. Qed.

Record RpcEvent : Type := {
  ev_eventDomain : Z;
  ev_eventType : Z;
  ev_flags : Z;
  ev_payload : bytes;
}.

Record RpcReply : Type := {
  rp_status : StatusCode;
  rp_payload : bytes;
}.

#[export] Instance RpcReply_eq_dec : EqDecision RpcReply.
Proof. solve_decision. Defined.

Definition RpcReply_default : RpcReply := {| rp_status := Ok; rp_payload := [] |}.

(** A reply with a status and no payload, as every failure path builds it. *)
Definition reply_of_status (s : StatusCode) : RpcReply := {| rp_status := s; rp_payload := [] |}.

(** ** protocol.h *)

Definition SHARED_MEMORY_MAGIC : Z := 0x4d454d52.
Definition PROTOCOL_VERSION : Z := 9.
Definition RING_ENTRY_BYTES : Z := 8192.
Definition OPCODE_INVALID : Z := 0.

Inductive ResponseMessageKind : Type :=
| KindReply
| KindEvent
| KindUnnamed (raw : Z).

#[export] Instance ResponseMessageKind_eq_dec : EqDecision ResponseMessageKind.
Proof. solve_decision. Defined.

(** [sizeof] of the header fields: requestId, execTimeoutMs, opcode, priority,
    payloadKind, payloadSize. *)
Definition REQUEST_HEADER_BYTES : Z := 8 + 4 + 2 + 1 + 1 + 4.
Definition REQUEST_INLINE_PAYLOAD_BYTES : Z := RING_ENTRY_BYTES - REQUEST_HEADER_BYTES.

(** requestId, statusCode, eventDomain, eventType, flags, resultSize,
    messageKind, payloadKind. *)
Definition RESPONSE_HEADER_BYTES : Z := 8 + 4 + 4 + 4 + 4 + 4 + 2 + 1.
Definition RESPONSE_INLINE_PAYLOAD_BYTES : Z := RING_ENTRY_BYTES - RESPONSE_HEADER_BYTES.

Definition DEFAULT_MAX_REQUEST_BYTES : Z := REQUEST_INLINE_PAYLOAD_BYTES.
Definition DEFAULT_MAX_RESPONSE_BYTES : Z := RESPONSE_INLINE_PAYLOAD_BYTES.
Definition DEFAULT_HIGH_RING_SIZE : Z := 8.
Definition DEFAULT_NORMAL_RING_SIZE : Z := 8.
Definition DEFAULT_RESPONSE_RING_SIZE : Z := 8.

Record RequestRingEntry : Type := {
  rq_requestId : Z;
  rq_execTimeoutMs : Z;
  rq_opcode : Z;
  rq_priority : Z;
  rq_payloadKind : Z;
  rq_payloadSize : Z;
  rq_payload : bytes;
}.

Record ResponseRingEntry : Type := {
  rs_requestId : Z;
  rs_statusCode : Z;
  rs_eventDomain : Z;
  rs_eventType : Z;
  rs_flags : Z;
  rs_resultSize : Z;
  rs_messageKind : ResponseMessageKind;
  rs_payloadKind : Z;
  rs_payload : bytes;
}.

#[export] Instance RequestRingEntry_eta : Eta RequestRingEntry := fun r =>
  Build_RequestRingEntry (rq_requestId r) (rq_execTimeoutMs r) (rq_opcode r) (rq_priority r)
    (rq_payloadKind r) (rq_payloadSize r) (rq_payload r).

#[export] Instance ResponseRingEntry_eta : Eta ResponseRingEntry := fun r =>
  Build_ResponseRingEntry (rs_requestId r) (rs_statusCode r) (rs_eventDomain r) (rs_eventType r)
    (rs_flags r) (rs_resultSize r) (rs_messageKind r) (rs_payloadKind r) (rs_payload r).

(** [std::array<uint8_t, n> payload{}]. *)
Definition zero_payload (n : Z) : bytes := repeat Byte.x00 (Z.to_nat n).

Definition RequestRingEntry_default : RequestRingEntry := {|
  rq_requestId := 0; rq_execTimeoutMs := 0; rq_opcode := OPCODE_INVALID; rq_priority := 0;
  rq_payloadKind := 0; rq_payloadSize := 0;
  rq_payload := zero_payload REQUEST_INLINE_PAYLOAD_BYTES |}.

Definition ResponseRingEntry_default : ResponseRingEntry := {|
  rs_requestId := 0; rs_statusCode := 0; rs_eventDomain := 0; rs_eventType := 0; rs_flags := 0;
  rs_resultSize := 0; rs_messageKind := KindReply; rs_payloadKind := 0;
  rs_payload := zero_payload RESPONSE_INLINE_PAYLOAD_BYTES |}.

(** [memcpy(array.data(), src.data(), src.size())]: undefined when the source
    is longer than the array. *)
Definition memcpy_into (array src : bytes) : defined bytes :=
  if Zlen src <=? Zlen array then Defined (src ++ Zdrop (Zlen src) array) else Undefined.

(** ** bootstrap.h *)

Module ChannelHealth.
Inductive status : Type :=
| Healthy
| Timeout
| Malformed
| Unhealthy
| SessionMismatch
| Unsupported.

#[export] Instance status_eq_dec : EqDecision status.
Proof. solve_decision. Defined.
End ChannelHealth.

Record ChannelHealthResult : Type := {
  chr_status : ChannelHealth.status;
  chr_sessionId : Z;
}.

Definition ChannelHealthResult_default : ChannelHealthResult :=
  {| chr_status := ChannelHealth.Unsupported; chr_sessionId := 0 |}.

Record BootstrapHandles : Type := {
  shmFd : Z;
  highReqEventFd : Z;
  normalReqEventFd : Z;
  respEventFd : Z;
  reqCreditEventFd : Z;
  respCreditEventFd : Z;
  bh_protocolVersion : Z;
  bh_sessionId : Z;
}.

#[export] Instance BootstrapHandles_eta : Eta BootstrapHandles := fun r =>
  Build_BootstrapHandles (shmFd r) (highReqEventFd r) (normalReqEventFd r) (respEventFd r)
    (reqCreditEventFd r) (respCreditEventFd r) (bh_protocolVersion r) (bh_sessionId r).

#[export] Instance BootstrapHandles_eq_dec : EqDecision BootstrapHandles.
Proof. solve_decision. Defined.

Definition MakeDefaultBootstrapHandles : BootstrapHandles := {|
  shmFd := -1; highReqEventFd := -1; normalReqEventFd := -1; respEventFd := -1;
  reqCreditEventFd := -1; respCreditEventFd := -1; bh_protocolVersion := 0; bh_sessionId := 0 |}.

(** The file descriptors of a session, in declaration order. *)
Definition handle_fds (h : BootstrapHandles) : list Z :=
  [shmFd h; highReqEventFd h; normalReqEventFd h; respEventFd h; reqCreditEventFd h;
   respCreditEventFd h].

(** ** rpc_client.h and handler.h *)

Record RpcCall : Type := {
  call_opcode : Z;
  call_priority : Priority;
  call_execTimeoutMs : Z;
  call_payload : bytes;
}.

Record RpcFailure : Type := {
  fl_status : StatusCode;
  fl_opcode : Z;
  fl_priority : Priority;
  fl_execTimeoutMs : Z;
  fl_requestId : Z;
  fl_sessionId : Z;
}.

Record EngineDeathReport : Type := { dr_deadSessionId : Z }.

Inductive RecoveryAction : Type := Ignore | Restart | IdleClose | ManualShutdown.

#[export] Instance RecoveryAction_eq_dec : EqDecision RecoveryAction.
Proof. solve_decision. Defined.

Record RecoveryDecision : Type := { rd_action : RecoveryAction; rd_delayMs : Z }.

#[export] Instance RecoveryDecision_eq_dec : EqDecision RecoveryDecision.
Proof. solve_decision. Defined.

Inductive ClientLifecycleState : Type :=
| Uninitialized
| Active
| NoSession
| Cooldown
| IdleClosed
| Recovering
| Closed.

#[export] Instance ClientLifecycleState_eq_dec : EqDecision ClientLifecycleState.
Proof. solve_decision. Defined.

Inductive ClientInitMode : Type := EagerSession | LazySession.

Record RecoveryRuntimeSnapshot : Type := {
  sn_lifecycleState : ClientLifecycleState;
  sn_recoveryPending : bool;
  sn_cooldownRemainingMs : Z;
  sn_currentSessionId : Z;
}.

Record RecoveryEventReport : Type := {
  er_previousState : ClientLifecycleState;
  er_state : ClientLifecycleState;
  er_recoveryPending : bool;
  er_cooldownDelayMs : Z;
  er_cooldownRemainingMs : Z;
  er_sessionId : Z;
  er_monotonicMs : Z;
}.

Record ExternalRecoveryRequest : Type := { xr_sessionId : Z; xr_delayMs : Z }.

Record RpcServerCall : Type := {
  sc_opcode : Z;
  sc_priority : Priority;
  sc_execTimeoutMs : Z;
  sc_payload : bytes;
}.
