(* ===== verification/ByteCodec.v ===== *)
(** * Byte reader, byte writer and message codecs

    memrpc/src/core/byte_reader.cpp, memrpc/src/core/byte_writer.cpp and
    memrpc/include/memrpc/core/codec.h.  A reader holds the memory its pointer
    designates ([None] for a null pointer) beside the size it was told, so
    that a read past the memory is an outcome of its own. *)

From Stdlib Require Import Lia String.
From S2P Require Import Prelude Types.

(** ** ByteReader *)

Record ByteReader : Type := {
  br_bytes : option bytes;
  br_size : Z;
  br_offset : Z;
}.

#[export] Instance ByteReader_eta : Eta ByteReader := fun r =>
  Build_ByteReader (br_bytes r) (br_size r) (br_offset r).

(** [ByteReader(const uint8_t* bytes, std::size_t size)]. *)
Definition MakeByteReader (mem : option bytes) (size : Z) : ByteReader :=
  {| br_bytes := mem; br_size := size; br_offset := 0 |}.

(** [ByteReader(const std::vector<uint8_t>& bytes)]: the data pointer and the
    size of the vector. *)
Definition MakeByteReaderFromVector (v : bytes) : ByteReader :=
  MakeByteReader (Some v) (Zlen v).

(** A read returns [true] with a value, returns [false], or reads memory the
    reader's pointer does not designate. *)
Inductive read_result (A : Type) : Type :=
| ReadOk (a : A) (r : ByteReader)
| ReadFail (r : ByteReader)
| ReadOutOfBounds.
Arguments ReadOk {A} _ _.
Arguments ReadFail {A} _.
Arguments ReadOutOfBounds {A}.

Definition reader (A : Type) : Type := ByteReader -> read_result A.

Definition rd_ret {A} (a : A) : reader A := fun r => ReadOk a r.
Definition rd_fail {A} : reader A := fun r => ReadFail r.

Definition rd_bind {A B} (m : reader A) (k : A -> reader B) : reader B := fun r =>
  match m r with
  | ReadOk a r' => k a r'
  | ReadFail r' => ReadFail r'
  | ReadOutOfBounds => ReadOutOfBounds
  end.

Declare Scope reader_scope.
Delimit Scope reader_scope with reader.
Notation "x <-r m ; k" := (rd_bind m (fun x => k%reader))
  (at level 60, m at next level, right associativity) : reader_scope.

(** The body [ReadBytes], [ReadBytesView], [ReadString] and [ReadStringView]
    share: the bounds check on [std::size_t] and the advance of the offset. *)
Definition take_bytes (size : Z) : reader bytes := fun r =>
  match br_bytes r with
  | None => ReadFail r
  | Some mem =>
      if br_size r <? u64 (br_offset r + size) then ReadFail r
      else if Zlen mem <? br_offset r + size then ReadOutOfBounds
      else ReadOk (Zslice (br_offset r) size mem) r <| br_offset := u64 (br_offset r + size) |>
  end.

Definition ReadBytes (data : outptr) (size : Z) : reader bytes :=
  match data with
  | Null => rd_fail
  | Ptr => take_bytes size
  end.

Definition ReadUint32 (value : outptr) : reader Z :=
  (b <-r ReadBytes value 4; rd_ret (le_value b))%reader.

Definition ReadInt32 (value : outptr) : reader Z :=
  (b <-r ReadBytes value 4; rd_ret (i32 (le_value b)))%reader.

Definition ReadBytesView (size : Z) (value : outptr) : reader bytes :=
  match value with
  | Null => rd_fail
  | Ptr => take_bytes size
  end.

Definition ReadString (value : outptr) : reader string :=
  match value with
  | Null => rd_fail
  | Ptr => (size <-r ReadUint32 Ptr; b <-r take_bytes size; rd_ret (of_bytes b))%reader
  end.

Definition ReadStringView (value : outptr) : reader string :=
  match value with
  | Null => rd_fail
  | Ptr => (size <-r ReadUint32 Ptr; b <-r take_bytes size; rd_ret (of_bytes b))%reader
  end.

(** ** ByteWriter *)

Definition ByteWriter : Type := bytes.

Definition writer : Type := ByteWriter -> defined (bool * ByteWriter).

(** [WriteBytes(data, size)]: [data] is the memory the pointer designates. *)
Definition WriteBytes (data : option bytes) (size : Z) : writer := fun w =>
  match data with
  | None => if size =? 0 then Defined (true, w) else Defined (false, w)
  | Some mem => if Zlen mem <? size then Undefined else Defined (true, w ++ Ztake size mem)
  end.

Definition WriteUint32 (value : Z) : writer := WriteBytes (Some (le_bytes 4 value)) 4.

Definition WriteInt32 (value : Z) : writer := WriteBytes (Some (le_bytes 4 value)) 4.

(** The short-circuiting [a && b] of two writes. *)
Definition wr_and (a b : writer) : writer := fun w =>
  match a w with
  | Defined (true, w') => b w'
  | r => r
  end.

Infix "&&w" := wr_and (at level 40, left associativity).

Definition WriteString (value : string) : writer :=
  WriteUint32 (u32 (Zlen (to_bytes value))) &&w
  WriteBytes (Some (to_bytes value)) (u32 (Zlen (to_bytes value))).

(** [detail::AssignBytes(writer, bytes)] after the writes of [m], from an empty
    [ByteWriter]: the value returned and the vector assigned. *)
Definition AssignBytes (m : writer) (out : outptr) : defined (bool * bytes) :=
  match m [] with
  | Defined (true, w) => match out with Null => Defined (false, []) | Ptr => Defined (true, w) end
  | Defined (false, _) => Defined (false, [])
  | Undefined => Undefined
  end.

(** ** Codec traits *)

(** [CodecTraits<T>] and what the typed facades rely on: a message in the
    domain of the codec decodes from its own encoding, and a decoder never
    leaves the bytes it was given. *)
Class CodecTraits (T : Type) : Type := {
  Encode : T -> outptr -> defined (bool * bytes);
  Decode : option bytes -> Z -> outptr -> read_result T;
  codec_valid : T -> Prop;
}.

Class CodecLaws (T : Type) `{CodecTraits T} : Prop := {
  encode_total v : exists b, Encode v Ptr = Defined (true, b);
  decode_encode v b :
    codec_valid v -> Encode v Ptr = Defined (true, b) ->
    exists r, Decode (Some b) (Zlen b) Ptr = ReadOk v r;
  decode_in_bounds mem size p :
    0 <= size -> size <= Zlen mem -> size < 2 ^ 63 ->
    Decode (Some mem) size p <> ReadOutOfBounds;
}.

Definition EncodeMessage {T} `{CodecTraits T} (v : T) (out : outptr) : defined (bool * bytes) :=
  Encode v out.

Definition DecodeMessage {T} `{CodecTraits T} (b : bytes) (out : outptr) : read_result T :=
  Decode (Some b) (Zlen b) out.

(** ** Reads of what was written *)

Lemma WriteBytes_exact b w : WriteBytes (Some b) (Zlen b) w = Defined (true, w ++ b).
Proof.
  unfold WriteBytes. rewrite Z.ltb_irrefl. unfold Ztake, Zlen. rewrite Nat2Z.id.
  by rewrite firstn_all.
Qed.

Lemma WriteUint32_eq v w : WriteUint32 v w = Defined (true, w ++ le_bytes 4 v).
Proof.
  unfold WriteUint32. rewrite <- WriteBytes_exact. by rewrite Zlen_le_bytes.
Qed.

Lemma WriteInt32_eq v w : WriteInt32 v w = Defined (true, w ++ le_bytes 4 v).
Proof. apply WriteUint32_eq. Qed.

Lemma WriteString_total s w :
  WriteString s w =
    Defined (true, w ++ le_bytes 4 (u32 (Zlen (to_bytes s)))
                     ++ Ztake (u32 (Zlen (to_bytes s))) (to_bytes s)).
Proof.
  unfold WriteString, wr_and. rewrite WriteUint32_eq. unfold WriteBytes.
  destruct (Z.ltb_spec (Zlen (to_bytes s)) (u32 (Zlen (to_bytes s)))) as [Hlt|_].
  - exfalso. unfold u32 in Hlt. pose proof (Zlen_nonneg (to_bytes s)).
    pose proof (Z.mod_le (Zlen (to_bytes s)) (2 ^ 32)). lia.
  - by rewrite <- app_assoc.
Qed.

Lemma WriteString_eq s w :
  Zlen (to_bytes s) < 2 ^ 32 ->
  WriteString s w = Defined (true, w ++ le_bytes 4 (Zlen (to_bytes s)) ++ to_bytes s).
Proof.
  intros Hs. rewrite WriteString_total.
  rewrite u32_id by (split; [apply Zlen_nonneg|done]).
  unfold Ztake, Zlen. rewrite Nat2Z.id. by rewrite firstn_all.
Qed.

Create Rewrite HintDb codec.
#[export] Hint Rewrite WriteUint32_eq WriteInt32_eq : codec.

(** A reader whose size is that of its memory and whose offset lies in it. *)
Definition reader_wf (r : ByteReader) : Prop :=
  match br_bytes r with
  | None => True
  | Some mem => 0 <= br_offset r <= br_size r /\ br_size r <= Zlen mem /\ br_size r < 2 ^ 63
  end.

(** A reader standing between [a], already read, and [b ++ c]. *)
Definition reader_at (a rest : bytes) : ByteReader :=
  {| br_bytes := Some (a ++ rest); br_size := Zlen (a ++ rest); br_offset := Zlen a |}.

Lemma take_bytes_at a b c :
  Zlen (a ++ b ++ c) < 2 ^ 64 ->
  take_bytes (Zlen b) (reader_at a (b ++ c)) = ReadOk b (reader_at (a ++ b) c).
Proof.
  intros Hlen. unfold take_bytes, reader_at. cbn.
  pose proof (Zlen_nonneg a). pose proof (Zlen_nonneg b). pose proof (Zlen_nonneg c).
  rewrite !Zlen_app in *. rewrite u64_id by lia.
  destruct (Z.ltb_spec (Zlen a + (Zlen b + Zlen c)) (Zlen a + Zlen b)); [lia|].
  rewrite Zslice_app_mid by done.
  f_equal. f_equal; [by rewrite <- app_assoc|lia].
Qed.

Lemma ReadUint32_at a v c :
  Zlen (a ++ le_bytes 4 v ++ c) < 2 ^ 64 ->
  ReadUint32 Ptr (reader_at a (le_bytes 4 v ++ c)) =
    ReadOk (u32 v) (reader_at (a ++ le_bytes 4 v) c).
Proof.
  intros Hlen. unfold ReadUint32, rd_bind, ReadBytes.
  change 4 with (Z.of_nat 4) at 1. rewrite <- (Zlen_le_bytes 4 v), take_bytes_at by done.
  unfold rd_ret. by rewrite le_value_bytes4.
Qed.

Lemma ReadInt32_at a v c :
  is_i32 v ->
  Zlen (a ++ le_bytes 4 v ++ c) < 2 ^ 64 ->
  ReadInt32 Ptr (reader_at a (le_bytes 4 v ++ c)) = ReadOk v (reader_at (a ++ le_bytes 4 v) c).
Proof.
  intros Hv Hlen. unfold ReadInt32, rd_bind, ReadBytes.
  change 4 with (Z.of_nat 4) at 1. rewrite <- (Zlen_le_bytes 4 v), take_bytes_at by done.
  unfold rd_ret. by rewrite le_value_bytes4, i32_u32.
Qed.

Lemma ReadString_at a s c :
  Zlen (to_bytes s) < 2 ^ 32 ->
  Zlen (a ++ (le_bytes 4 (Zlen (to_bytes s)) ++ to_bytes s) ++ c) < 2 ^ 64 ->
  ReadString Ptr (reader_at a ((le_bytes 4 (Zlen (to_bytes s)) ++ to_bytes s) ++ c)) =
    ReadOk s (reader_at (a ++ le_bytes 4 (Zlen (to_bytes s)) ++ to_bytes s) c).
Proof.
  intros Hs Hlen. unfold ReadString, rd_bind.
  rewrite <- app_assoc in *. rewrite ReadUint32_at by done.
  rewrite u32_id by (split; [apply Zlen_nonneg|done]).
  rewrite take_bytes_at by (by rewrite <- app_assoc).
  unfold rd_ret. by rewrite of_to_bytes, <- app_assoc.
Qed.

(** ** Reads stay in bounds *)

(** A property of readers that every combinator preserves: from a well-formed
    reader, no read leaves the memory and the reader stays well-formed. *)
Definition reader_safe {A} (m : reader A) : Prop :=
  forall r, reader_wf r ->
  match m r with
  | ReadOk _ r' => reader_wf r'
  | ReadFail r' => reader_wf r'
  | ReadOutOfBounds => False
  end.

Lemma rd_ret_safe {A} (a : A) : reader_safe (rd_ret a).
Proof. by intros r. Qed.

Lemma rd_fail_safe {A} : reader_safe (@rd_fail A).
Proof. by intros r. Qed.

Lemma rd_bind_safe {A B} (m : reader A) (k : A -> reader B) :
  reader_safe m -> (forall a, reader_safe (k a)) -> reader_safe (rd_bind m k).
Proof.
  intros Hm Hk r Hr. unfold rd_bind. specialize (Hm r Hr).
  destruct (m r) as [a r'|r'|]; [by apply Hk|done|done].
Qed.

(** Sizes come from [uint32_t] values, so the sum cannot wrap around. *)
Lemma take_bytes_safe size : is_u32 size -> reader_safe (take_bytes size).
Proof.
  unfold is_u32. intros Hs r Hr. unfold take_bytes, reader_wf in *.
  destruct (br_bytes r) as [mem|] eqn:E; [|by rewrite E].
  rewrite u64_id by lia.
  destruct (Z.ltb_spec (br_size r) (br_offset r + size)); [by rewrite E|].
  destruct (Z.ltb_spec (Zlen mem) (br_offset r + size)); [lia|].
  cbn. rewrite E. lia.
Qed.

Lemma le_value_is_u32 size r b r' :
  size = 4 -> reader_wf r -> take_bytes size r = ReadOk b r' -> is_u32 (le_value b).
Proof.
  intros -> Hr. unfold take_bytes, reader_wf in *. destruct (br_bytes r); [|done].
  repeat case_branch; intros [= <- _]. bool_to_prop.
  rewrite u64_id in * by lia.
  apply le_value_range4. apply Nat2Z.inj. change (Zlen (Zslice (br_offset r) 4 l) = 4).
  apply Zlen_Zslice; lia.
Qed.

Lemma ReadUint32_safe p : reader_safe (ReadUint32 p).
Proof.
  apply rd_bind_safe; [|intros; apply rd_ret_safe].
  destruct p; [apply rd_fail_safe|]. apply take_bytes_safe. unfold is_u32. lia.
Qed.

Lemma ReadInt32_safe p : reader_safe (ReadInt32 p).
Proof.
  apply rd_bind_safe; [|intros; apply rd_ret_safe].
  destruct p; [apply rd_fail_safe|]. apply take_bytes_safe. unfold is_u32. lia.
Qed.

Lemma ReadUint32_value p r v r' : reader_wf r -> ReadUint32 p r = ReadOk v r' -> is_u32 v.
Proof.
  intros Hr. unfold ReadUint32, rd_bind, ReadBytes, rd_fail. destruct p; [done|].
  destruct (take_bytes 4 r) eqn:E; intros [= <- _]. exact (le_value_is_u32 4 _ _ _ eq_refl Hr E).
Qed.

Lemma ReadString_safe p : reader_safe (ReadString p).
Proof.
  destruct p; [apply rd_fail_safe|]. intros r Hr. unfold ReadString, rd_bind at 1.
  pose proof (ReadUint32_safe Ptr r Hr) as Hsafe.
  destruct (ReadUint32 Ptr r) as [size r'|r'|] eqn:E; [|done|done].
  assert (Hk : reader_safe (b <-r take_bytes size; rd_ret (of_bytes b))%reader).
  { apply rd_bind_safe; [|intros; apply rd_ret_safe].
    apply take_bytes_safe. exact (ReadUint32_value _ _ _ _ Hr E). }
  exact (Hk r' Hsafe).
Qed.

#[export] Hint Resolve rd_ret_safe rd_fail_safe rd_bind_safe ReadUint32_safe ReadInt32_safe
  ReadString_safe : memrpc.

Lemma reader_safe_start {A} (m : reader A) mem size :
  reader_safe m -> 0 <= size -> size <= Zlen mem -> size < 2 ^ 63 ->
  m (MakeByteReader (Some mem) size) <> ReadOutOfBounds.
Proof.
  intros Hm H0 H1 H2 E. specialize (Hm (MakeByteReader (Some mem) size)).
  rewrite E in Hm. apply Hm. unfold reader_wf. cbn. lia.
Qed.

(** ** Reads do not depend on what lies behind their size *)

(** The reader with [pad] behind its memory. *)
Definition padded (pad : bytes) (r : ByteReader) : ByteReader :=
  r <| br_bytes := (fun mem => mem ++ pad) <$> br_bytes r |>.

Definition reader_local {A} (m : reader A) : Prop :=
  forall pad r, reader_wf r ->
  m (padded pad r) =
    match m r with
    | ReadOk a r' => ReadOk a (padded pad r')
    | ReadFail r' => ReadFail (padded pad r')
    | ReadOutOfBounds => ReadOutOfBounds
    end.

Lemma rd_ret_local {A} (a : A) : reader_local (rd_ret a).
Proof. done. Qed.

Lemma rd_fail_local {A} : reader_local (@rd_fail A).
Proof. done. Qed.

Lemma rd_bind_local {A B} (m : reader A) (k : A -> reader B) :
  reader_safe m -> reader_local m -> (forall a, reader_local (k a)) -> reader_local (rd_bind m k).
Proof.
  intros Hs Hm Hk pad r Hr. unfold rd_bind. rewrite Hm by done. specialize (Hs r Hr).
  destruct (m r) as [a r'|r'|]; [by apply Hk|done|done].
Qed.

Lemma Zslice_app_l o n (l pad : bytes) : 0 <= o -> 0 <= n -> o + n <= Zlen l -> Zslice o n (l ++ pad) = Zslice o n l.
Proof.
  intros Ho Hn Hl. unfold Zslice, Ztake, Zdrop, Zlen in *. rewrite drop_app_le by lia. rewrite take_app_le; [done|].
  rewrite length_drop. lia.
Qed.

Lemma take_bytes_local size : is_u32 size -> reader_local (take_bytes size).
Proof.
  unfold is_u32. intros Hs pad r Hr. unfold take_bytes, padded, reader_wf in *. cbn.
  destruct (br_bytes r) as [mem|] eqn:E; cbn; [|by rewrite E]. rewrite u64_id by lia.
  destruct (Z.ltb_spec (br_size r) (br_offset r + size)); [by rewrite E|].
  rewrite Zlen_app. pose proof (Zlen_nonneg pad).
  destruct (Z.ltb_spec (Zlen mem) (br_offset r + size)); [lia|].
  destruct (Z.ltb_spec (Zlen mem + Zlen pad) (br_offset r + size)); [lia|].
  by rewrite Zslice_app_l by lia.
Qed.

Lemma ReadUint32_local p : reader_local (ReadUint32 p).
Proof.
  destruct p; [done|]. apply rd_bind_local; [| |done]; cbn; [apply take_bytes_safe|apply take_bytes_local]; unfold is_u32; lia.
Qed.

Lemma ReadString_local p : reader_local (ReadString p).
Proof.
  destruct p; [done|]. intros pad r Hr. unfold ReadString, rd_bind at 1 3. rewrite ReadUint32_local by done.
  pose proof (ReadUint32_safe Ptr r Hr) as Hsafe.
  destruct (ReadUint32 Ptr r) as [size r'|r'|] eqn:E; [|done|done].
  pose proof (ReadUint32_value _ _ _ _ Hr E) as Hsize.
  apply rd_bind_local; [by apply take_bytes_safe|by apply take_bytes_local|done|done].
Qed.

#[export] Hint Resolve rd_ret_local rd_fail_local rd_bind_local ReadUint32_local ReadString_local : memrpc.
