(* ===== verification/ShmLayout.v ===== *)
(** * Shared-memory layout

    memrpc/src/core/shm_layout.h.  [sizeof(pthread_mutex_t)] belongs to the
    platform and is the parameter [mutex_size] of the definitions; the sizes
    of the other fields are those of the structs. *)

From Stdlib Require Import Lia.
From S2P Require Import Prelude Types.

Record LayoutConfig : Type := {
  lc_highRingSize : Z;
  lc_normalRingSize : Z;
  lc_responseRingSize : Z;
  lc_maxRequestBytes : Z;
  lc_maxResponseBytes : Z;
}.

Record Layout : Type := {
  highRingOffset : Z;
  normalRingOffset : Z;
  responseRingOffset : Z;
  totalSize : Z;
}.

Definition Layout_default : Layout :=
  {| highRingOffset := 0; normalRingOffset := 0; responseRingOffset := 0; totalSize := 0 |}.

Record RingCursor : Type := {
  head : Z;
  tail : Z;
  capacity : Z;
  reserved : Z;
}.

#[export] Instance RingCursor_eta : Eta RingCursor := fun r =>
  Build_RingCursor (head r) (tail r) (capacity r) (reserved r).

(** [tail - head] on [uint32_t]. *)
Definition RingCount (c : RingCursor) : Z := u32 (tail c - head c).

(** [RingCountIsOneAfterPush] of runtime_utils.h. *)
Definition RingCountIsOneAfterPush (c : RingCursor) : bool := u32 (tail c - head c) =? 1.

(** Whether the ring is full, and, just after a pop, whether it was full
    before: when to tell the other side that there is room again. *)
Definition RingIsFull (c : RingCursor) : bool := negb (capacity c =? 0) && (RingCount c =? capacity c).

Definition RingWasFullBeforePop (c : RingCursor) : bool :=
  negb (capacity c =? 0) && (u32 (RingCount c + 1) =? capacity c).

Definition AlignOffset (offset alignment : Z) : Z :=
  if alignment =? 0 then offset
  else u64 (u64 (offset + alignment - 1) / alignment * alignment).

Definition IsAlignedValue (value alignment : Z) : bool :=
  negb (alignment =? 0) && (value mod alignment =? 0).

Definition HasAlignedPayloadSizes (max_request_bytes max_response_bytes : Z) : bool :=
  (0 <? max_request_bytes) && (0 <? max_response_bytes) &&
  (max_request_bytes <=? REQUEST_INLINE_PAYLOAD_BYTES) &&
  (max_response_bytes <=? RESPONSE_INLINE_PAYLOAD_BYTES).

Record SharedMemoryHeader : Type := {
  hd_magic : Z;
  hd_protocolVersion : Z;
  hd_sessionId : Z;
  hd_sessionState : Z;
  hd_clientAttached : Z;
  hd_activeClientPid : Z;
  hd_highRingSize : Z;
  hd_normalRingSize : Z;
  hd_responseRingSize : Z;
  hd_maxRequestBytes : Z;
  hd_maxResponseBytes : Z;
  hd_highRing : RingCursor;
  hd_normalRing : RingCursor;
  hd_responseRing : RingCursor;
}.

#[export] Instance SharedMemoryHeader_eta : Eta SharedMemoryHeader := fun r =>
  Build_SharedMemoryHeader (hd_magic r) (hd_protocolVersion r) (hd_sessionId r)
    (hd_sessionState r) (hd_clientAttached r) (hd_activeClientPid r) (hd_highRingSize r)
    (hd_normalRingSize r) (hd_responseRingSize r) (hd_maxRequestBytes r) (hd_maxResponseBytes r)
    (hd_highRing r) (hd_normalRing r) (hd_responseRing r).

(** Eleven integer fields (48 bytes), three cursors (16 bytes each) and the
    mutex, padded to the alignment of the struct. *)
Definition header_size (mutex_size : Z) : Z := AlignOffset (48 + 3 * 16 + mutex_size) 8.

Definition ALIGNOF_RING_ENTRY : Z := 8.
Definition ALIGNOF_MAX_ALIGN_T : Z := 16.

Definition ComputeLayout (mutex_size : Z) (config : LayoutConfig) : Layout :=
  let high := AlignOffset (header_size mutex_size) ALIGNOF_RING_ENTRY in
  let normal :=
    AlignOffset (u64 (high + RING_ENTRY_BYTES * lc_highRingSize config)) ALIGNOF_RING_ENTRY in
  let response :=
    AlignOffset (u64 (normal + RING_ENTRY_BYTES * lc_normalRingSize config)) ALIGNOF_RING_ENTRY in
  let total :=
    AlignOffset (u64 (response + RING_ENTRY_BYTES * lc_responseRingSize config))
      ALIGNOF_MAX_ALIGN_T in
  {| highRingOffset := high; normalRingOffset := normal; responseRingOffset := response;
     totalSize := total |}.

(** ** Properties *)

(** [sizeof(pthread_mutex_t)] is 40 or 48 on the supported platforms; any
    size below a page does. *)
Definition mutex_size_ok (m : Z) : Prop := 0 < m <= 4096.

Definition ring_sizes_u32 (c : LayoutConfig) : Prop :=
  is_u32 (lc_highRingSize c) /\ is_u32 (lc_normalRingSize c) /\ is_u32 (lc_responseRingSize c).

Lemma AlignOffset_spec o a :
  0 <= o -> 0 < a -> o + a < 2 ^ 63 ->
  o <= AlignOffset o a < o + a /\ AlignOffset o a mod a = 0.
Proof.
  intros Ho Ha Hb. unfold AlignOffset.
  destruct (Z.eqb_spec a 0); [lia|].
  rewrite (u64_id (o + a - 1)) by lia.
  pose proof (Z.div_mod (o + a - 1) a). pose proof (Z.mod_pos_bound (o + a - 1) a).
  rewrite u64_id by nia. rewrite Z.mod_mul by lia. nia.
Qed.

Lemma header_size_bounds m : mutex_size_ok m -> 96 + m <= header_size m < 96 + m + 8.
Proof.
  unfold mutex_size_ok, header_size. intros.
  pose proof (AlignOffset_spec (48 + 3 * 16 + m) 8). lia.
Qed.

(** The four regions of the mapping follow each other without overlap, the
    rings are aligned and each has room for its entries. *)
Lemma ComputeLayout_regions m c (l := ComputeLayout m c) :
  mutex_size_ok m -> ring_sizes_u32 c ->
  header_size m <= highRingOffset l /\
  highRingOffset l + RING_ENTRY_BYTES * lc_highRingSize c <= normalRingOffset l /\
  normalRingOffset l + RING_ENTRY_BYTES * lc_normalRingSize c <= responseRingOffset l /\
  responseRingOffset l + RING_ENTRY_BYTES * lc_responseRingSize c <= totalSize l /\
  highRingOffset l mod 8 = 0 /\ normalRingOffset l mod 8 = 0 /\ responseRingOffset l mod 8 = 0 /\
  totalSize l < 2 ^ 48.
Proof.
  intros Hm (Hh & Hn & Hr). unfold is_u32 in *.
  pose proof (header_size_bounds m Hm) as Hhs. unfold mutex_size_ok in Hm.
  subst l. unfold ComputeLayout, RING_ENTRY_BYTES, ALIGNOF_RING_ENTRY, ALIGNOF_MAX_ALIGN_T.
  cbn [highRingOffset normalRingOffset responseRingOffset totalSize].
  destruct (AlignOffset_spec (header_size m) 8) as [B1 M1]; [lia..|].
  set (o1 := AlignOffset (header_size m) 8) in *.
  rewrite (u64_id (o1 + _)) by lia.
  destruct (AlignOffset_spec (o1 + 8192 * lc_highRingSize c) 8) as [B2 M2]; [lia..|].
  set (o2 := AlignOffset (o1 + 8192 * lc_highRingSize c) 8) in *.
  rewrite (u64_id (o2 + _)) by lia.
  destruct (AlignOffset_spec (o2 + 8192 * lc_normalRingSize c) 8) as [B3 M3]; [lia..|].
  set (o3 := AlignOffset (o2 + 8192 * lc_normalRingSize c) 8) in *.
  rewrite (u64_id (o3 + _)) by lia.
  destruct (AlignOffset_spec (o3 + 8192 * lc_responseRingSize c) 16) as [B4 M4]; [lia..|].
  set (o4 := AlignOffset (o3 + 8192 * lc_responseRingSize c) 16) in *.
  repeat split; try assumption; lia.
Qed.

(** Where entry [i] of a ring starting at [off] lies. *)
Definition entry_offset (off i : Z) : Z := off + RING_ENTRY_BYTES * i.
