(* ===== verification/Ring.v ===== *)
(** * The shared-memory ring

    [PushRingEntry], [PopRingEntry] and [ValidateRingCursor] of
    memrpc/src/core/session.cpp: the single-producer single-consumer ring both
    processes share, first as the two functions run alone, then as their
    atomic loads and stores interleaved. *)

From Stdlib Require Import Lia Znumtheory.
From S2P Require Import Prelude Types ShmLayout.

Definition MAX_RING_ENTRIES : Z := 2 ^ 20.

Definition ValidateRingCursor (c : RingCursor) (expected_capacity : Z) : bool :=
  if (expected_capacity =? 0) || (MAX_RING_ENTRIES <? expected_capacity) then false
  else if negb (capacity c =? expected_capacity) then false
  else if expected_capacity <? RingCount c then false
  else true.

Section Ring.
Context {E : Type}.

(** A cursor in the header and the entries it designates. *)
Record RingMem : Type := MkRing {
  rg_cursor : RingCursor;
  rg_entries : list E;
}.

#[export] Instance RingMem_eta : Eta RingMem := fun r => MkRing (rg_cursor r) (rg_entries r).

(** [entries[index]], with an index beyond the mapped entries undefined. *)
Definition in_entries (r : RingMem) (index : Z) : bool :=
  (0 <=? index) && (index <? Zlen (rg_entries r)).

Definition write_entry (r : RingMem) (index : Z) (e : E) : RingMem :=
  r <| rg_entries := <[Z.to_nat index := e]> (rg_entries r) |>.

Definition set_tail (r : RingMem) (t : Z) : RingMem :=
  r <| rg_cursor := (rg_cursor r) <| tail := t |> |>.

Definition set_head (r : RingMem) (h : Z) : RingMem :=
  r <| rg_cursor := (rg_cursor r) <| head := h |> |>.

(** [PushRingEntry<EntryType>(access, entry)]; [None] is an access with null
    pointers. *)
Definition PushRingEntry (access : option RingMem) (entry : E)
    : defined (StatusCode * option RingMem) :=
  match access with
  | None => Defined (EngineInternalError, None)
  | Some r =>
      let h := head (rg_cursor r) in
      let t := tail (rg_cursor r) in
      let cap := capacity (rg_cursor r) in
      if cap <=? u32 (t - h) then Defined (QueueFull, Some r)
      else
        let index := t mod cap in
        if in_entries r index
        then Defined (Ok, Some (set_tail (write_entry r index entry) (u32 (t + 1))))
        else Undefined
  end.

(** [PopRingEntry<EntryType>(access, entry)]: the entry popped, if any. *)
Definition PopRingEntry (access : option RingMem) (entry : outptr)
    : defined (option E * option RingMem) :=
  match entry, access with
  | Null, _ => Defined (None, access)
  | _, None => Defined (None, None)
  | Ptr, Some r =>
      let t := tail (rg_cursor r) in
      let h := head (rg_cursor r) in
      let cap := capacity (rg_cursor r) in
      if t =? h then Defined (None, Some r)
      else if cap =? 0 then Undefined
      else
        match rg_entries r !! Z.to_nat (h mod cap) with
        | Some e => Defined (Some e, Some (set_head r (u32 (h + 1))))
        | None => Undefined
        end
  end.

(** ** The abstract queue *)

(** A bounded FIFO queue: what the two functions promise. *)
Definition queue_push (cap : Z) (q : list E) (e : E) : StatusCode * list E :=
  if cap <=? Zlen q then (QueueFull, q) else (Ok, q ++ [e]).

Definition queue_pop (q : list E) : option E * list E :=
  match q with
  | [] => (None, [])
  | e :: q' => (Some e, q')
  end.

(** [r] represents the queue [q] from the absolute position [H]: positions
    count all entries ever pushed, cursors are positions modulo 2^32, and
    position [i] lives in slot [i mod capacity]. *)
Definition ring_repr_at (H : Z) (q : list E) (r : RingMem) : Prop :=
  let cap := capacity (rg_cursor r) in
  0 <= H /\ 0 < cap <= MAX_RING_ENTRIES /\ (cap | 2 ^ 32) /\
  Zlen (rg_entries r) = cap /\ Zlen q <= cap /\
  head (rg_cursor r) = u32 H /\ tail (rg_cursor r) = u32 (H + Zlen q) /\
  forall i, 0 <= i < Zlen q -> rg_entries r !! Z.to_nat ((H + i) mod cap) = q !! Z.to_nat i.

Definition ring_repr (q : list E) (r : RingMem) : Prop := exists H, ring_repr_at H q r.

End Ring.
Arguments RingMem : clear implicits.

(** ** Arithmetic of positions *)

Lemma u32_sub_positions T H : 0 <= T - H < 2 ^ 32 -> u32 (u32 T - u32 H) = T - H.
Proof. intros. unfold u32. rewrite <- Zminus_mod. by apply Z.mod_small. Qed.

Lemma u32_succ_position T : u32 (u32 T + 1) = u32 (T + 1).
Proof. unfold u32. by rewrite Zplus_mod_idemp_l. Qed.

Lemma u32_eq_positions T H : 0 <= T - H < 2 ^ 32 -> u32 T = u32 H -> T = H.
Proof. intros Hb Heq. pose proof (u32_sub_positions T H Hb) as Hs. rewrite Heq in Hs.
  replace (u32 H - u32 H) with 0 in Hs by lia. change (u32 0) with 0 in Hs. lia. Qed.

(** The slot of a position is the slot of its 32-bit cursor exactly because
    the capacity divides 2^32. *)
Lemma slot_of_cursor cap T : 0 < cap -> (cap | 2 ^ 32) -> u32 T mod cap = T mod cap.
Proof.
  intros Hc Hd. unfold u32. by apply Z.mod_mod_divide.
Qed.

(** Different positions at distance below the capacity use different slots. *)
Lemma slots_distinct cap i j : 0 < cap -> 0 <= i -> i < j < i + cap -> i mod cap <> j mod cap.
Proof.
  intros Hc Hi Hij Heq.
  pose proof (Z.div_mod i cap). pose proof (Z.div_mod j cap).
  set (k := j / cap - i / cap). assert (j - i = cap * k) by lia.
  destruct (Z.le_gt_cases k 0); nia.
Qed.

(** ** The functions alone implement the queue *)

Section Refinement.
Context {E : Type}.
Implicit Types (q : list E) (r : RingMem E) (e : E).

Lemma slot_in_entries H q r i :
  ring_repr_at H q r -> 0 <= i -> in_entries r (i mod capacity (rg_cursor r)) = true.
Proof.
  intros (HH & Hcap & Hdiv & Hlen & _) Hi. unfold in_entries. rewrite Hlen.
  pose proof (Z.mod_pos_bound i (capacity (rg_cursor r))).
  apply andb_true_intro. split; [apply Z.leb_le|apply Z.ltb_lt]; lia.
Qed.

Lemma repr_count H q r :
  ring_repr_at H q r -> u32 (tail (rg_cursor r) - head (rg_cursor r)) = Zlen q.
Proof.
  intros (HH & Hcap & Hdiv & Hlen & Hq & Hh & Ht & _). rewrite Hh, Ht.
  unfold MAX_RING_ENTRIES in *. pose proof (Zlen_nonneg q).
  rewrite u32_sub_positions; lia.
Qed.

Lemma push_entry_repr H q r e :
  ring_repr_at H q r -> Zlen q < capacity (rg_cursor r) ->
  ring_repr_at H (q ++ [e])
    (set_tail (write_entry r (tail (rg_cursor r) mod capacity (rg_cursor r)) e)
       (u32 (tail (rg_cursor r) + 1))).
Proof.
  intros (HH & Hcap & Hdiv & Hlen & Hq & Hh & Ht & Hent) Hroom.
  pose proof (Zlen_nonneg q) as Hq0.
  unfold ring_repr_at, set_tail, write_entry. cbn. rewrite Zlen_app. cbn.
  rewrite Ht, slot_of_cursor, u32_succ_position by (done || lia).
  unfold Zlen in Hlen |- * at 1. rewrite length_insert.
  change (Zlen [e]) with 1.
  split_and!; try done; try lia; [f_equal; lia|].
  intros i Hi.
  assert (Hslot : (Z.to_nat ((H + Zlen q) mod capacity (rg_cursor r)) < length (rg_entries r))%nat).
  { pose proof (Z.mod_pos_bound (H + Zlen q) (capacity (rg_cursor r))). lia. }
  destruct (decide (i = Zlen q)) as [->|Hne].
  - rewrite list_lookup_insert_eq by done. unfold Zlen. rewrite Nat2Z.id.
    by rewrite list_lookup_middle.
  - pose proof (slots_distinct (capacity (rg_cursor r)) (H + i) (H + Zlen q)) as Hd.
    pose proof (Z.mod_pos_bound (H + i) (capacity (rg_cursor r))).
    pose proof (Z.mod_pos_bound (H + Zlen q) (capacity (rg_cursor r))).
    rewrite list_lookup_insert_ne by lia. rewrite Hent by lia.
    rewrite lookup_app_l; [done|]. unfold Zlen in *. lia.
Qed.

Lemma pop_entry_repr H q r e :
  ring_repr_at H (e :: q) r ->
  rg_entries r !! Z.to_nat (head (rg_cursor r) mod capacity (rg_cursor r)) = Some e /\
  ring_repr_at (H + 1) q (set_head r (u32 (head (rg_cursor r) + 1))).
Proof.
  intros (HH & Hcap & Hdiv & Hlen & Hq & Hh & Ht & Hent). rewrite Zlen_cons in *.
  pose proof (Zlen_nonneg q). rewrite Hh, slot_of_cursor by (done || lia). split.
  - specialize (Hent 0). rewrite Z.add_0_r in Hent. rewrite Hent by lia. done.
  - unfold ring_repr_at, set_head. cbn. rewrite u32_succ_position.
    split_and!; try done; try lia; [rewrite Ht; f_equal; lia|].
    intros i Hi. specialize (Hent (1 + i)). rewrite Z.add_assoc in Hent. rewrite Hent by lia.
    by replace (Z.to_nat (1 + i)) with (S (Z.to_nat i)) by lia.
Qed.

(** Each push returns what the queue returns and leaves a ring that represents
    the queue's next value, across the wrap-around of the cursors. *)
Lemma PushRingEntry_refines q r e :
  ring_repr q r ->
  exists r', PushRingEntry (Some r) e =
      Defined (fst (queue_push (capacity (rg_cursor r)) q e), Some r') /\
    ring_repr (snd (queue_push (capacity (rg_cursor r)) q e)) r' /\
    capacity (rg_cursor r') = capacity (rg_cursor r).
Proof.
  intros [H Hr]. unfold PushRingEntry, queue_push. rewrite (repr_count H q r Hr).
  destruct (Z.leb_spec (capacity (rg_cursor r)) (Zlen q)) as [Hfull|Hroom]; cbn.
  - exists r. split_and!; [done|by exists H|done].
  - assert (Htail : 0 <= tail (rg_cursor r)).
    { destruct Hr as (_ & _ & _ & _ & _ & _ & -> & _). apply u32_range. }
    rewrite (slot_in_entries H q r) by done.
    eexists. split; [done|]. split; [|done]. exists H. by apply push_entry_repr.
Qed.

Lemma PopRingEntry_refines q r :
  ring_repr q r ->
  exists r', PopRingEntry (Some r) Ptr = Defined (fst (queue_pop q), Some r') /\
    ring_repr (snd (queue_pop q)) r' /\ capacity (rg_cursor r') = capacity (rg_cursor r).
Proof.
  intros [H Hr]. pose proof (repr_count H q r Hr) as Hcount. unfold PopRingEntry.
  destruct (Z.eqb_spec (tail (rg_cursor r)) (head (rg_cursor r))) as [Heq|Hne].
  - rewrite Heq, Z.sub_diag in Hcount. change (u32 0) with 0 in Hcount.
    destruct q as [|e q]; [|rewrite Zlen_cons in Hcount; pose proof (Zlen_nonneg q); lia].
    exists r. split_and!; [done|by exists H|done].
  - destruct q as [|e q].
    { destruct Hr as (_ & _ & _ & _ & _ & Hh & Ht & _). rewrite Zlen_nil, Z.add_0_r in Ht.
      congruence. }
    destruct (pop_entry_repr H q r e Hr) as [Hread Hnext].
    destruct Hr as (_ & Hcap & _).
    destruct (Z.eqb_spec (capacity (rg_cursor r)) 0); [lia|].
    rewrite Hread. eexists. split; [done|]. split; [|done]. by exists (H + 1).
Qed.

End Refinement.

(** ** Sequences of operations *)

Inductive ring_op (E : Type) : Type := OpPush (e : E) | OpPop.
Arguments OpPush {E} _.
Arguments OpPop {E}.

Inductive ring_out (E : Type) : Type := OutPush (s : StatusCode) | OutPop (e : option E).
Arguments OutPush {E} _.
Arguments OutPop {E} _.

Section Runs.
Context {E : Type}.

(** A sequence of calls on one ring, with what each returns. *)
Fixpoint ring_run (r : RingMem E) (ops : list (ring_op E))
    : defined (list (ring_out E) * RingMem E) :=
  match ops with
  | [] => Defined ([], r)
  | op :: ops =>
      let step :=
        match op with
        | OpPush e =>
            match PushRingEntry (Some r) e with
            | Defined (s, Some r') => Defined (OutPush s, r')
            | _ => Undefined
            end
        | OpPop =>
            match PopRingEntry (Some r) Ptr with
            | Defined (o, Some r') => Defined (OutPop o, r')
            | _ => Undefined
            end
        end in
      match step with
      | Defined (out, r') =>
          match ring_run r' ops with
          | Defined (outs, r'') => Defined (out :: outs, r'')
          | Undefined => Undefined
          end
      | Undefined => Undefined
      end
  end.

(** The same sequence on the abstract queue. *)
Fixpoint queue_run (cap : Z) (q : list E) (ops : list (ring_op E))
    : list (ring_out E) * list E :=
  match ops with
  | [] => ([], q)
  | OpPush e :: ops =>
      let '(s, q') := queue_push cap q e in
      let '(outs, q'') := queue_run cap q' ops in (OutPush s :: outs, q'')
  | OpPop :: ops =>
      let '(o, q') := queue_pop q in
      let '(outs, q'') := queue_run cap q' ops in (OutPop o :: outs, q'')
  end.

(** C1: the ring implements a bounded FIFO queue.  From a ring that represents
    a queue, any sequence of pushes and pops is defined, returns exactly what
    the queue returns, and leaves a ring that represents the queue reached;
    the 32-bit cursors may wrap around any number of times. *)
Theorem ring_run_refines (ops : list (ring_op E)) (q : list E) (r : RingMem E) :
  ring_repr q r ->
  exists r', ring_run r ops = Defined (fst (queue_run (capacity (rg_cursor r)) q ops), r') /\
    ring_repr (snd (queue_run (capacity (rg_cursor r)) q ops)) r'.
Proof.
  revert q r. induction ops as [|[e|] ops IH]; intros q r Hr; cbn [ring_run queue_run].
  - by exists r.
  - destruct (PushRingEntry_refines q r e Hr) as (r1 & Hrun & Hr1 & Hcap). rewrite Hrun.
    destruct (queue_push _ q e) as [s q1]. cbn in *.
    destruct (IH q1 r1 Hr1) as (r2 & Hrun2 & Hr2). rewrite Hcap in *. rewrite Hrun2.
    destruct (queue_run _ q1 ops). by exists r2.
  - destruct (PopRingEntry_refines q r Hr) as (r1 & Hrun & Hr1 & Hcap). rewrite Hrun.
    destruct (queue_pop q) as [o q1]. cbn in *.
    destruct (IH q1 r1 Hr1) as (r2 & Hrun2 & Hr2). rewrite Hcap in *. rewrite Hrun2.
    destruct (queue_run _ q1 ops). by exists r2.
Qed.

End Runs.

(** An empty ring whose cursors stand at position [H]. *)
Definition empty_ring {E} (cap H : Z) (fill : E) : RingMem E :=
  {| rg_cursor := {| head := u32 H; tail := u32 H; capacity := cap; reserved := 0 |};
     rg_entries := repeat fill (Z.to_nat cap) |}.

Lemma empty_ring_repr {E} (cap H : Z) (fill : E) :
  0 <= H -> 0 < cap <= MAX_RING_ENTRIES -> (cap | 2 ^ 32) -> ring_repr [] (empty_ring cap H fill).
Proof.
  intros HH Hcap Hdiv. exists H. unfold ring_repr_at, empty_ring. cbn.
  change (Zlen (@nil E)) with 0. rewrite Z.add_0_r. unfold Zlen. rewrite repeat_length.
  split_and!; try done; try lia.
Qed.

(** Eight slots, the default capacity, and cursors about to wrap around. *)
Lemma ring_run_refines_witness :
  fst (queue_run 8 [] [OpPush 10; OpPush 20; OpPop; OpPush 30; OpPop; OpPop; OpPop]) =
    [OutPush Ok; OutPush Ok; OutPop (Some 10); OutPush Ok; OutPop (Some 20); OutPop (Some 30);
     OutPop None] /\
  exists r', ring_run (empty_ring 8 (2 ^ 32 - 1) 0)
      [OpPush 10; OpPush 20; OpPop; OpPush 30; OpPop; OpPop; OpPop] =
    Defined (fst (queue_run 8 [] [OpPush 10; OpPush 20; OpPop; OpPush 30; OpPop; OpPop; OpPop]), r')
    /\ ring_repr (snd (queue_run 8 []
         [OpPush 10; OpPush 20; OpPop; OpPush 30; OpPop; OpPop; OpPop])) r'.
Proof.
  split; [reflexivity|].
  apply (ring_run_refines [OpPush 10; OpPush 20; OpPop; OpPush 30; OpPop; OpPop; OpPop] []
           (empty_ring 8 (2 ^ 32 - 1) 0)).
  apply empty_ring_repr; [lia|unfold MAX_RING_ENTRIES; lia|]. by exists 536870912.
Defined.

