(* ===== verification/Spsc.v ===== *)
(** * The ring under interleaving

    One producer runs [PushRingEntry] and one consumer runs [PopRingEntry] of
    memrpc/src/core/session.cpp on the same ring, from different processes.
    Each atomic load, each store and the copy of an entry is a step; the
    steps interleave freely. *)

From Stdlib Require Import Lia Znumtheory.
From S2P Require Import Prelude Types ShmLayout Ring.

Section Spsc.
Context {E : Type}.

(** Where the producer stands in [PushRingEntry]: before the call, after
    [head.load], after [tail.load] and the capacity test, after the copy. *)
Inductive prod_pc : Type :=
| PIdle
| PHead (e : E) (h : Z)
| PWrite (e : E) (t : Z)
| PPublish (e : E) (t : Z).

(** Where the consumer stands in [PopRingEntry]. *)
Inductive cons_pc : Type :=
| CIdle
| CTail (t : Z)
| CRead (h : Z)
| CRelease (h : Z) (e : E).

(** The ring, the two threads, and the history: the entries whose push
    returned [Ok] and the entries popped, oldest first. *)
Record spsc : Type := MkSpsc {
  sp_ring : RingMem E;
  sp_prod : prod_pc;
  sp_cons : cons_pc;
  sp_pushed : list E;
  sp_popped : list E;
}.

#[export] Instance spsc_eta : Eta spsc := fun s =>
  MkSpsc (sp_ring s) (sp_prod s) (sp_cons s) (sp_pushed s) (sp_popped s).

Definition ring_head (s : spsc) : Z := head (rg_cursor (sp_ring s)).
Definition ring_tail (s : spsc) : Z := tail (rg_cursor (sp_ring s)).
Definition ring_cap (s : spsc) : Z := capacity (rg_cursor (sp_ring s)).

Inductive spsc_step : spsc -> spsc -> Prop :=
| p_load_head s e :
    sp_prod s = PIdle ->
    spsc_step s s <| sp_prod := PHead e (ring_head s) |>
| p_full s e h :
    sp_prod s = PHead e h -> ring_cap s <= u32 (ring_tail s - h) ->
    spsc_step s s <| sp_prod := PIdle |>
| p_load_tail s e h :
    sp_prod s = PHead e h -> u32 (ring_tail s - h) < ring_cap s ->
    spsc_step s s <| sp_prod := PWrite e (ring_tail s) |>
| p_write s e t :
    sp_prod s = PWrite e t ->
    spsc_step s s <| sp_ring := write_entry (sp_ring s) (t mod ring_cap s) e |>
                    <| sp_prod := PPublish e t |>
| p_publish s e t :
    sp_prod s = PPublish e t ->
    spsc_step s s <| sp_ring := set_tail (sp_ring s) (u32 (t + 1)) |>
                    <| sp_prod := PIdle |> <| sp_pushed := sp_pushed s ++ [e] |>
| c_load_tail s :
    sp_cons s = CIdle ->
    spsc_step s s <| sp_cons := CTail (ring_tail s) |>
| c_empty s t :
    sp_cons s = CTail t -> t = ring_head s ->
    spsc_step s s <| sp_cons := CIdle |>
| c_load_head s t :
    sp_cons s = CTail t -> t <> ring_head s ->
    spsc_step s s <| sp_cons := CRead (ring_head s) |>
| c_read s h e :
    sp_cons s = CRead h -> rg_entries (sp_ring s) !! Z.to_nat (h mod ring_cap s) = Some e ->
    spsc_step s s <| sp_cons := CRelease h e |>
| c_release s h e :
    sp_cons s = CRelease h e ->
    spsc_step s s <| sp_ring := set_head (sp_ring s) (u32 (h + 1)) |>
                    <| sp_cons := CIdle |> <| sp_popped := sp_popped s ++ [e] |>.

(** A fresh ring: both cursors at zero, nothing pushed. *)
Definition spsc_init (cap : Z) (fill : E) : spsc :=
  MkSpsc (empty_ring cap 0 fill) PIdle CIdle [] [].

Inductive spsc_reachable (cap : Z) (fill : E) : spsc -> Prop :=
| reach_init : spsc_reachable cap fill (spsc_init cap fill)
| reach_step s s' : spsc_reachable cap fill s -> spsc_step s s' -> spsc_reachable cap fill s'.

(** ** Invariant

    [T] and [H] are the numbers of entries ever published and released; a
    cursor a thread has loaded may be stale, and stays within the bounds the
    other thread cannot break. *)

Definition prod_inv (s : spsc) (H T : Z) : Prop :=
  match sp_prod s with
  | PIdle => True
  | PHead e h => exists H0, h = u32 H0 /\ 0 <= H0 <= H /\ T <= H0 + ring_cap s
  | PWrite e t => t = u32 T /\ T - H < ring_cap s
  | PPublish e t =>
      t = u32 T /\ T - H < ring_cap s /\
      rg_entries (sp_ring s) !! Z.to_nat (T mod ring_cap s) = Some e
  end.

Definition cons_inv (s : spsc) (H T : Z) : Prop :=
  match sp_cons s with
  | CIdle => True
  | CTail t => exists T0, t = u32 T0 /\ H <= T0 <= T
  | CRead h => h = u32 H /\ H < T
  | CRelease h e => h = u32 H /\ H < T /\ sp_pushed s !! Z.to_nat H = Some e
  end.

Definition spsc_inv (cap : Z) (s : spsc) : Prop :=
  let T := Zlen (sp_pushed s) in
  let H := Zlen (sp_popped s) in
  ring_cap s = cap /\ Zlen (rg_entries (sp_ring s)) = cap /\
  H <= T <= H + cap /\ ring_head s = u32 H /\ ring_tail s = u32 T /\
  sp_popped s = take (length (sp_popped s)) (sp_pushed s) /\
  (forall i, H <= i < T ->
     rg_entries (sp_ring s) !! Z.to_nat (i mod cap) = sp_pushed s !! Z.to_nat i) /\
  prod_inv s H T /\ cons_inv s H T.

End Spsc.
Arguments spsc : clear implicits.
Arguments prod_pc : clear implicits.
Arguments cons_pc : clear implicits.

Section Proofs.
Context {E : Type} (cap : Z).
Hypothesis Hcap : 0 < cap <= MAX_RING_ENTRIES.
Hypothesis Hdiv : (cap | 2 ^ 32).
Implicit Types (s : spsc E) (e : E).

Lemma spsc_init_inv (fill : E) : spsc_inv cap (spsc_init cap fill).
Proof.
  unfold spsc_inv, spsc_init, prod_inv, cons_inv, ring_cap, ring_head, ring_tail. cbn.
  unfold Zlen. cbn. rewrite repeat_length. split_and!; try done; lia.
Qed.

(** The producer's copy goes to a slot no published, unreleased entry uses. *)
Lemma write_keeps_contents (entries : list E) (pushed : list E) (H : Z) e :
  let T := Zlen pushed in
  0 <= H -> H <= T -> T - H < cap -> Zlen entries = cap ->
  (forall i, H <= i < T -> entries !! Z.to_nat (i mod cap) = pushed !! Z.to_nat i) ->
  forall i, H <= i < T ->
    <[Z.to_nat (T mod cap) := e]> entries !! Z.to_nat (i mod cap) = pushed !! Z.to_nat i.
Proof.
  intros T H0 HT Hroom Hlen Hent i Hi.
  pose proof (slots_distinct cap i T).
  pose proof (Z.mod_pos_bound i cap). pose proof (Z.mod_pos_bound T cap).
  rewrite list_lookup_insert_ne by lia. by apply Hent.
Qed.

(** Open the invariant of a state given by its fields, and the step. *)
Ltac open_step s Hinv Hstep :=
  destruct s as [[[hd tl cp rs] ents] pp cc pu po];
  pose proof (Zlen_nonneg po) as Hpo;
  unfold spsc_inv, ring_cap, ring_head, ring_tail in Hinv; cbn in Hinv;
  destruct Hinv as (Hcp & Hlen & Hb & Hh & Ht & Hpre & Hent & Hprod & Hcons); subst cp hd tl;
  unfold prod_inv, cons_inv, ring_cap in Hprod, Hcons; cbn in Hprod, Hcons;
  revert Hlen; inversion Hstep; subst; cbn in *; unfold ring_cap, ring_head, ring_tail in *;
  cbn in *; subst; clear Hstep; intros Hlen.

(** What remains to show of a state reached by a step. *)
Ltac close_inv :=
  unfold spsc_inv, prod_inv, cons_inv, ring_cap, ring_head, ring_tail; cbn.

Lemma prod_step_inv s s' :
  spsc_inv cap s -> spsc_step s s' -> sp_cons s' = sp_cons s -> sp_popped s' = sp_popped s ->
  sp_prod s' <> sp_prod s -> spsc_inv cap s'.
Proof.
  intros Hinv Hstep Hc Hp Hne. assert (cap <= 2 ^ 20) by (apply Hcap).
  open_step s Hinv Hstep; try done; close_inv.
  - split_and!; try done; try lia. eexists. split_and!; [done|lia..].
  - destruct Hprod as (H0 & -> & HH & HT).
    match goal with Hr : u32 _ < _ |- _ => rewrite u32_sub_positions in Hr by lia end.
    split_and!; try done; lia.
  - destruct Hprod as [-> Hroom]. rewrite slot_of_cursor by (done || lia).
    assert (Hslot : (Z.to_nat (Zlen pu mod cap) < length ents)%nat).
    { pose proof (Z.mod_pos_bound (Zlen pu) cap). unfold Zlen in Hlen. lia. }
    split_and!; try done; try lia.
    + unfold Zlen in *. by rewrite length_insert.
    + apply write_keeps_contents; (done || lia).
    + by apply list_lookup_insert_eq.
  - destruct Hprod as (-> & Hroom & Hslot). rewrite u32_succ_position, !Zlen_app.
    change (Zlen [e]) with 1. split_and!; try done; try lia.
    + rewrite take_app_le; [done|]. unfold Zlen in *. lia.
    + intros i Hi. destruct (decide (i = Zlen pu)) as [->|].
      * rewrite Hslot. unfold Zlen. rewrite Nat2Z.id. by rewrite list_lookup_middle.
      * rewrite Hent by lia. rewrite lookup_app_l; [done|]. unfold Zlen in *. lia.
    + destruct cc; [done| | |].
      * destruct Hcons as (T0 & -> & ?). exists T0. split; [done|lia].
      * destruct Hcons. split; [done|lia].
      * destruct Hcons as (-> & ? & Hl). split_and!; [done|lia|].
        rewrite lookup_app_l; [done|]. unfold Zlen in *. lia.
Qed.

Lemma cons_step_inv s s' :
  spsc_inv cap s -> spsc_step s s' -> sp_prod s' = sp_prod s -> sp_pushed s' = sp_pushed s ->
  sp_cons s' <> sp_cons s -> spsc_inv cap s'.
Proof.
  intros Hinv Hstep Hc Hp Hne. assert (cap <= 2 ^ 20) by (apply Hcap).
  open_step s Hinv Hstep; try done; close_inv.
  - split_and!; try done; try lia. eexists. split; [done|lia].
  - destruct Hcons as (T0 & -> & HT).
    assert (T0 <> Zlen po) by (intros ->; done). split_and!; try done; lia.
  - destruct Hcons as [-> Hlt]. match goal with Hr : _ = Some _ |- _ => rename Hr into Hread end.
    rewrite slot_of_cursor in Hread by (done || lia). rewrite Hent in Hread by lia.
    split_and!; try done; lia.
  - destruct Hcons as (-> & Hlt & Hl).
    assert (Hn : Z.to_nat (Zlen po) = length po) by (unfold Zlen; by rewrite Nat2Z.id).
    rewrite Hn in *. rewrite u32_succ_position, !Zlen_app. change (Zlen [e]) with 1.
    split_and!; try done; try lia.
    + rewrite length_app, Nat.add_1_r, (take_S_r _ _ e) by done. by f_equal.
    + intros i Hi. apply Hent. lia.
    + destruct pp; [done| | |].
      * destruct Hprod as (H0 & -> & ? & ?). exists H0. split_and!; [done|lia..].
      * destruct Hprod as [? ?]. split; [done|lia].
      * destruct Hprod as (? & ? & ?). split_and!; [done|lia|done].
Qed.

Lemma spsc_step_inv s s' : spsc_inv cap s -> spsc_step s s' -> spsc_inv cap s'.
Proof.
  intros Hinv Hstep.
  destruct Hstep as [s e E0|s e h E0 ?|s e h E0 ?|s e t E0|s e t E0|s E0|s t E0 ?|s t E0 ?|
                     s h e E0 ?|s h e E0];
    [apply (prod_step_inv s)..|apply (cons_step_inv s) | apply (cons_step_inv s)
    |apply (cons_step_inv s)|apply (cons_step_inv s)|apply (cons_step_inv s)];
    try done; try (by econstructor); cbn; by rewrite E0.
Qed.

Lemma spsc_reachable_inv (fill : E) s : spsc_reachable cap fill s -> spsc_inv cap s.
Proof. induction 1; [apply spsc_init_inv|by eapply spsc_step_inv]. Qed.



End Proofs.

(** ** The functions are runs of their steps *)

Section Link.
Context {E : Type}.

Inductive spsc_steps : spsc E -> spsc E -> Prop :=
| steps_refl s : spsc_steps s s
| steps_trans s s' s'' : spsc_step s s' -> spsc_steps s' s'' -> spsc_steps s s''.

(** [PushRingEntry] and [PopRingEntry] run without interruption are sequences
    of steps of their thread, with the same effect on the ring. *)
Lemma PushRingEntry_steps r e cs pu po :
  match PushRingEntry (Some r) e with
  | Defined (Ok, Some r') =>
      spsc_steps (MkSpsc r PIdle cs pu po) (MkSpsc r' PIdle cs (pu ++ [e]) po)
  | Defined (QueueFull, Some r') =>
      spsc_steps (MkSpsc r PIdle cs pu po) (MkSpsc r' PIdle cs pu po)
  | _ => True
  end.
Proof.
  unfold PushRingEntry. destruct (Z.leb_spec (capacity (rg_cursor r)) (u32 (tail (rg_cursor r) - head (rg_cursor r)))) as [Hf|Hf].
  - eapply steps_trans; [by apply (p_load_head _ e)|].
    eapply steps_trans; [by eapply p_full|]. apply steps_refl.
  - destruct (in_entries _ _); [|done].
    eapply steps_trans; [by apply (p_load_head _ e)|].
    eapply steps_trans; [by eapply p_load_tail|].
    eapply steps_trans; [by eapply p_write|].
    eapply steps_trans; [by eapply p_publish|]. apply steps_refl.
Qed.

Lemma PopRingEntry_steps r pc pu po :
  match PopRingEntry (Some r) Ptr with
  | Defined (Some e, Some r') =>
      spsc_steps (MkSpsc r pc CIdle pu po) (MkSpsc r' pc CIdle pu (po ++ [e]))
  | Defined (None, Some r') =>
      spsc_steps (MkSpsc r pc CIdle pu po) (MkSpsc r' pc CIdle pu po)
  | _ => True
  end.
Proof.
  unfold PopRingEntry. destruct (Z.eqb_spec (tail (rg_cursor r)) (head (rg_cursor r))) as [He|He].
  - eapply steps_trans; [by apply c_load_tail|].
    eapply steps_trans; [by eapply c_empty|]. apply steps_refl.
  - destruct (_ =? 0); [done|]. destruct (rg_entries r !! _) as [e|] eqn:El; [|done].
    eapply steps_trans; [by apply c_load_tail|].
    eapply steps_trans; [by eapply c_load_head|].
    eapply steps_trans; [by eapply c_read|].
    eapply steps_trans; [by eapply c_release|]. apply steps_refl.
Qed.

End Link.

(** ** A concrete run: two pushes overlapping a pop *)

Definition spsc_demo : spsc Z :=
  MkSpsc (MkRing (Build_RingCursor 0 2 8 0) [10; 20; 0; 0; 0; 0; 0; 0])
    (PWrite 30 2) (CRead 0) [10; 20] [].

(** Take the step [tac] applies from the state reached so far. *)
Ltac advance R tac :=
  let P := type of R in
  lazymatch P with
  | spsc_reachable ?c ?f ?s =>
      let s' := open_constr:(_) in
      let St := fresh in
      assert (St : spsc_step s s') by (tac; first [reflexivity|discriminate]);
      apply (reach_step c f s s' R) in St; clear R; rename St into R; vm_compute in R
  end.

Lemma spsc_demo_reachable : spsc_reachable 8 0 spsc_demo.
Proof.
  pose proof (reach_init 8 0) as R.
  advance R ltac:(apply (p_load_head _ 10)).
  advance R ltac:(eapply (p_load_tail _ 10)).
  advance R ltac:(eapply (p_write _ 10)).
  advance R ltac:(eapply (p_publish _ 10)).
  advance R ltac:(eapply c_load_tail).
  advance R ltac:(eapply (c_load_head _ 1)).
  advance R ltac:(apply (p_load_head _ 20)).
  advance R ltac:(eapply (p_load_tail _ 20)).
  advance R ltac:(eapply (p_write _ 20)).
  advance R ltac:(eapply (p_publish _ 20)).
  advance R ltac:(apply (p_load_head _ 30)).
  advance R ltac:(eapply (p_load_tail _ 30)).
  exact R.
Qed.


