(* ===== verification/Credits.v ===== *)
(** * Credits

    A producer that finds a ring full waits on an event descriptor until the
    consumer signals that there is room again: [TryAdmitSubmit] and
    [WaitForRequestCredit] of the client with [DrainQueue] of the server for
    the request rings, [PushResponseWithRetry] of the server with
    [DrainResponseRing] of the client for the response ring.  The two sides
    are in different processes and decide independently when to signal.  Here
    they are interleaved at the accesses to the cursors. *)

From Stdlib Require Import Lia.
From S2P Require Import Prelude Types ShmLayout Ring.

Inductive producer : Type := Producing | AwaitingCredit.

#[export] Instance producer_eq_dec : EqDecision producer.
Proof. solve_decision. Defined.

Section Credits.
Context {E : Type}.

(** ** Requests *)

(** The consumer is [DrainQueue], with its [ringBecameNotFull]: between two
    entries, or between the pop of an entry and the look at the cursor. *)
Inductive drainer : Type := Draining (ringBecameNotFull : bool) | JustPopped (ringBecameNotFull : bool).

Record request_side : Type := {
  rc_ring : RingMem E;
  rc_credit : Z;                        (* the counter of the event descriptor *)
  rc_producer : producer;
  rc_drainer : drainer;
}.

Inductive request_step : request_side -> request_side -> Prop :=
| rq_push r credit d e r' :
    PushRingEntry (Some r) e = Defined (Ok, Some r') ->
    request_step {| rc_ring := r; rc_credit := credit; rc_producer := Producing; rc_drainer := d |}
                 {| rc_ring := r'; rc_credit := credit; rc_producer := Producing; rc_drainer := d |}
| rq_full r credit d e r' :
    PushRingEntry (Some r) e = Defined (QueueFull, Some r') ->
    request_step {| rc_ring := r; rc_credit := credit; rc_producer := Producing; rc_drainer := d |}
                 {| rc_ring := r'; rc_credit := credit; rc_producer := AwaitingCredit; rc_drainer := d |}
| rq_credit r credit d :                (* PollEventFd is ready and drains the descriptor *)
    0 < credit ->
    request_step {| rc_ring := r; rc_credit := credit; rc_producer := AwaitingCredit; rc_drainer := d |}
                 {| rc_ring := r; rc_credit := 0; rc_producer := Producing; rc_drainer := d |}
| rq_pop r credit p flag e r' :
    PopRingEntry (Some r) Ptr = Defined (Some e, Some r') ->
    request_step {| rc_ring := r; rc_credit := credit; rc_producer := p; rc_drainer := Draining flag |}
                 {| rc_ring := r'; rc_credit := credit; rc_producer := p; rc_drainer := JustPopped flag |}
| rq_look r credit p flag :
    request_step {| rc_ring := r; rc_credit := credit; rc_producer := p; rc_drainer := JustPopped flag |}
                 {| rc_ring := r; rc_credit := credit; rc_producer := p;
                    rc_drainer := Draining (flag || RingWasFullBeforePop (rg_cursor r)) |}
| rq_drained r credit p flag :          (* the ring is empty, or the executor has no capacity *)
    request_step {| rc_ring := r; rc_credit := credit; rc_producer := p; rc_drainer := Draining flag |}
                 {| rc_ring := r; rc_credit := if flag : bool then credit + 1 else credit; rc_producer := p;
                    rc_drainer := Draining false |}.

Definition request_start (s : request_side) : Prop :=
  ring_repr [] (rc_ring s) /\ rc_credit s = 0 /\ rc_producer s = Producing /\ rc_drainer s = Draining false.

(** ** Responses *)

(** The consumer is [DrainResponseRing], which looks at the cursor before it
    pops. *)
Inductive reader : Type :=
| ReaderIdle
| ReaderLooked (ringBecameNotFull : bool)
| ReaderPopped (ringBecameNotFull : bool).

Record response_side : Type := {
  ra_ring : RingMem E;
  ra_credit : Z;
  ra_producer : producer;
  ra_reader : reader;
}.

Inductive response_step : response_side -> response_side -> Prop :=
| rs_push r credit d e r' :
    PushRingEntry (Some r) e = Defined (Ok, Some r') ->
    response_step {| ra_ring := r; ra_credit := credit; ra_producer := Producing; ra_reader := d |}
                  {| ra_ring := r'; ra_credit := credit; ra_producer := Producing; ra_reader := d |}
| rs_full r credit d e r' :
    PushRingEntry (Some r) e = Defined (QueueFull, Some r') ->
    response_step {| ra_ring := r; ra_credit := credit; ra_producer := Producing; ra_reader := d |}
                  {| ra_ring := r'; ra_credit := credit; ra_producer := AwaitingCredit; ra_reader := d |}
| rs_credit r credit d :
    0 < credit ->
    response_step {| ra_ring := r; ra_credit := credit; ra_producer := AwaitingCredit; ra_reader := d |}
                  {| ra_ring := r; ra_credit := 0; ra_producer := Producing; ra_reader := d |}
| rs_look r credit p :
    response_step {| ra_ring := r; ra_credit := credit; ra_producer := p; ra_reader := ReaderIdle |}
                  {| ra_ring := r; ra_credit := credit; ra_producer := p;
                     ra_reader := ReaderLooked (RingIsFull (rg_cursor r)) |}
| rs_pop r credit p flag e r' :
    PopRingEntry (Some r) Ptr = Defined (Some e, Some r') ->
    response_step {| ra_ring := r; ra_credit := credit; ra_producer := p; ra_reader := ReaderLooked flag |}
                  {| ra_ring := r'; ra_credit := credit; ra_producer := p; ra_reader := ReaderPopped flag |}
| rs_empty r credit p flag r' :
    PopRingEntry (Some r) Ptr = Defined (None, Some r') ->
    response_step {| ra_ring := r; ra_credit := credit; ra_producer := p; ra_reader := ReaderLooked flag |}
                  {| ra_ring := r'; ra_credit := credit; ra_producer := p; ra_reader := ReaderIdle |}
| rs_signal r credit p flag :
    response_step {| ra_ring := r; ra_credit := credit; ra_producer := p; ra_reader := ReaderPopped flag |}
                  {| ra_ring := r; ra_credit := if flag : bool then credit + 1 else credit; ra_producer := p;
                     ra_reader := ReaderIdle |}.

Definition response_start (s : response_side) : Prop :=
  ring_repr [] (ra_ring s) /\ ra_credit s = 0 /\ ra_producer s = Producing /\ ra_reader s = ReaderIdle.

(** ** No request credit is lost *)

Lemma repr_RingCount q (r : RingMem E) : ring_repr q r -> RingCount (rg_cursor r) = Zlen q.
Proof. intros [H Hr]. by apply (repr_count H). Qed.

Lemma repr_capacity q (r : RingMem E) :
  ring_repr q r -> 0 < capacity (rg_cursor r) <= MAX_RING_ENTRIES /\ Zlen q <= capacity (rg_cursor r).
Proof. intros [H Hr]. by destruct Hr as (_ & ? & _ & _ & ? & _). Qed.

(** While the producer waits and no signal is pending, the ring is full, or
    the consumer is about to notice that it was, or has noticed. *)
Definition credit_due (s : request_side) : Prop :=
  match rc_drainer s with
  | Draining flag => flag = true \/ RingCount (rg_cursor (rc_ring s)) = capacity (rg_cursor (rc_ring s))
  | JustPopped flag =>
      flag = true \/ RingCount (rg_cursor (rc_ring s)) = capacity (rg_cursor (rc_ring s)) \/
      RingCount (rg_cursor (rc_ring s)) + 1 = capacity (rg_cursor (rc_ring s))
  end.

Definition request_inv (s : request_side) : Prop :=
  (exists q, ring_repr q (rc_ring s)) /\ 0 <= rc_credit s /\
  (rc_producer s = AwaitingCredit -> rc_credit s = 0 -> credit_due s).

Lemma push_keeps_repr q (r r' : RingMem E) e st :
  ring_repr q r -> PushRingEntry (Some r) e = Defined (st, Some r') ->
  exists q', ring_repr q' r' /\ (st = QueueFull -> Zlen q' = capacity (rg_cursor r')).
Proof.
  intros Hr HP. destruct (PushRingEntry_refines q r e Hr) as (r1 & HP' & Hr1 & Hc). rewrite HP in HP'.
  injection HP' as -> ->. eexists. split; [exact Hr1|]. intros Hfull. rewrite Hc. unfold queue_push in *.
  destruct (Z.leb_spec (capacity (rg_cursor r)) (Zlen q)); cbn in *; [|done].
  pose proof (repr_capacity _ _ Hr). lia.
Qed.

Lemma pop_keeps_repr q (r r' : RingMem E) o :
  ring_repr q r -> PopRingEntry (Some r) Ptr = Defined (o, Some r') ->
  o = fst (queue_pop q) /\ ring_repr (snd (queue_pop q)) r' /\ capacity (rg_cursor r') = capacity (rg_cursor r).
Proof.
  intros Hr HP. destruct (PopRingEntry_refines q r Hr) as (r1 & HP' & Hr1 & Hc). rewrite HP in HP'.
  by injection HP' as -> ->.
Qed.

(** After a pop the count is one less. *)
Lemma pop_count q (r r' : RingMem E) e :
  ring_repr q r -> PopRingEntry (Some r) Ptr = Defined (Some e, Some r') ->
  RingCount (rg_cursor r') + 1 = RingCount (rg_cursor r) /\ capacity (rg_cursor r') = capacity (rg_cursor r) /\
  exists q', ring_repr q' r'.
Proof.
  intros Hr HP. destruct (pop_keeps_repr _ _ _ _ Hr HP) as (Ho & Hr' & Hc).
  rewrite (repr_RingCount _ _ Hr), (repr_RingCount _ _ Hr'). destruct q as [|e' q]; [done|]. cbn in *.
  rewrite Zlen_cons. split; [lia|]. split; [done|by eexists].
Qed.

Lemma was_full_iff q (r : RingMem E) :
  ring_repr q r -> RingWasFullBeforePop (rg_cursor r) = true <-> RingCount (rg_cursor r) + 1 = capacity (rg_cursor r).
Proof.
  intros Hr. unfold RingWasFullBeforePop. rewrite (repr_RingCount _ _ Hr). pose proof (repr_capacity _ _ Hr).
  pose proof (Zlen_nonneg q). unfold MAX_RING_ENTRIES in *.
  rewrite u32_id by (unfold is_u32; lia). destruct (Z.eqb_spec (capacity (rg_cursor r)) 0); [lia|]. cbn.
  apply Z.eqb_eq.
Qed.

Lemma request_step_inv s s' : request_inv s -> request_step s s' -> request_inv s'.
Proof.
  intros ([q Hr] & Hc & Hd) Hs. destruct Hs as
    [r credit d e r' HP|r credit d e r' HP|r credit d Hpos|r credit p flag e r' HP|r credit p flag|r credit p flag]; cbn in *.
  - destruct (push_keeps_repr _ _ _ _ _ Hr HP) as (q' & ? & _). split; [by eexists|]. by split.
  - destruct (push_keeps_repr _ _ _ _ _ Hr HP) as (q' & Hr' & Hf). split; [by eexists|]. split; [done|]. intros _ _.
    unfold credit_due. cbn. rewrite (repr_RingCount _ _ Hr'), Hf by done. destruct d; [by right|right; by left].
  - split; [by eexists|]. by split.
  - destruct (pop_count _ _ _ _ Hr HP) as (Hn & Hcap & Hr'). split; [done|]. split; [done|]. intros Hp H0.
    destruct (Hd Hp H0) as [->|Hfull]; [by left|]. right. right. cbn in *. lia.
  - split; [by eexists|]. split; [done|]. intros Hp H0. destruct (Hd Hp H0) as [->|[Hfull|Hone]]; [by left|by right|].
    left. apply orb_true_iff. right. by apply (was_full_iff _ _ Hr).
  - split; [by eexists|]. split; [destruct flag; cbn; lia|]. intros Hp H0. destruct flag; cbn in *; [lia|]. by apply (Hd Hp).
Qed.

Lemma request_reachable_inv s0 s : request_start s0 -> rtc request_step s0 s -> request_inv s.
Proof.
  intros (Hr & Hc & Hp & _) Hs. assert (Hi : request_inv s0) by (split; [by eexists|split; [lia|congruence]]).
  clear Hr Hc Hp. induction Hs as [|s1 s2 s3 Hs _ IH]; [done|]. by eapply IH, request_step_inv.
Qed.

(** C22: no request credit is lost.  However the client's pushes and the
    server's draining interleave: when the client waits for a credit, none is
    pending and the server is not in the middle of draining, the ring is
    still full.  So the server has something to take, and taking it makes it
    signal. *)
Theorem request_credit_never_lost s0 s :
  request_start s0 -> rtc request_step s0 s ->
  rc_producer s = AwaitingCredit -> rc_credit s = 0 -> rc_drainer s = Draining false ->
  RingCount (rg_cursor (rc_ring s)) = capacity (rg_cursor (rc_ring s)) /\
  exists e r', PopRingEntry (Some (rc_ring s)) Ptr = Defined (Some e, Some r') /\
    RingWasFullBeforePop (rg_cursor r') = true.
Proof.
  intros H0 Hs Hp Hc Hd. destruct (request_reachable_inv s0 s H0 Hs) as ([q Hr] & _ & Hdue).
  specialize (Hdue Hp Hc). unfold credit_due in Hdue. rewrite Hd in Hdue. destruct Hdue as [|Hfull]; [done|].
  split; [done|]. rewrite (repr_RingCount _ _ Hr) in Hfull. pose proof (repr_capacity _ _ Hr).
  destruct (PopRingEntry_refines q _ Hr) as (r' & HP & Hr' & Hcap). destruct q as [|e q]; [rewrite Zlen_nil in *; lia|].
  exists e, r'. split; [done|]. apply (was_full_iff _ _ Hr'). rewrite (repr_RingCount _ _ Hr'), Hcap. cbn.
  rewrite Zlen_cons in Hfull. lia.
Qed.

(** ** A response credit can be lost *)

(** Nobody will wake the producer: it waits, no signal is pending, the ring is
    empty, and the consumer has nothing in its hand. *)
Definition starved (s : response_side) : Prop :=
  ra_producer s = AwaitingCredit /\ ra_credit s = 0 /\ tail (rg_cursor (ra_ring s)) = head (rg_cursor (ra_ring s)) /\
  match ra_reader s with ReaderPopped _ => False | _ => True end.

Lemma starved_forever s s' : starved s -> rtc response_step s s' -> starved s'.
Proof.
  intros Hst Hs. induction Hs as [|s1 s2 s3 Hs _ IH]; [done|]. apply IH. clear IH.
  destruct Hst as (Hp & Hc & He & Hr). destruct Hs as
    [| |r credit d Hpos|r credit p|r credit p flag e r' HP|r credit p flag r' HP|]; cbn in *; try done; [lia| |].
  - unfold PopRingEntry in HP. apply Z.eqb_eq in He. by rewrite He in HP.
  - unfold PopRingEntry in HP. pose proof He as He'. apply Z.eqb_eq in He'. rewrite He' in HP. by injection HP as <-.
Qed.

End Credits.
Arguments request_side : clear implicits.
Arguments response_side : clear implicits.

Module CreditDemo.

(** A ring of [n] slots after [h] pops and [t] pushes. *)
Definition ring (n : nat) (h t : Z) : RingMem Z := MkRing (Build_RingCursor h t (Z.of_nat n) 0) (replicate n 0).

Lemma ring_empty n : (0 < n)%nat -> Z.of_nat n <= MAX_RING_ENTRIES -> (Z.of_nat n | 2 ^ 32) -> ring_repr [] (ring n 0 0).
Proof.
  intros Hn Hm Hd. exists 0. unfold ring_repr_at, ring, Zlen. cbn -[Z.pow Z.divide]. rewrite length_replicate.
  split_and!; try done; lia.
Qed.

Definition request (h t : Z) (p : producer) : request_side Z :=
  {| rc_ring := ring 1 h t; rc_credit := 0; rc_producer := p; rc_drainer := Draining false |}.

Lemma request_path : rtc request_step (request 0 0 Producing) (request 0 1 AwaitingCredit).
Proof.
  apply (rtc_l _ _ (request 0 1 Producing)); [by apply (rq_push _ _ _ 0)|].
  apply rtc_once. by apply (rq_full _ _ _ 0).
Qed.

Definition response (h t : Z) (p : producer) (d : reader) : response_side Z :=
  {| ra_ring := ring 2 h t; ra_credit := 0; ra_producer := p; ra_reader := d |}.

(** The client has looked at a ring with one free slot; the server fills it,
    finds the ring full and waits; the client takes both entries. *)
Lemma response_path : rtc response_step (response 0 0 Producing ReaderIdle) (response 2 2 AwaitingCredit ReaderIdle).
Proof.
  apply (rtc_l _ _ (response 0 1 Producing ReaderIdle)); [by apply (rs_push _ _ _ 0)|].
  apply (rtc_l _ _ (response 0 1 Producing (ReaderLooked false))); [apply rs_look|].
  apply (rtc_l _ _ (response 0 2 Producing (ReaderLooked false))); [by apply (rs_push _ _ _ 0)|].
  apply (rtc_l _ _ (response 0 2 AwaitingCredit (ReaderLooked false))); [by apply (rs_full _ _ _ 0)|].
  apply (rtc_l _ _ (response 1 2 AwaitingCredit (ReaderPopped false))); [by apply (rs_pop _ _ _ _ 0)|].
  apply (rtc_l _ _ (response 1 2 AwaitingCredit ReaderIdle)); [apply (rs_signal _ _ _ false)|].
  apply (rtc_l _ _ (response 1 2 AwaitingCredit (ReaderLooked false))); [apply rs_look|].
  apply (rtc_l _ _ (response 2 2 AwaitingCredit (ReaderPopped false))); [by apply (rs_pop _ _ _ _ 0)|].
  apply rtc_once. apply (rs_signal _ _ _ false).
Qed.

End CreditDemo.
Import CreditDemo.

Lemma request_credit_never_lost_witness :
  RingCount (rg_cursor (ring 1 0 1)) = 1 /\
  exists e r', PopRingEntry (Some (ring 1 0 1)) Ptr = Defined (Some e, Some r') /\
    RingWasFullBeforePop (rg_cursor r') = true.
Proof.
  apply (request_credit_never_lost (request 0 0 Producing) (request 0 1 AwaitingCredit)); try reflexivity.
  - split; [apply ring_empty; [lia|unfold MAX_RING_ENTRIES; lia|exists (2 ^ 32); lia]|done].
  - apply request_path.
Defined.

(** C23: a response credit can be lost.  [DrainResponseRing] looks whether the
    ring is full before it pops.  When the server fills the last slot between
    the look and the pop and then waits for a credit, the client takes every
    response without signalling: the server waits on an empty ring, and no
    continuation wakes it up before its retry budget is over and it declares
    the session broken. *)
Theorem response_credit_lost :
  exists s0 s : response_side Z, response_start s0 /\ rtc response_step s0 s /\
    forall s', rtc response_step s s' ->
      ra_producer s' = AwaitingCredit /\ ra_credit s' = 0 /\ RingCount (rg_cursor (ra_ring s')) = 0.
Proof.
  exists (response 0 0 Producing ReaderIdle), (response 2 2 AwaitingCredit ReaderIdle).
  split; [split; [apply ring_empty; [lia|unfold MAX_RING_ENTRIES; lia|exists (2 ^ 31); lia]|done]|].
  split; [apply response_path|]. intros s' Hs. apply starved_forever in Hs as (? & ? & He & _); [|done].
  split; [done|]. split; [done|]. unfold RingCount. by rewrite He, Z.sub_diag.
Qed.
