(* ===== verification/FilePayload.v ===== *)
(** * File payloads

    memrpc/src/core/file_payload.cpp: a payload too large for a ring entry
    travels as a file, and the entry carries an envelope naming it.  The file
    system is not part of the sources: its calls are the parameter [PosixFs],
    and what the code relies on are the laws [PosixFsLaws]. *)

From Stdlib Require Import Lia String Ascii.
From stdpp Require Import pretty.
From S2P Require Import Prelude Types ByteCodec.

Local Open Scope string_scope.
Local Open Scope list_scope.
Local Open Scope Z_scope.

Definition DEFAULT_FILE_PAYLOAD_DIR : string := "/tmp/cache/file_payload".
Definition FILE_PAYLOAD_ENVELOPE_MAGIC : Z := 0x56465031.
Definition FILE_PAYLOAD_ENVELOPE_VERSION : Z := 1.
Definition PAYLOAD_KIND_INLINE : Z := 0.
Definition PAYLOAD_KIND_FILE_REF : Z := 1.
Definition MAX_FILE_PAYLOAD_BYTES : Z := 128 * 1024 * 1024.

Record FilePayloadRef : Type := { fr_path : string; fr_size : Z }.

Definition FilePayloadRef_default : FilePayloadRef := {| fr_path := ""; fr_size := 0 |}.

(** ** The system calls *)

Definition ENOENT : Z := 2.
Definition EINTR : Z := 4.
Definition EEXIST : Z := 17.

(** Each call takes the state of the file system and returns the next one.
    [0] is success where an errno is returned. *)
Class PosixFs (FS : Type) : Type := {
  fs_mkdir : string -> FS -> Z * FS;              (* errno *)
  fs_stat_dir : string -> FS -> Z * bool;         (* errno, S_ISDIR *)
  fs_create : string -> FS -> Z * FS;             (* O_CREAT|O_EXCL|O_WRONLY: fd or -1 *)
  fs_open : string -> FS -> Z * FS;               (* O_RDONLY: fd or -1 *)
  fs_write : Z -> bytes -> FS -> (Z * Z) * FS;    (* bytes written or -1, errno *)
  fs_read : Z -> Z -> FS -> (Z * Z * bytes) * FS; (* bytes read or -1, errno, data *)
  fs_fstat : Z -> FS -> option Z;                 (* st_size *)
  fs_close : Z -> FS -> Z * FS;                   (* 0 or -1 *)
  fs_unlink : string -> FS -> Z * FS;             (* errno *)
  fs_listdir : string -> FS -> Z * list string;   (* errno of opendir, names *)
}.

(** ** Path helpers *)

(** [path.rfind('/')]. *)
Fixpoint rfind_slash (s : string) : option nat :=
  match s with
  | EmptyString => None
  | String c rest =>
      match rfind_slash rest with
      | Some n => Some (S n)
      | None => if Ascii.eqb c "/"%char then Some 0%nat else None
      end
  end.

Definition ParentDir (path : string) : string :=
  match rfind_slash path with
  | None => ""
  | Some 0%nat => ""
  | Some slash => substring 0 slash path
  end.

(** [path.find("..") != std::string::npos]. *)
Fixpoint contains_dotdot (s : string) : bool :=
  match s with
  | String "." ((String "." _) as rest) => true
  | String _ rest => contains_dotdot rest
  | EmptyString => false
  end.

Definition IsPathInsideFilePayloadRoot (dir path : string) : bool :=
  String.prefix (dir +:+ "/") path && negb (contains_dotdot path).

(** [dir/pid_ts_seq]; the process id, the clock reading and the value of the
    process-wide counter come from the environment. *)
Record path_env : Type := { pe_pid : Z; pe_ts : Z; pe_seq : Z }.

Definition MakeFilePayloadPath (env : path_env) (dir : string) : string :=
  dir +:+ "/" +:+ pretty (pe_pid env) +:+ "_" +:+ pretty (pe_ts env) +:+ "_" +:+ pretty (pe_seq env).

Section FilePayload.
Context {FS : Type} `{PosixFs FS}.
Implicit Types (fs : FS).

(** The recursion goes to the parent directory; [errno] is threaded because
    the test after the recursive call reads whatever failed last. *)
Fixpoint EnsureFilePayloadDir (fuel : nat) (dir : string) (errno : Z) (fs : FS)
    : run (bool * Z * FS) :=
  match fuel with
  | O => OutOfFuel
  | S fuel =>
      if bool_decide (dir = "") then Returns (false, errno, fs)
      else
        let '(e, fs) := fs_mkdir dir fs in
        if e =? 0 then Returns (true, errno, fs)
        else if e =? EEXIST then
          let '(se, is_dir) := fs_stat_dir dir fs in
          Returns ((se =? 0) && is_dir, if se =? 0 then e else se, fs)
        else if e =? ENOENT then
          let parent := ParentDir dir in
          let! (made, e, fs) :=
            if bool_decide (parent = "") then Returns (false, e, fs)
            else
              let! (ok, e, fs) := EnsureFilePayloadDir fuel parent e fs in
              if ok then
                let '(e2, fs) := fs_mkdir dir fs in
                Returns (e2 =? 0, if e2 =? 0 then e else e2, fs)
              else Returns (false, e, fs) in
          if made then Returns (true, e, fs)
          else if e =? EEXIST then
            let '(se, is_dir) := fs_stat_dir dir fs in
            Returns ((se =? 0) && is_dir, if se =? 0 then e else se, fs)
          else Returns (false, e, fs)
        else Returns (false, e, fs)
  end.

(** The write loop over what remains of the data. *)
Fixpoint WriteAll (fuel : nat) (fd : Z) (data : bytes) (fs : FS) : run (bool * FS) :=
  match data with
  | [] => Returns (true, fs)
  | _ =>
      match fuel with
      | O => OutOfFuel
      | S fuel =>
          let '((n, e), fs) := fs_write fd data fs in
          if n <? 0 then
            if e =? EINTR then WriteAll fuel fd data fs else Returns (false, fs)
          else if n =? 0 then Returns (false, fs)
          else WriteAll fuel fd (Zdrop n data) fs
      end
  end.

(** The read loop, [want] bytes still missing after [acc]. *)
Fixpoint read_loop (fuel : nat) (fd want : Z) (acc : bytes) (fs : FS) : run (bool * bytes * FS) :=
  if want <=? 0 then Returns (true, acc, fs)
  else
    match fuel with
    | O => OutOfFuel
    | S fuel =>
        let '((n, e, data), fs) := fs_read fd want fs in
        if n <? 0 then
          if e =? EINTR then read_loop fuel fd want acc fs else Returns (false, acc, fs)
        else if n =? 0 then Returns (false, acc, fs)
        else read_loop fuel fd (want - n) (acc ++ data) fs
    end.

Definition ReadAll (fuel : nat) (fd : Z) (payload : outptr) (fs : FS) : run (bool * bytes * FS) :=
  match payload with
  | Null => Returns (false, [], fs)
  | Ptr =>
      match fs_fstat fd fs with
      | None => Returns (false, [], fs)
      | Some size =>
          if (size <? 0) || (MAX_FILE_PAYLOAD_BYTES <? size) then Returns (false, [], fs)
          else read_loop fuel fd size [] fs
      end
  end.

(** [UnlinkFilePayload]; its last argument only selects the log level. *)
Definition UnlinkFilePayload (dir : string) (ref : FilePayloadRef) (fs : FS) : bool * FS :=
  if bool_decide (fr_path ref = "") || (MAX_FILE_PAYLOAD_BYTES <? fr_size ref) ||
     negb (IsPathInsideFilePayloadRoot dir (fr_path ref))
  then (false, fs)
  else
    let '(e, fs) := fs_unlink (fr_path ref) fs in
    if negb (e =? 0) && negb (e =? ENOENT) then (false, fs) else (true, fs).

Definition RemoveFilePayload (dir : string) (ref : FilePayloadRef) (fs : FS) : bool * FS :=
  UnlinkFilePayload dir ref fs.

(** One round of the [readdir] loop. *)
Definition clear_entry (dir : string) (fs : FS) (name : string) : FS :=
  if bool_decide (name = ".") || bool_decide (name = "..") then fs
  else
    let path := dir +:+ "/" +:+ name in
    let '(se, is_dir) := fs_stat_dir path fs in
    if (se =? 0) && is_dir then fs else snd (fs_unlink path fs).

Definition ClearFilePayloads (fuel : nat) (dir : string) (fs : FS) : run (bool * FS) :=
  let! (ok, _, fs) := EnsureFilePayloadDir fuel dir 0 fs in
  if negb ok then Returns (false, fs)
  else
    let '(e, names) := fs_listdir dir fs in
    if negb (e =? 0) then Returns (e =? ENOENT, fs)
    else Returns (true, fold_left (clear_entry dir) names fs).

Definition WriteFilePayload (fuel : nat) (env : path_env) (dir : string) (payload : bytes)
    (ref : outptr) (fs : FS) : run (bool * FilePayloadRef * FS) :=
  match ref with
  | Null => Returns (false, FilePayloadRef_default, fs)
  | Ptr =>
      if (2 ^ 32 - 1 <? Zlen payload) || (MAX_FILE_PAYLOAD_BYTES <? Zlen payload)
      then Returns (false, FilePayloadRef_default, fs)
      else
        let! (ok, _, fs) := EnsureFilePayloadDir fuel dir 0 fs in
        if negb ok then Returns (false, FilePayloadRef_default, fs)
        else
          let path := MakeFilePayloadPath env dir in
          let '(fd, fs) := fs_create path fs in
          if fd <? 0 then Returns (false, FilePayloadRef_default, fs)
          else
            let! (ok, fs) := WriteAll fuel fd payload fs in
            let '(rc, fs) := fs_close fd fs in
            if negb (ok && (rc =? 0))
            then Returns (false, FilePayloadRef_default, snd (fs_unlink path fs))
            else Returns (true, {| fr_path := path; fr_size := u32 (Zlen payload) |}, fs)
  end.

Definition ReadAndRemoveFilePayload (fuel : nat) (dir : string) (ref : FilePayloadRef)
    (payload : outptr) (fs : FS) : run (bool * bytes * FS) :=
  match payload with
  | Null => Returns (false, [], fs)
  | Ptr =>
      if bool_decide (fr_path ref = "") || (MAX_FILE_PAYLOAD_BYTES <? fr_size ref) ||
         negb (IsPathInsideFilePayloadRoot dir (fr_path ref))
      then Returns (false, [], fs)
      else
        let '(fd, fs) := fs_open (fr_path ref) fs in
        if fd <? 0 then Returns (false, [], snd (RemoveFilePayload dir ref fs))
        else
          let! (ok, data, fs) := ReadAll fuel fd Ptr fs in
          let '(_, fs) := fs_close fd fs in
          let '(_, fs) := RemoveFilePayload dir ref fs in
          if negb ok || negb (Zlen data =? fr_size ref) then Returns (false, [], fs)
          else Returns (true, data, fs)
  end.

Definition EncodeFilePayloadEnvelope (ref : FilePayloadRef) (payload : outptr)
    : defined (bool * bytes) :=
  match payload with
  | Null => Defined (false, [])
  | Ptr =>
      AssignBytes
        (WriteUint32 FILE_PAYLOAD_ENVELOPE_MAGIC &&w WriteUint32 FILE_PAYLOAD_ENVELOPE_VERSION &&w
         WriteUint32 (fr_size ref) &&w WriteString (fr_path ref)) Ptr
  end.

Definition DecodeFilePayloadEnvelope (mem : option bytes) (size : Z) (ref : outptr)
    : read_result FilePayloadRef :=
  match ref with
  | Null => ReadFail (MakeByteReader mem size)
  | Ptr =>
      (magic <-r ReadUint32 Ptr;
       if negb (magic =? FILE_PAYLOAD_ENVELOPE_MAGIC) then rd_fail
       else
         version <-r ReadUint32 Ptr;
         if negb (version =? FILE_PAYLOAD_ENVELOPE_VERSION) then rd_fail
         else
           payloadSize <-r ReadUint32 Ptr;
           path <-r ReadString Ptr;
           if bool_decide (path = "") then rd_fail
           else rd_ret {| fr_path := path; fr_size := payloadSize |})%reader
        (MakeByteReader mem size)
  end.

Definition PrepareFilePayloadForTransport (fuel : nat) (env : path_env) (dir : string)
    (payload : bytes) (maxTransportBytes : Z) (transportPayload payloadKind : outptr) (fs : FS)
    : run (bool * bytes * Z * FS) :=
  match transportPayload, payloadKind with
  | Ptr, Ptr =>
      if Zlen payload <=? maxTransportBytes
      then Returns (true, payload, PAYLOAD_KIND_INLINE, fs)
      else
        let! (ok, fileRef, fs) := WriteFilePayload fuel env dir payload Ptr fs in
        let! (ok, envelope) :=
          if ok then run_of_defined (EncodeFilePayloadEnvelope fileRef Ptr)
          else Returns (false, []) in
        if negb ok
        then Returns (false, [], PAYLOAD_KIND_INLINE, snd (RemoveFilePayload dir fileRef fs))
        else if maxTransportBytes <? Zlen envelope
        then Returns (false, [], PAYLOAD_KIND_INLINE, snd (RemoveFilePayload dir fileRef fs))
        else Returns (true, envelope, PAYLOAD_KIND_FILE_REF, fs)
  | _, _ => Returns (false, [], PAYLOAD_KIND_INLINE, fs)
  end.

Definition RemoveFilePayloadFromTransport (dir : string) (mem : option bytes) (size : Z)
    (payloadKind : Z) (fs : FS) : defined (bool * FS) :=
  if payloadKind =? PAYLOAD_KIND_INLINE then Defined (true, fs)
  else if negb (payloadKind =? PAYLOAD_KIND_FILE_REF) then Defined (false, fs)
  else
    match DecodeFilePayloadEnvelope mem size Ptr with
    | ReadOk ref _ => Defined (RemoveFilePayload dir ref fs)
    | ReadFail _ => Defined (false, fs)
    | ReadOutOfBounds => Undefined
    end.

Definition ResolveFilePayloadFromTransport (fuel : nat) (dir : string) (mem : option bytes)
    (size : Z) (payloadKind : Z) (payload : outptr) (fs : FS) : run (bool * bytes * FS) :=
  match payload with
  | Null => Returns (false, [], fs)
  | Ptr =>
      if payloadKind =? PAYLOAD_KIND_INLINE then
        if size =? 0 then Returns (true, [], fs)
        else
          match mem with
          | None => Returns (false, [], fs)
          | Some m =>
              if Zlen m <? size then RunUndefined else Returns (true, Ztake size m, fs)
          end
      else if negb (payloadKind =? PAYLOAD_KIND_FILE_REF) then Returns (false, [], fs)
      else
        match DecodeFilePayloadEnvelope mem size Ptr with
        | ReadOk ref _ => ReadAndRemoveFilePayload fuel dir ref Ptr fs
        | ReadFail _ => Returns (false, [], fs)
        | ReadOutOfBounds => RunUndefined
        end
  end.

End FilePayload.

(** ** What the code relies on of the file system

    [fs_file] gives the contents of the regular files, [fs_fd] the file and
    the position of an open descriptor, [fs_interrupts] a bound on the signals
    still to arrive: only finitely many calls are interrupted. *)
Class PosixFsLaws (FS : Type) `{PosixFs FS} : Type := {
  fs_file : FS -> string -> option bytes;
  fs_fd : FS -> Z -> option (string * Z);
  fs_interrupts : FS -> nat;
  mkdir_law p fs e fs' : fs_mkdir p fs = (e, fs') ->
    (forall q, fs_file fs' q = fs_file fs q) /\ fs_interrupts fs' = fs_interrupts fs;
  create_law p fs fd fs' : fs_create p fs = (fd, fs') ->
    fs_interrupts fs' = fs_interrupts fs /\
    (fd < 0 -> forall q, fs_file fs' q = fs_file fs q) /\
    (0 <= fd ->
       fs_file fs p = None /\ fs_file fs' p = Some [] /\ fs_fd fs' fd = Some (p, 0) /\
       forall q, q <> p -> fs_file fs' q = fs_file fs q);
  write_law fd data fs n e fs' p c : fs_write fd data fs = ((n, e), fs') ->
    fs_fd fs fd = Some (p, Zlen c) -> fs_file fs p = Some c ->
    n <= Zlen data /\ fs_file fs' p = Some (c ++ Ztake n data) /\
    fs_fd fs' fd = Some (p, Zlen c + Z.max 0 n) /\
    (forall q, q <> p -> fs_file fs' q = fs_file fs q) /\
    (fs_interrupts fs' <= fs_interrupts fs)%nat /\
    (n < 0 -> e = EINTR -> (fs_interrupts fs' < fs_interrupts fs)%nat);
  close_law fd fs rc fs' : fs_close fd fs = (rc, fs') ->
    (forall q, fs_file fs' q = fs_file fs q) /\ fs_interrupts fs' = fs_interrupts fs;
  open_law p fs fd fs' : fs_open p fs = (fd, fs') ->
    (forall q, fs_file fs' q = fs_file fs q) /\ fs_interrupts fs' = fs_interrupts fs /\
    (0 <= fd -> fs_fd fs' fd = Some (p, 0));
  fstat_law fd fs p pos c : fs_fd fs fd = Some (p, pos) -> fs_file fs p = Some c ->
    fs_fstat fd fs = Some (Zlen c);
  read_files fd want fs r fs' : fs_read fd want fs = (r, fs') ->
    forall q, fs_file fs' q = fs_file fs q;
  read_law fd want fs n e data fs' p pos c : fs_read fd want fs = ((n, e, data), fs') ->
    fs_fd fs fd = Some (p, pos) -> fs_file fs p = Some c -> 0 <= pos <= Zlen c -> 0 < want ->
    (0 <= n -> n <= want /\ pos + n <= Zlen c /\ data = Zslice pos n c /\
               fs_fd fs' fd = Some (p, pos + n) /\ (pos < Zlen c -> 0 < n) /\
               (fs_interrupts fs' <= fs_interrupts fs)%nat) /\
    (n < 0 -> fs_fd fs' fd = Some (p, pos) /\
              (e = EINTR -> (fs_interrupts fs' < fs_interrupts fs)%nat));
  unlink_law p fs e fs' : fs_unlink p fs = (e, fs') ->
    (forall q, q <> p -> fs_file fs' q = fs_file fs q) /\
    fs_interrupts fs' = fs_interrupts fs /\ (e = 0 -> fs_file fs' p = None) /\
    (e <> 0 -> fs_file fs' p = fs_file fs p);
}.

(** No I/O errors: an existing file opens for reading, a read fails only when
    interrupted, an existing file can be removed. *)
Class PosixFsReliable (FS : Type) `{PosixFsLaws FS} : Prop := {
  open_reliable p fs : is_Some (fs_file fs p) -> 0 <= fst (fs_open p fs);
  read_reliable fd want fs n e data fs' p pos c : fs_read fd want fs = ((n, e, data), fs') ->
    fs_fd fs fd = Some (p, pos) -> fs_file fs p = Some c -> n < 0 -> e = EINTR;
  unlink_reliable p fs : is_Some (fs_file fs p) -> fst (fs_unlink p fs) = 0;
}.

(** ** Paths stay inside the payload directory *)

(** A string without ['.']: what [std::to_string] prints. *)
Fixpoint no_dot (s : string) : bool :=
  match s with
  | EmptyString => true
  | String c rest => negb (Ascii.eqb c "."%char) && no_dot rest
  end.

Lemma no_dot_app a b : no_dot (a +:+ b) = no_dot a && no_dot b.
Proof.
  induction a as [|c a IH]; [done|].
  change (no_dot (String c a +:+ b)) with (negb (Ascii.eqb c "."%char) && no_dot (a +:+ b)).
  rewrite IH. apply andb_assoc.
Qed.

Lemma no_dot_contains s : no_dot s = true -> contains_dotdot s = false.
Proof.
  induction s as [|c s IH]; [done|]. cbn. intros [Hc Hs]%andb_true_iff.
  destruct c as [[] [] [] [] [] [] [] []]; try (by apply IH). discriminate.
Qed.

Lemma contains_dotdot_app_slash a b :
  contains_dotdot a = false -> no_dot b = true ->
  contains_dotdot (a +:+ String "/" b) = false.
Proof.
  induction a as [|c a IH]; intros Ha Hb; [by apply no_dot_contains|].
  assert (Ha' : contains_dotdot a = false).
  { destruct c as [[] [] [] [] [] [] [] []]; try exact Ha. destruct a; [done|].
    cbn in Ha. destruct a as [[] [] [] [] [] [] [] []]; try exact Ha; discriminate. }
  specialize (IH Ha' Hb). change (String c a +:+ String "/" b) with (String c (a +:+ String "/" b)).
  destruct c as [[] [] [] [] [] [] [] []]; try exact IH.
  destruct a as [|d a]; [exact IH|].
  change (String d a +:+ String "/" b) with (String d (a +:+ String "/" b)) in *.
  destruct d as [[] [] [] [] [] [] [] []]; try exact IH; discriminate Ha.
Qed.

Lemma pretty_N_char_no_dot x : Ascii.eqb (pretty_N_char x) "."%char = false.
Proof. unfold pretty_N_char. by repeat case_match. Qed.

Lemma pretty_N_go_no_dot (x : N) s : no_dot s = true -> no_dot (pretty_N_go x s) = true.
Proof.
  revert s. induction (N.lt_wf_0 x) as [x _ IH]; intros s Hs.
  destruct (decide (x = 0%N)) as [->|Hx]; [by rewrite pretty_N_go_0|].
  rewrite pretty_N_go_step by lia. apply IH.
  - by apply N.div_lt; lia.
  - cbn. by rewrite pretty_N_char_no_dot, Hs.
Qed.

Lemma pretty_Z_no_dot (z : Z) : no_dot (pretty z) = true.
Proof.
  assert (HN : forall n : N, no_dot (pretty n) = true).
  { intros n. unfold pretty, pretty_N. destruct (decide _); [done|]. by apply pretty_N_go_no_dot. }
  destruct z as [|p|p]; [done|exact (HN (N.pos p))|].
  change (pretty (Z.neg p)) with ("-" +:+ pretty (N.pos p)). rewrite no_dot_app. by rewrite HN.
Qed.

Lemma prefix_app a b : String.prefix a (a +:+ b) = true.
Proof.
  induction a as [|c a IH]; [by destruct b|].
  change (String c a +:+ b) with (String c (a +:+ b)). cbn. by destruct (ascii_dec c c).
Qed.

Lemma string_app_assoc a b c : (a +:+ b) +:+ c = a +:+ (b +:+ c).
Proof.
  induction a as [|x a IH]; [done|].
  change (String x ((a +:+ b) +:+ c) = String x (a +:+ (b +:+ c))). by rewrite IH.
Qed.

(** The paths the code makes are paths the code accepts. *)
Lemma MakeFilePayloadPath_inside env dir :
  contains_dotdot dir = false ->
  IsPathInsideFilePayloadRoot dir (MakeFilePayloadPath env dir) = true.
Proof.
  intros Hdir. unfold IsPathInsideFilePayloadRoot, MakeFilePayloadPath.
  apply andb_true_intro. split.
  - rewrite <- (string_app_assoc dir "/"). apply prefix_app.
  - apply negb_true_iff. apply contains_dotdot_app_slash; [done|].
    by rewrite !no_dot_app, !pretty_Z_no_dot.
Qed.

Lemma MakeFilePayloadPath_nonempty env dir : MakeFilePayloadPath env dir <> "".
Proof. unfold MakeFilePayloadPath. by destruct dir. Qed.

(** ** The envelope *)

Lemma EncodeFilePayloadEnvelope_eq ref :
  Zlen (to_bytes (fr_path ref)) < 2 ^ 32 ->
  EncodeFilePayloadEnvelope ref Ptr =
    Defined (true, le_bytes 4 FILE_PAYLOAD_ENVELOPE_MAGIC ++
                   le_bytes 4 FILE_PAYLOAD_ENVELOPE_VERSION ++ le_bytes 4 (fr_size ref) ++
                   (le_bytes 4 (Zlen (to_bytes (fr_path ref))) ++ to_bytes (fr_path ref))).
Proof.
  intros Hs. unfold EncodeFilePayloadEnvelope, AssignBytes, wr_and.
  autorewrite with codec. rewrite WriteString_eq by done. cbn. by rewrite <- !app_assoc.
Qed.

Lemma DecodeFilePayloadEnvelope_eq ref tl :
  is_u32 (fr_size ref) -> Zlen (to_bytes (fr_path ref)) < 2 ^ 32 -> fr_path ref <> "" ->
  Zlen tl < 2 ^ 32 ->
  let env := le_bytes 4 FILE_PAYLOAD_ENVELOPE_MAGIC ++
             le_bytes 4 FILE_PAYLOAD_ENVELOPE_VERSION ++ le_bytes 4 (fr_size ref) ++
             (le_bytes 4 (Zlen (to_bytes (fr_path ref))) ++ to_bytes (fr_path ref)) ++ tl in
  exists r, DecodeFilePayloadEnvelope (Some env) (Zlen env) Ptr = ReadOk ref r.
Proof.
  intros Hsize Hpath Hne Htl env. unfold DecodeFilePayloadEnvelope.
  change (MakeByteReader (Some env) (Zlen env)) with (reader_at [] env). subst env.
  unfold rd_bind at 1. rewrite ReadUint32_at; [|autorewrite with memrpc; lia].
  change (u32 FILE_PAYLOAD_ENVELOPE_MAGIC) with FILE_PAYLOAD_ENVELOPE_MAGIC.
  rewrite Z.eqb_refl. cbn [negb].
  unfold rd_bind at 1. rewrite ReadUint32_at; [|autorewrite with memrpc; lia].
  change (u32 FILE_PAYLOAD_ENVELOPE_VERSION) with FILE_PAYLOAD_ENVELOPE_VERSION.
  rewrite Z.eqb_refl. cbn [negb].
  unfold rd_bind at 1. rewrite ReadUint32_at; [|autorewrite with memrpc; lia].
  rewrite (u32_id (fr_size ref)) by done.
  unfold rd_bind at 1. rewrite ReadString_at; [|done|autorewrite with memrpc; lia].
  rewrite bool_decide_eq_false_2 by done. unfold rd_ret. destruct ref. eauto.
Qed.

(** ** The loops terminate and move the bytes *)

Lemma rfind_slash_lt s n : rfind_slash s = Some n -> (n < String.length s)%nat.
Proof.
  revert n. induction s as [|c s IH]; [done|]. intros n. cbn.
  destruct (rfind_slash s) as [m|]; [intros [= <-]; specialize (IH m eq_refl); lia|].
  destruct (Ascii.eqb c "/"%char); [intros [= <-]; lia|done].
Qed.

Lemma length_substring_0 n s : (n <= String.length s)%nat -> String.length (substring 0 n s) = n.
Proof.
  revert n. induction s as [|c s IH]; intros [|n] Hn; cbn in *; try lia. by rewrite IH by lia.
Qed.

Lemma ParentDir_shorter p : p <> "" -> (String.length (ParentDir p) < String.length p)%nat.
Proof.
  intros Hp. unfold ParentDir. destruct (rfind_slash p) as [[|n]|] eqn:E.
  - by destruct p; [|cbn; lia].
  - apply rfind_slash_lt in E. rewrite length_substring_0; lia.
  - by destruct p; [|cbn; lia].
Qed.

Section FilePayloadFacts.
Context {FS : Type} `{PosixFsLaws FS}.
Implicit Types (fs : FS).

(** Same regular files. *)
Definition same_files fs fs' : Prop := forall q, fs_file fs' q = fs_file fs q.

Lemma same_files_refl fs : same_files fs fs.
Proof. by intros q. Qed.

Lemma same_files_trans a b c : same_files a b -> same_files b c -> same_files a c.
Proof. intros Hab Hbc q. by rewrite Hbc. Qed.

(** [EnsureFilePayloadDir] returns when the fuel exceeds the length of the
    path, and touches no regular file. *)
Lemma EnsureFilePayloadDir_returns fuel dir e fs :
  (String.length dir < fuel)%nat ->
  exists ok e' fs', EnsureFilePayloadDir fuel dir e fs = Returns (ok, e', fs') /\
    same_files fs fs' /\ fs_interrupts fs' = fs_interrupts fs.
Proof.
  revert dir e fs. induction fuel as [|fuel IH]; intros dir e fs Hf; [lia|]. cbn.
  case_bool_decide as Hd; [by eauto 10 using same_files_refl|].
  destruct (fs_mkdir dir fs) as [e1 fs1] eqn:E1. destruct (mkdir_law _ _ _ _ E1) as [HF1 HI1].
  destruct (e1 =? 0); [by eauto 10|]. destruct (fs_stat_dir dir fs1) as [se isd].
  destruct (e1 =? EEXIST); [by eauto 10|]. destruct (e1 =? ENOENT); [|by eauto 10].
  pose proof (ParentDir_shorter dir Hd) as Hlt.
  case_bool_decide as Hp; cbn;
    [destruct (fs_stat_dir dir fs1); destruct (e1 =? EEXIST); by eauto 10|].
  destruct (IH (ParentDir dir) e1 fs1) as (ok & e2 & fs2 & -> & HF2 & HI2); [lia|]. cbn.
  destruct ok; cbn.
  - destruct (fs_mkdir dir fs2) as [e3 fs3] eqn:E3. destruct (mkdir_law _ _ _ _ E3) as [HF3 HI3].
    cbn. assert (same_files fs fs3) by (intros q; by rewrite HF3, HF2, HF1).
    destruct (e3 =? 0); [by eexists _, _, _; split_and!; [done..|congruence]|].
    destruct (fs_stat_dir dir fs3).
    by destruct (e3 =? EEXIST); eexists _, _, _; (split_and!; [done..|congruence]).
  - assert (same_files fs fs2) by (intros q; by rewrite HF2, HF1).
    destruct (fs_stat_dir dir fs2).
    by destruct (e2 =? EEXIST); eexists _, _, _; (split_and!; [done..|congruence]).
Qed.

(** [WriteAll] returns, changes only the file it writes, and a [true] result
    means that all the data is in the file. *)
Lemma WriteAll_spec fuel fd data fs p c :
  fs_fd fs fd = Some (p, Zlen c) -> fs_file fs p = Some c ->
  (length data + fs_interrupts fs <= fuel)%nat ->
  exists ok c' fs', WriteAll fuel fd data fs = Returns (ok, fs') /\ fs_file fs' p = Some c' /\
    (ok = true -> c' = c ++ data) /\ (forall q, q <> p -> fs_file fs' q = fs_file fs q) /\
    (fs_interrupts fs' <= fs_interrupts fs)%nat.
Proof.
  revert data fs c. induction fuel as [|fuel IH]; intros data fs c Hfd Hc Hf.
  { destruct data; [|cbn in Hf; lia]. exists true, c, fs. by rewrite app_nil_r. }
  destruct data as [|b data]; [exists true, c, fs; by rewrite app_nil_r|].
  cbn [WriteAll]. remember (b :: data) as d eqn:Ed.
  destruct (fs_write fd d fs) as [[n e] fs1] eqn:EW.
  destruct (write_law _ _ _ _ _ _ _ _ EW Hfd Hc) as (Hn & Hc1 & Hfd1 & Hq & Hi & HE).
  assert (Hlen : Zlen (Ztake n d) = Z.max 0 n).
  { destruct (Z.le_gt_cases 0 n); [rewrite Zlen_Ztake; lia|].
    unfold Ztake. replace (Z.to_nat n) with 0%nat by lia. rewrite take_0, Zlen_nil. lia. }
  rewrite <- Hlen, <- Zlen_app in Hfd1.
  destruct (n <? 0) eqn:En; bool_to_prop.
  - assert (Hnil : Ztake n d = []) by (unfold Ztake; by replace (Z.to_nat n) with 0%nat by lia).
    rewrite Hnil, app_nil_r in Hc1, Hfd1. destruct (e =? EINTR) eqn:Ee; bool_to_prop.
    + specialize (HE En Ee). destruct (IH d fs1 c) as (ok & c' & fs' & ? & ? & ? & Hq' & ?); [done..|lia|].
      exists ok, c', fs'. split_and!; try done; [|lia]. intros q Hne. by rewrite Hq', Hq.
    + exists false, c, fs1. by split_and!.
  - destruct (n =? 0) eqn:E0; bool_to_prop; [by exists false, (c ++ Ztake n d), fs1; split_and!|].
    destruct (IH (Zdrop n d) fs1 (c ++ Ztake n d)) as (ok & c' & fs' & ? & ? & Hok & Hq' & ?); [done..| |].
    { unfold Zdrop. rewrite length_drop. unfold Zlen in Hn. lia. }
    exists ok, c', fs'. split_and!; try done; [|intros q Hne; by rewrite Hq', Hq|lia].
    intros Ht. rewrite (Hok Ht), <- app_assoc. unfold Ztake, Zdrop. by rewrite take_drop.
Qed.

Lemma Zslice_split {A} pos n want (c : list A) :
  0 <= pos -> 0 <= n <= want -> Zslice pos n c ++ Zslice (pos + n) (want - n) c = Zslice pos want c.
Proof.
  intros Hp Hn. unfold Zslice, Ztake, Zdrop.
  rewrite (Z2Nat.inj_add pos n), (Z2Nat.inj_sub want n) by lia.
  rewrite <- drop_drop. set (l := drop _ c).
  replace (Z.to_nat want) with (Z.to_nat n + (Z.to_nat want - Z.to_nat n))%nat by lia.
  rewrite <- take_take_drop. repeat f_equal; lia.
Qed.

Lemma Zslice_all {A} (c : list A) : Zslice 0 (Zlen c) c = c.
Proof. unfold Zslice, Zdrop, Ztake, Zlen. rewrite Nat2Z.id. apply firstn_all. Qed.

(** [read_loop] returns, changes no file, and a [true] result means the bytes
    are those of the file; without I/O errors the result is [true]. *)
Lemma read_loop_spec fuel fd want acc fs p pos c :
  fs_fd fs fd = Some (p, pos) -> fs_file fs p = Some c -> 0 <= pos -> pos + want = Zlen c ->
  (Z.to_nat want + fs_interrupts fs <= fuel)%nat ->
  exists ok data fs', read_loop fuel fd want acc fs = Returns (ok, data, fs') /\
    same_files fs fs' /\ (ok = true -> data = acc ++ Zslice pos want c) /\
    (PosixFsReliable FS -> ok = true).
Proof.
  revert want acc fs pos. induction fuel as [|fuel IH]; intros want acc fs pos Hfd Hc Hp Hw Hf.
  all: cbn; destruct (want <=? 0) eqn:Ew; bool_to_prop; try lia.
  1,2: exists true, acc, fs; split_and!; try done; intros _; unfold Zslice, Ztake;
    replace (Z.to_nat want) with 0%nat by lia; by rewrite app_nil_r.
  destruct (fs_read fd want fs) as [[[n e] data] fs1] eqn:ER.
  destruct (read_law _ _ _ _ _ _ _ _ _ _ ER Hfd Hc) as (Hpos & Hneg); [lia..|].
  pose proof (read_files _ _ _ _ _ ER) as Hsame.
  destruct (n <? 0) eqn:En; bool_to_prop.
  - destruct Hneg as [Hfd1 HE]; [done|]. destruct (e =? EINTR) eqn:Ee; bool_to_prop.
    + specialize (HE Ee). destruct (IH want acc fs1 pos) as (ok & d & fs' & ? & Hs' & ? & ?);
        [done|by rewrite Hsame|lia..|].
      exists ok, d, fs'. split_and!; try done. by eapply same_files_trans.
    + exists false, acc, fs1. split_and!; try done. intros Hrel.
      exfalso. apply Ee. exact (read_reliable _ _ _ _ _ _ _ _ _ _ ER Hfd Hc En).
  - destruct Hpos as (Hn & Hle & Hdata & Hfd1 & Hpr & Hi); [lia|]. specialize (Hpr ltac:(lia)).
    destruct (n =? 0) eqn:E0; bool_to_prop; [lia|].
    destruct (IH (want - n) (acc ++ data) fs1 (pos + n)) as (ok & d & fs' & ? & Hs' & Hok & ?);
      [done|by rewrite Hsame|lia..|].
    exists ok, d, fs'. split_and!; try done; [by eapply same_files_trans|].
    intros Ht. rewrite (Hok Ht), Hdata, <- app_assoc. f_equal. apply Zslice_split; lia.
Qed.

(** The file [p] apart, the same regular files. *)
Definition same_but (p : string) fs fs' : Prop := forall q, q <> p -> fs_file fs' q = fs_file fs q.

Lemma same_but_trans p a b c : same_but p a b -> same_but p b c -> same_but p a c.
Proof. intros Hab Hbc q Hq. by rewrite Hbc, Hab. Qed.

Lemma same_but_of_same p a b : same_files a b -> same_but p a b.
Proof. intros Hab q _. apply Hab. Qed.

Lemma same_but_unlinked p a b :
  same_but p a b -> fs_file b p = fs_file a p -> same_files a b.
Proof. intros Hab Hp q. destruct (decide (q = p)) as [->|Hq]; [done|by apply Hab]. Qed.

(** Removing an existing file when [unlink] does not fail. *)
Lemma unlink_existing p fs (Hrel : PosixFsReliable FS) c :
  fs_file fs p = Some c ->
  exists fs', fs_unlink p fs = (0, fs') /\ fs_file fs' p = None /\ same_but p fs fs'.
Proof.
  intros Hc. pose proof (unlink_reliable p fs (mk_is_Some _ _ Hc)) as He.
  destruct (fs_unlink p fs) as [e fs'] eqn:E. cbn in He. subst e. exists fs'.
  destruct (unlink_law _ _ _ _ E) as (Hq & _ & Hp & _). eauto.
Qed.

Lemma RemoveFilePayload_existing dir ref fs (Hrel : PosixFsReliable FS) c :
  fr_path ref <> "" -> fr_size ref <= MAX_FILE_PAYLOAD_BYTES ->
  IsPathInsideFilePayloadRoot dir (fr_path ref) = true -> fs_file fs (fr_path ref) = Some c ->
  exists fs', RemoveFilePayload dir ref fs = (true, fs') /\ fs_file fs' (fr_path ref) = None /\
    same_but (fr_path ref) fs fs'.
Proof.
  intros Hne Hsz Hin Hc. unfold RemoveFilePayload, UnlinkFilePayload.
  rewrite bool_decide_eq_false_2, Hin by done.
  destruct (Z.ltb_spec MAX_FILE_PAYLOAD_BYTES (fr_size ref)); [lia|]. cbn [orb negb].
  destruct (unlink_existing _ _ Hrel _ Hc) as (fs' & -> & ? & ?). cbn. eauto.
Qed.

Lemma RemoveFilePayload_default dir fs : RemoveFilePayload dir FilePayloadRef_default fs = (false, fs).
Proof. done. Qed.

Definition write_ok (env : path_env) (dir : string) (payload : bytes) (ref : FilePayloadRef)
    (fs fs' : FS) : Prop :=
  let p := MakeFilePayloadPath env dir in
  ref = {| fr_path := p; fr_size := Zlen payload |} /\ Zlen payload <= MAX_FILE_PAYLOAD_BYTES /\
  fs_file fs p = None /\ fs_file fs' p = Some payload /\ same_but p fs fs'.

Lemma WriteFilePayload_spec fuel env dir payload fs :
  (String.length dir + length payload + fs_interrupts fs < fuel)%nat ->
  exists ok ref fs', WriteFilePayload fuel env dir payload Ptr fs = Returns (ok, ref, fs') /\
    (fs_interrupts fs' <= fs_interrupts fs)%nat /\
    if ok then write_ok env dir payload ref fs fs'
    else ref = FilePayloadRef_default /\ (PosixFsReliable FS -> same_files fs fs').
Proof.
  intros Hf. unfold WriteFilePayload.
  destruct (_ || _) eqn:Esz; [by eexists false, _, _|]. bool_to_prop.
  destruct (EnsureFilePayloadDir_returns fuel dir 0 fs) as (ok & e & fs0 & -> & HF0 & HI0); [lia|].
  cbn. destruct ok; cbn; [|by eexists false, _, _; split_and!; [done|lia|..]].
  set (p := MakeFilePayloadPath env dir).
  destruct (fs_create p fs0) as [fd fs1] eqn:EC.
  destruct (create_law _ _ _ _ EC) as (HI1 & Hno & Hyes).
  destruct (fd <? 0) eqn:Efd; bool_to_prop.
  { eexists false, _, _. split_and!; [done|lia|done|]. intros _ q. by rewrite Hno, HF0. }
  destruct Hyes as (Hp0 & Hp1 & Hfd1 & Hq1); [done|].
  destruct (WriteAll_spec fuel fd payload fs1 p []) as (ok & c & fs2 & -> & Hc & Hok & Hq2 & HI2);
    [done..|lia|]. cbn.
  destruct (fs_close fd fs2) as [rc fs3] eqn:ECl. destruct (close_law _ _ _ _ ECl) as [HF3 HI3].
  assert (Hsame : same_but p fs fs3).
  { intros q Hq. by rewrite HF3, Hq2, Hq1, HF0. }
  destruct (ok && (rc =? 0)) eqn:Eok; cbn; bool_to_prop.
  - eexists true, _, fs3. split_and!; [done|lia|]. unfold write_ok. fold p.
    rewrite u32_id by (unfold is_u32; pose proof (Zlen_nonneg payload); lia).
    split_and!; try done; [by rewrite <- HF0|]. rewrite HF3, Hc. by rewrite Hok.
  - destruct (fs_unlink p fs3) as [e3 fs4] eqn:EU.
    destruct (unlink_law _ _ _ _ EU) as (_ & HI4 & _).
    eexists false, _, fs4. split_and!; [done|cbn; lia|done|]. intros Hrel.
    destruct (unlink_existing p fs3 Hrel c) as (? & EU' & Hnone & Hbut); [by rewrite HF3|].
    rewrite EU in EU'. simplify_eq.
    apply (same_but_unlinked p); [by eapply same_but_trans|]. by rewrite Hnone, <- HF0.
Qed.

(** Reading back a complete file removes it. *)
Lemma ReadAndRemoveFilePayload_spec fuel dir ref fs c :
  PosixFsReliable FS ->
  fr_path ref <> "" -> IsPathInsideFilePayloadRoot dir (fr_path ref) = true ->
  fs_file fs (fr_path ref) = Some c -> fr_size ref = Zlen c -> Zlen c <= MAX_FILE_PAYLOAD_BYTES ->
  (length c + fs_interrupts fs < fuel)%nat ->
  exists fs', ReadAndRemoveFilePayload fuel dir ref Ptr fs = Returns (true, c, fs') /\
    fs_file fs' (fr_path ref) = None /\ same_but (fr_path ref) fs fs'.
Proof.
  intros Hrel Hne Hin Hc Hsz Hmax Hf. unfold ReadAndRemoveFilePayload.
  rewrite bool_decide_eq_false_2, Hin by done.
  destruct (Z.ltb_spec MAX_FILE_PAYLOAD_BYTES (fr_size ref)); [lia|]. cbn [orb negb].
  pose proof (open_reliable (fr_path ref) fs (mk_is_Some _ _ Hc)) as Hfd.
  destruct (fs_open (fr_path ref) fs) as [fd fs1] eqn:EO. cbn in Hfd.
  destruct (open_law _ _ _ _ EO) as (HF1 & HI1 & Hpos). specialize (Hpos Hfd).
  destruct (Z.ltb_spec fd 0); [lia|]. unfold ReadAll.
  rewrite (fstat_law fd fs1 _ _ c Hpos) by (by rewrite HF1).
  pose proof (Zlen_nonneg c).
  destruct (Z.ltb_spec (Zlen c) 0); [lia|].
  destruct (Z.ltb_spec MAX_FILE_PAYLOAD_BYTES (Zlen c)); [lia|]. cbn [orb].
  destruct (read_loop_spec fuel fd (Zlen c) [] fs1 (fr_path ref) 0 c)
    as (ok & data & fs2 & -> & HF2 & Hdata & Hok);
    [done|by rewrite HF1|lia|lia|unfold Zlen; lia|]. cbn.
  specialize (Hok Hrel). subst ok. rewrite Hdata by done. cbn [app].
  rewrite Zslice_all.
  destruct (fs_close fd fs2) as [rc fs3] eqn:ECl. destruct (close_law _ _ _ _ ECl) as [HF3 _].
  assert (Hs3 : same_files fs fs3) by (intros q; by rewrite HF3, HF2, HF1).
  destruct (RemoveFilePayload_existing dir ref fs3 Hrel c) as (fs4 & -> & Hn & Hb);
    [done|lia|done|by rewrite Hs3|].
  rewrite Hsz, Z.eqb_refl. cbn. exists fs4. split_and!; try done.
  eapply same_but_trans; [by apply same_but_of_same|done].
Qed.

Lemma RemoveFilePayload_interrupts dir ref fs ok fs' :
  RemoveFilePayload dir ref fs = (ok, fs') -> (fs_interrupts fs' <= fs_interrupts fs)%nat.
Proof.
  unfold RemoveFilePayload, UnlinkFilePayload. case_match; [by intros [= _ <-]|].
  destruct (fs_unlink _ fs) as [e fs1] eqn:E. destruct (unlink_law _ _ _ _ E) as (_ & HI & _).
  case_match; intros [= _ <-]; lia.
Qed.

(** The bytes of an envelope. *)
Definition envelope_bytes (ref : FilePayloadRef) : bytes :=
  le_bytes 4 FILE_PAYLOAD_ENVELOPE_MAGIC ++ le_bytes 4 FILE_PAYLOAD_ENVELOPE_VERSION ++ le_bytes 4 (fr_size ref) ++
  (le_bytes 4 (Zlen (to_bytes (fr_path ref))) ++ to_bytes (fr_path ref)).

(** What is on the transport stands for [payload]: the payload itself, or the
    envelope of the file [p] that holds it. *)
Definition carries (dir : string) (payload tp : bytes) (kind : Z) (file : option string) (fs : FS) : Prop :=
  match file with
  | None => kind = PAYLOAD_KIND_INLINE /\ tp = payload
  | Some p =>
      kind = PAYLOAD_KIND_FILE_REF /\ p <> "" /\ IsPathInsideFilePayloadRoot dir p = true /\
      Zlen (to_bytes p) < 2 ^ 32 /\ fs_file fs p = Some payload /\ Zlen payload <= MAX_FILE_PAYLOAD_BYTES /\
      tp = envelope_bytes {| fr_path := p; fr_size := Zlen payload |}
  end.

(** The file, if there is one, is gone; every other file is as before. *)
Definition consumed (file : option string) (fs fs' : FS) : Prop :=
  match file with None => fs' = fs | Some p => fs_file fs' p = None /\ same_but p fs fs' end.

Lemma DecodeFilePayloadEnvelope_local mem pad size :
  0 <= size <= Zlen mem -> size < 2 ^ 63 ->
  DecodeFilePayloadEnvelope (Some (mem ++ pad)) size Ptr =
    match DecodeFilePayloadEnvelope (Some mem) size Ptr with
    | ReadOk a r => ReadOk a (padded pad r)
    | ReadFail r => ReadFail (padded pad r)
    | ReadOutOfBounds => ReadOutOfBounds
    end.
Proof.
  intros Hs Hb. unfold DecodeFilePayloadEnvelope.
  change (MakeByteReader (Some (mem ++ pad)) size) with (padded pad (MakeByteReader (Some mem) size)).
  match goal with |- ?m _ = _ => assert (Hm : reader_local m) end; [|apply Hm; unfold reader_wf; cbn; lia].
  repeat (apply rd_bind_local; [auto with memrpc|auto with memrpc|intros]; repeat case_match; auto with memrpc).
Qed.

(** Resolving what carries a payload gives the payload, whatever follows it in
    the array of the entry. *)
Lemma Resolve_carries fuel dir payload tp kind file pad fs :
  PosixFsReliable FS -> carries dir payload tp kind file fs -> Zlen tp < 2 ^ 63 ->
  (length payload + fs_interrupts fs < fuel)%nat ->
  exists fs', ResolveFilePayloadFromTransport fuel dir (Some (tp ++ pad)) (Zlen tp) kind Ptr fs =
      Returns (true, payload, fs') /\ consumed file fs fs'.
Proof.
  intros Hrel Hc Ht Hf. destruct file as [p|]; [destruct Hc as (-> & Hne & Hin & Hp & Hfile & Hmax & ->)|destruct Hc as [-> ->]]; cycle 1.
  - exists fs. split; [|done]. unfold ResolveFilePayloadFromTransport. cbn.
    destruct (Z.eqb_spec (Zlen payload) 0) as [E|_]; [by destruct payload; [|rewrite Zlen_cons in E; pose proof (Zlen_nonneg payload); lia]|].
    rewrite Zlen_app. pose proof (Zlen_nonneg pad). destruct (Z.ltb_spec (Zlen payload + Zlen pad) (Zlen payload)); [lia|].
    by rewrite Ztake_app_exact.
  - set (ref := {| fr_path := p; fr_size := Zlen payload |}) in *. pose proof (Zlen_nonneg payload).
    destruct (ReadAndRemoveFilePayload_spec fuel dir ref fs payload) as (fs' & HR & Hn & Hb); try done.
    exists fs'. split; [|done]. unfold ResolveFilePayloadFromTransport.
    cbn [Z.eqb PAYLOAD_KIND_FILE_REF PAYLOAD_KIND_INLINE negb].
    rewrite DecodeFilePayloadEnvelope_local by (pose proof (Zlen_nonneg (envelope_bytes ref)); lia).
    destruct (DecodeFilePayloadEnvelope_eq ref []) as [r Hdec]; try done.
    { unfold is_u32, ref. cbn. unfold MAX_FILE_PAYLOAD_BYTES in Hmax. lia. }
    rewrite app_nil_r in Hdec. unfold envelope_bytes. by rewrite Hdec.
Qed.

(** Preparing a payload puts something on the transport that carries it, or
    leaves the files as they were. *)
Lemma Prepare_carries env dir payload maxBytes fuel fs :
  PosixFsReliable FS -> contains_dotdot dir = false ->
  Zlen (to_bytes (MakeFilePayloadPath env dir)) < 2 ^ 32 ->
  (String.length dir + length payload + fs_interrupts fs < fuel)%nat ->
  exists ok tp kind fs1,
    PrepareFilePayloadForTransport fuel env dir payload maxBytes Ptr Ptr fs = Returns (ok, tp, kind, fs1) /\
    (Zlen payload <= maxBytes -> ok = true /\ kind = PAYLOAD_KIND_INLINE) /\
    (fs_interrupts fs1 <= fs_interrupts fs)%nat /\
    if ok then Zlen tp <= maxBytes /\ exists file, carries dir payload tp kind file fs1 /\
               forall fs2, consumed file fs1 fs2 -> same_files fs fs2
    else kind = PAYLOAD_KIND_INLINE /\ same_files fs fs1.
Proof.
  intros Hrel Hdir Hpath Hf. unfold PrepareFilePayloadForTransport.
  destruct (Z.leb_spec (Zlen payload) maxBytes) as [Hle|Hgt].
  { eexists true, payload, _, fs. split_and!; try done. exists None. split; [done|]. by intros fs2 ->. }
  destruct (WriteFilePayload_spec fuel env dir payload fs) as (ok & ref & fs1 & -> & HI & Hok); [done|].
  cbn [run_bind]. destruct ok; cbn [run_bind negb].
  2:{ destruct Hok as [-> Hsame]. rewrite RemoveFilePayload_default.
      eexists false, _, _, _. split_and!; [done|lia|done|done|by apply Hsame]. }
  destruct Hok as (-> & Hmax & Hnone & Hfile & Hbut).
  pose proof (MakeFilePayloadPath_inside env dir Hdir) as Hin.
  pose proof (MakeFilePayloadPath_nonempty env dir) as Hne.
  set (p := MakeFilePayloadPath env dir) in *.
  set (ref := {| fr_path := p; fr_size := Zlen payload |}).
  rewrite EncodeFilePayloadEnvelope_eq by done. cbn [run_of_defined run_bind negb]. fold (envelope_bytes ref).
  destruct (Z.ltb_spec maxBytes (Zlen (envelope_bytes ref))) as [Hbig|Hfit].
  { destruct (RemoveFilePayload_existing dir ref fs1 Hrel payload) as (fs2 & HR & Hn2 & Hb2); try done.
    rewrite HR. pose proof (RemoveFilePayload_interrupts _ _ _ _ _ HR).
    eexists false, _, _, _. split_and!; [done|lia|cbn; lia|done|].
    apply (same_but_unlinked p); [by eapply same_but_trans|]. cbn. by rewrite Hnone. }
  eexists true, (envelope_bytes ref), _, fs1. split_and!; [done|lia|done|done|]. exists (Some p). split; [done|].
  intros fs2 [Hn2 Hb2]. apply (same_but_unlinked p); [by eapply same_but_trans|by rewrite Hnone].
Qed.

(** C25: a payload sent by file comes back whole and the file system is left as
    it was: with enough fuel [PrepareFilePayloadForTransport] returns; when it
    fails, every regular file is as before; when it succeeds, what it put on
    the transport fits and, in whatever array it was copied to,
    [ResolveFilePayloadFromTransport] returns exactly the payload, after which every regular file is as before. *)
Theorem file_payload_roundtrip env dir payload maxBytes fuel fs :
  PosixFsReliable FS -> contains_dotdot dir = false ->
  Zlen (to_bytes (MakeFilePayloadPath env dir)) < 2 ^ 32 ->
  (String.length dir + length payload + fs_interrupts fs < fuel)%nat -> maxBytes < 2 ^ 63 ->
  exists ok tp kind fs1,
    PrepareFilePayloadForTransport fuel env dir payload maxBytes Ptr Ptr fs =
      Returns (ok, tp, kind, fs1) /\
    (Zlen payload <= maxBytes -> ok = true /\ kind = PAYLOAD_KIND_INLINE) /\
    if ok then
      Zlen tp <= maxBytes /\
      forall pad, exists fs2,
        ResolveFilePayloadFromTransport fuel dir (Some (tp ++ pad)) (Zlen tp) kind Ptr fs1 =
          Returns (true, payload, fs2) /\ same_files fs fs2
    else same_files fs fs1.
Proof.
  intros Hrel Hdir Hpath Hf Hmax.
  destruct (Prepare_carries env dir payload maxBytes fuel fs) as (ok & tp & kind & fs1 & HP & Hin & HI & Hok); try done.
  exists ok, tp, kind, fs1. split; [done|]. split; [done|]. destruct ok; [|by destruct Hok].
  destruct Hok as (Hfit & file & Hc & Hgone). split; [done|]. intros pad.
  destruct (Resolve_carries fuel dir payload tp kind file pad fs1) as (fs2 & HR & Hg); try done; [lia..|].
  exists fs2. split; [done|]. by apply Hgone.
Qed.

(** ** Envelopes from the peer *)

Lemma DecodeFilePayloadEnvelope_safe mem size :
  0 <= size <= Zlen mem -> size < 2 ^ 63 ->
  DecodeFilePayloadEnvelope (Some mem) size Ptr <> ReadOutOfBounds.
Proof.
  intros Hs Hb. unfold DecodeFilePayloadEnvelope. apply reader_safe_start; [|lia..].
  repeat (apply rd_bind_safe; [auto with memrpc|intros]; repeat case_match; auto with memrpc).
Qed.

(** Files outside the payload directory are as before. *)
Definition same_outside (dir : string) fs fs' : Prop :=
  forall q, IsPathInsideFilePayloadRoot dir q = false -> fs_file fs' q = fs_file fs q.

Lemma RemoveFilePayload_outside dir ref fs : same_outside dir fs (snd (RemoveFilePayload dir ref fs)).
Proof.
  intros q Hq. unfold RemoveFilePayload, UnlinkFilePayload.
  destruct (_ || _ || _) eqn:E; [done|]. bool_to_prop.
  destruct (fs_unlink (fr_path ref) fs) as [e fs'] eqn:EU.
  destruct (unlink_law _ _ _ _ EU) as (Hb & _ & _).
  assert (fs_file fs' q = fs_file fs q) by (apply Hb; intros ->; congruence).
  by case_match.
Qed.

Lemma read_loop_files fuel fd want acc fs ok data fs' :
  read_loop fuel fd want acc fs = Returns (ok, data, fs') -> same_files fs fs'.
Proof.
  revert want acc fs. induction fuel as [|fuel IH]; intros want acc fs; cbn;
    destruct (want <=? 0); try (intros; simplify_eq; apply same_files_refl).
  destruct (fs_read fd want fs) as [[[n e] d] fs1] eqn:ER.
  pose proof (read_files _ _ _ _ _ ER) as Hs.
  repeat case_match; intros; simplify_eq; try done; eapply same_files_trans; eauto.
Qed.

Lemma read_loop_defined fuel fd want acc fs : read_loop fuel fd want acc fs <> RunUndefined.
Proof.
  revert want acc fs. induction fuel as [|fuel IH]; intros want acc fs; cbn; [by case_match|].
  repeat case_match; done || apply IH.
Qed.

Lemma ReadAndRemoveFilePayload_cleared fuel dir ref fs data fs' :
  ReadAndRemoveFilePayload fuel dir ref Ptr fs = Returns (false, data, fs') -> data = [].
Proof.
  unfold ReadAndRemoveFilePayload. destruct (_ || _ || _); [by intros [= <- <-]|].
  destruct (fs_open _ _) as [fd fs1]. destruct (fd <? 0); [by intros [= <- <-]|].
  destruct (ReadAll _ _ _ _) as [[[ok d] fs2]| |]; [|done..]. cbn.
  destruct (fs_close _ _). destruct (RemoveFilePayload _ _ _).
  destruct (negb ok || _); by intros [= <- <-].
Qed.

Lemma ReadAndRemoveFilePayload_outside fuel dir ref fs :
  ReadAndRemoveFilePayload fuel dir ref Ptr fs <> RunUndefined /\
  forall ok data fs', ReadAndRemoveFilePayload fuel dir ref Ptr fs = Returns (ok, data, fs') ->
    same_outside dir fs fs' /\ (ok = true -> Zlen data <= MAX_FILE_PAYLOAD_BYTES).
Proof.
  unfold ReadAndRemoveFilePayload. destruct (_ || _ || _) eqn:E.
  { split; [done|]. intros. by simplify_eq. }
  bool_to_prop.
  destruct (fs_open (fr_path ref) fs) as [fd fs1] eqn:EO.
  destruct (open_law _ _ _ _ EO) as (HF1 & _ & _).
  destruct (fd <? 0).
  { split; [done|]. intros ??? [= <- <- <-]. split; [|done]. intros q Hq.
    by rewrite (RemoveFilePayload_outside dir ref fs1 q Hq), HF1. }
  assert (HR : ReadAll fuel fd Ptr fs1 <> RunUndefined /\ forall ok data fs2,
    ReadAll fuel fd Ptr fs1 = Returns (ok, data, fs2) -> same_files fs1 fs2).
  { unfold ReadAll. destruct (fs_fstat fd fs1) as [n|]; [|by split; intros; simplify_eq].
    destruct (_ || _); [by split; intros; simplify_eq|].
    split; [apply read_loop_defined|intros; by eapply read_loop_files]. }
  destruct HR as [Hund Hsame]. destruct (ReadAll fuel fd Ptr fs1) as [[[ok data] fs2]| |]; [|done..].
  specialize (Hsame _ _ _ eq_refl). cbn.
  destruct (fs_close fd fs2) as [rc fs3] eqn:ECl. destruct (close_law _ _ _ _ ECl) as [HF3 _].
  pose proof (RemoveFilePayload_outside dir ref fs3) as Hout.
  destruct (RemoveFilePayload dir ref fs3) as [b fs4]. cbn in Hout.
  assert (same_outside dir fs fs4) by (intros q Hq; by rewrite Hout, HF3, Hsame, HF1).
  destruct (negb ok || _) eqn:Eok; (split; [done|]); intros ??? [= <- <- <-]; [done|].
  bool_to_prop. by split; [|intros _; lia].
Qed.


End FilePayloadFacts.

(** Removing creates nothing, and without I/O errors the file named is gone. *)
Section Removal.
Context {FS : Type} `{PosixFsLaws FS}.
Implicit Types (fs : FS).

Lemma RemoveFilePayload_creates_nothing dir ref fs q :
  fs_file fs q = None -> fs_file (snd (RemoveFilePayload dir ref fs)) q = None.
Proof.
  intros Hq. unfold RemoveFilePayload, UnlinkFilePayload. destruct (_ || _ || _); [done|].
  destruct (fs_unlink (fr_path ref) fs) as [e fs'] eqn:EU.
  destruct (unlink_law _ _ _ _ EU) as (Hb & _ & Hz & Hnz).
  assert (fs_file fs' q = None).
  { destruct (decide (q = fr_path ref)) as [->|Hne]; [|by rewrite Hb].
    destruct (decide (e = 0)) as [->|He]; [by apply Hz|by rewrite Hnz]. }
  by case_match.
Qed.

Lemma RemoveFilePayload_gone dir ref fs :
  PosixFsReliable FS -> fr_path ref <> "" -> fr_size ref <= MAX_FILE_PAYLOAD_BYTES ->
  IsPathInsideFilePayloadRoot dir (fr_path ref) = true ->
  fs_file (snd (RemoveFilePayload dir ref fs)) (fr_path ref) = None.
Proof.
  intros Hrel Hne Hsz Hin. destruct (fs_file fs (fr_path ref)) as [c|] eqn:Ec.
  - by destruct (RemoveFilePayload_existing dir ref fs Hrel c) as (fs' & -> & ? & _).
  - by apply RemoveFilePayload_creates_nothing.
Qed.

Lemma DecodeFilePayloadEnvelope_path mem size ref r :
  DecodeFilePayloadEnvelope mem size Ptr = ReadOk ref r -> fr_path ref <> "".
Proof.
  unfold DecodeFilePayloadEnvelope, rd_bind, rd_fail, rd_ret.
  repeat (case_match; try done). intros [= <- _]. cbn. by bool_to_prop.
Qed.

End Removal.

(** ** A file system in memory

    An instance of the laws, with short transfers and interrupted calls. *)
Module MemFs.

Record t : Type := {
  dirs : list string;
  files : gmap string bytes;
  fds : gmap Z (string * Z);
  next_fd : Z;
  signals : nat;
}.

#[export] Instance t_eta : Eta t := fun r =>
  Build_t (dirs r) (files r) (fds r) (next_fd r) (signals r).

(** At most this many bytes per call. *)
Definition chunk : Z := 3.
Definition EBADF : Z := 9.

Definition mkdir (p : string) (m : t) : Z * t :=
  if bool_decide (p ∈ dirs m) || bool_decide (is_Some (files m !! p)) then (EEXIST, m)
  else if bool_decide (ParentDir p = "") || bool_decide (ParentDir p ∈ dirs m)
  then (0, m <| dirs := p :: dirs m |>)
  else (ENOENT, m).

Definition stat_dir (p : string) (m : t) : Z * bool :=
  if bool_decide (p ∈ dirs m) then (0, true)
  else if bool_decide (is_Some (files m !! p)) then (0, false) else (ENOENT, false).

Definition open_fd (p : string) (m : t) : Z * t :=
  (Z.max 0 (next_fd m),
   m <| fds := <[Z.max 0 (next_fd m) := (p, 0)]> (fds m) |> <| next_fd := Z.max 0 (next_fd m) + 1 |>).

Definition create (p : string) (m : t) : Z * t :=
  if bool_decide (is_Some (files m !! p)) || bool_decide (ParentDir p ∉ dirs m) then (-1, m)
  else open_fd p (m <| files := <[p := []]> (files m) |>).

Definition open_file (p : string) (m : t) : Z * t :=
  if bool_decide (is_Some (files m !! p)) then open_fd p m else (-1, m).

Definition write (fd : Z) (data : bytes) (m : t) : (Z * Z) * t :=
  match fds m !! fd with
  | None => ((-1, EBADF), m)
  | Some (p, pos) =>
      match signals m with
      | S k => ((-1, EINTR), m <| signals := k |>)
      | O =>
          let n := Z.min chunk (Zlen data) in
          let c := default [] (files m !! p) in
          ((n, 0), m <| files := <[p := Ztake pos c ++ Ztake n data ++ Zdrop (pos + n) c]> (files m) |>
                     <| fds := <[fd := (p, pos + n)]> (fds m) |>)
      end
  end.

Definition read (fd want : Z) (m : t) : (Z * Z * bytes) * t :=
  match fds m !! fd with
  | None => ((-1, EBADF, []), m)
  | Some (p, pos) =>
      match signals m with
      | S k => ((-1, EINTR, []), m <| signals := k |>)
      | O =>
          let c := default [] (files m !! p) in
          let n := Z.max 0 (Z.min (Z.min chunk want) (Zlen c - pos)) in
          ((n, 0, Zslice pos n c), m <| fds := <[fd := (p, pos + n)]> (fds m) |>)
      end
  end.

Definition fstat (fd : Z) (m : t) : option Z :=
  match fds m !! fd with
  | None => None
  | Some (p, _) => Zlen <$> files m !! p
  end.

Definition unlink (p : string) (m : t) : Z * t :=
  if bool_decide (is_Some (files m !! p)) then (0, m <| files := delete p (files m) |>)
  else (ENOENT, m).

(** The name of [path] in [dir], when it is directly inside. *)
Definition entry_in (dir path : string) : option string :=
  if String.prefix (dir +:+ "/") path
  then Some (substring (S (String.length dir)) (String.length path) path) else None.

Definition listdir (dir : string) (m : t) : Z * list string :=
  if bool_decide (dir ∈ dirs m)
  then (0, "." :: ".." :: omap (fun kv => entry_in dir (fst kv)) (map_to_list (files m)))
  else (ENOENT, []).

#[global] Instance fs : PosixFs t := {|
  fs_mkdir := mkdir; fs_stat_dir := stat_dir; fs_create := create; fs_open := open_file;
  fs_write := write; fs_read := read; fs_fstat := fstat;
  fs_close := fun fd m => (0, m <| fds := delete fd (fds m) |>);
  fs_unlink := unlink; fs_listdir := listdir |}.

Lemma write_appends (c d : bytes) n :
  Ztake (Zlen c) c ++ Ztake n d ++ Zdrop (Zlen c + Z.max 0 n) c = c ++ Ztake n d.
Proof.
  unfold Ztake, Zdrop, Zlen. rewrite Nat2Z.id, firstn_all, (drop_ge c) by lia. by rewrite app_nil_r.
Qed.

#[global] Program Instance laws : PosixFsLaws t := {|
  fs_file := fun m p => files m !! p;
  fs_fd := fun m fd => fds m !! fd;
  fs_interrupts := signals |}.
Next Obligation. intros p m e m'. cbn. unfold mkdir. repeat case_match; intros; by simplify_eq. Qed.
Next Obligation.
  intros p m fd m'. cbn. unfold create, open_fd. destruct (_ || _) eqn:E.
  { intros [= <- <-]. by split_and!; [| |lia]. }
  intros [= <- <-]. cbn. bool_to_prop. split_and!; [done|lia|]. intros _.
  rewrite !lookup_insert_eq. split_and!; try done.
  - by apply eq_None_not_Some.
  - intros q Hq. by rewrite lookup_insert_ne.
Qed.
Next Obligation.
  intros fd data m n e m' p c. cbn. unfold write. intros HW Hfd Hc. rewrite Hfd, Hc in HW.
  pose proof (Zlen_nonneg data).
  destruct (signals m) eqn:Es; simplify_eq; cbn; rewrite ?Es.
  - rewrite !lookup_insert_eq. split_and!; try done; try lia.
    + rewrite <- (write_appends c data). unfold chunk. by rewrite (Z.max_r 0) by lia.
    + unfold chunk. by rewrite (Z.max_r 0) by lia.
    + intros q Hq. by rewrite lookup_insert_ne.
  - split_and!; try done; try lia; [by rewrite app_nil_r|by rewrite Z.add_0_r].
Qed.
Next Obligation. intros fd m rc m'. cbn. intros [= <- <-]. done. Qed.
Next Obligation.
  intros p m fd m'. cbn. unfold open_file, open_fd. case_match; intros [= <- <-]; cbn.
  - split_and!; try done. intros _. by rewrite lookup_insert_eq.
  - by split_and!; [| |lia].
Qed.
Next Obligation. intros fd m p pos c Hfd Hc. cbn in *. unfold fstat. by rewrite Hfd, Hc. Qed.
Next Obligation. intros fd want m r m'. cbn. unfold read. repeat case_match; intros; by simplify_eq. Qed.
Next Obligation.
  intros fd want m n e data m' p pos c. cbn. unfold read. intros HR Hfd Hc Hpos Hw.
  rewrite Hfd, Hc in HR. destruct (signals m) eqn:Es; simplify_eq; cbn; rewrite ?Es.
  - rewrite lookup_insert_eq. unfold chunk. split; [|lia]. intros _. split_and!; try done; lia.
  - split; [lia|]. split; [done|lia].
Qed.
Next Obligation.
  intros p m e m'. cbn. unfold unlink. case_bool_decide as E; intros [= <- <-]; cbn.
  - split_and!; try done; [|by rewrite lookup_delete_eq]. intros q Hq. by rewrite lookup_delete_ne.
  - by split_and!.
Qed.

#[global] Instance reliable : PosixFsReliable t.
Proof.
  split; cbn.
  - intros p m Hp. unfold open_file, open_fd. rewrite bool_decide_eq_true_2 by done. cbn. lia.
  - intros fd want m n e data m' p pos c. unfold read. intros HR Hfd Hc Hn. rewrite Hfd in HR.
    destruct (signals m); simplify_eq; [lia|done].
  - intros p m Hp. unfold unlink. by rewrite bool_decide_eq_true_2.
Qed.

(** An empty directory tree and two signals to come. *)
Definition empty : t :=
  {| dirs := []; files := ∅; fds := ∅; next_fd := 3; signals := 2 |}.

End MemFs.

Definition demo_env : path_env := {| pe_pid := 7; pe_ts := 1; pe_seq := 0 |}.

(** Fifty bytes over a transport of 48 go by file. *)
Lemma file_payload_roundtrip_witness :
  exists tp fs1 fs2,
    let payload := repeat Byte.x41 50 in
    PrepareFilePayloadForTransport 60 demo_env "/d" payload 48 Ptr Ptr MemFs.empty =
      Returns (true, tp, PAYLOAD_KIND_FILE_REF, fs1) /\
    ResolveFilePayloadFromTransport 60 "/d" (Some (tp ++ repeat Byte.x00 9)) (Zlen tp) PAYLOAD_KIND_FILE_REF Ptr fs1 =
      Returns (true, payload, fs2) /\ same_files MemFs.empty fs2.
Proof.
  destruct (file_payload_roundtrip demo_env "/d" (repeat Byte.x41 50) 48 60 MemFs.empty)
    as (ok & tp & kind & fs1 & HP & _ & HR);
    [exact MemFs.reliable|reflexivity|vm_compute; reflexivity|vm_compute; lia|reflexivity|].
  assert (Hok : ok = true /\ kind = PAYLOAD_KIND_FILE_REF) by (vm_compute in HP; by simplify_eq).
  destruct Hok as [-> ->]. destruct (proj2 HR (repeat Byte.x00 9)) as (fs2 & HR2 & Hs). eauto 6.
Defined.

