(* ===== verification/EventFd.v ===== *)
(** * Event descriptors

    The wake-up helpers of memrpc/include/memrpc/core/runtime_utils.h.  The
    kernel's [read], [write] and [poll] on an [EFD_NONBLOCK] eventfd are the
    parameter [EventFdKernel]; what eventfd(2) documents of them are the laws
    [EventFdLaws]: a counter that a write increments, that a read returns and
    resets, and that is readable when it is not zero. *)

From Stdlib Require Import Lia.
From S2P Require Import Prelude.

Definition errno_EINTR : Z := 4.
Definition errno_EAGAIN : Z := 11.

Definition POLLIN : Z := 1.
Definition kPollFailureEvents : Z := Z.lor 8 (Z.lor 16 32).

Inductive PollEventFdResult : Type := PollReady | PollTimeout | PollRetry | PollFailed.
Inductive EventFdReadResult : Type := ReadConsumed | ReadRetry | ReadEmpty | ReadFailed.
Inductive EventFdWriteResult : Type := WriteWrote | WriteRetry | WriteFailed.

#[export] Instance PollEventFdResult_eq_dec : EqDecision PollEventFdResult.
Proof. solve_decision. Defined.

(** A call returns its result and, when negative, an errno. *)
Class EventFdKernel (K : Type) : Type := {
  k_read : Z -> K -> Z * Z * K;
  k_write : Z -> K -> Z * Z * K;
  k_poll : Z -> Z -> K -> Z * Z * Z * K;   (* result, errno, revents *)
}.

Section EventFd.
Context {K : Type} `{EventFdKernel K}.

(** [EAGAIN] and [EWOULDBLOCK] are the same number on Linux. *)
Definition ReadEventFdOnce (fd : Z) (k : K) : EventFdReadResult * K :=
  let '(readBytes, errno, k) := k_read fd k in
  if readBytes =? 8 then (ReadConsumed, k)
  else if (readBytes <? 0) && (errno =? errno_EINTR) then (ReadRetry, k)
  else if (readBytes <? 0) && (errno =? errno_EAGAIN) then (ReadEmpty, k)
  else (ReadFailed, k).

Fixpoint drain_loop (fuel : nat) (fd : Z) (drained : bool) (k : K) : run (bool * K) :=
  match fuel with
  | O => OutOfFuel
  | S fuel =>
      let '(result, k) := ReadEventFdOnce fd k in
      match result with
      | ReadConsumed => drain_loop fuel fd true k
      | ReadRetry => drain_loop fuel fd drained k
      | ReadEmpty => Returns (drained, k)
      | ReadFailed => Returns (false, k)
      end
  end.

Definition DrainEventFd (fuel : nat) (fd : Z) (k : K) : run (bool * K) :=
  drain_loop fuel fd false k.

Definition WriteEventFdOnce (fd : Z) (k : K) : EventFdWriteResult * K :=
  let '(writeBytes, errno, k) := k_write fd k in
  if writeBytes =? 8 then (WriteWrote, k)
  else if (writeBytes <? 0) && (errno =? errno_EINTR) then (WriteRetry, k)
  else (WriteFailed, k).

Fixpoint signal_loop (fuel : nat) (fd : Z) (k : K) : run (bool * K) :=
  match fuel with
  | O => OutOfFuel
  | S fuel =>
      let '(result, k) := WriteEventFdOnce fd k in
      match result with
      | WriteWrote => Returns (true, k)
      | WriteFailed => Returns (false, k)
      | WriteRetry => signal_loop fuel fd k
      end
  end.

Definition SignalEventFd (fuel : nat) (fd : Z) (k : K) : run (bool * K) :=
  if fd <? 0 then Returns (false, k) else signal_loop fuel fd k.

Definition ClassifyPollCallResult (pollResult errno : Z) : PollEventFdResult :=
  if pollResult =? 0 then PollTimeout
  else if pollResult <? 0 then if errno =? errno_EINTR then PollRetry else PollFailed
  else PollReady.

Definition HandlePolledEvent (fuel : nat) (fd revents : Z) (k : K) : run (PollEventFdResult * K) :=
  if negb (Z.land revents kPollFailureEvents =? 0) then Returns (PollFailed, k)
  else if Z.land revents POLLIN =? 0 then Returns (PollRetry, k)
  else
    let! (drained, k) := DrainEventFd fuel fd k in
    Returns (if drained then PollReady else PollRetry, k).

(** [fd] is the [pollfd] argument; [None] is the null pointer. *)
Definition PollEventFd (fuel : nat) (fd : option Z) (timeout_ms : Z) (k : K)
    : run (PollEventFdResult * K) :=
  match fd with
  | None => Returns (PollFailed, k)
  | Some fd =>
      let '(pollResult, errno, revents, k) := k_poll fd timeout_ms k in
      match ClassifyPollCallResult pollResult errno with
      | PollReady => HandlePolledEvent fuel fd revents k
      | result => Returns (result, k)
      end
  end.

End EventFd.

(** [RemainingTimeoutMs]: [deadline] and [now] in nanoseconds of the steady
    clock, [None] for [time_point::max()]; the cast to milliseconds truncates
    towards zero. *)
Definition INT64_MAX : Z := 2 ^ 63 - 1.

Definition RemainingTimeoutMs (deadline : option Z) (now : Z) : Z :=
  match deadline with
  | None => INT64_MAX
  | Some d =>
      let remaining := Z.quot (d - now) 1000000 in
      if 0 <? remaining then remaining else 0
  end.

(** ** The laws of eventfd(2)

    [k_counter] is the counter of an open descriptor, [k_signals] a bound on
    the signals still to arrive. *)
Class EventFdLaws (K : Type) `{EventFdKernel K} : Type := {
  k_counter : K -> Z -> option Z;
  k_signals : K -> nat;
  read_spec fd k n e k' c : k_read fd k = (n, e, k') -> k_counter k fd = Some c ->
    (forall fd', fd' <> fd -> k_counter k' fd' = k_counter k fd') /\
    (k_signals k' <= k_signals k)%nat /\
    ((n = -1 /\ e = errno_EINTR /\ k_counter k' fd = Some c /\ (k_signals k' < k_signals k)%nat) \/
     (n = -1 /\ e = errno_EAGAIN /\ c = 0 /\ k_counter k' fd = Some 0) \/
     (n = 8 /\ 0 < c /\ k_counter k' fd = Some 0));
  write_spec fd k n e k' c : k_write fd k = (n, e, k') -> k_counter k fd = Some c ->
    (forall fd', fd' <> fd -> k_counter k' fd' = k_counter k fd') /\
    (k_signals k' <= k_signals k)%nat /\
    ((n = -1 /\ e = errno_EINTR /\ k_counter k' fd = Some c /\ (k_signals k' < k_signals k)%nat) \/
     (n = -1 /\ e = errno_EAGAIN /\ c = 2 ^ 64 - 2 /\ k_counter k' fd = Some c) \/
     (n = 8 /\ k_counter k' fd = Some (c + 1)));
  poll_spec fd t k n e r k' c : k_poll fd t k = (n, e, r, k') -> k_counter k fd = Some c ->
    (forall fd', k_counter k' fd' = k_counter k fd') /\ (k_signals k' <= k_signals k)%nat /\
    ((n = 1 /\ r = POLLIN /\ 0 < c) \/ (n = 0 /\ c = 0) \/ (n = -1 /\ e = errno_EINTR));
  counter_range k fd c : k_counter k fd = Some c -> 0 <= c <= 2 ^ 64 - 2;
}.

Section EventFdFacts.
Context {K : Type} `{EventFdLaws K}.

(** Other descriptors keep their counters. *)
Definition same_others (fd : Z) (k k' : K) : Prop :=
  forall fd', fd' <> fd -> k_counter k' fd' = k_counter k fd'.

Lemma same_others_trans fd k1 k2 k3 :
  same_others fd k1 k2 -> same_others fd k2 k3 -> same_others fd k1 k3.
Proof. intros H12 H23 fd' Hne. by rewrite H23, H12. Qed.

Lemma drain_loop_spec fuel fd drained k c :
  k_counter k fd = Some c -> (k_signals k + (if (c =? 0)%Z then 0 else 1) < fuel)%nat ->
  exists k', drain_loop fuel fd drained k = Returns (drained || negb (c =? 0), k') /\
    k_counter k' fd = Some 0 /\ same_others fd k k' /\ (k_signals k' <= k_signals k)%nat.
Proof.
  revert drained k c. induction fuel as [|fuel IH]; intros drained k c Hc Hf; [lia|].
  cbn. unfold ReadEventFdOnce. destruct (k_read fd k) as [[n e] k1] eqn:ER.
  destruct (read_spec _ _ _ _ _ _ ER Hc) as (Ho & Hs & [(-> & -> & Hc1 & Hlt)|[(-> & -> & -> & Hc1)|(-> & Hpos & Hc1)]]);
    cbn.
  - destruct (IH drained k1 c Hc1) as (k' & ? & ? & Ho' & ?); [lia|].
    exists k'. split_and!; try done; [by eapply same_others_trans|lia].
  - exists k1. rewrite orb_false_r. by split_and!.
  - destruct (IH true k1 0 Hc1) as (k' & HR & ? & Ho' & ?); [cbn in *; destruct (c =? 0) eqn:E; lia|].
    exists k'. rewrite HR. destruct (Z.eqb_spec c 0); [lia|]. cbn. rewrite orb_true_r.
    split_and!; try done; [by eapply same_others_trans|lia].
Qed.

Lemma signal_loop_spec fuel fd k c :
  k_counter k fd = Some c -> (k_signals k < fuel)%nat ->
  exists ok k', signal_loop fuel fd k = Returns (ok, k') /\
    k_counter k' fd = Some (if ok then c + 1 else c) /\ same_others fd k k' /\
    (ok = false -> c = 2 ^ 64 - 2) /\ (k_signals k' <= k_signals k)%nat.
Proof.
  revert k. induction fuel as [|fuel IH]; intros k Hc Hf; [lia|].
  cbn. unfold WriteEventFdOnce. destruct (k_write fd k) as [[n e] k1] eqn:EW.
  destruct (write_spec _ _ _ _ _ _ EW Hc) as (Ho & Hs & [(-> & -> & Hc1 & Hlt)|[(-> & -> & -> & Hc1)|(-> & Hc1)]]);
    cbn.
  - destruct (IH k1 Hc1) as (ok & k' & ? & ? & Ho' & ? & ?); [lia|].
    exists ok, k'. split_and!; try done; [by eapply same_others_trans|lia].
  - exists false, k1. by split_and!.
  - exists true, k1. by split_and!.
Qed.

(** No wake-up is lost.  A signal is seen by the next poll, however many
    calls are interrupted: after [SignalEventFd] the waiter's [PollEventFd]
    does not time out; it reports [Ready] (or [Retry], when the poll itself was
    interrupted, with the counter still set), and once it has reported
    [Ready] the counter is drained.  A signal that finds the counter full
    fails, but then the descriptor is readable already. *)
Theorem signal_reaches_poll fuel fd k c timeout :
  0 <= fd -> k_counter k fd = Some c -> (k_signals k + 1 < fuel)%nat ->
  exists ok k1 res k2, SignalEventFd fuel fd k = Returns (ok, k1) /\
    PollEventFd fuel (Some fd) timeout k1 = Returns (res, k2) /\
    ((res = PollReady /\ k_counter k2 fd = Some 0) \/
     (res = PollRetry /\ exists c', k_counter k2 fd = Some c' /\ 0 < c')) /\
    same_others fd k k2.
Proof.
  intros Hfd Hc Hf. unfold SignalEventFd. rewrite (proj2 (Z.ltb_ge _ _)) by lia.
  destruct (signal_loop_spec fuel fd k c Hc) as (ok & k1 & HS & Hc1 & Ho1 & Hfull & Hs1); [lia|].
  pose proof (counter_range _ _ _ Hc) as Hr.
  set (c1 := if ok then c + 1 else c) in Hc1.
  assert (Hpos : 0 < c1) by (unfold c1; destruct ok; [lia|rewrite Hfull by done; lia]).
  exists ok, k1. unfold PollEventFd. destruct (k_poll fd timeout k1) as [[[n e] r] k2] eqn:EP.
  destruct (poll_spec _ _ _ _ _ _ _ _ EP Hc1) as (Hsame & Hs2 & [(-> & -> & _)|[(_ & Hz)|(-> & ->)]]); [|lia|].
  - destruct (drain_loop_spec fuel fd false k2 c1) as (k3 & HD & Hz & Ho3 & _);
      [by rewrite Hsame|destruct (c1 =? 0); lia|].
    change (ClassifyPollCallResult 1 e) with PollReady. unfold HandlePolledEvent, DrainEventFd.
    rewrite HD. cbn. destruct (Z.eqb_spec c1 0); [lia|]. exists PollReady, k3. split_and!; try done; [by left|].
    intros fd' Hne. rewrite Ho3, Hsame by done. by apply Ho1.
  - cbn. exists PollRetry, k2. split_and!; try done; [right; split; [done|]|].
    + exists c1. by rewrite Hsame.
    + intros fd' Hne. rewrite Hsame. by apply Ho1.
Qed.

(** Draining an empty descriptor is not [Ready]: a [Ready] answers a signal. *)
Lemma ready_means_signalled fuel fd k c timeout k' :
  k_counter k fd = Some c -> (k_signals k + 1 < fuel)%nat ->
  PollEventFd fuel (Some fd) timeout k = Returns (PollReady, k') -> 0 < c.
Proof.
  intros Hc Hf. unfold PollEventFd. destruct (k_poll fd timeout k) as [[[n e] r] k1] eqn:EP.
  destruct (poll_spec _ _ _ _ _ _ _ _ EP Hc) as (_ & _ & [(_ & _ & ?)|[(-> & ->)|(-> & ->)]]); [done|by cbn..].
Qed.

End EventFdFacts.

(** ** A kernel with one table of counters *)
Module MemKernel.

Record t : Type := { counters : gmap Z Z; signals : nat }.

Definition valid (m : t) (fd : Z) : option Z :=
  match counters m !! fd with
  | Some c => if (0 <=? c) && (c <=? 2 ^ 64 - 2) then Some c else None
  | None => None
  end.

Definition with_counter (m : t) (fd c : Z) : t :=
  {| counters := <[fd := c]> (counters m); signals := signals m |}.

Definition read (fd : Z) (m : t) : Z * Z * t :=
  match valid m fd, signals m with
  | None, _ => (-1, 9, m)
  | Some _, S k => (-1, errno_EINTR, {| counters := counters m; signals := k |})
  | Some 0, O => (-1, errno_EAGAIN, m)
  | Some _, O => (8, 0, with_counter m fd 0)
  end.

Definition write (fd : Z) (m : t) : Z * Z * t :=
  match valid m fd, signals m with
  | None, _ => (-1, 9, m)
  | Some _, S k => (-1, errno_EINTR, {| counters := counters m; signals := k |})
  | Some c, O => if c =? 2 ^ 64 - 2 then (-1, errno_EAGAIN, m) else (8, 0, with_counter m fd (c + 1))
  end.

Definition poll (fd timeout : Z) (m : t) : Z * Z * Z * t :=
  match valid m fd, signals m with
  | None, _ => (1, 0, 32, m)
  | Some _, S k => (-1, errno_EINTR, 0, {| counters := counters m; signals := k |})
  | Some c, O => if c =? 0 then (0, 0, 0, m) else (1, 0, POLLIN, m)
  end.

#[global] Instance kernel : EventFdKernel t := {| k_read := read; k_write := write; k_poll := poll |}.

Lemma valid_range m fd c : valid m fd = Some c -> 0 <= c <= 2 ^ 64 - 2.
Proof. unfold valid. destruct (counters m !! fd); [|done]. destruct (_ && _) eqn:E; intros [= <-]. bool_to_prop. lia. Qed.

Lemma valid_signals m n fd : valid {| counters := counters m; signals := n |} fd = valid m fd.
Proof. done. Qed.

Lemma valid_with m fd c : 0 <= c <= 2 ^ 64 - 2 -> valid (with_counter m fd c) fd = Some c.
Proof.
  intros Hc. unfold valid, with_counter. cbn [counters]. rewrite lookup_insert_eq.
  by rewrite (proj2 (Z.leb_le _ _)), (proj2 (Z.leb_le _ _)) by lia.
Qed.

Lemma valid_with_ne m fd c fd' : fd' <> fd -> valid (with_counter m fd c) fd' = valid m fd'.
Proof. intros Hne. unfold valid, with_counter. cbn [counters]. by rewrite lookup_insert_ne. Qed.

#[global] Program Instance laws : EventFdLaws t := {| k_counter := valid; k_signals := signals |}.
Next Obligation.
  intros fd m n e m' c. cbn. unfold read. intros HR Hc. rewrite Hc in HR.
  pose proof (valid_range _ _ _ Hc).
  destruct (signals m) eqn:Es.
  - destruct (decide (c = 0)) as [->|Hne]; [simplify_eq; split_and!; [done|lia|eauto 10]|].
    assert (HR' : (8, 0, with_counter m fd 0) = (n, e, m')) by (by destruct c).
    simplify_eq. split_and!; [intros; by rewrite valid_with_ne|cbn; lia|].
    right; right. rewrite valid_with by lia. split_and!; try done; lia.
  - assert (HR' : (-1, errno_EINTR, {| counters := counters m; signals := n0 |}) = (n, e, m'))
      by (by destruct c).
    simplify_eq. cbn [signals]. split_and!; try done; [lia|]. left. split_and!; try done; lia.
Qed.
Next Obligation.
  intros fd m n e m' c. cbn. unfold write. intros HW Hc. rewrite Hc in HW.
  pose proof (valid_range _ _ _ Hc).
  destruct (signals m) eqn:Es.
  - destruct (Z.eqb_spec c (2 ^ 64 - 2)); simplify_eq; rewrite ?Es.
    + split_and!; try done. eauto 10.
    + split_and!; try done; [intros; by rewrite valid_with_ne|cbn; lia|]. right; right.
      rewrite valid_with by lia. done.
  - simplify_eq. cbn [signals]. split_and!; try done; [lia|]. left. split_and!; try done; lia.
Qed.
Next Obligation.
  intros fd t0 m n e r m' c. cbn. unfold poll. intros HP Hc. rewrite Hc in HP.
  pose proof (valid_range _ _ _ Hc).
  destruct (signals m) eqn:Es; [destruct (Z.eqb_spec c 0)|]; simplify_eq; cbn [signals]; rewrite ?Es.
  all: split_and!; try done; try lia; eauto 10 with lia.
Qed.
Next Obligation. intros m fd c. cbn. apply valid_range. Qed.

Definition demo : t := {| counters := {[ 5 := 0 ]}; signals := 3 |}.

End MemKernel.

(** Three interruptions hit the signalling write; the poll then is ready. *)
Lemma signal_reaches_poll_witness :
  exists ok k1 res k2, SignalEventFd 6 5 MemKernel.demo = Returns (ok, k1) /\
    PollEventFd 6 (Some 5) 100 k1 = Returns (res, k2) /\
    ((res = PollReady /\ k_counter k2 5 = Some 0) \/
     (res = PollRetry /\ exists c', k_counter k2 5 = Some c' /\ 0 < c')) /\
    same_others 5 MemKernel.demo k2.
Proof.
  apply (signal_reaches_poll 6 5 MemKernel.demo 0 100); [lia|reflexivity|vm_compute; lia].
Defined.
