(* ===== verification/Os.v ===== *)
(** * Descriptors, mappings and shared memory

    What the session code sees of the operating system.  The system calls are
    not part of the sources: [Os] is the parameter that answers them, and
    [OsLaws] states what the code relies on.  [World] is the state the calls
    act on: the open descriptors and the mappings of this process, the shared
    memory objects, and the process-shared mutexes this process holds. *)

From Stdlib Require Import Lia.
From S2P Require Import Prelude Types ShmLayout Ring.

(** A shared-memory object with the typed view its header describes: the
    header at offset zero and the entries of the three rings at the offsets of
    [ComputeLayout]. *)
Record Shm : Type := {
  shm_size : Z;
  shm_header : SharedMemoryHeader;
  shm_high : list RequestRingEntry;
  shm_normal : list RequestRingEntry;
  shm_response : list ResponseRingEntry;
}.

#[export] Instance Shm_eta : Eta Shm := fun r =>
  Build_Shm (shm_size r) (shm_header r) (shm_high r) (shm_normal r) (shm_response r).

Inductive fd_object : Type :=
| FdShm (id : nat)
| FdEvent.

Record World : Type := {
  w_fds : gmap Z fd_object;
  w_shm : gmap nat Shm;
  w_maps : list (nat * Z);
  w_held : gset nat;
  w_tick : nat;
}.

#[export] Instance World_eta : Eta World := fun r =>
  Build_World (w_fds r) (w_shm r) (w_maps r) (w_held r) (w_tick r).

(** The answers of the system; the [nat] is the number of calls made before,
    so that a call may answer differently each time. *)
Class Os : Type := {
  os_mutex_size : Z;                              (* sizeof(pthread_mutex_t) *)
  os_alloc : gmap Z fd_object -> nat -> Z;        (* a call that opens a descriptor: fd or -1 *)
  os_errno : nat -> Z;                            (* a call that succeeds (0) or fails *)
  os_timedlock : nat -> Z;                        (* pthread_mutex_timedlock *)
  os_kill0 : nat -> Z -> Z;                       (* kill(pid, 0): 0 or errno *)
  os_random64 : nat -> Z;                         (* std::mt19937_64 seeded by random_device *)
}.

Class OsLaws `{Os} : Prop := {
  os_mutex_size_ok : mutex_size_ok os_mutex_size;
  (** an opened descriptor was not open before *)
  os_alloc_fresh fds n : 0 <= os_alloc fds n -> fds !! os_alloc fds n = None;
  (** a generated identifier is a [uint64_t] *)
  os_random64_range n : 0 <= os_random64 n < 2 ^ 64;
}.

Definition errno_ESRCH : Z := 3.
Definition errno_EEXIST : Z := 17.
Definition EOWNERDEAD : Z := 130.
Definition ETIMEDOUT : Z := 110.
Definition ENOTRECOVERABLE : Z := 131.

Section Calls.
Context `{Os}.

Definition tick (w : World) : World := w <| w_tick := S (w_tick w) |>.

(** A call with no effect of its own. *)
Definition sys_call (w : World) : bool * World := (os_errno (w_tick w) =? 0, tick w).

Definition sys_close (fd : Z) (w : World) : World :=
  tick w <| w_fds := delete fd (w_fds w) |>.

(** [CloseFd]: the new value of the variable. *)
Definition CloseFd (fd : Z) (w : World) : Z * World :=
  if 0 <=? fd then (-1, sys_close fd w) else (fd, w).

(** A call that opens [obj]. *)
Definition sys_open (obj : fd_object) (w : World) : Z * World :=
  let fd := os_alloc (w_fds w) (w_tick w) in
  if fd <? 0 then (fd, tick w) else (fd, tick w <| w_fds := <[fd := obj]> (w_fds w) |>).

(** [dup]: a new descriptor of the same object; [-1] for a bad descriptor. *)
Definition sys_dup (fd : Z) (w : World) : Z * World :=
  match w_fds w !! fd with
  | None => (-1, tick w)
  | Some obj => sys_open obj w
  end.

(** The shared-memory object behind a descriptor. *)
Definition fd_shm (fd : Z) (w : World) : option (nat * Shm) :=
  match w_fds w !! fd with
  | Some (FdShm id) => (fun shm => (id, shm)) <$> w_shm w !! id
  | _ => None
  end.

(** [fstat]: the size, [None] on failure. *)
Definition sys_fstat (fd : Z) (w : World) : option Z * World :=
  let '(ok, w) := sys_call w in
  (if ok then
     match w_fds w !! fd with
     | None => None
     | Some (FdShm id) => shm_size <$> w_shm w !! id
     | Some FdEvent => Some 0
     end
   else None, w).

(** [mmap] of a shared-memory descriptor: the object mapped. *)
Definition sys_mmap (fd size : Z) (w : World) : option nat * World :=
  let '(ok, w) := sys_call w in
  if ok then
    match fd_shm fd w with
    | Some (id, _) => (Some id, w <| w_maps := (id, size) :: w_maps w |>)
    | None => (None, w)
    end
  else (None, w).

(** Remove one mapping. *)
Fixpoint remove_map (m : nat * Z) (l : list (nat * Z)) : list (nat * Z) :=
  match l with
  | [] => []
  | x :: l => if bool_decide (x = m) then l else x :: remove_map m l
  end.

Definition sys_munmap (id : nat) (size : Z) (w : World) : World :=
  tick w <| w_maps := remove_map (id, size) (w_maps w) |>.

(** Write the shared memory object [id]. *)
Definition update_shm (id : nat) (f : Shm -> Shm) (w : World) : World :=
  w <| w_shm := alter f id (w_shm w) |>.

Definition update_header (id : nat) (f : SharedMemoryHeader -> SharedMemoryHeader) (w : World) : World :=
  update_shm id (fun shm => shm <| shm_header := f (shm_header shm) |>) w.

Definition sys_unlock (id : nat) (w : World) : World := w <| w_held := w_held w ∖ {[id]} |>.

End Calls.

(** A system in which every call succeeds and descriptors are handed out from
    [3] upwards. *)
Module DemoOs.

Definition fresh_fd (fds : gmap Z fd_object) : Z :=
  1 + fold_right Z.max 2 (map fst (map_to_list fds)).

Lemma fresh_fd_spec fds : fds !! fresh_fd fds = None.
Proof.
  apply eq_None_not_Some. intros [o Ho]. apply elem_of_map_to_list in Ho.
  assert (Hle : forall (l : list (Z * fd_object)) k, In k (map fst l) ->
    k <= fold_right Z.max 2 (map fst l)).
  { intros l k. induction l as [|[a b] l IH]; cbn; [done|]. intros [->|Hin]; [lia|]. specialize (IH Hin). lia. }
  specialize (Hle (map_to_list fds) (fresh_fd fds)). unfold fresh_fd in Hle at 2.
  enough (In (fresh_fd fds) (map fst (map_to_list fds))) by (specialize (Hle H); unfold fresh_fd in Hle; lia).
  apply in_map_iff. exists (fresh_fd fds, o). split; [done|]. by apply list_elem_of_In.
Qed.

#[export] Instance os : Os := {|
  os_mutex_size := 40; os_alloc := fun fds _ => fresh_fd fds; os_errno := fun _ => 0;
  os_timedlock := fun _ => 0; os_kill0 := fun _ _ => 0;
  os_random64 := fun n => Z.of_nat n mod 2 ^ 64 |}.

#[export] Instance os_laws : OsLaws.
Proof.
  split; cbn.
  - unfold mutex_size_ok. lia.
  - intros fds _ _. apply fresh_fd_spec.
  - intros n. apply Z.mod_pos_bound. lia.
Qed.

End DemoOs.
