(* ===== verification/Platform.v ===== *)
(** * What the framework runs on

    The parameters the client and the server share: the operating system, the
    file system, the kernel's event descriptors, the clock, the parts of
    generated file names, and a bound for the loops that repeat interrupted
    system calls. *)

From Stdlib Require Import Lia.
From S2P Require Import Prelude FilePayload EventFd Os.

Class Platform : Type := {
  Fs : Type;
  Kernel : Type;
  env_os :: Os;
  env_fs :: PosixFs Fs;
  env_kernel :: EventFdKernel Kernel;
  env_clock : nat -> Z;                           (* the n-th reading of the steady clock, in ns *)
  env_path : nat -> path_env;                     (* what the n-th generated file name is made of *)
  env_pid : Z;                                    (* getpid *)
  env_fuel : nat;                                 (* bound of the loops over system calls *)
}.

(** The laws of the operating system and of a steady clock. *)
Class PlatformLaws `{Platform} : Prop := {
  law_os :: OsLaws;
  law_clock m n : (m <= n)%nat -> env_clock m <= env_clock n;
  law_clock_range n : 0 <= env_clock n < 2 ^ 63;
}.

(** ** A concrete platform

    The file system and the event descriptors in memory, and a clock that
    advances a millisecond per reading. *)
Module DemoPlatform.

#[global] Instance platform : Platform := {|
  Fs := MemFs.t; Kernel := MemKernel.t; env_os := DemoOs.os; env_fs := _; env_kernel := _;
  env_clock := fun n => Z.min (Z.of_nat n) (10 ^ 9) * 10 ^ 6;
  env_path := fun n => {| pe_pid := 7; pe_ts := Z.of_nat n; pe_seq := Z.of_nat n |};
  env_pid := 7; env_fuel := 100 |}.

#[global] Instance platform_laws : PlatformLaws.
Proof. split; cbn; [exact DemoOs.os_laws|intros m n Hmn; lia|intros n; lia]. Qed.

End DemoPlatform.
