(* ===== verification/Session.v ===== *)
(** * Sessions

    memrpc/src/core/session.cpp: attaching to a shared-memory object, the
    exclusive client attachment, the rings of an attached session, and the
    release of everything in [Reset].  An operation takes the session and the
    world and returns the next ones; the pointers [mappedRegion_] and
    [header_] are the shared-memory object they point into. *)

From Stdlib Require Import Lia.
From S2P Require Import Prelude Types ByteCodec ShmLayout Ring FilePayload Os.

Inductive QueueKind : Type := HighRequest | NormalRequest | Response.

Inductive AttachRole : Type := RoleClient | RoleServer.

#[export] Instance AttachRole_eq_dec : EqDecision AttachRole.
Proof. solve_decision. Defined.

(** [SessionState]: [Alive], [Broken], or another value found in memory. *)
Definition SessionState_Alive : Z := 0.
Definition SessionState_Broken : Z := 1.

Record Session : Type := {
  ss_mappedSize : Z;
  ss_initialMappedSize : Z;
  ss_mappedRegion : option nat;
  ss_handles : BootstrapHandles;
  ss_header : option nat;
  ss_layout : Layout;
  ss_maxRequestBytes : Z;
  ss_maxResponseBytes : Z;
  ss_responseRingSize : Z;
  ss_attachRole : AttachRole;
  ss_ownsClientAttachment : bool;
}.

#[export] Instance Session_eta : Eta Session := fun r =>
  Build_Session (ss_mappedSize r) (ss_initialMappedSize r) (ss_mappedRegion r) (ss_handles r)
    (ss_header r) (ss_layout r) (ss_maxRequestBytes r) (ss_maxResponseBytes r)
    (ss_responseRingSize r) (ss_attachRole r) (ss_ownsClientAttachment r).

(** A session constructed or reset. *)
Definition Session_default : Session := {|
  ss_mappedSize := 0; ss_initialMappedSize := 0; ss_mappedRegion := None;
  ss_handles := MakeDefaultBootstrapHandles; ss_header := None; ss_layout := Layout_default;
  ss_maxRequestBytes := 0; ss_maxResponseBytes := 0; ss_responseRingSize := 0;
  ss_attachRole := RoleServer; ss_ownsClientAttachment := false |}.

(** ** Locking *)

Definition LOCK_TIMEOUT_NS : Z := 100 * 1000 * 1000.
Definition NS_PER_SECOND : Z := 1000 * 1000 * 1000.

(** The deadline [LockSharedMutex] waits for, from the real-time clock. *)
Definition lock_deadline (now : Z * Z) : Z * Z :=
  let '(sec, nsec) := now in
  let nsec := nsec + LOCK_TIMEOUT_NS in
  if NS_PER_SECOND <=? nsec then (sec + 1, nsec - NS_PER_SECOND) else (sec, nsec).

Section Session.
Context `{Os}.

Definition LockSharedMutex (mutex : option nat) (w : World) : StatusCode * World :=
  match mutex with
  | None => (EngineInternalError, w)
  | Some id =>
      let '(clock_ok, w) := sys_call w in
      if negb clock_ok then (EngineInternalError, w)
      else
        let rc := os_timedlock (w_tick w) in
        let w := tick w in
        if rc =? 0 then (Ok, w <| w_held := {[id]} ∪ w_held w |>)
        else if rc =? EOWNERDEAD then (PeerDisconnected, sys_unlock id w)
        else if rc =? ETIMEDOUT then (PeerDisconnected, w)
        else if rc =? ENOTRECOVERABLE then (PeerDisconnected, w)
        else (EngineInternalError, w)
  end.

(** ** Validation *)

Definition ValidateLayoutConfig (config : LayoutConfig) (file_size : Z) : bool :=
  if (lc_highRingSize config =? 0) || (MAX_RING_ENTRIES <? lc_highRingSize config) then false
  else if (lc_normalRingSize config =? 0) || (MAX_RING_ENTRIES <? lc_normalRingSize config) then false
  else if (lc_responseRingSize config =? 0) || (MAX_RING_ENTRIES <? lc_responseRingSize config) then false
  else if (lc_maxRequestBytes config =? 0) || (lc_maxResponseBytes config =? 0) ||
          negb (HasAlignedPayloadSizes (lc_maxRequestBytes config) (lc_maxResponseBytes config))
  then false
  else
    let layout := ComputeLayout os_mutex_size config in
    if (totalSize layout <? header_size os_mutex_size) || (file_size <? totalSize layout) then false
    else true.

Definition ProcessIsAlive (pid_value : Z) (w : World) : bool * World :=
  if pid_value =? 0 then (false, w)
  else
    let errno := os_kill0 (w_tick w) (i32 pid_value) in
    (if errno =? 0 then true else negb (errno =? errno_ESRCH), tick w).

(** The handles adopted and what remains with the caller. *)
Definition TakeBootstrapHandles (handles : option BootstrapHandles)
    : BootstrapHandles * option BootstrapHandles :=
  match handles with
  | None => (MakeDefaultBootstrapHandles, None)
  | Some h => (h, Some MakeDefaultBootstrapHandles)
  end.

(** ** Release *)

Definition ReleaseClientAttachment (header : option nat) (owns_client_attachment : bool) (w : World)
    : World :=
  match header with
  | None => w
  | Some id =>
      if negb owns_client_attachment then w
      else
        let '(status, w) := LockSharedMutex (Some id) w in
        if negb (status_is status Ok) then w
        else
          let w := update_header id
                     (fun h => h <| hd_clientAttached := 0 |> <| hd_activeClientPid := 0 |>) w in
          sys_unlock id w
  end.

Definition CloseHandles (handles : BootstrapHandles) (w : World) : BootstrapHandles * World :=
  let '(f1, w) := CloseFd (shmFd handles) w in
  let '(f2, w) := CloseFd (highReqEventFd handles) w in
  let '(f3, w) := CloseFd (normalReqEventFd handles) w in
  let '(f4, w) := CloseFd (respEventFd handles) w in
  let '(f5, w) := CloseFd (reqCreditEventFd handles) w in
  let '(f6, w) := CloseFd (respCreditEventFd handles) w in
  (handles <| shmFd := f1 |> <| highReqEventFd := f2 |> <| normalReqEventFd := f3 |>
           <| respEventFd := f4 |> <| reqCreditEventFd := f5 |> <| respCreditEventFd := f6 |>, w).

Definition CurrentMappedSize (s : Session) : Z :=
  if negb (ss_mappedSize s =? 0) then ss_mappedSize s else ss_initialMappedSize s.

Definition Reset (s : Session) (w : World) : Session * World :=
  let w := ReleaseClientAttachment (ss_header s) (ss_ownsClientAttachment s) w in
  let w :=
    match ss_mappedRegion s with
    | None => w
    | Some id =>
        let mappedSize := CurrentMappedSize s in
        if negb (mappedSize =? 0) then sys_munmap id mappedSize w else w
    end in
  let '(_, w) := CloseHandles (ss_handles s) w in
  (Session_default, w).

(** ** Attach *)

(** The header a session points to. *)
Definition read_header (header : option nat) (w : World) : option SharedMemoryHeader :=
  match header with
  | None => None
  | Some id => shm_header <$> w_shm w !! id
  end.

Definition MapAndValidateHeader (fd : Z) (s : Session) (w : World) : StatusCode * Session * World :=
  let '(st, w) := sys_fstat fd w in
  match st with
  | None => (EngineInternalError, s, w)
  | Some st_size =>
      if st_size <? header_size os_mutex_size then (ProtocolMismatch, s, w)
      else
        let s := s <| ss_initialMappedSize := header_size os_mutex_size |> <| ss_mappedSize := 0 |> in
        let '(region, w) := sys_mmap fd (ss_initialMappedSize s) w in
        let s := s <| ss_mappedRegion := region |> in
        match region with
        | None => (EngineInternalError, s, w)
        | Some id =>
            let s := s <| ss_header := Some id |> in
            match read_header (ss_header s) w with
            | None => (EngineInternalError, s, w)
            | Some h =>
                if negb (hd_magic h =? SHARED_MEMORY_MAGIC) ||
                   negb (hd_protocolVersion h =? PROTOCOL_VERSION)
                then
                  let '(s, w) := Reset s w in
                  (ProtocolMismatch, s, w)
                else (Ok, s, w)
            end
        end
  end.

(** The layout configuration a header announces. *)
Definition header_config (h : SharedMemoryHeader) : LayoutConfig := {|
  lc_highRingSize := hd_highRingSize h; lc_normalRingSize := hd_normalRingSize h;
  lc_responseRingSize := hd_responseRingSize h; lc_maxRequestBytes := hd_maxRequestBytes h;
  lc_maxResponseBytes := hd_maxResponseBytes h |}.

(** The four tests of [RemapWithActualLayout]. *)
Definition validate_header (h : SharedMemoryHeader) (file_size : Z) : bool :=
  let config := header_config h in
  ValidateLayoutConfig config file_size &&
  ValidateRingCursor (hd_highRing h) (lc_highRingSize config) &&
  ValidateRingCursor (hd_normalRing h) (lc_normalRingSize config) &&
  ValidateRingCursor (hd_responseRing h) (lc_responseRingSize config).

Definition RemapWithActualLayout (fd : Z) (s : Session) (w : World) : StatusCode * Session * World :=
  let '(st, w) := sys_fstat fd w in
  match st, read_header (ss_header s) w with
  | Some st_size, Some h =>
      let config := header_config h in
      if negb (validate_header h st_size) then
        let '(s, w) := Reset s w in
        (ProtocolMismatch, s, w)
      else
        let actual_layout := ComputeLayout os_mutex_size config in
        let w :=
          match ss_mappedRegion s with
          | Some id => sys_munmap id (ss_initialMappedSize s) w
          | None => w
          end in
        let s := s <| ss_mappedRegion := None |> <| ss_header := None |>
                   <| ss_initialMappedSize := 0 |> in
        let '(region, w) := sys_mmap fd (totalSize actual_layout) w in
        match region with
        | None =>
            (EngineInternalError,
             s <| ss_mappedRegion := None |> <| ss_header := None |> <| ss_mappedSize := 0 |>, w)
        | Some id =>
            (Ok,
             s <| ss_mappedRegion := Some id |> <| ss_layout := actual_layout |>
               <| ss_maxRequestBytes := lc_maxRequestBytes config |>
               <| ss_maxResponseBytes := lc_maxResponseBytes config |>
               <| ss_responseRingSize := lc_responseRingSize config |>
               <| ss_mappedSize := totalSize actual_layout |> <| ss_header := Some id |>, w)
        end
  | _, _ =>
      let '(s, w) := Reset s w in
      (EngineInternalError, s, w)
  end.

Definition TryAcquireClientAttachment (pid : Z) (s : Session) (w : World)
    : StatusCode * Session * World :=
  let '(lock_status, w) := LockSharedMutex (ss_header s) w in
  if negb (status_is lock_status Ok) then
    let '(s, w) := Reset s w in
    (lock_status, s, w)
  else
    match ss_header s, read_header (ss_header s) w with
    | Some id, Some h =>
        let acquire (w : World) :=
          let w := update_header id (fun h => h <| hd_clientAttached := 1 |>
                                                <| hd_activeClientPid := u32 pid |>) w in
          let s := s <| ss_ownsClientAttachment := true |> in
          (Ok, s, sys_unlock id w) in
        if negb (hd_clientAttached h =? 0) then
          let '(alive, w) := ProcessIsAlive (hd_activeClientPid h) w in
          if negb alive then
            acquire (update_header id (fun h => h <| hd_clientAttached := 0 |>
                                                  <| hd_activeClientPid := 0 |>) w)
          else
            let w := sys_unlock id w in
            let '(s, w) := Reset s w in
            (InvalidArgument, s, w)
        else acquire w
    | _, _ => (EngineInternalError, s, w)
    end.

(** [Attach]: the status, the handles left with the caller, the session and
    the world. *)
Definition Attach (pid : Z) (handles : option BootstrapHandles) (role : AttachRole)
    (s : Session) (w : World) : StatusCode * option BootstrapHandles * Session * World :=
  let '(s, w) := Reset s w in
  let '(adopted, handles) := TakeBootstrapHandles handles in
  if shmFd adopted <? 0 then
    let '(_, w) := CloseHandles adopted w in
    (InvalidArgument, handles, s, w)
  else
    let '(status, s, w) := MapAndValidateHeader (shmFd adopted) s w in
    if negb (status_is status Ok) then
      let '(_, w) := CloseHandles adopted w in
      (status, handles, s, w)
    else
      let '(status, s, w) := RemapWithActualLayout (shmFd adopted) s w in
      if negb (status_is status Ok) then
        let '(_, w) := CloseHandles adopted w in
        (status, handles, s, w)
      else
        let s := s <| ss_handles := adopted |> <| ss_attachRole := role |>
                   <| ss_ownsClientAttachment := false |> in
        match role with
        | RoleClient =>
            let '(status, s, w) := TryAcquireClientAttachment pid s w in
            (status, handles, s, w)
        | RoleServer => (Ok, handles, s, w)
        end.

End Session.

(** ** Rings of an attached session *)

Definition Valid (s : Session) : bool := bool_decide (is_Some (ss_header s)).

Definition State (s : Session) (w : World) : Z :=
  match read_header (ss_header s) w with
  | None => SessionState_Broken
  | Some h => hd_sessionState h
  end.

Definition SetState (s : Session) (state : Z) (w : World) : World :=
  match ss_header s with
  | None => w
  | Some id => update_header id (fun h => h <| hd_sessionState := state |>) w
  end.

Definition ring_entry (queue : QueueKind) : Type :=
  match queue with Response => ResponseRingEntry | _ => RequestRingEntry end.

(** The cursor and the entries of a ring in a shared-memory object. *)
Definition shm_ring (queue : QueueKind) (shm : Shm) : RingMem (ring_entry queue) :=
  match queue with
  | HighRequest => MkRing (hd_highRing (shm_header shm)) (shm_high shm)
  | NormalRequest => MkRing (hd_normalRing (shm_header shm)) (shm_normal shm)
  | Response => MkRing (hd_responseRing (shm_header shm)) (shm_response shm)
  end.

Definition set_shm_ring (queue : QueueKind) : RingMem (ring_entry queue) -> Shm -> Shm :=
  match queue with
  | HighRequest => fun r shm =>
      shm <| shm_high := rg_entries r |>
          <| shm_header := (shm_header shm) <| hd_highRing := rg_cursor r |> |>
  | NormalRequest => fun r shm =>
      shm <| shm_normal := rg_entries r |>
          <| shm_header := (shm_header shm) <| hd_normalRing := rg_cursor r |> |>
  | Response => fun r shm =>
      shm <| shm_response := rg_entries r |>
          <| shm_header := (shm_header shm) <| hd_responseRing := rg_cursor r |> |>
  end.

(** [None] is the access with null pointers. *)
Definition ResolveRing (s : Session) (queue : QueueKind) (w : World)
    : option (RingMem (ring_entry queue)) :=
  match ss_header s, ss_mappedRegion s with
  | Some _, Some id => shm_ring queue <$> w_shm w !! id
  | _, _ => None
  end.

(** Store a ring back through the access. *)
Definition put_ring (s : Session) (queue : QueueKind) (r : option (RingMem (ring_entry queue)))
    (w : World) : World :=
  match ss_mappedRegion s, r with
  | Some id, Some r => update_shm id (set_shm_ring queue r) w
  | _, _ => w
  end.

(** [PushRequest] and [PushResponse].  [peer] is what the other process does
    to the shared memory between the push and the second look at the state. *)
Definition push_ring (peer : World -> World) (s : Session) (queue : QueueKind)
    (entry : ring_entry queue) (w : World) : defined (StatusCode * World) :=
  if negb (State s w =? SessionState_Alive) then Defined (PeerDisconnected, w)
  else
    match PushRingEntry (ResolveRing s queue w) entry with
    | Undefined => Undefined
    | Defined (status, r) =>
        let w := peer (put_ring s queue r w) in
        if status_is status Ok && negb (State s w =? SessionState_Alive)
        then Defined (PeerDisconnected, w)
        else Defined (status, w)
    end.

Definition pop_ring (s : Session) (queue : QueueKind) (entry : outptr) (w : World)
    : defined (option (ring_entry queue) * World) :=
  if negb (State s w =? SessionState_Alive) then Defined (None, w)
  else
    match PopRingEntry (ResolveRing s queue w) entry with
    | Undefined => Undefined
    | Defined (e, r) => Defined (e, put_ring s queue r w)
    end.

Definition PushRequest (peer : World -> World) (s : Session) (high : bool) (entry : RequestRingEntry)
    (w : World) : defined (StatusCode * World) :=
  if high then push_ring peer s HighRequest entry w else push_ring peer s NormalRequest entry w.

Definition PopRequest (s : Session) (high : bool) (entry : outptr) (w : World)
    : defined (option RequestRingEntry * World) :=
  if high then pop_ring s HighRequest entry w else pop_ring s NormalRequest entry w.

Definition PushResponse (peer : World -> World) (s : Session) (entry : ResponseRingEntry) (w : World)
    : defined (StatusCode * World) :=
  push_ring peer s Response entry w.

Definition PopResponse (s : Session) (entry : outptr) (w : World)
    : defined (option ResponseRingEntry * World) :=
  pop_ring s Response entry w.

(** ** Removing the files of entries nobody will read *)

Section Cleanup.
Context {FS : Type} `{PosixFs FS}.

(** The loop over the [count] entries from position [pos]; [view] gives the
    array, the size and the kind an entry announces. *)
Fixpoint remove_pending {E : Type} (view : E -> bytes * Z * Z) (dir : string) (r : RingMem E)
    (count : nat) (pos : Z) (fs : FS) : defined FS :=
  match count with
  | O => Defined fs
  | S count =>
      match rg_entries r !! Z.to_nat (u32 pos mod capacity (rg_cursor r)) with
      | None => Undefined
      | Some entry =>
          let '(payload, size, kind) := view entry in
          match RemoveFilePayloadFromTransport dir (Some payload) size kind fs with
          | Undefined => Undefined
          | Defined (_, fs) => remove_pending view dir r count (pos + 1) fs
          end
      end
  end.

Definition RemovePendingFilePayloadsFromRing {E : Type} (view : E -> bytes * Z * Z)
    (access : option (RingMem E)) (dir : string) (fs : FS) : defined FS :=
  match access with
  | None => Defined fs
  | Some r =>
      let c := rg_cursor r in
      if capacity c =? 0 then Defined fs
      else
        let count := Z.min (u32 (tail c - head c)) (capacity c) in
        remove_pending view dir r (Z.to_nat count) (head c) fs
  end.

Definition request_view (e : RequestRingEntry) : bytes * Z * Z :=
  (rq_payload e, rq_payloadSize e, rq_payloadKind e).
Definition response_view (e : ResponseRingEntry) : bytes * Z * Z :=
  (rs_payload e, rs_resultSize e, rs_payloadKind e).

Definition RemovePendingFilePayloads (s : Session) (dir : string) (w : World) (fs : FS)
    : defined FS :=
  match ss_header s, ss_mappedRegion s with
  | Some _, Some _ =>
      match RemovePendingFilePayloadsFromRing request_view (ResolveRing s HighRequest w) dir fs with
      | Undefined => Undefined
      | Defined fs =>
          match RemovePendingFilePayloadsFromRing request_view (ResolveRing s NormalRequest w) dir fs with
          | Undefined => Undefined
          | Defined fs =>
              RemovePendingFilePayloadsFromRing response_view (ResolveRing s Response w) dir fs
          end
      end
  | _, _ => Defined fs
  end.

End Cleanup.

(** ** Release of resources *)

(** The descriptors of [h] closed. *)
Definition closed_fds (h : BootstrapHandles) (fds : gmap Z fd_object) : gmap Z fd_object :=
  fold_left (fun fds fd => if 0 <=? fd then delete fd fds else fds) (handle_fds h) fds.

Lemma closed_fds_default fds : closed_fds MakeDefaultBootstrapHandles fds = fds.
Proof. done. Qed.

Lemma fold_close_lookup l (fds : gmap Z fd_object) fd :
  fold_left (fun fds fd => if 0 <=? fd then delete fd fds else fds) l fds !! fd =
    if bool_decide (fd ∈ l) && (0 <=? fd) then None else fds !! fd.
Proof.
  revert fds. induction l as [|x l IH]; intros fds; [done|]. cbn [fold_left]. rewrite IH.
  destruct (decide (fd = x)) as [->|Hne].
  - rewrite (bool_decide_eq_true_2 (x ∈ x :: l)) by set_solver. cbn.
    destruct (0 <=? x) eqn:E; [|by rewrite andb_false_r].
    rewrite lookup_delete_eq. by destruct (_ && _).
  - assert (Hl : bool_decide (fd ∈ x :: l) = bool_decide (fd ∈ l)) by (apply bool_decide_ext; set_solver).
    rewrite Hl. destruct (0 <=? x); [by rewrite lookup_delete_ne by done|done].
Qed.

(** Exactly the valid descriptors of [h] are no longer open. *)
Lemma closed_fds_lookup h fds fd :
  closed_fds h fds !! fd = if bool_decide (fd ∈ handle_fds h) && (0 <=? fd) then None else fds !! fd.
Proof. apply fold_close_lookup. Qed.

(** The mapping of a session, removed. *)
Definition maps_without (s : Session) (maps : list (nat * Z)) : list (nat * Z) :=
  match ss_mappedRegion s with
  | Some id => if CurrentMappedSize s =? 0 then maps else remove_map (id, CurrentMappedSize s) maps
  | None => maps
  end.

Section SessionFacts.
Context `{OsLaws}.

(** What a call that touches neither descriptors, mappings, shared memory nor
    mutexes preserves. *)
Definition same_world (w w' : World) : Prop :=
  w_fds w' = w_fds w /\ w_maps w' = w_maps w /\ w_shm w' = w_shm w /\ w_held w' = w_held w.

Lemma CloseHandles_spec hs w :
  let w' := snd (CloseHandles hs w) in
  w_fds w' = closed_fds hs (w_fds w) /\ w_maps w' = w_maps w /\ w_shm w' = w_shm w /\
  w_held w' = w_held w.
Proof.
  unfold CloseHandles, CloseFd, closed_fds, sys_close. cbn [handle_fds fold_left].
  destruct (0 <=? shmFd hs), (0 <=? highReqEventFd hs), (0 <=? normalReqEventFd hs),
    (0 <=? respEventFd hs), (0 <=? reqCreditEventFd hs), (0 <=? respCreditEventFd hs); done.
Qed.

(** The header fields the client attachment protocol writes. *)
Definition same_but_attachment (h h' : SharedMemoryHeader) : Prop :=
  h' = h <| hd_clientAttached := hd_clientAttached h' |>
         <| hd_activeClientPid := hd_activeClientPid h' |>.

Lemma LockSharedMutex_spec id w :
  let '(st, w') := LockSharedMutex (Some id) w in
  w_fds w' = w_fds w /\ w_maps w' = w_maps w /\ w_shm w' = w_shm w /\
  w_held w' = match st with Ok => {[id]} ∪ w_held w | _ => w_held w' end /\
  (id ∉ w_held w -> st <> Ok -> w_held w' = w_held w).
Proof.
  unfold LockSharedMutex, sys_call. destruct (os_errno _ =? 0); [|done]. cbn [negb].
  destruct (_ =? 0); [by cbn|].
  destruct (_ =? EOWNERDEAD); [cbn; split_and!; try done; intros; set_solver|].
  destruct (_ =? ETIMEDOUT); [done|]. by destruct (_ =? ENOTRECOVERABLE).
Qed.

Definition release_header (hd : SharedMemoryHeader) : SharedMemoryHeader :=
  hd <| hd_clientAttached := 0 |> <| hd_activeClientPid := 0 |>.

Lemma ReleaseClientAttachment_spec hdr owns w :
  w_held w = ∅ ->
  let w' := ReleaseClientAttachment hdr owns w in
  w_fds w' = w_fds w /\ w_maps w' = w_maps w /\ w_held w' = ∅ /\
  (w_shm w' = w_shm w \/ exists id, hdr = Some id /\ owns = true /\
     w_shm w' = alter (fun shm => shm <| shm_header := release_header (shm_header shm) |>) id (w_shm w)).
Proof.
  intros Hh. unfold ReleaseClientAttachment. destruct hdr as [id|]; [|by eauto].
  destruct owns; cbn [negb]; [|by eauto].
  pose proof (LockSharedMutex_spec id w) as HL. destruct (LockSharedMutex (Some id) w) as [st w'].
  destruct HL as (Hf & Hm & Hs & Hheld & Hno). destruct (status_is st Ok) eqn:E; cbn [negb].
  - cbn. apply status_is_true in E as ->. rewrite Hf, Hm, Hs, Hheld, Hh.
    split_and!; try done; [set_solver|]. right. by exists id.
  - assert (st <> Ok) by (intros ->; discriminate E).
    rewrite Hf, Hm, Hs, Hno by (done || set_solver). eauto.
Qed.

Lemma Reset_spec s w :
  w_held w = ∅ ->
  exists w', Reset s w = (Session_default, w') /\
  w_fds w' = closed_fds (ss_handles s) (w_fds w) /\ w_maps w' = maps_without s (w_maps w) /\
  w_held w' = ∅ /\
  (w_shm w' = w_shm w \/ exists id, ss_header s = Some id /\ ss_ownsClientAttachment s = true /\
     w_shm w' = alter (fun shm => shm <| shm_header := release_header (shm_header shm) |>) id (w_shm w)).
Proof.
  intros Hh. unfold Reset.
  destruct (ReleaseClientAttachment_spec (ss_header s) (ss_ownsClientAttachment s) w Hh)
    as (Hf & Hm & Hheld & Hs).
  set (w1 := ReleaseClientAttachment _ _ w) in *.
  set (w2 := match ss_mappedRegion s with Some _ => _ | None => _ end).
  assert (Hw2 : w_fds w2 = w_fds w1 /\ w_maps w2 = maps_without s (w_maps w1) /\
                w_held w2 = w_held w1 /\ w_shm w2 = w_shm w1).
  { subst w2. unfold maps_without. destruct (ss_mappedRegion s); [|done].
    by destruct (CurrentMappedSize s =? 0). }
  destruct Hw2 as (Hf2 & Hm2 & Hh2 & Hs2).
  pose proof (CloseHandles_spec (ss_handles s) w2) as HC.
  destruct (CloseHandles (ss_handles s) w2) as [hs w3]. cbn in HC. destruct HC as (Hf3 & Hm3 & Hs3 & Hh3).
  exists w3. rewrite Hf3, Hm3, Hs3, Hh3, Hf2, Hm2, Hs2, Hh2, Hf, Hm, Hheld. done.
Qed.

(** A session that holds nothing. *)
Definition idle (s : Session) : Prop :=
  ss_mappedRegion s = None /\ ss_header s = None /\ ss_handles s = MakeDefaultBootstrapHandles /\
  ss_ownsClientAttachment s = false.

Lemma idle_default : idle Session_default.
Proof. done. Qed.

Lemma remove_map_head m l : remove_map m (m :: l) = l.
Proof. cbn. by rewrite bool_decide_eq_true_2. Qed.

Lemma header_size_positive : 0 < header_size os_mutex_size.
Proof. pose proof (header_size_bounds _ os_mutex_size_ok). pose proof os_mutex_size_ok as [? _]. lia. Qed.

(** The session after a successful [MapAndValidateHeader]. *)
Definition header_mapped (id : nat) : Session :=
  Session_default <| ss_initialMappedSize := header_size os_mutex_size |>
                  <| ss_mappedRegion := Some id |> <| ss_header := Some id |>.

(** Resetting a session that only mapped the header undoes the mapping. *)
Lemma Reset_header_mapped id w maps :
  w_held w = ∅ -> w_maps w = (id, header_size os_mutex_size) :: maps ->
  exists w', Reset (header_mapped id) w = (Session_default, w') /\
    same_world (w <| w_maps := maps |>) w'.
Proof.
  intros Hh Hm. destruct (Reset_spec (header_mapped id) w Hh) as (w' & -> & Hf & Hm' & Hh' & Hs).
  exists w'. split; [done|]. unfold same_world. cbn. rewrite Hf, Hm', Hh', Hm. unfold maps_without.
  change (CurrentMappedSize (header_mapped id)) with (header_size os_mutex_size).
  destruct (Z.eqb_spec (header_size os_mutex_size) 0) as [E|_]; [pose proof header_size_positive; lia|].
  change (ss_mappedRegion (header_mapped id)) with (Some id). cbv iota. rewrite remove_map_head. split_and!; try done.
  by destruct Hs as [->|(? & _ & [=] & _)].
Qed.

Lemma sys_fstat_shm fd w st w' :
  sys_fstat fd w = (Some st, w') -> 0 < st ->
  same_world w w' /\ exists id shm, fd_shm fd w = Some (id, shm) /\ st = shm_size shm.
Proof.
  unfold sys_fstat, sys_call, fd_shm. destruct (_ =? 0); intros [= Hst <-]. cbn in Hst.
  destruct (w_fds w !! fd) as [[id|]|]; [|simplify_eq; lia|done].
  destruct (w_shm w !! id) as [shm|] eqn:E; [|done]. cbn in Hst. simplify_eq.
  intros _. split; [done|]. eauto.
Qed.

Lemma sys_fstat_size fd w st w' id shm :
  sys_fstat fd w = (Some st, w') -> fd_shm fd w = Some (id, shm) -> st = shm_size shm.
Proof.
  unfold sys_fstat, sys_call, fd_shm. destruct (_ =? 0); [|done]. cbn.
  destruct (w_fds w !! fd) as [[i|]|]; [|done..]. destruct (w_shm w !! i); [|done].
  cbn. congruence.
Qed.

Lemma sys_fstat_same fd w : same_world w (snd (sys_fstat fd w)).
Proof. done. Qed.

Lemma sys_mmap_spec fd size w :
  let '(r, w') := sys_mmap fd size w in
  match r with
  | Some id => (exists shm, fd_shm fd w = Some (id, shm)) /\
      same_world (w <| w_maps := (id, size) :: w_maps w |>) w'
  | None => same_world w w'
  end.
Proof.
  unfold sys_mmap, sys_call. destruct (os_errno _ =? 0); [|done].
  change (fd_shm fd (tick w)) with (fd_shm fd w).
  destruct (fd_shm fd w) as [[id shm]|]; [|done]. split; [by eauto|done].
Qed.

Lemma fd_shm_lookup fd w id shm : fd_shm fd w = Some (id, shm) -> w_shm w !! id = Some shm.
Proof.
  unfold fd_shm. destruct (w_fds w !! fd) as [[i|]|]; [|done..].
  destruct (w_shm w !! i) eqn:E; intros [= <- <-]. done.
Qed.

(** What [MapAndValidateHeader] does to a fresh session. *)
Lemma MapAndValidateHeader_spec fd w :
  w_held w = ∅ ->
  let '(st, s', w') := MapAndValidateHeader fd Session_default w in
  (st <> Ok /\ idle s' /\ same_world w w') \/
  exists id shm, st = Ok /\ fd_shm fd w = Some (id, shm) /\ s' = header_mapped id /\
    hd_magic (shm_header shm) = SHARED_MEMORY_MAGIC /\
    hd_protocolVersion (shm_header shm) = PROTOCOL_VERSION /\
    same_world (w <| w_maps := (id, header_size os_mutex_size) :: w_maps w |>) w'.
Proof.
  intros Hh. unfold MapAndValidateHeader.
  pose proof (sys_fstat_same fd w) as Hsame. destruct (sys_fstat fd w) as [[st|] w1] eqn:EF; [|by left].
  destruct (Z.ltb_spec st (header_size os_mutex_size)); [by left|].
  pose proof header_size_positive.
  destruct (sys_fstat_shm _ _ _ _ EF) as (_ & id & shm & Hfd & _); [lia|].
  cbn in Hsame. destruct Hsame as (Hf1 & Hm1 & Hs1 & Hh1).
  assert (Heq : fd_shm fd w1 = fd_shm fd w) by (unfold fd_shm; by rewrite Hf1, Hs1).
  pose proof (sys_mmap_spec fd (header_size os_mutex_size) w1) as HM.
  change (ss_initialMappedSize (Session_default <| ss_initialMappedSize := header_size os_mutex_size |>
            <| ss_mappedSize := 0 |>)) with (header_size os_mutex_size).
  destruct (sys_mmap fd (header_size os_mutex_size) w1) as [[id'|] w2]; cbn in HM.
  2:{ left. unfold same_world in *. destruct HM as (-> & -> & -> & ->). done. }
  destruct HM as [(shm' & Hfd') (Hf2 & Hm2 & Hs2 & Hh2)].
  rewrite Heq, Hfd in Hfd'. injection Hfd' as <- <-. cbn in Hf2, Hm2, Hs2, Hh2.
  assert (Hrd : read_header (Some id) w2 = Some (shm_header shm)).
  { cbn. by rewrite Hs2, Hs1, (fd_shm_lookup _ _ _ _ Hfd). }
  change (Session_default <| ss_initialMappedSize := header_size os_mutex_size |> <| ss_mappedSize := 0 |>
            <| ss_mappedRegion := Some id |> <| ss_header := Some id |>) with (header_mapped id).
  change (ss_header (header_mapped id)) with (Some id). rewrite Hrd.
  destruct (negb _ || negb _) eqn:E.
  - destruct (Reset_header_mapped id w2 (w_maps w)) as (w3 & -> & Hf3 & Hm3 & Hs3 & Hh3);
      [congruence|by rewrite Hm2, Hm1|].
    left. split_and!; try done. unfold same_world. cbn in *. by rewrite Hf3, Hm3, Hs3, Hh3, Hf2, Hs2, Hh2, Hf1, Hs1.
  - bool_to_prop. right. exists id, shm. split_and!; try done.
    unfold same_world. cbn. by rewrite Hf2, Hm2, Hs2, Hh2, Hf1, Hm1, Hs1.
Qed.

#[local] Opaque ComputeLayout.

(** The session after a successful [RemapWithActualLayout]. *)
Definition attached (id : nat) (hd : SharedMemoryHeader) : Session :=
  let config := header_config hd in
  let layout := ComputeLayout os_mutex_size config in
  {| ss_mappedSize := totalSize layout; ss_initialMappedSize := 0; ss_mappedRegion := Some id;
     ss_handles := MakeDefaultBootstrapHandles; ss_header := Some id; ss_layout := layout;
     ss_maxRequestBytes := lc_maxRequestBytes config;
     ss_maxResponseBytes := lc_maxResponseBytes config;
     ss_responseRingSize := lc_responseRingSize config;
     ss_attachRole := RoleServer; ss_ownsClientAttachment := false |}.

Lemma validate_header_total hd size :
  validate_header hd size = true ->
  header_size os_mutex_size <= totalSize (ComputeLayout os_mutex_size (header_config hd)) <= size.
Proof.
  unfold validate_header, ValidateLayoutConfig. rewrite !andb_true_iff. intros [[[Hv _] _] _].
  repeat case_match; try done. bool_to_prop. lia.
Qed.

Lemma RemapWithActualLayout_spec fd id shm w maps :
  w_held w = ∅ -> w_maps w = (id, header_size os_mutex_size) :: maps ->
  fd_shm fd w = Some (id, shm) ->
  let '(st, s', w') := RemapWithActualLayout fd (header_mapped id) w in
  (st <> Ok /\ idle s' /\ same_world (w <| w_maps := maps |>) w') \/
  (st = Ok /\ validate_header (shm_header shm) (shm_size shm) = true /\
   s' = attached id (shm_header shm) /\
   same_world (w <| w_maps := (id, totalSize (ComputeLayout os_mutex_size
                                 (header_config (shm_header shm)))) :: maps |>) w').
Proof.
  intros Hh Hm Hfd. unfold RemapWithActualLayout.
  pose proof (sys_fstat_same fd w) as Hsame. pose proof (fd_shm_lookup _ _ _ _ Hfd) as Hshm.
  destruct (sys_fstat fd w) as [st w1] eqn:EF. cbn in Hsame.
  assert (HR : exists w', Reset (header_mapped id) w1 = (Session_default, w') /\
                          same_world (w <| w_maps := maps |>) w').
  { destruct Hsame as (Hf1 & Hm1 & Hs1 & Hh1).
    destruct (Reset_header_mapped id w1 maps) as (w' & HR & HS); [congruence..|].
    exists w'. split; [done|]. destruct HS as (? & ? & ? & ?). unfold same_world. cbn in *. by split_and!; congruence. }
  destruct HR as (wr & HR & HSr).
  assert (Hrd : read_header (ss_header (header_mapped id)) w1 = Some (shm_header shm)).
  { cbn. destruct Hsame as (_ & _ & -> & _). by rewrite Hshm. }
  rewrite Hrd. destruct st as [st|]; [|by rewrite HR; left].
  rewrite (sys_fstat_size _ _ _ _ _ _ EF Hfd). destruct (validate_header _ _) eqn:EV; cbn [negb]; [|by rewrite HR; left].
  change (ss_mappedRegion (header_mapped id)) with (Some id). cbv iota.
  change (ss_initialMappedSize (header_mapped id)) with (header_size os_mutex_size).
  set (total := totalSize (ComputeLayout os_mutex_size (header_config (shm_header shm)))).
  set (w2 := sys_munmap id (header_size os_mutex_size) w1).
  assert (Hw2 : same_world (w <| w_maps := maps |>) w2).
  { destruct Hsame as (Hf1 & Hm1 & Hs1 & Hh1). unfold w2, sys_munmap, same_world.
    cbn [w_fds w_maps w_shm w_held tick set_field]. cbn. rewrite Hm1, Hm.
    cbn. by rewrite bool_decide_eq_true_2. }
  clearbody w2. pose proof (sys_mmap_spec fd total w2) as HM.
  destruct (sys_mmap fd total w2) as [[id'|] w3]; cbn in HM.
  - destruct HM as [(shm' & Hfd') HS]. right.
    destruct Hw2 as (Hf2 & Hm2 & Hs2 & Hh2). cbn in Hf2, Hm2, Hs2, Hh2.
    assert (Heq : fd_shm fd w2 = fd_shm fd w) by (unfold fd_shm; by rewrite Hf2, Hs2).
    rewrite Heq, Hfd in Hfd'. injection Hfd' as <- <-. split_and!; try done.
    destruct HS as (? & ? & ? & ?). unfold same_world. cbn in *. split_and!; congruence.
  - left. split_and!; try done. destruct Hw2 as (?&?&?&?), HM as (?&?&?&?).
    unfold same_world. cbn in *. split_and!; congruence.
Qed.

(** The recorded client is gone, as far as the system says. *)
Definition recorded_dead (hd : SharedMemoryHeader) : Prop :=
  hd_activeClientPid hd = 0 \/ exists n, os_kill0 n (i32 (hd_activeClientPid hd)) = errno_ESRCH.

Lemma ProcessIsAlive_dead hd w w' :
  ProcessIsAlive (hd_activeClientPid hd) w = (false, w') -> recorded_dead hd.
Proof.
  unfold ProcessIsAlive, recorded_dead. destruct (_ =? 0) eqn:E; [bool_to_prop; by left|].
  destruct (os_kill0 _ _ =? 0); [done|]. intros [= Hn _]. bool_to_prop. right. eauto.
Qed.

Lemma ProcessIsAlive_same pid w : same_world w (snd (ProcessIsAlive pid w)).
Proof. unfold ProcessIsAlive. by destruct (pid =? 0). Qed.

Definition acquire_header (pid : Z) (hd : SharedMemoryHeader) : SharedMemoryHeader :=
  hd <| hd_clientAttached := 1 |> <| hd_activeClientPid := u32 pid |>.

Definition alter_header (id : nat) (f : SharedMemoryHeader -> SharedMemoryHeader)
    (shms : gmap nat Shm) : gmap nat Shm :=
  alter (fun shm => shm <| shm_header := f (shm_header shm) |>) id shms.

Lemma alter_header_compose id f g shms :
  alter_header id f (alter_header id g shms) = alter_header id (fun h => f (g h)) shms.
Proof.
  unfold alter_header. apply map_eq. intros i. destruct (decide (i = id)) as [->|Hne].
  - rewrite !lookup_alter_eq. by destruct (shms !! id).
  - by rewrite !lookup_alter_ne.
Qed.

(** Resetting an attached session that does not own the client attachment. *)
Lemma Reset_attached s id w maps :
  w_held w = ∅ -> ss_mappedRegion s = Some id -> ss_ownsClientAttachment s = false ->
  CurrentMappedSize s <> 0 -> w_maps w = (id, CurrentMappedSize s) :: maps ->
  exists w', Reset s w = (Session_default, w') /\ w_shm w' = w_shm w /\ w_held w' = ∅ /\
    w_maps w' = maps /\ w_fds w' = closed_fds (ss_handles s) (w_fds w).
Proof.
  intros Hh Hr Ho Hsz Hm. destruct (Reset_spec s w Hh) as (w' & HR & Hf & Hm' & Hh' & Hs).
  exists w'. split_and!; try done.
  - destruct Hs as [?|(? & _ & ? & _)]; [done|congruence].
  - rewrite Hm', Hm. unfold maps_without. rewrite Hr.
    destruct (Z.eqb_spec (CurrentMappedSize s) 0); [done|]. apply remove_map_head.
Qed.

Lemma TryAcquireClientAttachment_spec pid s id shm w maps :
  w_held w = ∅ -> ss_mappedRegion s = Some id -> ss_header s = Some id ->
  ss_ownsClientAttachment s = false -> CurrentMappedSize s <> 0 ->
  w_maps w = (id, CurrentMappedSize s) :: maps -> w_shm w !! id = Some shm ->
  let '(st, s', w') := TryAcquireClientAttachment pid s w in
  w_held w' = ∅ /\
  ((st <> Ok /\ s' = Session_default /\ w_shm w' = w_shm w /\ w_maps w' = maps /\
    w_fds w' = closed_fds (ss_handles s) (w_fds w)) \/
   (st = Ok /\ s' = s <| ss_ownsClientAttachment := true |> /\
    (hd_clientAttached (shm_header shm) = 0 \/ recorded_dead (shm_header shm)) /\
    w_shm w' = alter_header id (acquire_header pid) (w_shm w) /\ w_maps w' = w_maps w /\
    w_fds w' = w_fds w)).
Proof.
  intros Hh Hr Hhd Ho Hsz Hm Hshm. unfold TryAcquireClientAttachment. rewrite Hhd.
  pose proof (LockSharedMutex_spec id w) as HL.
  destruct (LockSharedMutex (Some id) w) as [lst w1]. destruct HL as (Hf1 & Hm1 & Hs1 & Hheld & Hno).
  destruct (status_is lst Ok) eqn:E; cbn [negb].
  2:{ assert (lst <> Ok) by (intros ->; discriminate E).
      destruct (Reset_attached s id w1 maps) as (w' & -> & ? & ? & ? & Hf); try done;
        [by rewrite Hno by (done || set_solver)|congruence|].
      rewrite Hf1 in Hf. split; [done|]. left. split_and!; congruence. }
  apply status_is_true in E as ->. cbn [read_header]. rewrite Hs1, Hshm. cbn [fmap option_fmap option_map].
  assert (Hun : forall w2, w_held w2 = w_held w1 -> w_held (sys_unlock id w2) = ∅).
  { intros w2 Hh2. cbn. rewrite Hh2, Hheld, Hh. set_solver. }
  destruct (hd_clientAttached (shm_header shm) =? 0) eqn:Ea; cbn [negb]; bool_to_prop.
  { split; [by apply Hun|]. right. split_and!; try done; [by left|]. cbn. by rewrite Hs1. }
  pose proof (ProcessIsAlive_same (hd_activeClientPid (shm_header shm)) w1) as Hpa.
  destruct (ProcessIsAlive _ w1) as [alive w2] eqn:EP. cbn in Hpa.
  pose proof Hpa as (Hf2 & Hm2 & Hs2 & Hh2). destruct alive; cbn [negb].
  - destruct (Reset_attached s id (sys_unlock id w2) maps) as (w' & -> & Hs' & ? & ? & Hf); try done;
      [by apply Hun|cbn; congruence|].
    change (w_fds (sys_unlock id w2)) with (w_fds w2) in Hf. cbn in Hs'. split; [done|]. left. split_and!; try done; congruence.
  - split; [by apply Hun|]. right.
    split_and!; [done|done|right; by eapply ProcessIsAlive_dead| |cbn; congruence|cbn; congruence].
    cbn. rewrite Hs2, Hs1.
    change (alter_header id (acquire_header pid) (alter_header id release_header (w_shm w)) =
            alter_header id (acquire_header pid) (w_shm w)).
    rewrite alter_header_compose. done.
Qed.

(** The two outcomes of [Attach] from the world [w0] in which the session is
    reset. *)
Definition attach_failed (h : BootstrapHandles) (s' : Session) (w0 w' : World) : Prop :=
  idle s' /\ w_fds w' = closed_fds h (w_fds w0) /\ w_maps w' = w_maps w0 /\ w_shm w' = w_shm w0.

Definition attach_succeeded (pid : Z) (h : BootstrapHandles) (role : AttachRole) (id : nat) (shm : Shm)
    (s' : Session) (w0 w' : World) : Prop :=
  let hd := shm_header shm in
  fd_shm (shmFd h) w0 = Some (id, shm) /\ hd_magic hd = SHARED_MEMORY_MAGIC /\
  hd_protocolVersion hd = PROTOCOL_VERSION /\ validate_header hd (shm_size shm) = true /\
  s' = (attached id hd) <| ss_handles := h |> <| ss_attachRole := role |>
         <| ss_ownsClientAttachment := bool_decide (role = RoleClient) |> /\
  w_fds w' = w_fds w0 /\ w_maps w' = (id, ss_mappedSize (attached id hd)) :: w_maps w0 /\
  match role with
  | RoleServer => w_shm w' = w_shm w0
  | RoleClient => (hd_clientAttached hd = 0 \/ recorded_dead hd) /\
      w_shm w' = alter_header id (acquire_header pid) (w_shm w0)
  end.

Lemma CloseHandles_failed h s' w0 w :
  idle s' -> same_world w0 w -> w_held w0 = ∅ ->
  let w' := snd (CloseHandles h w) in w_held w' = ∅ /\ attach_failed h s' w0 w'.
Proof.
  intros Hi (Hf & Hm & Hs & Hh) Hemp. pose proof (CloseHandles_spec h w) as (Hf' & Hm' & Hs' & Hh').
  cbn [snd] in *. unfold attach_failed. rewrite Hf', Hm', Hs', Hh', Hf, Hm, Hs, Hh. done.
Qed.

Lemma mapped_size_validated s hd size :
  validate_header hd size = true -> 
  ss_mappedSize s = totalSize (ComputeLayout os_mutex_size (header_config hd)) ->
  CurrentMappedSize s = ss_mappedSize s /\ CurrentMappedSize s <> 0.
Proof.
  intros Hval Hs. pose proof (validate_header_total _ _ Hval) as Ht. pose proof header_size_positive.
  unfold CurrentMappedSize. destruct (Z.eqb_spec (ss_mappedSize s) 0); cbn [negb]; lia.
Qed.

Lemma Attach_spec pid h role s w :
  w_held w = ∅ ->
  exists w0, Reset s w = (Session_default, w0) /\ w_held w0 = ∅ /\
  let '(st, h', s', w') := Attach pid (Some h) role s w in
  h' = Some MakeDefaultBootstrapHandles /\ w_held w' = ∅ /\
  ((st <> Ok /\ attach_failed h s' w0 w') \/
   (st = Ok /\ exists id shm, attach_succeeded pid h role id shm s' w0 w')).
Proof.
  intros Hh. unfold Attach. destruct (Reset_spec s w Hh) as (w0 & -> & _ & _ & Hh0 & _).
  exists w0. split; [done|]. split; [done|]. cbn [TakeBootstrapHandles].
  destruct (shmFd h <? 0).
  { pose proof (CloseHandles_failed h Session_default w0 w0 idle_default) as HC.
    destruct (CloseHandles h w0) as [hs w']. cbn in HC. destruct HC as [? ?]; [done..|]. eauto 6. }
  pose proof (MapAndValidateHeader_spec (shmFd h) w0 Hh0) as HM.
  destruct (MapAndValidateHeader (shmFd h) Session_default w0) as [[st s1] w1].
  destruct HM as [(Hne & Hi & HS)|(id & shm & -> & Hfd & -> & Hmag & Hver & HS)].
  { rewrite status_is_false by done. cbn [negb].
    pose proof (CloseHandles_failed h s1 w0 w1 Hi HS Hh0) as HC.
    destruct (CloseHandles h w1) as [hs w']. destruct HC. eauto 6. }
  rewrite status_is_refl. cbn [negb]. destruct HS as (Hf1 & Hm1 & Hs1 & Hh1).
  cbn in Hf1, Hm1, Hs1, Hh1. rewrite Hh0 in Hh1.
  assert (Hfd1 : fd_shm (shmFd h) w1 = Some (id, shm)) by (unfold fd_shm in *; by rewrite Hf1, Hs1).
  pose proof (RemapWithActualLayout_spec (shmFd h) id shm w1 (w_maps w0) Hh1 Hm1 Hfd1) as HR.
  destruct (RemapWithActualLayout (shmFd h) (header_mapped id) w1) as [[st s2] w2].
  destruct HR as [(Hne & Hi & HS)|(-> & Hval & -> & HS)].
  { rewrite status_is_false by done. cbn [negb].
    assert (HS0 : same_world w0 w2) by (destruct HS as (?&?&?&?); unfold same_world; cbn in *; split_and!; congruence).
    pose proof (CloseHandles_failed h s2 w0 w2 Hi HS0 Hh0) as HC.
    destruct (CloseHandles h w2) as [hs w']. destruct HC. eauto 6. }
  rewrite status_is_refl. cbn [negb]. destruct HS as (Hf2 & Hm2 & Hs2 & Hh2).
  cbn in Hf2, Hm2, Hs2, Hh2. rewrite Hh1 in Hh2. destruct role.
  2:{ split_and!; try done. right. split; [done|]. exists id, shm. unfold attach_succeeded.
      rewrite Hm2, Hf2, Hf1, Hs2, Hs1. by split_and!. }
  set (s3 := (attached id (shm_header shm)) <| ss_handles := h |> <| ss_attachRole := RoleClient |>
               <| ss_ownsClientAttachment := false |>).
  pose proof (mapped_size_validated s3 (shm_header shm) (shm_size shm) Hval eq_refl) as Htot.
  destruct Htot as [Htot Hnz].
  pose proof (TryAcquireClientAttachment_spec pid s3 id shm w2 (w_maps w0) Hh2 eq_refl eq_refl eq_refl Hnz)
    as HT.
  destruct (TryAcquireClientAttachment pid s3 w2) as [[st s4] w3].
  destruct HT as (Hh3 & HT);
    [by rewrite Htot|rewrite Hs2, Hs1; by eapply fd_shm_lookup|].
  split_and!; [done..|].
  destruct HT as [(Hne & -> & Hs3 & Hm3 & Hf3)|(-> & -> & Hdead & Hs3 & Hm3 & Hf3)]; [left|right].
  - split; [done|]. split_and!; [apply idle_default|change (ss_handles s3) with h in Hf3; congruence|congruence..].
  - split; [done|]. exists id, shm. unfold attach_succeeded.
    rewrite Hm3, Hm2, Hf3, Hf2, Hf1, Hs3, Hs2, Hs1. by split_and!.
Qed.

(** C28: [Attach] takes the descriptors it is given, whatever happens: the
    caller's handles are cleared; on failure every one of them is closed and no
    mapping remains; on success none is closed, the session keeps them all, and
    there is exactly one new mapping.  What the session held before is
    released first, and the client-state mutex is never left locked. *)
Theorem attach_owns_resources pid h role s w st h' s' w' :
  w_held w = ∅ -> Attach pid (Some h) role s w = (st, h', s', w') ->
  let fds := closed_fds (ss_handles s) (w_fds w) in
  let maps := maps_without s (w_maps w) in
  h' = Some MakeDefaultBootstrapHandles /\ w_held w' = ∅ /\
  ((st <> Ok /\ idle s' /\ w_fds w' = closed_fds h fds /\ w_maps w' = maps) \/
   (st = Ok /\ ss_handles s' = h /\ w_fds w' = fds /\
    exists id, ss_mappedRegion s' = Some id /\ ss_header s' = Some id /\
      w_maps w' = (id, CurrentMappedSize s') :: maps)).
Proof.
  intros Hh HA fds maps. destruct (Reset_spec s w Hh) as (w0 & HR & Hf0 & Hm0 & _ & _).
  destruct (Attach_spec pid h role s w Hh) as (w0' & HR' & Hh0 & HS).
  rewrite HR in HR'. injection HR' as <-. rewrite HA in HS. destruct HS as (-> & Hh' & HS).
  split_and!; [done..|].
  destruct HS as [(Hne & Hi & Hf & Hm & _)|(-> & id & shm & _ & _ & _ & Hv & -> & Hf & Hm & _)]; [left|right].
  - split_and!; try done; [by rewrite Hf, Hf0|by rewrite Hm].
  - split_and!; try done; [by rewrite Hf|]. exists id. split_and!; try done.
    rewrite Hm, Hm0. unfold maps. f_equal. f_equal.
    set (s3 := set_field ss_ownsClientAttachment _ _).
    by destruct (mapped_size_validated s3 (shm_header shm) (shm_size shm) Hv eq_refl) as [-> _].
Qed.

Lemma ValidateRingCursor_spec c n :
  ValidateRingCursor c n = true -> is_u32 n ->
  0 < n <= MAX_RING_ENTRIES /\ capacity c = n /\ 0 <= RingCount c <= n.
Proof.
  unfold ValidateRingCursor, is_u32. intros Hv Hn. repeat case_match; try done. bool_to_prop.
  pose proof (u32_range (tail c - head c)). unfold RingCount, is_u32 in *. lia.
Qed.

Definition header_sizes_u32 (hd : SharedMemoryHeader) : Prop := ring_sizes_u32 (header_config hd).

(** A session is only attached to memory that is safe to use: the object
    has the right magic and version, each ring has between 1 and 2^20 entries,
    its cursor has that capacity and holds no more entries than that, the
    payload limits fit the entries, and the header and the three rings lie one
    after the other, aligned, inside the file, which is mapped whole. *)
Theorem attach_accepts_only_valid pid h role w h' s' w' :
  w_held w = ∅ -> Attach pid (Some h) role Session_default w = (Ok, h', s', w') ->
  exists id shm, fd_shm (shmFd h) w = Some (id, shm) /\
    let hd := shm_header shm in
    let l := ss_layout s' in
    hd_magic hd = SHARED_MEMORY_MAGIC /\ hd_protocolVersion hd = PROTOCOL_VERSION /\
    (header_sizes_u32 hd ->
     (forall c n, In (c, n) [(hd_highRing hd, hd_highRingSize hd); (hd_normalRing hd, hd_normalRingSize hd);
                           (hd_responseRing hd, hd_responseRingSize hd)] ->
        0 < n <= MAX_RING_ENTRIES /\ capacity c = n /\ 0 <= RingCount c <= n) /\
     0 < ss_maxRequestBytes s' <= REQUEST_INLINE_PAYLOAD_BYTES /\
     0 < ss_maxResponseBytes s' <= RESPONSE_INLINE_PAYLOAD_BYTES /\
     header_size os_mutex_size <= highRingOffset l /\
     highRingOffset l + RING_ENTRY_BYTES * hd_highRingSize hd <= normalRingOffset l /\
     normalRingOffset l + RING_ENTRY_BYTES * hd_normalRingSize hd <= responseRingOffset l /\
     responseRingOffset l + RING_ENTRY_BYTES * hd_responseRingSize hd <= ss_mappedSize s' /\
     highRingOffset l mod 8 = 0 /\ normalRingOffset l mod 8 = 0 /\ responseRingOffset l mod 8 = 0 /\
     ss_mappedSize s' <= shm_size shm).
Proof.
  intros Hh HA. destruct (Attach_spec pid h role Session_default w Hh) as (w0 & HR & _ & HS).
  destruct (Reset_spec Session_default w Hh) as (w0' & HR' & Hf0 & _ & _ & Hs0).
  rewrite HR in HR'. injection HR' as <-. rewrite HA in HS. destruct HS as (_ & _ & HS).
  destruct HS as [[Hne _]|(_ & id & shm & Hfd & Hmag & Hver & Hval & -> & _)]; [done|].
  exists id, shm. split.
  { rewrite <- Hfd. unfold fd_shm. rewrite Hf0, closed_fds_default.
    by destruct Hs0 as [->|(? & [=] & _)]. }
  split; [done|]. split; [done|]. intros Hu.
  pose proof (validate_header_total _ _ Hval) as Htot.
  pose proof (ComputeLayout_regions os_mutex_size (header_config (shm_header shm)) os_mutex_size_ok Hu)
    as (R1 & R2 & R3 & R4 & R5 & R6 & R7 & _).
  unfold validate_header in Hval. bool_to_prop. destruct Hu as (Hu1 & Hu2 & Hu3).
  match goal with HV : ValidateLayoutConfig _ _ = true |- _ =>
    unfold ValidateLayoutConfig, HasAlignedPayloadSizes in HV; repeat case_match; try done end.
  bool_to_prop. cbn [header_config lc_maxRequestBytes lc_maxResponseBytes] in *.
  split.
  { intros c n [[= <- <-]|[[= <- <-]|[[= <- <-]|[]]]]; apply ValidateRingCursor_spec; done. }
  split_and!; done || lia.
Qed.

End SessionFacts.

(** ** Exclusive client attachment

    Any number of client processes attach to, reset and leave the same shared
    memory, in any order; a process may hold several sessions, and may die at
    any moment outside the critical section. *)
Module Clients.

Record Sys : Type := {
  sy_shm : gmap nat Shm;
  sy_alive : gset Z;
  sy_sessions : gmap nat (Z * Session * World);
}.

(** [kill(pid, 0)] does not report a living process as missing. *)
Definition kill_sound (os : Os) (alive : gset Z) : Prop :=
  forall n p, p ∈ alive -> @os_kill0 os n p <> errno_ESRCH.

(** The attachment fields of every object are as before. *)
Definition same_attachments (a b : gmap nat Shm) : Prop :=
  forall id shm, a !! id = Some shm -> exists shm', b !! id = Some shm' /\
    hd_clientAttached (shm_header shm') = hd_clientAttached (shm_header shm) /\
    hd_activeClientPid (shm_header shm') = hd_activeClientPid (shm_header shm).

Inductive step : Sys -> Sys -> Prop :=
| spawn y i pid w :
    sy_sessions y !! i = None -> 0 < pid < 2 ^ 31 -> w_held w = ∅ ->
    step y {| sy_shm := sy_shm y; sy_alive := {[pid]} ∪ sy_alive y;
              sy_sessions := <[i := (pid, Session_default, w)]> (sy_sessions y) |}
| attach y i pid s w (os : Os) (laws : OsLaws) h st h' s' w' :
    sy_sessions y !! i = Some (pid, s, w) -> kill_sound os (sy_alive y) ->
    Attach pid (Some h) RoleClient s (w <| w_shm := sy_shm y |>) = (st, h', s', w') ->
    step y {| sy_shm := w_shm w'; sy_alive := sy_alive y;
              sy_sessions := <[i := (pid, s', w')]> (sy_sessions y) |}
| reset y i pid s w (os : Os) (laws : OsLaws) s' w' :
    sy_sessions y !! i = Some (pid, s, w) -> Reset s (w <| w_shm := sy_shm y |>) = (s', w') ->
    step y {| sy_shm := w_shm w'; sy_alive := sy_alive y;
              sy_sessions := <[i := (pid, s', w')]> (sy_sessions y) |}
| die y pid :
    step y {| sy_shm := sy_shm y; sy_alive := sy_alive y ∖ {[pid]};
              sy_sessions := filter (fun kv => fst (fst (snd kv)) <> pid) (sy_sessions y) |}
| others y shms :
    same_attachments (sy_shm y) shms ->
    step y {| sy_shm := shms; sy_alive := sy_alive y; sy_sessions := sy_sessions y |}.

Inductive reachable (shms : gmap nat Shm) : Sys -> Prop :=
| start : reachable shms {| sy_shm := shms; sy_alive := ∅; sy_sessions := ∅ |}
| next y y' : reachable shms y -> step y y' -> reachable shms y'.

(** The session [i] of a living process owns the attachment of object [id]. *)
Definition owns (y : Sys) (i id : nat) : Prop :=
  exists pid s w, sy_sessions y !! i = Some (pid, s, w) /\ ss_ownsClientAttachment s = true /\
    ss_header s = Some id.

(** The header of [id] records the process [pid]. *)
Definition records (shms : gmap nat Shm) (id : nat) (pid : Z) : Prop :=
  exists shm, shms !! id = Some shm /\ hd_clientAttached (shm_header shm) <> 0 /\
    hd_activeClientPid (shm_header shm) = pid.

Definition inv (y : Sys) : Prop :=
  (forall i pid s w, sy_sessions y !! i = Some (pid, s, w) ->
     pid ∈ sy_alive y /\ 0 < pid < 2 ^ 31 /\ w_held w = ∅ /\
     (ss_ownsClientAttachment s = true ->
        exists id, ss_header s = Some id /\ records (sy_shm y) id pid)) /\
  (forall i j id, owns y i id -> owns y j id -> i = j).

Lemma records_same a b id pid : same_attachments a b -> records a id pid -> records b id pid.
Proof.
  intros Hab (shm & Hs & Ha & Hp). destruct (Hab _ _ Hs) as (shm' & Hs' & Ha' & Hp').
  exists shm'. rewrite Ha', Hp'. done.
Qed.

Lemma records_alter a id' f id pid : id <> id' -> records a id pid -> records (alter_header id' f a) id pid.
Proof. intros Hne (shm & Hs & ?). exists shm. unfold alter_header. by rewrite lookup_alter_ne. Qed.

(** A session replaced by one whose ownership is justified, in memory where
    the other owners are still recorded, keeps the invariant. *)
Lemma inv_replace y i pid s w s' w' shms :
  inv y -> sy_sessions y !! i = Some (pid, s, w) -> w_held w' = ∅ ->
  (forall j id, j <> i -> owns y j id -> forall q, records (sy_shm y) id q -> records shms id q) ->
  (ss_ownsClientAttachment s' = true ->
     exists id, ss_header s' = Some id /\ records shms id pid /\
       forall j, j <> i -> ~ owns y j id) ->
  inv {| sy_shm := shms; sy_alive := sy_alive y; sy_sessions := <[i := (pid, s', w')]> (sy_sessions y) |}.
Proof.
  intros [Hinv Huniq] Hi Hh Hoth Hnew.
  assert (Hown : forall j id, owns {| sy_shm := shms; sy_alive := sy_alive y;
      sy_sessions := <[i := (pid, s', w')]> (sy_sessions y) |} j id ->
    if decide (j = i) then ss_ownsClientAttachment s' = true /\ ss_header s' = Some id else owns y j id).
  { intros j id (p & t & v & Hj & Ho & Hd). cbn in Hj. destruct (decide (j = i)) as [->|Hne].
    - rewrite lookup_insert_eq in Hj. by simplify_eq.
    - rewrite lookup_insert_ne in Hj by done. exists p, t, v. done. }
  split.
  - intros j p t v Hj. cbn in *. destruct (decide (j = i)) as [->|Hne].
    + rewrite lookup_insert_eq in Hj. simplify_eq. destruct (Hinv _ _ _ _ Hi) as (? & ? & _ & _).
      split_and!; try done; try lia. intros Ho. destruct (Hnew Ho) as (id & ? & ? & _). eauto.
    + rewrite lookup_insert_ne in Hj by done. destruct (Hinv _ _ _ _ Hj) as (? & ? & ? & Hrec).
      split_and!; try done; try lia. intros Ho. destruct (Hrec Ho) as (id & Hd & Hr).
      exists id. split; [done|]. apply (Hoth j); try done. exists p, t, v. done.
  - intros j k id Hj Hk. apply Hown in Hj, Hk. destruct (decide (j = i)), (decide (k = i)); subst; try done.
    + destruct Hj as [Ho Hd]. destruct (Hnew Ho) as (id' & Hd' & _ & Hno). simplify_eq. by destruct (Hno k).
    + destruct Hk as [Ho Hd]. destruct (Hnew Ho) as (id' & Hd' & _ & Hno). simplify_eq. by destruct (Hno j).
    + by apply (Huniq j k id).
Qed.

(** Releasing what a session owns leaves the other owners recorded. *)
Lemma released_others y i pid s w shms :
  inv y -> sy_sessions y !! i = Some (pid, s, w) ->
  (shms = sy_shm y \/ exists id, ss_header s = Some id /\ ss_ownsClientAttachment s = true /\
     shms = alter_header id release_header (sy_shm y)) ->
  forall j id, j <> i -> owns y j id -> forall q, records (sy_shm y) id q -> records shms id q.
Proof.
  intros [_ Huniq] Hi [->|(id' & Hd & Ho & ->)] j id Hne Hj q Hr; [done|].
  apply records_alter; [|done]. intros ->. apply Hne. apply (Huniq j i id'); [done|].
  exists pid, s, w. done.
Qed.

Lemma attach_inv y i pid s w (os : Os) (laws : OsLaws) h st h' s' w' :
  inv y -> sy_sessions y !! i = Some (pid, s, w) -> kill_sound os (sy_alive y) ->
  Attach pid (Some h) RoleClient s (w <| w_shm := sy_shm y |>) = (st, h', s', w') ->
  inv {| sy_shm := w_shm w'; sy_alive := sy_alive y;
         sy_sessions := <[i := (pid, s', w')]> (sy_sessions y) |}.
Proof.
  intros Hinv Hi Hkill HA. pose proof (proj1 Hinv) as Hsess.
  destruct (Hsess _ _ _ _ Hi) as (Halive & Hpid & Hheld & _).
  set (wy := w <| w_shm := sy_shm y |>) in *. assert (Hh : w_held wy = ∅) by done.
  destruct (Attach_spec pid h RoleClient s wy Hh) as (w0 & HR & _ & HS). rewrite HA in HS.
  destruct HS as (_ & Hh' & HS).
  destruct (Reset_spec s wy Hh) as (w0' & HR' & _ & _ & _ & Hrel). rewrite HR in HR'. injection HR' as <-.
  pose proof (released_others y i pid s w (w_shm w0) Hinv Hi Hrel) as Hoth.
  destruct HS as [(_ & Hidle & _ & _ & Hs)|(_ & id & shm & Hfd & _ & _ & _ & -> & _ & _ & Hdead & Hs)].
  - rewrite Hs. eapply inv_replace; try done. destruct Hidle as (_ & _ & _ & ->). done.
  - apply fd_shm_lookup in Hfd as Hshm.
    assert (Hfree : forall j, j <> i -> ~ owns y j id).
    { intros j Hne Hj. pose proof Hj as (p & t & v & Hj' & Ho & Hd).
      destruct (Hsess _ _ _ _ Hj') as (Hpa & Hpr & _ & Hrec). destruct (Hrec Ho) as (id' & Hd' & Hr).
      rewrite Hd in Hd'. injection Hd' as <-. apply (Hoth j id Hne Hj) in Hr.
      destruct Hr as (shm' & Hs' & Ha & Hp). rewrite Hshm in Hs'. injection Hs' as <-.
      destruct Hdead as [?|[Hz|[n Hk]]]; [done|lia|].
      rewrite Hp in Hk. rewrite <- (u32_id p) in Hk by (unfold is_u32; lia).
      rewrite i32_u32 in Hk by (unfold is_i32; lia). by apply (Hkill n p). }
    rewrite Hs. apply (inv_replace y i pid s w); try done.
    + intros j id' Hne Hj q Hr. apply records_alter; [|by apply (Hoth j)].
      intros ->. by apply (Hfree j).
    + intros _. exists id. split_and!; try done.
      exists (shm <| shm_header := acquire_header pid (shm_header shm) |>).
      unfold alter_header. rewrite lookup_alter_eq, Hshm. split_and!; try done.
      cbn. apply u32_id. unfold is_u32. lia.
Qed.

Lemma step_inv y y' : inv y -> step y y' -> inv y'.
Proof.
  intros Hinv Hstep. destruct Hstep as [y i pid w Hi Hpid Hh|y i pid s w os laws h st h' s' w' Hi Hk HA|
    y i pid s w os laws s' w' Hi HR|y pid|y shms Hsame].
  - destruct Hinv as [Hs Hu]. assert (Hown : forall j id, owns {| sy_shm := sy_shm y;
      sy_alive := {[pid]} ∪ sy_alive y; sy_sessions := <[i := (pid, Session_default, w)]> (sy_sessions y) |} j id
      -> owns y j id).
    { intros j id (p & t & v & Hj & Ho & Hd). cbn in Hj. destruct (decide (j = i)) as [->|Hne].
      - rewrite lookup_insert_eq in Hj. by simplify_eq.
      - rewrite lookup_insert_ne in Hj by done. exists p, t, v. done. }
    split; [|by eauto]. intros j p t v Hj. cbn in *. destruct (decide (j = i)) as [->|Hne].
    + rewrite lookup_insert_eq in Hj. simplify_eq. split_and!; try done; [set_solver|lia|lia].
    + rewrite lookup_insert_ne in Hj by done. destruct (Hs _ _ _ _ Hj) as (? & ? & ? & ?).
      split_and!; try done; [set_solver|lia|lia].
  - by eapply attach_inv.
  - pose proof (proj1 Hinv _ _ _ _ Hi) as (_ & _ & Hheld & _).
    set (wy := w <| w_shm := sy_shm y |>) in *. assert (Hh0 : w_held wy = ∅) by done.
    destruct (Reset_spec s wy Hh0) as (w0 & HR' & _ & _ & Hh & Hrel).
    rewrite HR in HR'. injection HR' as -> ->.
    eapply inv_replace; try done. by eapply released_others.
  - destruct Hinv as [Hs Hu]. split.
    + intros j p t v [Hj Hne]%map_lookup_filter_Some. cbn in *.
      destruct (Hs _ _ _ _ Hj) as (? & ? & ? & ?). split_and!; try done; [set_solver|lia|lia].
    + intros j k id (p & t & v & [Hj _]%map_lookup_filter_Some & ?) (p' & t' & v' & [Hk _]%map_lookup_filter_Some & ?).
      apply (Hu j k id); [by exists p, t, v|by exists p', t', v'].
  - destruct Hinv as [Hs Hu]. split; [|done]. intros j p t v Hj. cbn in *.
    destruct (Hs _ _ _ _ Hj) as (? & ? & ? & Hr). split_and!; try done; try lia.
    intros Ho. destruct (Hr Ho) as (id & ? & ?). exists id. split; [done|]. by eapply records_same.
Qed.

(** C29: at most one client.  However client processes attach, reset, die and
    are replaced, no two sessions of living processes own the attachment of the
    same shared memory, and the header of an owned object records its owner. *)
Theorem client_attachment_exclusive shms y :
  reachable shms y ->
  (forall i j id, owns y i id -> owns y j id -> i = j) /\
  (forall i id, owns y i id -> exists pid, pid ∈ sy_alive y /\ records (sy_shm y) id pid).
Proof.
  intros Hr. assert (Hinv : inv y).
  { induction Hr as [|y y' _ IH Hstep]; [|by eapply step_inv]. split; cbn.
    - intros i pid s w Hi. by rewrite lookup_empty in Hi.
    - intros i j id (p & t & v & Hi & _). cbn in Hi. by rewrite lookup_empty in Hi. }
  split; [apply Hinv|]. intros i id (pid & s & w & Hi & Ho & Hd).
  destruct (proj1 Hinv _ _ _ _ Hi) as (Ha & _ & _ & Hrec). destruct (Hrec Ho) as (id' & Hd' & Hr').
  simplify_eq. eauto.
Qed.

End Clients.
