(* ===== verification/SessionRings.v ===== *)
(** * The three rings of a session

    The client's and the server's sessions on the same shared memory seen as
    three bounded queues (high and normal priority requests, responses), and
    the removal of the payload files of the entries left in the rings. *)

From Stdlib Require Import Lia.
From S2P Require Import Prelude Types ByteCodec ShmLayout Ring FilePayload Os Session.

(** The abstract state of a session: three bounded queues. *)
Record Queues : Type := {
  q_high : list RequestRingEntry;
  q_normal : list RequestRingEntry;
  q_response : list ResponseRingEntry;
}.

#[export] Instance Queues_eta : Eta Queues := fun q =>
  Build_Queues (q_high q) (q_normal q) (q_response q).

(** The client pushes requests and pops responses, the server the converse. *)
Inductive session_op : Type :=
| ClientPush (high : bool) (e : RequestRingEntry)
| ServerPop (high : bool)
| ServerPush (e : ResponseRingEntry)
| ClientPop.

Inductive session_out : Type :=
| Pushed (s : StatusCode)
| PoppedRequest (e : option RequestRingEntry)
| PoppedResponse (e : option ResponseRingEntry).

(** No interference of the other process between the push and the second
    look at the session state. *)
Definition quiet (w : World) : World := w.

(** The functions of session.cpp on the two sessions [c] and [v]. *)
Definition session_step (c v : Session) (op : session_op) (w : World) : defined (session_out * World) :=
  match op with
  | ClientPush high e =>
      match PushRequest quiet c high e w with
      | Defined (st, w) => Defined (Pushed st, w)
      | Undefined => Undefined
      end
  | ServerPop high =>
      match PopRequest v high Ptr w with
      | Defined (e, w) => Defined (PoppedRequest e, w)
      | Undefined => Undefined
      end
  | ServerPush e =>
      match PushResponse quiet v e w with
      | Defined (st, w) => Defined (Pushed st, w)
      | Undefined => Undefined
      end
  | ClientPop =>
      match PopResponse c Ptr w with
      | Defined (e, w) => Defined (PoppedResponse e, w)
      | Undefined => Undefined
      end
  end.

Fixpoint session_run (c v : Session) (ops : list session_op) (w : World)
    : defined (list session_out * World) :=
  match ops with
  | [] => Defined ([], w)
  | op :: ops =>
      match session_step c v op w with
      | Undefined => Undefined
      | Defined (out, w) =>
          match session_run c v ops w with
          | Undefined => Undefined
          | Defined (outs, w) => Defined (out :: outs, w)
          end
      end
  end.

(** The same operations on the queues, of capacities [(h, n, r)]. *)
Definition queues_step (caps : Z * Z * Z) (op : session_op) (q : Queues) : session_out * Queues :=
  let '(ch, cn, cr) := caps in
  match op with
  | ClientPush true e => let '(s, l) := queue_push ch (q_high q) e in (Pushed s, q <| q_high := l |>)
  | ClientPush false e => let '(s, l) := queue_push cn (q_normal q) e in (Pushed s, q <| q_normal := l |>)
  | ServerPop true => let '(e, l) := queue_pop (q_high q) in (PoppedRequest e, q <| q_high := l |>)
  | ServerPop false => let '(e, l) := queue_pop (q_normal q) in (PoppedRequest e, q <| q_normal := l |>)
  | ServerPush e => let '(s, l) := queue_push cr (q_response q) e in (Pushed s, q <| q_response := l |>)
  | ClientPop => let '(e, l) := queue_pop (q_response q) in (PoppedResponse e, q <| q_response := l |>)
  end.

Fixpoint queues_run (caps : Z * Z * Z) (ops : list session_op) (q : Queues) : list session_out * Queues :=
  match ops with
  | [] => ([], q)
  | op :: ops =>
      let '(out, q) := queues_step caps op q in
      let '(outs, q) := queues_run caps ops q in (out :: outs, q)
  end.

Definition shm_caps (shm : Shm) : Z * Z * Z :=
  (capacity (hd_highRing (shm_header shm)), capacity (hd_normalRing (shm_header shm)),
   capacity (hd_responseRing (shm_header shm))).

(** The shared memory represents the queues and the session is alive. *)
Definition shm_repr (q : Queues) (shm : Shm) : Prop :=
  ring_repr (q_high q) (shm_ring HighRequest shm) /\
  ring_repr (q_normal q) (shm_ring NormalRequest shm) /\
  ring_repr (q_response q) (shm_ring Response shm) /\
  hd_sessionState (shm_header shm) = SessionState_Alive.

Definition attached_to (s : Session) (id : nat) : Prop :=
  ss_header s = Some id /\ ss_mappedRegion s = Some id.

Section Refinement.
Context (s : Session) (id : nat) (shm : Shm) (w : World).
Context (Hatt : attached_to s id) (Hshm : w_shm w !! id = Some shm)
  (Halive : hd_sessionState (shm_header shm) = SessionState_Alive).

Lemma State_alive : State s w = SessionState_Alive.
Proof. unfold State, read_header. destruct Hatt as [-> _]. rewrite Hshm. exact Halive. Qed.

Lemma ResolveRing_attached queue : ResolveRing s queue w = Some (shm_ring queue shm).
Proof. unfold ResolveRing. destruct Hatt as [-> ->]. by rewrite Hshm. Qed.

(** The world with a ring of [id] replaced. *)
Definition with_ring (queue : QueueKind) (r : RingMem (ring_entry queue)) : World :=
  update_shm id (set_shm_ring queue r) w.

Lemma with_ring_lookup queue r : w_shm (with_ring queue r) !! id = Some (set_shm_ring queue r shm).
Proof. cbn. by rewrite lookup_alter_eq, Hshm. Qed.

Lemma set_shm_ring_state queue r :
  hd_sessionState (shm_header (set_shm_ring queue r shm)) = hd_sessionState (shm_header shm).
Proof. by destruct queue. Qed.

Lemma push_ring_refines queue q (e : ring_entry queue) :
  ring_repr q (shm_ring queue shm) ->
  let out := queue_push (capacity (rg_cursor (shm_ring queue shm))) q e in
  exists r', push_ring quiet s queue e w = Defined (fst out, with_ring queue r') /\
    ring_repr (snd out) r' /\ capacity (rg_cursor r') = capacity (rg_cursor (shm_ring queue shm)).
Proof.
  intros Hr out. destruct (PushRingEntry_refines q _ e Hr) as (r' & HP & Hr' & Hc).
  exists r'. split; [|done]. unfold push_ring. rewrite State_alive. cbn [Z.eqb negb SessionState_Alive].
  rewrite ResolveRing_attached, HP. unfold put_ring. rewrite (proj2 Hatt). unfold quiet.
  assert (HS : State s (update_shm id (set_shm_ring queue r') w) = SessionState_Alive).
  { unfold State, read_header. rewrite (proj1 Hatt).
    fold (with_ring queue r'). rewrite with_ring_lookup. cbn. by rewrite set_shm_ring_state. }
  rewrite HS. by rewrite andb_false_r.
Qed.

Lemma pop_ring_refines queue q :
  ring_repr q (shm_ring queue shm) ->
  exists r', pop_ring s queue Ptr w = Defined (fst (queue_pop q), with_ring queue r') /\
    ring_repr (snd (queue_pop q)) r' /\
    capacity (rg_cursor r') = capacity (rg_cursor (shm_ring queue shm)).
Proof.
  intros Hr. destruct (PopRingEntry_refines q _ Hr) as (r' & HP & Hr' & Hc).
  exists r'. split; [|done]. unfold pop_ring. rewrite State_alive. cbn [Z.eqb negb SessionState_Alive].
  rewrite ResolveRing_attached, HP. unfold put_ring. by rewrite (proj2 Hatt).
Qed.

End Refinement.

(** Replacing one ring by a ring of the same capacity. *)
Lemma shm_repr_set queue q shm (r : RingMem (ring_entry queue)) (l : list (ring_entry queue)) :
  shm_repr q shm -> ring_repr l r -> capacity (rg_cursor r) = capacity (rg_cursor (shm_ring queue shm)) ->
  shm_caps (set_shm_ring queue r shm) = shm_caps shm /\
  shm_repr (match queue return list (ring_entry queue) -> Queues with
            | HighRequest => fun l => q <| q_high := l |>
            | NormalRequest => fun l => q <| q_normal := l |>
            | Response => fun l => q <| q_response := l |>
            end l) (set_shm_ring queue r shm).
Proof.
  intros (Hh & Hn & Hr & Hs) Hl Hc. unfold shm_caps, shm_repr.
  destruct queue, r as [c es]; cbn in *; rewrite ?Hc; by split_and!.
Qed.

Lemma session_step_refines c v id shm q w op :
  attached_to c id -> attached_to v id -> w_shm w !! id = Some shm -> shm_repr q shm ->
  exists shm' w', session_step c v op w = Defined (fst (queues_step (shm_caps shm) op q), w') /\
    w_shm w' !! id = Some shm' /\ shm_caps shm' = shm_caps shm /\
    shm_repr (snd (queues_step (shm_caps shm) op q)) shm'.
Proof.
  intros Hc Hv Hshm Hrepr. pose proof Hrepr as (Hh & Hn & Hr & Ha).
  assert (Hpush : forall s queue l (e : ring_entry queue), attached_to s id -> ring_repr l (shm_ring queue shm) ->
    let out := queue_push (capacity (rg_cursor (shm_ring queue shm))) l e in
    exists r', push_ring quiet s queue e w = Defined (fst out, with_ring id w queue r') /\
      ring_repr (snd out) r' /\ capacity (rg_cursor r') = capacity (rg_cursor (shm_ring queue shm)))
    by (intros; by apply push_ring_refines).
  assert (Hpop : forall s queue l, attached_to s id -> ring_repr l (shm_ring queue shm) ->
    exists r', pop_ring s queue Ptr w = Defined (fst (queue_pop l), with_ring id w queue r') /\
      ring_repr (snd (queue_pop l)) r' /\ capacity (rg_cursor r') = capacity (rg_cursor (shm_ring queue shm)))
    by (intros; by apply pop_ring_refines).
  destruct op as [[] e|[]|e|]; cbn [session_step queues_step shm_caps PushRequest PopRequest PushResponse PopResponse];
    [destruct (Hpush c HighRequest _ e Hc Hh) as (r' & -> & Hr' & Hcap)
    |destruct (Hpush c NormalRequest _ e Hc Hn) as (r' & -> & Hr' & Hcap)
    |destruct (Hpop v HighRequest _ Hv Hh) as (r' & -> & Hr' & Hcap)
    |destruct (Hpop v NormalRequest _ Hv Hn) as (r' & -> & Hr' & Hcap)
    |destruct (Hpush v Response _ e Hv Hr) as (r' & HP & Hr' & Hcap)
    |destruct (Hpop c Response _ Hc Hr) as (r' & HP & Hr' & Hcap)];
    destruct (shm_repr_set _ q shm r' _ Hrepr Hr' Hcap) as [Hcaps Hrep'];
    pose proof (with_ring_lookup id shm w Hshm _ r') as Hlook.
  - cbn in *. destruct (queue_push _ _ _). eauto 10.
  - cbn in *. destruct (queue_push _ _ _). eauto 10.
  - cbn in *. destruct (queue_pop _). eauto 10.
  - cbn in *. destruct (queue_pop _). eauto 10.
  - unfold PushResponse. rewrite HP. cbn in *. destruct (queue_push _ _ _). eauto 10.
  - unfold PopResponse. rewrite HP. cbn in *. destruct (queue_pop _). eauto 10.
Qed.


(** ** Cleaning up the files of pending entries *)

(** What an entry offers to [RemoveFilePayloadFromTransport]: the array, the
    size and the payload kind. *)
Definition entry_view : Type := bytes * Z * Z.

(** The views of all the pending entries, in the order of the clean-up. *)
Definition pending_views (q : Queues) : list entry_view :=
  map request_view (q_high q) ++ map request_view (q_normal q) ++ map response_view (q_response q).

(** The size lies within the array. *)
Definition view_ok (v : entry_view) : Prop := 0 <= snd (fst v) <= Zlen (fst (fst v)) /\ snd (fst v) < 2 ^ 63.

(** The payload file a view names, when it names one in [dir]. *)
Definition names_file (dir : string) (v : entry_view) (path : string) : Prop :=
  let '(payload, size, kind) := v in
  kind = PAYLOAD_KIND_FILE_REF /\
  exists ref r, DecodeFilePayloadEnvelope (Some payload) size Ptr = ReadOk ref r /\
    fr_path ref = path /\ fr_size ref <= MAX_FILE_PAYLOAD_BYTES /\
    IsPathInsideFilePayloadRoot dir path = true.

Section Cleanup.
Context {FS : Type} `{PosixFsLaws FS}.
Implicit Types (fs : FS) (dir : string).

Fixpoint remove_views dir (views : list entry_view) fs : defined FS :=
  match views with
  | [] => Defined fs
  | (payload, size, kind) :: views =>
      match RemoveFilePayloadFromTransport dir (Some payload) size kind fs with
      | Undefined => Undefined
      | Defined (_, fs) => remove_views dir views fs
      end
  end.

Lemma remove_views_app dir a b fs :
  remove_views dir (a ++ b) fs =
    match remove_views dir a fs with Undefined => Undefined | Defined fs => remove_views dir b fs end.
Proof.
  revert fs. induction a as [|[[p n] k] a IH]; intros fs; [done|]. cbn.
  destruct (RemoveFilePayloadFromTransport _ _ _ _ _) as [[b' fs']|]; [apply IH|done].
Qed.

(** The loop over a ring is the loop over the views of the queue. *)
Lemma remove_pending_views {E} (view : E -> bytes * Z * Z) dir (r : RingMem E) P q fs :
  ring_repr_at P q r ->
  RemovePendingFilePayloadsFromRing view (Some r) dir fs = remove_views dir (map view q) fs.
Proof.
  intros Hr. pose proof (repr_count P q r Hr) as Hcount.
  destruct Hr as (H0' & Hcap & Hdiv & Hlen & Hq & Hh & Ht & Hent).
  unfold RemovePendingFilePayloadsFromRing. destruct (Z.eqb_spec (capacity (rg_cursor r)) 0); [lia|].
  rewrite Hcount, Z.min_l, Hh by done. unfold Zlen. rewrite Nat2Z.id.
  assert (Hgen : forall k i fs, (k + i)%nat = length q -> remove_pending view dir r k (u32 P + Z.of_nat i) fs =
    remove_views dir (map view (drop i q)) fs).
  { induction k as [|k IH]; intros i fs' Hk.
    - by rewrite drop_ge by lia.
    - destruct (lookup_lt_is_Some_2 q i) as [e He]; [lia|]. rewrite (drop_S q e i He). cbn [remove_pending].
      assert (Hpos : u32 (u32 P + Z.of_nat i) = u32 (P + Z.of_nat i)) by (unfold u32; by rewrite Zplus_mod_idemp_l).
      rewrite Hpos, slot_of_cursor by (done || lia).
      rewrite Hent by (unfold Zlen; lia). rewrite Nat2Z.id, He. cbn [map remove_views].
      destruct (view e) as [[p n0] kind].
      destruct (RemoveFilePayloadFromTransport dir (Some p) n0 kind fs') as [[b fs'']|]; [|done].
      rewrite <- Z.add_assoc. replace (Z.of_nat i + 1) with (Z.of_nat (S i)) by lia. by rewrite IH by lia. }
  specialize (Hgen (length q) 0%nat fs). rewrite Z.add_0_r in Hgen. rewrite Hgen by lia. by rewrite drop_0.
Qed.

Lemma RemoveFilePayloadFromTransport_spec dir v fs :
  view_ok v ->
  let '(payload, size, kind) := v in
  exists ok fs', RemoveFilePayloadFromTransport dir (Some payload) size kind fs = Defined (ok, fs') /\
    same_outside dir fs fs' /\ (forall q, fs_file fs q = None -> fs_file fs' q = None) /\
    (PosixFsReliable FS -> forall path, names_file dir v path -> fs_file fs' path = None).
Proof.
  destruct v as [[payload size] kind]. intros [Hs Hb]. cbn in Hs, Hb.
  pose proof (DecodeFilePayloadEnvelope_safe payload size Hs Hb) as Hsafe.
  unfold RemoveFilePayloadFromTransport. destruct (Z.eqb_spec kind PAYLOAD_KIND_INLINE) as [->|Hk].
  { exists true, fs. split_and!; try done. by intros _ path [[=] _]. }
  destruct (Z.eqb_spec kind PAYLOAD_KIND_FILE_REF) as [->|Hk']; cbn [negb].
  2:{ exists false, fs. split_and!; try done. by intros _ path [? _]. }
  destruct (DecodeFilePayloadEnvelope (Some payload) size Ptr) as [ref r|r|] eqn:ED; [| |done].
  - pose proof (RemoveFilePayload_outside dir ref fs) as Ho.
    pose proof (RemoveFilePayload_creates_nothing dir ref fs) as Hc.
    pose proof (RemoveFilePayload_gone dir ref fs) as Hg.
    destruct (RemoveFilePayload dir ref fs) as [ok fs']. cbn in *.
    exists ok, fs'. split_and!; try done. intros Hrel path (_ & ref' & r' & HD & <- & Hsz & Hin).
    rewrite ED in HD. simplify_eq. apply Hg; try done. by eapply DecodeFilePayloadEnvelope_path.
  - exists false, fs. split_and!; try done. intros _ path (_ & ref' & r' & HD & _). congruence.
Qed.

Lemma remove_views_spec dir views fs :
  Forall view_ok views ->
  exists fs', remove_views dir views fs = Defined fs' /\ same_outside dir fs fs' /\
    (forall q, fs_file fs q = None -> fs_file fs' q = None) /\
    (PosixFsReliable FS -> forall v path, In v views -> names_file dir v path -> fs_file fs' path = None).
Proof.
  revert fs. induction views as [|v views IH]; intros fs Hok; [by eexists|].
  apply Forall_cons in Hok as [Hv Hvs].
  pose proof (RemoveFilePayloadFromTransport_spec dir v fs Hv) as Hstep.
  destruct v as [[payload size] kind]. destruct Hstep as (ok & fs1 & HR & Ho1 & Hc1 & Hg1).
  destruct (IH fs1 Hvs) as (fs' & HR' & Ho & Hc & Hg). exists fs'. cbn. rewrite HR.
  split_and!; try done.
  - intros q Hq. by rewrite Ho, Ho1.
  - eauto.
  - intros Hrel v path [<-|Hin] Hn; [by eauto|by eapply Hg].
Qed.


End Cleanup.

(** ** An entry that announces more than its array *)

(** The envelope of a file with a path of 10000 bytes, of which the array holds
    the first ones. *)
Definition oversized_payload : bytes :=
  let start := le_bytes 4 FILE_PAYLOAD_ENVELOPE_MAGIC ++ le_bytes 4 FILE_PAYLOAD_ENVELOPE_VERSION ++
               le_bytes 4 1 ++ le_bytes 4 10000 in
  start ++ zero_payload (REQUEST_INLINE_PAYLOAD_BYTES - 16).

Definition oversized_entry : RequestRingEntry :=
  RequestRingEntry_default <| rq_payloadKind := PAYLOAD_KIND_FILE_REF |>
    <| rq_payloadSize := 20000 |> <| rq_payload := oversized_payload |>.


(** ** A concrete session *)

Module Demo.

Definition cursor : RingCursor := Build_RingCursor 0 0 1 0.

Definition header : SharedMemoryHeader := {|
  hd_magic := SHARED_MEMORY_MAGIC; hd_protocolVersion := PROTOCOL_VERSION; hd_sessionId := 42;
  hd_sessionState := 0; hd_clientAttached := 0; hd_activeClientPid := 0;
  hd_highRingSize := 1; hd_normalRingSize := 1; hd_responseRingSize := 1;
  hd_maxRequestBytes := 100; hd_maxResponseBytes := 100;
  hd_highRing := cursor; hd_normalRing := cursor; hd_responseRing := cursor |}.

Definition small_request : RequestRingEntry := RequestRingEntry_default <| rq_payload := [] |>.
Definition small_response : ResponseRingEntry := ResponseRingEntry_default <| rs_payload := [] |>.

Definition shm : Shm := {|
  shm_size := 32768; shm_header := header; shm_high := [small_request];
  shm_normal := [small_request]; shm_response := [small_response] |}.

Definition handles : BootstrapHandles := {|
  shmFd := 3; highReqEventFd := 4; normalReqEventFd := 5; respEventFd := 6;
  reqCreditEventFd := 7; respCreditEventFd := 8; bh_protocolVersion := PROTOCOL_VERSION;
  bh_sessionId := 42 |}.

Definition world : World := {|
  w_fds := list_to_map [(3, FdShm 0); (4, FdEvent); (5, FdEvent); (6, FdEvent); (7, FdEvent); (8, FdEvent)];
  w_shm := {[ 0%nat := shm ]}; w_maps := []; w_held := ∅; w_tick := 0 |}.

Definition queues : Queues := {| q_high := []; q_normal := []; q_response := [] |}.

Lemma shm_represents : shm_repr queues shm.
Proof.
  unfold shm_repr. split_and!; [| | |done].
  all: exists 0; unfold ring_repr_at; cbn -[Z.pow Z.divide]; unfold MAX_RING_ENTRIES.
  all: split_and!; try done; try lia; try (exists (2 ^ 32); lia); try (cbn; lia).
  all: intros i; change (Zlen _) with 0; lia.
Qed.

Definition client : Session := Session_default <| ss_header := Some 0%nat |> <| ss_mappedRegion := Some 0%nat |>.

Import DemoOs.

Lemma attach_result :
  let '(st, _, _, _) := Attach 7 (Some handles) RoleClient Session_default world in st = Ok.
Proof. vm_compute. reflexivity. Qed.

Lemma attach_owner :
  let '(_, _, s, _) := Attach 7 (Some handles) RoleClient Session_default world in
  ss_ownsClientAttachment s = true /\ ss_header s = Some 0%nat.
Proof. vm_compute. by split. Qed.

End Demo.

Lemma attach_owns_resources_witness :
  exists h' s' w', @Attach DemoOs.os 7 (Some Demo.handles) RoleClient Session_default Demo.world = (Ok, h', s', w') /\
    h' = Some MakeDefaultBootstrapHandles /\ ss_handles s' = Demo.handles /\ w_held w' = ∅.
Proof.
  pose proof Demo.attach_result as Hok.
  destruct (@Attach DemoOs.os 7 (Some Demo.handles) RoleClient Session_default Demo.world)
    as [[[st h'] s'] w'] eqn:E. subst st.
  destruct (@attach_owns_resources DemoOs.os DemoOs.os_laws _ _ _ _ _ _ _ _ _ (eq_refl : w_held Demo.world = ∅) E)
    as (-> & Hh & [[Hne _]|(_ & Hhs & _)]); [destruct (Hne eq_refl)|].
  exists (Some MakeDefaultBootstrapHandles), s', w'. auto.
Defined.

Lemma attach_accepts_only_valid_witness :
  exists id shm, fd_shm 3 Demo.world = Some (id, shm) /\ hd_magic (shm_header shm) = SHARED_MEMORY_MAGIC.
Proof.
  pose proof Demo.attach_result as Hok.
  destruct (@Attach DemoOs.os 7 (Some Demo.handles) RoleClient Session_default Demo.world)
    as [[[st h'] s'] w'] eqn:E. subst st.
  destruct (@attach_accepts_only_valid DemoOs.os DemoOs.os_laws _ _ _ _ _ _ _ (eq_refl : w_held Demo.world = ∅) E)
    as (id & shm & Hfd & Hm & _). exists id, shm. split; [exact Hfd|exact Hm].
Defined.

(** Process 7 starts and attaches; it is the owner the header records. *)
Lemma client_attachment_exclusive_witness :
  exists y, Clients.owns y 0 0 /\ exists pid, pid ∈ Clients.sy_alive y /\ Clients.records (Clients.sy_shm y) 0 pid.
Proof.
  pose proof Demo.attach_result as Hok. pose proof Demo.attach_owner as Hs.
  destruct (@Attach DemoOs.os 7 (Some Demo.handles) RoleClient Session_default Demo.world)
    as [[[st h'] s'] w'] eqn:E. subst st.
  pose (y0 := {| Clients.sy_shm := {[ 0%nat := Demo.shm ]}; Clients.sy_alive := ∅; Clients.sy_sessions := ∅ |}).
  pose (y1 := {| Clients.sy_shm := {[ 0%nat := Demo.shm ]}; Clients.sy_alive := {[7]} ∪ ∅;
                 Clients.sy_sessions := <[0%nat := (7, Session_default, Demo.world)]> ∅ |}).
  assert (H1 : Clients.step y0 y1).
  { apply (Clients.spawn y0 0 7 Demo.world); [apply lookup_empty|lia|done]. }
  assert (H2 : Clients.step y1 {| Clients.sy_shm := w_shm w'; Clients.sy_alive := Clients.sy_alive y1;
                 Clients.sy_sessions := <[0%nat := (7, s', w')]> (Clients.sy_sessions y1) |}).
  { apply (Clients.attach y1 0 7 Session_default Demo.world DemoOs.os DemoOs.os_laws Demo.handles Ok h' s' w');
      [apply lookup_insert_eq|by intros n p _|exact E]. }
  eexists. split; cycle 1.
  - apply (proj2 (Clients.client_attachment_exclusive {[ 0%nat := Demo.shm ]} _
      (Clients.next _ _ _ (Clients.next _ _ _ (Clients.start _) H1) H2)) 0%nat 0%nat).
    exists 7, s', w'. split; [apply lookup_insert_eq|exact Hs].
  - exists 7, s', w'. split; [apply lookup_insert_eq|exact Hs].
Defined.


