(* ===== verification/SessionHost.v ===== *)
(** * The session host

    memrpc/src/bootstrap/shared_memory_session_host.cpp: the server side
    creates the shared memory and the event descriptors of a session, and
    hands out duplicates of its handles.  Names of shared-memory objects are
    only passed to the system, whose answer is [os_alloc]; an object is
    unlinked as soon as it is created and lives through its descriptors. *)

From Stdlib Require Import Lia.
From S2P Require Import Prelude Types ShmLayout Ring Os Session.

Record SharedMemorySessionConfig : Type := {
  cf_highRingSize : Z;
  cf_normalRingSize : Z;
  cf_responseRingSize : Z;
  cf_maxRequestBytes : Z;
  cf_maxResponseBytes : Z;
  cf_shmName : string;
}.

(** [SharedMemorySessionHost::Impl]. *)
Record SessionHost : Type := {
  ho_config : SharedMemorySessionConfig;
  ho_handles : BootstrapHandles;
  ho_initialized : bool;
}.

#[export] Instance SessionHost_eta : Eta SessionHost := fun r =>
  Build_SessionHost (ho_config r) (ho_handles r) (ho_initialized r).

(** The constructor. *)
Definition make_host (config : SharedMemorySessionConfig) : SessionHost :=
  {| ho_config := config; ho_handles := MakeDefaultBootstrapHandles; ho_initialized := false |}.

Definition MAX_AUTO_SHM_NAME_ATTEMPTS : nat := 8.

(** A header of zero bytes. *)
Definition zero_header : SharedMemoryHeader :=
  let c := Build_RingCursor 0 0 0 0 in
  {| hd_magic := 0; hd_protocolVersion := 0; hd_sessionId := 0; hd_sessionState := 0;
     hd_clientAttached := 0; hd_activeClientPid := 0; hd_highRingSize := 0; hd_normalRingSize := 0;
     hd_responseRingSize := 0; hd_maxRequestBytes := 0; hd_maxResponseBytes := 0;
     hd_highRing := c; hd_normalRing := c; hd_responseRing := c |}.

Definition HasValidConfig (config : SharedMemorySessionConfig) : bool :=
  negb (cf_maxRequestBytes config =? 0) && negb (cf_maxResponseBytes config =? 0) &&
  HasAlignedPayloadSizes (cf_maxRequestBytes config) (cf_maxResponseBytes config) &&
  (cf_maxRequestBytes config <=? DEFAULT_MAX_REQUEST_BYTES) &&
  (cf_maxResponseBytes config <=? DEFAULT_MAX_RESPONSE_BYTES).

Definition layout_config (config : SharedMemorySessionConfig) : LayoutConfig := {|
  lc_highRingSize := cf_highRingSize config; lc_normalRingSize := cf_normalRingSize config;
  lc_responseRingSize := cf_responseRingSize config; lc_maxRequestBytes := cf_maxRequestBytes config;
  lc_maxResponseBytes := cf_maxResponseBytes config |}.

(** [PopulateHeader] on zeroed memory, with the session identifier drawn. *)
Definition PopulateHeader (config : SharedMemorySessionConfig) (sessionId : Z) (h : SharedMemoryHeader)
    : SharedMemoryHeader :=
  h <| hd_magic := SHARED_MEMORY_MAGIC |> <| hd_protocolVersion := PROTOCOL_VERSION |>
    <| hd_sessionId := sessionId |> <| hd_sessionState := 0 |>
    <| hd_highRingSize := cf_highRingSize config |> <| hd_normalRingSize := cf_normalRingSize config |>
    <| hd_responseRingSize := cf_responseRingSize config |>
    <| hd_maxRequestBytes := cf_maxRequestBytes config |>
    <| hd_maxResponseBytes := cf_maxResponseBytes config |>
    <| hd_highRing := (hd_highRing h) <| capacity := cf_highRingSize config |> |>
    <| hd_normalRing := (hd_normalRing h) <| capacity := cf_normalRingSize config |> |>
    <| hd_responseRing := (hd_responseRing h) <| capacity := cf_responseRingSize config |> |>.

(** The object of zero bytes behind a descriptor just created. *)
Definition empty_shm : Shm :=
  {| shm_size := 0; shm_header := zero_header; shm_high := []; shm_normal := []; shm_response := [] |}.

(** The typed view of a zeroed region laid out for [config]. *)
Definition zeroed_shm (config : SharedMemorySessionConfig) (size : Z) : Shm := {|
  shm_size := size; shm_header := zero_header;
  shm_high := repeat RequestRingEntry_default (Z.to_nat (cf_highRingSize config));
  shm_normal := repeat RequestRingEntry_default (Z.to_nat (cf_normalRingSize config));
  shm_response := repeat ResponseRingEntry_default (Z.to_nat (cf_responseRingSize config)) |}.

Section Host.
Context `{Os}.

Definition GenerateSessionId (w : World) : Z * World := (os_random64 (w_tick w), tick w).

Definition BuildLayout (config : SharedMemorySessionConfig) : Layout :=
  ComputeLayout os_mutex_size (layout_config config).

(** [DuplicateHandles] over the descriptors in order; [dups] are those made
    so far, closed again when a [dup] fails. *)
Fixpoint dup_fields (sources dups : list Z) (w : World) : option (list Z) * World :=
  match sources with
  | [] => (Some dups, w)
  | fd :: sources =>
      let '(dup, w) := sys_dup fd w in
      if dup <? 0 then (None, fold_left (fun w fd => snd (CloseFd fd w)) dups w)
      else dup_fields sources (dups ++ [dup]) w
  end.

(** The handles with the given descriptors. *)
Definition handles_of (fds : list Z) (protocolVersion sessionId : Z) : BootstrapHandles := {|
  shmFd := nth 0 fds (-1); highReqEventFd := nth 1 fds (-1); normalReqEventFd := nth 2 fds (-1);
  respEventFd := nth 3 fds (-1); reqCreditEventFd := nth 4 fds (-1); respCreditEventFd := nth 5 fds (-1);
  bh_protocolVersion := protocolVersion; bh_sessionId := sessionId |}.

Definition DuplicateHandles (source : BootstrapHandles) (target : outptr) (w : World)
    : bool * BootstrapHandles * World :=
  match target with
  | Null => (false, MakeDefaultBootstrapHandles, w)
  | Ptr =>
      let '(fds, w) := dup_fields (handle_fds source) [] w in
      match fds with
      | None => (false, MakeDefaultBootstrapHandles, w)
      | Some fds => (true, handles_of fds (bh_protocolVersion source) (bh_sessionId source), w)
      end
  end.

(** [ResetHandles] is [CloseHandles] of session.cpp on the host's handles. *)
Definition ResetHandles (host : SessionHost) (w : World) : SessionHost * World :=
  let '(_, w) := CloseHandles (ho_handles host) w in
  (host <| ho_handles := MakeDefaultBootstrapHandles |> <| ho_initialized := false |>, w).

(** [InitMutex]: only the result of [pthread_mutex_init] matters. *)
Definition InitMutex (w : World) : bool * World := sys_call w.

Definition InitializeSharedMemory (host : SessionHost) (fd : Z) (w : World) : StatusCode * Z * World :=
  let layout := BuildLayout (ho_config host) in
  let '(truncated, w) := sys_call w in
  match fd_shm fd w with
  | None => (EngineInternalError, 0, w)
  | Some (id, _) =>
      if negb truncated then (EngineInternalError, 0, w)
      else
        let w := update_shm id (fun shm => shm <| shm_size := totalSize layout |>) w in
        let '(region, w) := sys_mmap fd (totalSize layout) w in
        match region with
        | None => (EngineInternalError, 0, w)
        | Some id =>
            let w := update_shm id (fun shm => zeroed_shm (ho_config host) (shm_size shm)) w in
            let '(sessionId, w) := GenerateSessionId w in
            let w := update_header id (PopulateHeader (ho_config host) sessionId) w in
            let '(mutex_ok, w) := InitMutex w in
            let w := sys_munmap id (totalSize layout) w in
            if negb mutex_ok then (EngineInternalError, sessionId, w) else (Ok, sessionId, w)
        end
  end.

Definition CreateEventFds (host : SessionHost) (w : World) : bool * SessionHost * World :=
  let '(f1, w) := sys_open FdEvent w in
  let '(f2, w) := sys_open FdEvent w in
  let '(f3, w) := sys_open FdEvent w in
  let '(f4, w) := sys_open FdEvent w in
  let '(f5, w) := sys_open FdEvent w in
  let host := host <| ho_handles := (ho_handles host) <| highReqEventFd := f1 |> <| normalReqEventFd := f2 |>
                        <| respEventFd := f3 |> <| reqCreditEventFd := f4 |> <| respCreditEventFd := f5 |> |> in
  ((0 <=? f1) && (0 <=? f2) && (0 <=? f3) && (0 <=? f4) && (0 <=? f5), host, w).

(** [shm_open] of a new object and [shm_unlink], retried when a generated name
    exists already. *)
Fixpoint open_shm_loop (attempts : nat) (useAutoName : bool) (w : World) : Z * World :=
  match attempts with
  | O => (-1, w)
  | S attempts =>
      let id := fresh (dom (w_shm w)) in
      let errno := os_errno (w_tick w) in
      let '(fd, w) := sys_open (FdShm id) w in
      if fd <? 0 then
        if useAutoName && (errno =? errno_EEXIST) then open_shm_loop attempts useAutoName w
        else (-1, w)
      else
        let w := w <| w_shm := <[id := empty_shm]> (w_shm w) |> in
        let '(unlinked, w) := sys_call w in
        if negb unlinked then (-1, sys_close fd w) else (fd, w)
  end.

Definition OpenSharedMemoryFd (host : SessionHost) (w : World) : Z * World :=
  open_shm_loop MAX_AUTO_SHM_NAME_ATTEMPTS (bool_decide (cf_shmName (ho_config host) = EmptyString)) w.

Definition FinalizeInitializedSession (host : SessionHost) (fd : Z) (w : World)
    : StatusCode * SessionHost * World :=
  let '(initStatus, sessionId, w) := InitializeSharedMemory host fd w in
  if negb (status_is initStatus Ok) then (initStatus, host, sys_close fd w)
  else
    let host := host <| ho_handles := (ho_handles host) <| shmFd := fd |>
                          <| bh_protocolVersion := PROTOCOL_VERSION |> <| bh_sessionId := sessionId |> |> in
    let '(created, host, w) := CreateEventFds host w in
    let host := host <| ho_initialized := created |> in
    if created then (Ok, host, w)
    else
      let '(host, w) := ResetHandles host w in
      (EngineInternalError, host, w).

Definition EnsureInitialized (host : SessionHost) (w : World) : StatusCode * SessionHost * World :=
  if ho_initialized host then (Ok, host, w)
  else if negb (HasValidConfig (ho_config host)) then (InvalidArgument, host, w)
  else
    let '(host, w) := ResetHandles host w in
    let '(fd, w) := OpenSharedMemoryFd host w in
    if fd <? 0 then (EngineInternalError, host, w) else FinalizeInitializedSession host fd w.

Definition EnsureSession (host : SessionHost) (w : World) : StatusCode * SessionHost * World :=
  EnsureInitialized host w.

(** [handles] is the caller's variable, written when the session exists. *)
Definition OpenSession (host : SessionHost) (handles : BootstrapHandles) (w : World)
    : StatusCode * BootstrapHandles * SessionHost * World :=
  let '(initStatus, host, w) := EnsureInitialized host w in
  if negb (status_is initStatus Ok) then (initStatus, handles, host, w)
  else
    let '(duplicated, handles, w) := DuplicateHandles (ho_handles host) Ptr w in
    if negb duplicated then (EngineInternalError, handles, host, w) else (Ok, handles, host, w).

Definition CloseSession (host : SessionHost) (w : World) : StatusCode * SessionHost * World :=
  let '(host, w) := ResetHandles host w in (Ok, host, w).

Definition serverHandles (host : SessionHost) (w : World) : BootstrapHandles * World :=
  if negb (ho_initialized host) then (MakeDefaultBootstrapHandles, w)
  else
    let '(_, handles, w) := DuplicateHandles (ho_handles host) Ptr w in (handles, w).

Definition sessionId (host : SessionHost) : Z := bh_sessionId (ho_handles host).

End Host.

(** ** Descriptors gained and given back *)

(** [fds1] is [fds0] with the descriptors [l] opened. *)
Definition grows (l : list Z) (fds0 fds1 : gmap Z fd_object) : Prop :=
  (forall fd, fd ∈ l -> 0 <= fd /\ fds0 !! fd = None /\ is_Some (fds1 !! fd)) /\
  (forall fd, fd ∉ l -> fds1 !! fd = fds0 !! fd).

Lemma grows_nil fds : grows [] fds fds.
Proof. split; [intros fd Hfd; by apply not_elem_of_nil in Hfd|done]. Qed.

Lemma grows_open l fds0 fds1 fd o :
  grows l fds0 fds1 -> 0 <= fd -> fds1 !! fd = None -> grows (l ++ [fd]) fds0 (<[fd := o]> fds1).
Proof.
  intros [Hin Hout] Hpos Hnone.
  assert (Hnew : fd ∉ l) by (intros Hl; destruct (Hin fd Hl) as (_ & _ & [? ?]); congruence).
  split.
  - intros fd' [Hl|Hl]%elem_of_app.
    + destruct (Hin fd' Hl) as (? & ? & ?). split_and!; try done.
      rewrite lookup_insert_ne; [done|]. by intros ->.
    + apply list_elem_of_singleton in Hl as ->. rewrite lookup_insert_eq. split_and!; [done| |by eauto].
      by rewrite <- Hout.
  - intros fd' Hl. rewrite not_elem_of_app, list_elem_of_singleton in Hl. destruct Hl as [Hl Hne].
    rewrite lookup_insert_ne by done. by apply Hout.
Qed.

(** Closing exactly what was opened gives the table back. *)
Lemma grows_closed l h fds0 fds1 :
  grows l fds0 fds1 -> (forall fd, 0 <= fd -> fd ∈ handle_fds h <-> fd ∈ l) ->
  closed_fds h fds1 = fds0.
Proof.
  intros [Hin Hout] Hl. apply map_eq. intros fd. rewrite closed_fds_lookup.
  destruct (Z.leb_spec 0 fd) as [Hpos|Hneg]; [|rewrite andb_false_r; apply Hout; intros Hx; destruct (Hin fd Hx); lia].
  rewrite andb_true_r. case_bool_decide as Hx.
  - apply Hl in Hx; [|done]. by destruct (Hin fd Hx) as (_ & -> & _).
  - apply Hout. by rewrite <- Hl.
Qed.

Section HostFacts.
Context `{OsLaws}.

Lemma sys_open_spec o w :
  let '(fd, w') := sys_open o w in
  w_maps w' = w_maps w /\ w_held w' = w_held w /\ w_shm w' = w_shm w /\
  if fd <? 0 then w_fds w' = w_fds w else w_fds w !! fd = None /\ w_fds w' = <[fd := o]> (w_fds w).
Proof.
  unfold sys_open. pose proof (os_alloc_fresh (w_fds w) (w_tick w)) as Hf.
  destruct (Z.ltb_spec (os_alloc (w_fds w) (w_tick w)) 0) as [Hneg|Hpos].
  - by rewrite (proj2 (Z.ltb_lt _ _) Hneg).
  - rewrite (proj2 (Z.ltb_ge _ _) Hpos). split_and!; try done. by apply Hf.
Qed.

(** The descriptors that were opened: the non-negative results. *)
Definition opened (fds : list Z) : list Z := filter (fun fd => 0 <= fd) fds.

Lemma sys_open_grows o w l fds0 fds :
  l = opened fds -> grows l fds0 (w_fds w) ->
  let '(fd, w') := sys_open o w in
  grows (opened (fds ++ [fd])) fds0 (w_fds w') /\ w_maps w' = w_maps w /\ w_held w' = w_held w /\
  w_shm w' = w_shm w.
Proof.
  intros -> Hg. pose proof (sys_open_spec o w) as Ho. destruct (sys_open o w) as [fd w'].
  destruct Ho as (Hm & Hh & Hs & Ho). split; [|done]. unfold opened. rewrite filter_app.
  destruct (Z.ltb_spec fd 0) as [Hneg|Hpos].
  - rewrite (filter_cons_False _ fd) by lia. rewrite filter_nil, app_nil_r. by rewrite Ho.
  - destruct Ho as [Hn ->]. rewrite (filter_cons_True _ fd) by lia. rewrite filter_nil.
    by apply grows_open.
Qed.

Lemma close_list_spec l w :
  let w' := fold_left (fun w fd => snd (CloseFd fd w)) l w in
  w_fds w' = fold_left (fun fds fd => if 0 <=? fd then delete fd fds else fds) l (w_fds w) /\
  w_maps w' = w_maps w /\ w_shm w' = w_shm w /\ w_held w' = w_held w.
Proof.
  revert w. induction l as [|fd l IH]; intros w; [done|]. cbn [fold_left].
  destruct (IH (snd (CloseFd fd w))) as (Hf & Hm & Hs & Hh). rewrite Hf, Hm, Hs, Hh.
  unfold CloseFd. by destruct (0 <=? fd).
Qed.

Lemma grows_close_list l fds0 fds1 :
  grows l fds0 fds1 ->
  fold_left (fun fds fd => if 0 <=? fd then delete fd fds else fds) l fds1 = fds0.
Proof.
  intros [Hin Hout]. apply map_eq. intros fd. rewrite fold_close_lookup. case_bool_decide as Hl; cbn.
  - destruct (Hin fd Hl) as (Hpos & Hn & _). by rewrite (proj2 (Z.leb_le _ _) Hpos).
  - by apply Hout.
Qed.

(** Duplicating is all or nothing: either every descriptor has a new duplicate
    of the same object, or the table is as it was. *)
Lemma dup_fields_spec sources dups w fds0 :
  grows dups fds0 (w_fds w) -> Forall (fun src => is_Some (fds0 !! src)) sources ->
  let '(r, w') := dup_fields sources dups w in
  w_maps w' = w_maps w /\ w_shm w' = w_shm w /\ w_held w' = w_held w /\
  match r with
  | None => w_fds w' = fds0
  | Some l => exists new, l = dups ++ new /\ grows l fds0 (w_fds w') /\
      (forall fd o, w_fds w !! fd = Some o -> w_fds w' !! fd = Some o) /\
      Forall2 (fun src fd => 0 <= fd /\ w_fds w' !! fd = fds0 !! src) sources new
  end.
Proof.
  revert dups w. induction sources as [|src sources IH]; intros dups w Hg Hsrc.
  { cbn. split_and!; try done. exists []. rewrite app_nil_r. split_and!; done || constructor. }
  apply Forall_cons in Hsrc as [[obj Hobj] Hsrcs]. cbn [dup_fields]. unfold sys_dup.
  assert (Hsame : w_fds w !! src = Some obj).
  { rewrite (proj2 Hg); [done|]. intros Hd. destruct (proj1 Hg _ Hd) as (_ & ? & _). congruence. }
  rewrite Hsame. pose proof (sys_open_spec obj w) as Ho. destruct (sys_open obj w) as [dup w1].
  destruct Ho as (Hm1 & Hh1 & Hs1 & Ho). destruct (Z.ltb_spec dup 0) as [Hneg|Hpos].
  { destruct (close_list_spec dups w1) as (Hf' & Hm' & Hs' & Hh').
    rewrite Hm', Hs', Hh', Hf', Ho. by rewrite (grows_close_list _ _ _ Hg). }
  destruct Ho as [Hfresh Hf1].
  pose proof (IH (dups ++ [dup]) w1) as IH1. rewrite Hf1 in IH1.
  specialize (IH1 (grows_open _ _ _ _ _ Hg Hpos Hfresh) Hsrcs).
  destruct (dup_fields sources (dups ++ [dup]) w1) as [r w2]. destruct IH1 as (Hm2 & Hs2 & Hh2 & Hr).
  rewrite Hm2, Hs2, Hh2. split_and!; try done. destruct r as [l|]; [|done].
  destruct Hr as (new & -> & Hg2 & Hmono & Hall). exists (dup :: new). rewrite <- app_assoc in *.
  split_and!; try done.
  - intros fd o Hfd. apply Hmono. rewrite lookup_insert_ne; [done|]. intros ->. congruence.
  - constructor; [|done]. split; [done|]. rewrite Hobj. apply Hmono. by rewrite lookup_insert_eq.
Qed.

(** Each duplicate takes a descriptor of its own. *)
Lemma dup_fields_size sources dups w l w' :
  Forall (fun src => is_Some (w_fds w !! src)) sources -> dup_fields sources dups w = (Some l, w') ->
  size (w_fds w') = (size (w_fds w) + length sources)%nat.
Proof.
  revert dups w. induction sources as [|src sources IH]; intros dups w Hsrc Hd; cbn in Hd |- *; [injection Hd as _ <-; lia|].
  apply Forall_cons in Hsrc as [[obj Hobj] Hsrcs]. unfold sys_dup in Hd. rewrite Hobj in Hd.
  pose proof (sys_open_spec obj w) as Ho. destruct (sys_open obj w) as [dup w1]. destruct Ho as (_ & _ & _ & Ho).
  destruct (dup <? 0); [done|]. destruct Ho as [Hfresh Hf].
  apply IH in Hd; [|eapply Forall_impl; [exact Hsrcs|]; intros fd Hfd; rewrite Hf; apply lookup_insert_is_Some'; by right].
  rewrite Hd, Hf, map_size_insert_None by done. lia.
Qed.

(** The handles made of six descriptors. *)
Lemma handle_fds_of l v i : length l = 6%nat -> handle_fds (handles_of l v i) = l.
Proof. intros Hl. do 6 (destruct l as [|? l]; [done|]). by destruct l. Qed.

(** The host's handles are open, or it has none. *)
Definition host_ok (host : SessionHost) (fds : gmap Z fd_object) : Prop :=
  if ho_initialized host then Forall (fun fd => is_Some (fds !! fd)) (handle_fds (ho_handles host))
  else ho_handles host = MakeDefaultBootstrapHandles.

Lemma DuplicateHandles_spec source w :
  Forall (fun fd => is_Some (w_fds w !! fd)) (handle_fds source) ->
  let '(ok, target, w') := DuplicateHandles source Ptr w in
  w_maps w' = w_maps w /\ w_shm w' = w_shm w /\ w_held w' = w_held w /\
  if ok then
    closed_fds target (w_fds w') = w_fds w /\ bh_sessionId target = bh_sessionId source /\
    bh_protocolVersion target = bh_protocolVersion source /\
    Forall2 (fun src fd => 0 <= fd /\ w_fds w' !! fd = w_fds w !! src) (handle_fds source) (handle_fds target) /\
    (forall fd o, w_fds w !! fd = Some o -> w_fds w' !! fd = Some o)
  else target = MakeDefaultBootstrapHandles /\ w_fds w' = w_fds w.
Proof.
  intros Hopen. unfold DuplicateHandles.
  pose proof (dup_fields_spec (handle_fds source) [] w (w_fds w) (grows_nil _) Hopen) as Hd.
  destruct (dup_fields (handle_fds source) [] w) as [[l|] w'];
    destruct Hd as (Hm & Hs & Hh & Hd); do 3 (split; [done|]); [|done].
  destruct Hd as (new & -> & Hg & Hmono & Hall). cbn [app] in *.
  assert (Hlen : length new = 6%nat) by (by rewrite <- (Forall2_length _ _ _ Hall)).
  rewrite (handle_fds_of new _ _ Hlen). split_and!; try done.
  eapply grows_closed; [exact Hg|]. intros fd _. by rewrite (handle_fds_of new _ _ Hlen).
Qed.

(** The shared memory of a new session. *)
Definition session_shm (config : SharedMemorySessionConfig) (sid : Z) : Shm :=
  (zeroed_shm config (totalSize (BuildLayout config)))
    <| shm_header := PopulateHeader config sid zero_header |>.

#[local] Opaque ComputeLayout.

Lemma InitializeSharedMemory_spec host fd id w shm :
  w_fds w !! fd = Some (FdShm id) -> w_shm w !! id = Some shm ->
  let '(st, sid, w') := InitializeSharedMemory host fd w in
  w_fds w' = w_fds w /\ w_maps w' = w_maps w /\ w_held w' = w_held w /\
  (st = Ok -> 0 <= sid < 2 ^ 64 /\ w_shm w' !! id = Some (session_shm (ho_config host) sid)).
Proof.
  intros Hfd Hid. unfold InitializeSharedMemory, sys_call.
  assert (Hs : fd_shm fd (tick w) = Some (id, shm)) by (unfold fd_shm; cbn; by rewrite Hfd, Hid).
  rewrite Hs. destruct (os_errno (w_tick w) =? 0); cbn [negb]; [|done].
  set (total := totalSize (BuildLayout (ho_config host))).
  set (w1 := update_shm id (fun shm => shm <| shm_size := total |>) (tick w)).
  assert (Hid1 : w_shm w1 !! id = Some (shm <| shm_size := total |>)).
  { unfold w1, update_shm. cbn. by rewrite lookup_alter_eq, Hid. }
  pose proof (sys_mmap_spec fd total w1) as HM. destruct (sys_mmap fd total w1) as [[id'|] w2]; [|cbn in HM].
  2:{ destruct HM as (-> & -> & _ & ->). done. }
  destruct HM as [(shm' & Hfd') (Hf2 & Hm2 & Hs2 & Hh2)]. cbn in Hf2, Hm2, Hs2, Hh2.
  assert (id' = id) as ->. { unfold fd_shm in Hfd'. cbn in Hfd'. rewrite Hfd in Hfd'. destruct (alter _ _ _ !! _); [|done]. by simplify_option_eq. }
  unfold GenerateSessionId, InitMutex, sys_call.
  set (sid := os_random64 _). set (w3 := sys_munmap _ _ _).
  assert (H3 : w_fds w3 = w_fds w /\ w_maps w3 = w_maps w /\ w_held w3 = w_held w /\
               w_shm w3 !! id = Some (session_shm (ho_config host) sid)).
  { unfold w3, sys_munmap, update_header, update_shm. cbn. rewrite Hf2, Hm2, Hh2. split_and!; try done.
    - apply remove_map_head.
    - rewrite lookup_alter_eq, lookup_alter_eq. cbn in Hs2. rewrite Hs2.
      unfold w1, update_shm in Hid1. cbn in Hid1. rewrite Hid1. done. }
  destruct H3 as (H3f & H3m & H3h & H3s). pose proof (os_random64_range (w_tick (update_shm id
    (fun shm0 => zeroed_shm (ho_config host) (shm_size shm0)) w2))) as Hr.
  destruct (_ =? 0); cbn [negb]; by split_and!.
Qed.

Lemma open_shm_loop_spec n auto w :
  let '(fd, w') := open_shm_loop n auto w in
  w_maps w' = w_maps w /\ w_held w' = w_held w /\
  if fd <? 0 then w_fds w' = w_fds w
  else exists id, w_fds w !! fd = None /\ w_fds w' = <[fd := FdShm id]> (w_fds w) /\
    w_shm w' !! id = Some empty_shm.
Proof.
  revert w. induction n as [|n IH]; intros w; [done|]. cbn [open_shm_loop].
  pose proof (sys_open_spec (FdShm (fresh (dom (w_shm w)))) w) as Ho.
  destruct (sys_open (FdShm (fresh (dom (w_shm w)))) w) as [fd w1]. destruct Ho as (Hm1 & Hh1 & Hs1 & Ho).
  destruct (Z.ltb_spec fd 0) as [Hneg|Hpos].
  - destruct (auto && _); [|by cbn; rewrite Hm1, Hh1, Ho].
    specialize (IH w1). destruct (open_shm_loop n auto w1) as [fd' w']. by rewrite Hm1, Hh1, Ho in IH.
  - destruct Ho as [Hnone Hf1]. unfold sys_call. destruct (os_errno _ =? 0); cbn [negb].
    + rewrite (proj2 (Z.ltb_ge _ _) Hpos). cbn. rewrite Hm1, Hh1, Hf1. split_and!; try done.
      exists (fresh (dom (w_shm w))). split_and!; try done. by rewrite lookup_insert_eq.
    + cbn. rewrite Hm1, Hh1, Hf1. split_and!; try done. by rewrite delete_insert_id.
Qed.

Lemma CreateEventFds_spec host w fds0 fd :
  grows [fd] fds0 (w_fds w) -> shmFd (ho_handles host) = fd -> 0 <= fd ->
  let '(ok, host', w') := CreateEventFds host w in
  w_maps w' = w_maps w /\ w_held w' = w_held w /\ w_shm w' = w_shm w /\
  ho_config host' = ho_config host /\ shmFd (ho_handles host') = fd /\
  bh_sessionId (ho_handles host') = bh_sessionId (ho_handles host) /\
  bh_protocolVersion (ho_handles host') = bh_protocolVersion (ho_handles host) /\
  grows (opened (handle_fds (ho_handles host'))) fds0 (w_fds w') /\
  (forall o, w_fds w !! fd = Some o -> w_fds w' !! fd = Some o) /\
  (ok = true -> Forall (fun fd => 0 <= fd) (handle_fds (ho_handles host'))).
Proof.
  intros Hg Hfd Hpos. unfold CreateEventFds.
  assert (Hkeep : forall w1 fd1 w2 l, sys_open FdEvent w1 = (fd1, w2) -> grows l fds0 (w_fds w1) ->
    forall o, w_fds w1 !! fd = Some o -> w_fds w2 !! fd = Some o).
  { intros w1 fd1 w2 l HO _ o Ho. pose proof (sys_open_spec FdEvent w1) as Hs. rewrite HO in Hs.
    destruct Hs as (_ & _ & _ & Hs). destruct (fd1 <? 0); [by rewrite Hs|]. destruct Hs as [Hn ->].
    rewrite lookup_insert_ne; [done|]. intros ->. congruence. }
  assert (E1 : [fd] = opened [fd]) by (unfold opened; by rewrite filter_cons_True).
  pose proof (sys_open_grows FdEvent w [fd] fds0 [fd] E1 Hg) as G1.
  destruct (sys_open FdEvent w) as [f1 w1] eqn:O1. destruct G1 as (G1 & Hm1 & Hh1 & Hs1).
  pose proof (sys_open_grows FdEvent w1 _ fds0 _ eq_refl G1) as G2.
  destruct (sys_open FdEvent w1) as [f2 w2] eqn:O2. destruct G2 as (G2 & Hm2 & Hh2 & Hs2).
  pose proof (sys_open_grows FdEvent w2 _ fds0 _ eq_refl G2) as G3.
  destruct (sys_open FdEvent w2) as [f3 w3] eqn:O3. destruct G3 as (G3 & Hm3 & Hh3 & Hs3).
  pose proof (sys_open_grows FdEvent w3 _ fds0 _ eq_refl G3) as G4.
  destruct (sys_open FdEvent w3) as [f4 w4] eqn:O4. destruct G4 as (G4 & Hm4 & Hh4 & Hs4).
  pose proof (sys_open_grows FdEvent w4 _ fds0 _ eq_refl G4) as G5.
  destruct (sys_open FdEvent w4) as [f5 w5] eqn:O5. destruct G5 as (G5 & Hm5 & Hh5 & Hs5).
  cbn [app] in *. cbn [ho_config ho_handles]. cbn. rewrite Hfd.
  split_and!; try congruence; try done; [by eauto 10|].
  intros Hok. bool_to_prop. by repeat constructor.
Qed.

(** What a successful initialisation leaves: six new descriptors, and the new
    shared memory behind the first. *)
Definition initialised (host' : SessionHost) (fds0 : gmap Z fd_object) (w' : World) : Prop :=
  let h := ho_handles host' in
  ho_initialized host' = true /\ bh_protocolVersion h = PROTOCOL_VERSION /\
  Forall (fun fd => 0 <= fd /\ is_Some (w_fds w' !! fd)) (handle_fds h) /\
  closed_fds h (w_fds w') = fds0 /\
  exists id, fd_shm (shmFd h) w' = Some (id, session_shm (ho_config host') (bh_sessionId h)).

Lemma opened_closed h fds0 fds1 :
  grows (opened (handle_fds h)) fds0 fds1 -> closed_fds h fds1 = fds0.
Proof.
  intros Hg. eapply grows_closed; [done|]. intros fd Hpos. unfold opened.
  rewrite list_elem_of_filter. tauto.
Qed.

Lemma EnsureInitialized_spec host w :
  ho_initialized host = false -> ho_handles host = MakeDefaultBootstrapHandles ->
  let '(st, host', w') := EnsureInitialized host w in
  w_maps w' = w_maps w /\ w_held w' = w_held w /\ ho_config host' = ho_config host /\
  if status_is st Ok
  then HasValidConfig (ho_config host) = true /\ initialised host' (w_fds w) w'
  else host' = host /\ w_fds w' = w_fds w.
Proof.
  intros Hi Hd. unfold EnsureInitialized. rewrite Hi.
  destruct (HasValidConfig (ho_config host)) eqn:Ev; cbn [negb]; [|done].
  assert (HR : ResetHandles host w = (host, w)).
  { unfold ResetHandles. rewrite Hd. destruct host; cbn in *. by subst. }
  rewrite HR. unfold OpenSharedMemoryFd.
  pose proof (open_shm_loop_spec MAX_AUTO_SHM_NAME_ATTEMPTS
    (bool_decide (cf_shmName (ho_config host) = EmptyString)) w) as HO.
  destruct (open_shm_loop _ _ w) as [fd w1]. destruct HO as (Hm1 & Hh1 & HO).
  destruct (Z.ltb_spec fd 0) as [Hneg|Hpos]; [done|]. destruct HO as (id & Hnone & Hf1 & Hs1).
  unfold FinalizeInitializedSession.
  assert (Hfd : w_fds w1 !! fd = Some (FdShm id)) by (by rewrite Hf1, lookup_insert_eq).
  pose proof (InitializeSharedMemory_spec host fd id w1 empty_shm Hfd Hs1) as HI.
  destruct (InitializeSharedMemory host fd w1) as [[st sid] w2]. destruct HI as (Hf2 & Hm2 & Hh2 & Hok).
  destruct (status_is st Ok) eqn:Est; cbn [negb].
  2:{ rewrite Est. cbn. rewrite Hm2, Hh2, Hf2, Hf1. split_and!; try done. by rewrite delete_insert_id. }
  apply status_is_true in Est as ->. destruct (Hok eq_refl) as [Hsid Hs2].
  set (host1 := host <| ho_handles := _ |>).
  assert (Hg : grows [fd] (w_fds w) (w_fds w2)).
  { rewrite Hf2, Hf1. exact (grows_open [] _ _ fd (FdShm id) (grows_nil _) Hpos Hnone). }
  pose proof (CreateEventFds_spec host1 w2 (w_fds w) fd Hg eq_refl Hpos) as HC.
  destruct (CreateEventFds host1 w2) as [[ok host2] w3].
  destruct HC as (Hm3 & Hh3 & Hs3 & Hc3 & Hfd3 & Hsid3 & Hv3 & Hg3 & Hkeep & Hall).
  pose proof (opened_closed _ _ _ Hg3) as Hclosed. destruct ok.
  - rewrite status_is_refl. cbn [ho_config]. cbn. rewrite Hm3, Hh3, Hm2, Hh2. split_and!; try done.
    unfold initialised. cbn. split_and!; try done.
    + apply Forall_forall. intros x Hx. pose proof (proj1 (Forall_forall _ _) (Hall eq_refl) x Hx) as Hx0. cbn in Hx0.
      split; [done|]. apply (proj1 Hg3). unfold opened. by apply list_elem_of_filter.
    + exists id. unfold fd_shm. rewrite Hfd3, (Hkeep (FdShm id)) by (by rewrite Hf2). rewrite Hs3, Hs2. cbn.
      rewrite Hc3, Hsid3. done.
  - unfold ResetHandles. pose proof (CloseHandles_spec (ho_handles host2) w3) as HC.
    change (ho_handles (host2 <| ho_initialized := false |>)) with (ho_handles host2).
    destruct (CloseHandles (ho_handles host2) w3) as [hs w4]. cbn [snd] in HC. destruct HC as (Hf4 & Hm4 & Hs4 & Hh4).
    cbn. rewrite Hm4, Hh4, Hm3, Hh3, Hm2, Hh2, Hf4, Hclosed. split_and!; try done.
    destruct host as [c hs' i], host2 as [c2 hs2 i2]; cbn in *. by subst.
Qed.


(** The ring sizes [Attach] accepts. *)
Definition ring_size_ok (n : Z) : bool := negb (n =? 0) && (n <=? MAX_RING_ENTRIES).

Definition ring_sizes_ok (config : SharedMemorySessionConfig) : bool :=
  ring_size_ok (cf_highRingSize config) && ring_size_ok (cf_normalRingSize config) &&
  ring_size_ok (cf_responseRingSize config).

Definition config_u32 (config : SharedMemorySessionConfig) : Prop :=
  ring_sizes_u32 (layout_config config).

Lemma ValidateRingCursor_fresh n : 0 <= n -> ValidateRingCursor (Build_RingCursor 0 0 n 0) n = ring_size_ok n.
Proof.
  intros Hn. unfold ValidateRingCursor, ring_size_ok. rewrite (Z.leb_antisym MAX_RING_ENTRIES).
  destruct (n =? 0); [done|]. destruct (MAX_RING_ENTRIES <? n); [done|].
  cbn [capacity]. rewrite Z.eqb_refl. cbn [orb negb andb].
  change (RingCount _) with 0. by rewrite (proj2 (Z.ltb_ge _ _)).
Qed.

Lemma ValidateLayoutConfig_fresh config :
  HasValidConfig config = true -> config_u32 config ->
  ValidateLayoutConfig (layout_config config) (totalSize (BuildLayout config)) = ring_sizes_ok config.
Proof.
  intros Hv Hu. unfold BuildLayout, ValidateLayoutConfig, ring_sizes_ok, ring_size_ok.
  pose proof (ComputeLayout_regions os_mutex_size (layout_config config) os_mutex_size_ok Hu)
    as (R1 & R2 & R3 & R4 & _). destruct Hu as ([U1 _] & [U2 _] & [U3 _]).
  unfold HasValidConfig in Hv. bool_to_prop. unfold RING_ENTRY_BYTES in *.
  rewrite (proj2 (Z.ltb_ge _ (header_size os_mutex_size))), Z.ltb_irrefl by lia.
  cbn [layout_config lc_highRingSize lc_normalRingSize lc_responseRingSize lc_maxRequestBytes lc_maxResponseBytes].
  match goal with HP : HasAlignedPayloadSizes _ _ = true |- _ => rewrite HP end.
  rewrite (proj2 (Z.eqb_neq (cf_maxRequestBytes config) 0)),
    (proj2 (Z.eqb_neq (cf_maxResponseBytes config) 0)) by done.
  rewrite !(Z.leb_antisym MAX_RING_ENTRIES).
  destruct (cf_highRingSize config =? 0), (cf_normalRingSize config =? 0), (cf_responseRingSize config =? 0),
    (MAX_RING_ENTRIES <? cf_highRingSize config), (MAX_RING_ENTRIES <? cf_normalRingSize config),
    (MAX_RING_ENTRIES <? cf_responseRingSize config); reflexivity.
Qed.

Lemma session_shm_validates config sid :
  HasValidConfig config = true -> config_u32 config ->
  validate_header (shm_header (session_shm config sid)) (shm_size (session_shm config sid)) =
    ring_sizes_ok config.
Proof.
  intros Hv Hu. assert (Hsz : shm_size (session_shm config sid) = totalSize (BuildLayout config)) by reflexivity.
  assert (Hcf : header_config (shm_header (session_shm config sid)) = layout_config config) by reflexivity.
  unfold validate_header. rewrite Hsz, Hcf, ValidateLayoutConfig_fresh by done.
  destruct Hu as ([U1 _] & [U2 _] & [U3 _]). cbn in U1, U2, U3. unfold ring_sizes_ok.
  pose proof (ValidateRingCursor_fresh _ U1) as V1. pose proof (ValidateRingCursor_fresh _ U2) as V2.
  pose proof (ValidateRingCursor_fresh _ U3) as V3. cbn. rewrite V1, V2, V3.
  by destruct (ring_size_ok (cf_highRingSize config)), (ring_size_ok (cf_normalRingSize config)),
    (ring_size_ok (cf_responseRingSize config)).
Qed.

(** ** A session just opened can be attached to *)

(** A system in which no call fails. *)
Definition calls_succeed : Prop := (forall n, os_errno n = 0) /\ (forall n, os_timedlock n = 0).

Lemma sys_call_ok w : calls_succeed -> sys_call w = (true, tick w).
Proof. intros [He _]. unfold sys_call. by rewrite He. Qed.

Lemma sys_fstat_ok fd w id shm :
  calls_succeed -> fd_shm fd w = Some (id, shm) -> sys_fstat fd w = (Some (shm_size shm), tick w).
Proof.
  intros Hs Hfd. unfold sys_fstat. rewrite sys_call_ok by done. unfold fd_shm in Hfd. cbn.
  destruct (w_fds w !! fd) as [[i|]|]; [|done..]. destruct (w_shm w !! i); [|done]. cbn in *. by simplify_eq.
Qed.

Lemma sys_mmap_ok fd size w id shm :
  calls_succeed -> fd_shm fd w = Some (id, shm) ->
  sys_mmap fd size w = (Some id, tick w <| w_maps := (id, size) :: w_maps w |>).
Proof.
  intros Hs Hfd. unfold sys_mmap. rewrite sys_call_ok by done.
  change (fd_shm fd (tick w)) with (fd_shm fd w). by rewrite Hfd.
Qed.

(** Attaching to valid memory succeeds when no call fails. *)
Lemma Attach_complete pid h role w id shm :
  calls_succeed -> w_held w = ∅ -> 0 <= shmFd h -> fd_shm (shmFd h) w = Some (id, shm) ->
  hd_magic (shm_header shm) = SHARED_MEMORY_MAGIC ->
  hd_protocolVersion (shm_header shm) = PROTOCOL_VERSION ->
  validate_header (shm_header shm) (shm_size shm) = true ->
  hd_clientAttached (shm_header shm) = 0 ->
  let '(st, _, _, _) := Attach pid (Some h) role Session_default w in st = Ok.
Proof.
  intros Hs Hh Hpos Hfd Hmag Hver Hval Hatt. pose proof (validate_header_total _ _ Hval) as Htot.
  pose proof (fd_shm_lookup _ _ _ _ Hfd) as Hid.
  unfold Attach. change (Reset Session_default w) with (Session_default, w). cbn [TakeBootstrapHandles].
  rewrite (proj2 (Z.ltb_ge _ _)) by lia. unfold MapAndValidateHeader.
  rewrite (sys_fstat_ok _ _ _ _ Hs Hfd). rewrite (proj2 (Z.ltb_ge _ _)) by lia.
  rewrite (sys_mmap_ok _ _ (tick w) _ _ Hs Hfd). 
  set (w1 := tick (tick w) <| w_maps := _ |>).
  match goal with |- context [read_header ?a w1] => change (read_header a w1) with (shm_header <$> w_shm w !! id) end.
  rewrite Hid. cbn [fmap option_fmap option_map]. rewrite Hmag, Hver, !Z.eqb_refl. cbn [negb orb].
  rewrite status_is_refl. cbn [negb]. unfold RemapWithActualLayout.
  rewrite (sys_fstat_ok _ w1 _ _ Hs Hfd).
  match goal with |- context [read_header ?a (tick w1)] => change (read_header a (tick w1)) with (shm_header <$> w_shm w !! id) end.
  rewrite Hid. cbn [fmap option_fmap option_map]. rewrite Hval. cbn [negb].
  match goal with |- context [sys_mmap (shmFd h) ?n ?w'] => rewrite (sys_mmap_ok (shmFd h) n w' id shm Hs Hfd); set (w2 := w') end.
  rewrite status_is_refl. cbn [negb]. destruct role; [|done].
  unfold TryAcquireClientAttachment, LockSharedMutex. cbn [ss_header]. cbn -[alter os_timedlock sys_call tick w2].
  rewrite sys_call_ok by done. cbn [negb]. rewrite (proj2 Hs). cbn -[alter].
  unfold w2, w1. cbn -[alter]. rewrite Hid. cbn -[alter]. by rewrite Hatt.
Qed.

(** The shared memory behind the handles of a session just opened. *)
Lemma OpenSession_shm config handles w handles' host' w' :
  OpenSession (make_host config) handles w = (Ok, handles', host', w') ->
  HasValidConfig config = true /\ w_held w' = w_held w /\ 0 <= shmFd handles' /\
  exists id, fd_shm (shmFd handles') w' = Some (id, session_shm config (bh_sessionId handles')).
Proof.
  unfold OpenSession. pose proof (EnsureInitialized_spec (make_host config) w eq_refl eq_refl) as HE.
  destruct (EnsureInitialized (make_host config) w) as [[ist host1] w1].
  destruct HE as (_ & Hh1 & Hc1 & HE). destruct (status_is ist Ok) eqn:Est; cbn [negb].
  2:{ intros [= -> _ _ _]. discriminate. }
  destruct HE as [Hv (_ & _ & Hall & _ & id & Hfd)].
  assert (Hopen : Forall (fun fd => is_Some (w_fds w1 !! fd)) (handle_fds (ho_handles host1))).
  { eapply Forall_impl; [exact Hall|]. by intros fd [_ ?]. }
  pose proof (DuplicateHandles_spec (ho_handles host1) w1 Hopen) as HD.
  destruct (DuplicateHandles (ho_handles host1) Ptr w1) as [[dup hs] w2].
  destruct HD as (_ & Hs2 & Hh2 & HD). destruct dup; cbn [negb]; [|done]. intros [= <- <- <-].
  destruct HD as (_ & Hsid & _ & Hpair & _). apply Forall2_cons_1 in Hpair as [[Hpos Heq] _].
  split_and!; [done|congruence|done|]. exists id. rewrite Hsid. cbn in Hc1. rewrite Hc1 in Hfd.
  unfold fd_shm in *. rewrite Heq, Hs2. exact Hfd.
Qed.

(** C34: a session just opened can be attached to, by either role, exactly when
    its three ring sizes are between 1 and 2^20.  The host does not check the
    ring sizes itself: outside that range it opens sessions no one can use. *)
Theorem opened_session_attaches config handles w pid role handles' host' w' :
  calls_succeed -> config_u32 config -> w_held w = ∅ ->
  OpenSession (make_host config) handles w = (Ok, handles', host', w') ->
  let '(st, _, _, _) := Attach pid (Some handles') role Session_default w' in
  st = Ok <-> ring_sizes_ok config = true.
Proof.
  intros Hs Hu Hh HO. destruct (OpenSession_shm _ _ _ _ _ _ HO) as (Hv & Hh' & Hpos & id & Hfd).
  rewrite Hh in Hh'. pose proof (session_shm_validates config (bh_sessionId handles') Hv Hu) as Hval.
  pose proof (Attach_complete pid handles' role w' id _ Hs Hh' Hpos Hfd eq_refl eq_refl) as Hcomplete.
  destruct (Attach_spec pid handles' role Session_default w' Hh') as (w0 & HR & _ & HA).
  destruct (Attach pid (Some handles') role Session_default w') as [[[st h''] s'] w''].
  change (Reset Session_default w') with (Session_default, w') in HR. injection HR as <-.
  split.
  - intros ->. destruct HA as (_ & _ & [[Hne _]|(_ & id' & shm' & Hfd' & _ & _ & Hval' & _)]); [done|].
    rewrite Hfd in Hfd'. injection Hfd' as <- <-. by rewrite <- Hval.
  - intros Hok. apply Hcomplete; [by rewrite Hval|done].
Qed.

End HostFacts.

(** ** A host with the default configuration *)
Module HostDemo.

Definition config : SharedMemorySessionConfig := {|
  cf_highRingSize := DEFAULT_HIGH_RING_SIZE; cf_normalRingSize := DEFAULT_NORMAL_RING_SIZE;
  cf_responseRingSize := DEFAULT_RESPONSE_RING_SIZE; cf_maxRequestBytes := DEFAULT_MAX_REQUEST_BYTES;
  cf_maxResponseBytes := DEFAULT_MAX_RESPONSE_BYTES; cf_shmName := EmptyString |}.

Definition world : World :=
  {| w_fds := ∅; w_shm := ∅; w_maps := []; w_held := ∅; w_tick := 0 |}.

Lemma open_result :
  let '(st, _, _, _) := @OpenSession DemoOs.os (make_host config) MakeDefaultBootstrapHandles world in st = Ok.
Proof. vm_compute. reflexivity. Qed.

End HostDemo.


Lemma opened_session_attaches_witness :
  exists handles' host' w',
    @OpenSession DemoOs.os (make_host HostDemo.config) MakeDefaultBootstrapHandles HostDemo.world =
      (Ok, handles', host', w') /\
    let '(st, _, _, _) := @Attach DemoOs.os 7 (Some handles') RoleClient Session_default w' in
    st = Ok <-> ring_sizes_ok HostDemo.config = true.
Proof.
  pose proof HostDemo.open_result as Hok.
  destruct (@OpenSession DemoOs.os (make_host HostDemo.config) MakeDefaultBootstrapHandles HostDemo.world)
    as [[[st hs] host'] w'] eqn:E. subst st. exists hs, host', w'. split; [reflexivity|].
  apply (@opened_session_attaches DemoOs.os DemoOs.os_laws HostDemo.config MakeDefaultBootstrapHandles HostDemo.world
    7 RoleClient hs host' w'); [|repeat split; vm_compute; congruence|reflexivity|exact E].
  split; reflexivity.
Defined.
