(* ===== verification/Executor.v ===== *)
(** * Task executors

    The interface [TaskExecutor] (memrpc/include/memrpc/core/task_executor.h)
    with what its comments promise, and [ThreadPoolExecutor]
    (memrpc/src/server/rpc_server.cpp), which keeps the promise.  An operation
    is what one critical section of the executor's mutex does; its worker
    threads are threads of the server. *)

From Stdlib Require Import Lia.
From S2P Require Import Prelude.

(** What the server calls.  [ex_tasks] are the tasks accepted and not yet
    handed to a worker, oldest first. *)
Class TaskExecutor (X : Type -> Type) : Type := {
  ex_tasks {T} : X T -> list T;
  ex_TrySubmit {T} : option T -> X T -> bool * X T;      (* [None]: an empty function *)
  ex_HasCapacity {T} : X T -> bool;
  ex_capacity_wakes {T} : X T -> bool;                   (* what [WaitForCapacity] waits for *)
  ex_Stop {T} : X T -> bool * X T;                       (* whether it was running *)
  ex_worker_wakes {T} : X T -> bool;
  ex_take {T} : X T -> defined (option T * X T);         (* [None]: the worker returns *)
}.

(** The contract of task_executor.h.  [HasCapacity] and [TrySubmit] are
    consistent for a single producer: between the two only workers act.  A
    refused task leaves no trace; after [Stop] everything is refused; and a
    worker returns only when it has nothing left to release. *)
Class TaskExecutorLaws (X : Type -> Type) `{TaskExecutor X} : Prop := {
  ex_submit_accepts {T} (x : X T) t :
    ex_HasCapacity x = true ->
    exists x', ex_TrySubmit (Some t) x = (true, x') /\ ex_tasks x' = ex_tasks x ++ [t];
  ex_submit_refuses {T} (x x' : X T) o : ex_TrySubmit o x = (false, x') -> x' = x;
  ex_take_capacity {T} (x x' : X T) t :
    ex_HasCapacity x = true -> ex_take x = Defined (Some t, x') -> ex_HasCapacity x' = true;
  ex_take_tasks {T} (x x' : X T) t : ex_take x = Defined (Some t, x') -> ex_tasks x = t :: ex_tasks x';
  ex_take_defined {T} (x : X T) : ex_worker_wakes x = true -> ex_take x <> Undefined;
  ex_worker_returns {T} (x x' : X T) : ex_take x = Defined (None, x') -> x' = x /\ ex_tasks x = [];
  ex_stop_tasks {T} (x : X T) : ex_tasks (snd (ex_Stop x)) = ex_tasks x;
  ex_stop_refuses {T} (x : X T) o : fst (ex_TrySubmit o (snd (ex_Stop x))) = false;
  ex_stop_wakes {T} (x : X T) :
    ex_worker_wakes (snd (ex_Stop x)) = true /\ ex_capacity_wakes (snd (ex_Stop x)) = true;
}.

(** ** ThreadPoolExecutor *)

Record ThreadPoolExecutor (T : Type) : Type := {
  tp_running : bool;
  tp_queue : list T;
  tp_queueCapacity : Z;
  tp_workers : nat;                                      (* threads that have not returned *)
}.
Arguments tp_running {T} _.
Arguments tp_queue {T} _.
Arguments tp_queueCapacity {T} _.
Arguments tp_workers {T} _.
Arguments Build_ThreadPoolExecutor {T} _ _ _ _.

#[export] Instance ThreadPoolExecutor_eta T : Eta (ThreadPoolExecutor T) := fun r =>
  Build_ThreadPoolExecutor (tp_running r) (tp_queue r) (tp_queueCapacity r) (tp_workers r).

Section ThreadPool.
Context {T : Type}.
Implicit Types p : ThreadPoolExecutor T.

(** The members' default values, and the object after the constructor, which
    starts [max(1, threadCount)] workers. *)
Definition ThreadPoolExecutor_default : ThreadPoolExecutor T :=
  {| tp_running := false; tp_queue := []; tp_queueCapacity := 1; tp_workers := 0 |}.

Definition ThreadPoolExecutor_threads (threadCount : Z) : Z := Z.max 1 threadCount.

Definition ThreadPoolExecutor_new (threadCount : Z) : ThreadPoolExecutor T :=
  {| tp_running := true; tp_queue := []; tp_queueCapacity := ThreadPoolExecutor_threads threadCount;
     tp_workers := Z.to_nat (ThreadPoolExecutor_threads threadCount) |}.

Definition HasCapacity p : bool := tp_running p && (Zlen (tp_queue p) <? tp_queueCapacity p).

Definition TrySubmit (task : option T) p : bool * ThreadPoolExecutor T :=
  match task with
  | None => (false, p)
  | Some task =>
      if negb (tp_running p) || (tp_queueCapacity p <=? Zlen (tp_queue p)) then (false, p)
      else (true, p <| tp_queue := tp_queue p ++ [task] |>)
  end.

(** The predicate of [WaitForCapacity]. *)
Definition capacity_wakes p : bool := negb (tp_running p) || (Zlen (tp_queue p) <? tp_queueCapacity p).

(** The first critical section of [Stop]; the joins are the caller's waits. *)
Definition pool_Stop p : bool * ThreadPoolExecutor T :=
  if negb (tp_running p) then (false, p) else (true, p <| tp_running := false |>).

(** [WorkerLoop]: the predicate of the wait, and what follows it. *)
Definition worker_wakes p : bool := negb (tp_running p) || negb (bool_decide (tp_queue p = [])).

Definition worker_take p : defined (option T * ThreadPoolExecutor T) :=
  if negb (tp_running p) && bool_decide (tp_queue p = []) then Defined (None, p) else
  match tp_queue p with
  | [] => Undefined                                      (* front of an empty queue *)
  | task :: rest => Defined (Some task, p <| tp_queue := rest |>)
  end.

(** A worker thread returns. *)
Definition worker_exit p : ThreadPoolExecutor T := p <| tp_workers := Nat.pred (tp_workers p) |>.

End ThreadPool.

#[export] Instance thread_pool : TaskExecutor ThreadPoolExecutor := {|
  ex_tasks := @tp_queue; ex_TrySubmit := @TrySubmit; ex_HasCapacity := @HasCapacity;
  ex_capacity_wakes := @capacity_wakes; ex_Stop := @pool_Stop; ex_worker_wakes := @worker_wakes;
  ex_take := @worker_take |}.

#[export] Instance thread_pool_laws : TaskExecutorLaws ThreadPoolExecutor.
Proof.
  split; cbn; intros T.
  - intros x t. unfold HasCapacity, TrySubmit. intros [Hr Hc]%andb_true_iff. apply Z.ltb_lt in Hc. rewrite Hr.
    destruct (Z.leb_spec (tp_queueCapacity x) (Zlen (tp_queue x))); [lia|]. cbn. by eexists.
  - intros x x' [t|]; cbn; [|congruence]. destruct (_ || _); congruence.
  - intros x x' t. unfold HasCapacity, worker_take. intros [Hr Hc]%andb_true_iff. apply Z.ltb_lt in Hc. rewrite Hr. cbn.
    destruct (tp_queue x) as [|a q]; [done|]. intros [= <- <-]. cbn. rewrite Hr. rewrite Zlen_cons in Hc.
    apply Z.ltb_lt. lia.
  - intros x x' t. unfold worker_take. destruct (_ && _); [done|]. destruct (tp_queue x); [done|]. by intros [= <- <-].
  - intros x. unfold worker_wakes, worker_take. case_bool_decide as Hq.
    + rewrite orb_false_r. intros ->. done.
    + rewrite andb_false_r. by destruct (tp_queue x).
  - intros x x'. unfold worker_take. case_bool_decide as Hq; [|rewrite andb_false_r; by destruct (tp_queue x)].
    destruct (tp_running x); cbn; [by rewrite Hq|]. by intros [= <-].
  - intros x. unfold pool_Stop. by destruct (tp_running x).
  - intros x [t|]; [|done]. unfold pool_Stop. by destruct (tp_running x) eqn:E; cbn; rewrite ?E.
  - intros x. unfold pool_Stop, worker_wakes, capacity_wakes. by destruct (tp_running x) eqn:E; cbn; rewrite ?E.
Qed.
