(* ===== verification/ClientState.v ===== *)
(** * The client: state and effects

    The data of memrpc/src/client/rpc_client.cpp ([RpcClient::Impl] and the
    helper classes inside it) and the monad its operations are written in.
    What the client calls and the sources do not define are the parameters
    [Platform] and [ClientEnv]: the bootstrap channel behind
    [IBootstrapChannel], and the user's callbacks, which act on a state of
    their own. *)

From Stdlib Require Import Lia.
From S2P Require Import Prelude Machine Threads Types ShmLayout Ring FilePayload EventFd Os Platform Session.

(** ** Parameters *)

Class ClientEnv `{Platform} : Type := {
  User : Type;                                    (* the state behind the callbacks *)
  Channel : Type;                                 (* a bootstrap channel *)
  env_peer : nat -> World -> World;               (* what the server does during the n-th push *)
  (* IBootstrapChannel; the user can give a channel an access policy *)
  ch_OpenSession : User -> Channel -> World -> StatusCode * BootstrapHandles * Channel * World;
  ch_CloseSession : User -> Channel -> World -> StatusCode * Channel * World;
  ch_CheckHealth : User -> Z -> Channel -> ChannelHealthResult * Channel;
  ch_SetEngineDeathCallback : bool -> Channel -> Channel;  (* true: a callback, false: none *)
}.

(** ** Data *)

Inductive ApiLifecycleState : Type := ApiUninitialized | ApiOpen | ApiClosing | ApiClosed.

#[export] Instance ApiLifecycleState_eq_dec : EqDecision ApiLifecycleState.
Proof. solve_decision. Defined.

Inductive PendingRequestRecoveryAction : Type :=
| FailWithRecoveryPolicy
| ResolvePeerDisconnected
| KeepCurrentState.

Inductive CooldownWindowChange : Type := CooldownKeep | CooldownClear | CooldownSet.

(** The background threads: [submitThread_], [responseThread_] and
    [watchdogThread_]. *)
Inductive worker : Type := SubmitThread | ResponseThread | WatchdogThread.

#[export] Instance worker_eq_dec : EqDecision worker.
Proof. solve_decision. Defined.

(** A future is an index into the table of future states. *)
Abbreviation future_id := nat (only parsing).

Record PendingSubmit : Type := {
  sb_call : RpcCall;
  sb_requestId : Z;
  sb_future : future_id;
}.

Record PendingInfo : Type := {
  pi_opcode : Z;
  pi_priority : Priority;
  pi_execTimeoutMs : Z;
  pi_requestId : Z;
  pi_sessionId : Z;
}.

Record PendingRequest : Type := {
  pr_future : future_id;
  pr_info : PendingInfo;
  pr_waitDeadline : deadline;
}.

Section Client.
Context {PF : Platform} {CE : ClientEnv}.

(** [RecoveryPolicy]: callbacks that may be empty. *)
Record RecoveryPolicy : Type := {
  onFailure : option (RpcFailure -> User -> RecoveryDecision * User);
  onIdle : option (Z -> User -> RecoveryDecision * User);
  onEngineDeath : option (EngineDeathReport -> User -> RecoveryDecision * User);
}.

Definition RecoveryPolicy_default : RecoveryPolicy :=
  {| onFailure := None; onIdle := None; onEngineDeath := None |}.

Record Client : Type := {
  (* ClientRecoveryState *)
  cl_lifecycle : ClientLifecycleState;
  cl_cooldownUntilMs : Z;
  cl_generation : Z;
  cl_recoveryEventCallback : option (RecoveryEventReport -> User -> User);
  (* ClientSessionTransport *)
  cl_bootstrap : option Channel;
  cl_deathCallback : bool;
  cl_session : Session;
  cl_snapshot : Z;
  (* Impl *)
  cl_policy : RecoveryPolicy;
  cl_eventCallback : option (RpcEvent -> User -> User);
  cl_submitQueue : list PendingSubmit;
  cl_submitStop : bool;
  cl_watchdogStop : bool;
  cl_store : gmap Z PendingRequest;
  cl_control : ApiLifecycleState;
  cl_workersRunning : bool;
  cl_joinable : list worker;                      (* the thread objects that hold a thread *)
  cl_running : list worker;                       (* the threads that have not returned *)
  cl_waitingForCredit : bool;
  cl_creditWaitFd : Z;                            (* SubmitWorker *)
  cl_creditSessionId : Z;
  cl_nextRequestId : Z;
  cl_lastActivityMs : Z;
  (* the RpcFuture states: [None] until ready *)
  cl_futures : list (option RpcReply);
  (* the environment's states and how often it was read *)
  cl_user : User;
  cl_world : World;
  cl_fs : Fs;
  cl_kernel : Kernel;
  cl_reads : nat;
  cl_paths : nat;
}.

#[export] Instance Client_eta : Eta Client := fun r =>
  Build_Client (cl_lifecycle r) (cl_cooldownUntilMs r) (cl_generation r) (cl_recoveryEventCallback r)
    (cl_bootstrap r) (cl_deathCallback r) (cl_session r) (cl_snapshot r) (cl_policy r)
    (cl_eventCallback r) (cl_submitQueue r) (cl_submitStop r) (cl_watchdogStop r) (cl_store r)
    (cl_control r) (cl_workersRunning r) (cl_joinable r) (cl_running r) (cl_waitingForCredit r) (cl_creditWaitFd r)
    (cl_creditSessionId r) (cl_nextRequestId r)
    (cl_lastActivityMs r) (cl_futures r) (cl_user r) (cl_world r) (cl_fs r) (cl_kernel r)
    (cl_reads r) (cl_paths r).

End Client.

Arguments Client {_ _}.
Abbreviation client := (machine Client).
Abbreviation client_thread := (thread Client worker).

#[export] Instance client_clock `{ClientEnv} : Clock Client := fun c => env_clock (cl_reads c).

Section Operations.
Context {PF : Platform} {CE : ClientEnv}.
#[local] Open Scope machine_scope.

(** ** Clock *)

(** [std::chrono::steady_clock::now()], in ns. *)
Definition steady_now : client Z :=
  n ← gets cl_reads; modify (fun c => c <| cl_reads := S n |>);; mret (env_clock n).

Definition MonotonicNowMs : client Z := now ← steady_now; mret (u64 (now / NS_PER_MS)).

(** ** Futures *)

(** [std::make_shared<RpcFuture::State>()]. *)
Definition new_future : client future_id :=
  fs ← gets cl_futures; modify (fun c => c <| cl_futures := fs ++ [None] |>);; mret (length fs).

(** [ResolveState]: the first reply stays. *)
Definition ResolveState (future : future_id) (reply : RpcReply) : client unit :=
  fs ← gets cl_futures;
  match fs !! future with
  | Some None => modify (fun c => c <| cl_futures := <[future := Some reply]> fs |>)
  | _ => mret tt
  end.

(** [RpcFuture::IsReady]. *)
Definition IsReady (future : option future_id) : client bool :=
  fs ← gets cl_futures;
  match future with
  | None => mret false
  | Some f => mret (match fs !! f with Some (Some _) => true | _ => false end)
  end.

(** [RpcFuture::Wait] once the future is ready: the status returned and the
    reply stored through the pointer; [None] while it blocks. *)
Definition Wait (future : option future_id) (reply : outptr) (c : Client)
    : option (StatusCode * option RpcReply) :=
  match future with
  | None =>
      Some (PeerDisconnected, match reply with Null => None | Ptr => Some (reply_of_status PeerDisconnected) end)
  | Some f =>
      match cl_futures c !! f with
      | Some (Some r) => Some (rp_status r, match reply with Null => None | Ptr => Some r end)
      | _ => None
      end
  end.

End Operations.

Create HintDb client.
#[export] Hint Resolve preserves_ret preserves_bind preserves_gets preserves_diverge preserves_lift
  preserves_when preserves_for_each preserves_if : client.
