(* ===== verification/ClientRecovery.v ===== *)
(** * The client's recovery state

    [ClientRecoveryState] of memrpc/src/client/rpc_client.cpp: the lifecycle
    state, the cooldown window, the reports to the recovery event callback, and
    the waits of the threads on them. *)

From Stdlib Require Import Lia.
From S2P Require Import Prelude Machine Threads Types ShmLayout Ring FilePayload EventFd Os Platform Session ClientState .
#[local] Open Scope machine_scope.

Definition kRecoveryRetryPollPeriod : Z := 20.

Definition IsHighPriority (call : RpcCall) : bool := bool_decide (call_priority call = High).

Definition ShouldRetryRecoveryStatus (status : StatusCode) (snapshot : RecoveryRuntimeSnapshot) : bool :=
  if bool_decide (sn_lifecycleState snapshot = Closed) then false else
  let recoveryInProgress := bool_decide (sn_lifecycleState snapshot = Cooldown) ||
                            bool_decide (sn_lifecycleState snapshot = Recovering) in
  let retryableStatus := status_is status CooldownActive || status_is status PeerDisconnected in
  recoveryInProgress && retryableStatus.

Inductive RecoveryWaitMode : Type := WaitCooldown | WaitRetryTick.

Inductive RecoveryWaitStep : Type := ContinueWaiting | Complete (status : StatusCode).

Section Recovery.
Context {PF : Platform} {CE : ClientEnv}.

Definition SetRecoveryEventCallback (callback : option (RecoveryEventReport -> User -> User)) : client unit :=
  modify (fun c => c <| cl_recoveryEventCallback := callback |>).

Definition ClearRecoveryEventCallback : client unit := SetRecoveryEventCallback None.

Definition LifecycleState : client ClientLifecycleState := gets cl_lifecycle.

Definition PrepareForInitOpen (initialState : ClientLifecycleState) : client unit :=
  modify (fun c => c <| cl_cooldownUntilMs := 0 |> <| cl_lifecycle := initialState |>).

Definition NotifyRecoveryStateChanged : client unit :=
  modify (fun c => c <| cl_generation := u64 (cl_generation c + 1) |>).

Definition HasPendingRecoveryLocked : client bool :=
  lifecycle ← gets cl_lifecycle;
  mret (bool_decide (lifecycle = Recovering) || bool_decide (lifecycle = Cooldown)).

Definition CooldownRemainingLocked : client Z :=
  cooldownUntilMs ← gets cl_cooldownUntilMs;
  nowMs ← MonotonicNowMs;
  mret (if cooldownUntilMs <=? nowMs then 0 else cooldownUntilMs - nowMs).

Definition CooldownActive_ : client bool :=
  nowMs ← MonotonicNowMs; cooldownUntilMs ← gets cl_cooldownUntilMs; mret (nowMs <? cooldownUntilMs).

Definition ApplyTransitionLocked (nextState : ClientLifecycleState) (change : CooldownWindowChange)
    (cooldownUntilMs : Z) : client ClientLifecycleState :=
  previousState ← gets cl_lifecycle;
  match change with
  | CooldownKeep => mret tt
  | CooldownClear => modify (fun c => c <| cl_cooldownUntilMs := 0 |>)
  | CooldownSet => modify (fun c => c <| cl_cooldownUntilMs := cooldownUntilMs |>)
  end;;
  modify (fun c => c <| cl_lifecycle := nextState |>);;
  mret previousState.

Definition BuildTransitionReportLocked (previousState nextState : ClientLifecycleState)
    (cooldownDelayMs currentSessionId : Z) : client RecoveryEventReport :=
  pending ← HasPendingRecoveryLocked;
  remaining ← CooldownRemainingLocked;
  now ← MonotonicNowMs;
  mret {| er_previousState := previousState; er_state := nextState; er_recoveryPending := pending;
          er_cooldownDelayMs := cooldownDelayMs; er_cooldownRemainingMs := u32 remaining;
          er_sessionId := currentSessionId; er_monotonicMs := now |}.

Definition DispatchRecoveryEvent (callback : option (RecoveryEventReport -> User -> User))
    (report : RecoveryEventReport) : client unit :=
  match callback with
  | None => mret tt
  | Some f => modify (fun c => c <| cl_user := f report (cl_user c) |>)
  end.

Definition TransitionLifecycle (state : ClientLifecycleState) (cooldownDelayMs currentSessionId : Z)
    (change : CooldownWindowChange) (cooldownUntilMs : Z) : client unit :=
  previousState ← ApplyTransitionLocked state change cooldownUntilMs;
  callback ← gets cl_recoveryEventCallback;
  report ← BuildTransitionReportLocked previousState state cooldownDelayMs currentSessionId;
  DispatchRecoveryEvent callback report.

Definition BeginSessionOpen (lifecycle : ClientLifecycleState) (currentSessionId : Z) : client unit :=
  if negb (bool_decide (lifecycle = Recovering)) && negb (bool_decide (lifecycle = Uninitialized))
  then TransitionLifecycle Recovering 0 currentSessionId CooldownKeep 0 else mret tt.

Definition FinalizeSessionOpen (currentSessionId : Z) : client unit :=
  TransitionLifecycle Active 0 currentSessionId CooldownClear 0;; NotifyRecoveryStateChanged.

Definition StartRecovery (delayMs currentSessionId : Z) : client unit :=
  nowMs ← MonotonicNowMs;
  let cooldownUntilMs := u64 (nowMs + delayMs) in
  TransitionLifecycle (if delayMs =? 0 then Recovering else Cooldown) delayMs currentSessionId
    CooldownSet cooldownUntilMs;;
  NotifyRecoveryStateChanged.

Definition EnterNoSession (currentSessionId : Z) : client unit :=
  TransitionLifecycle NoSession 0 currentSessionId CooldownClear 0;; NotifyRecoveryStateChanged.

Definition EnterIdleClosed (currentSessionId : Z) : client unit :=
  TransitionLifecycle IdleClosed 0 currentSessionId CooldownClear 0;; NotifyRecoveryStateChanged.

Definition EnterTerminalClosed (currentSessionId : Z) : client unit :=
  TransitionLifecycle Closed 0 currentSessionId CooldownClear 0;; NotifyRecoveryStateChanged.

Definition HandleSessionOpenFailure (currentSessionId : Z) : client unit :=
  lifecycle ← LifecycleState;
  if bool_decide (lifecycle = Recovering) || bool_decide (lifecycle = Cooldown)
  then EnterNoSession currentSessionId else mret tt.

Definition GetSnapshot (currentSessionId : Z) : client RecoveryRuntimeSnapshot :=
  lifecycle ← gets cl_lifecycle;
  pending ← HasPendingRecoveryLocked;
  remaining ← CooldownRemainingLocked;
  mret {| sn_lifecycleState := lifecycle; sn_recoveryPending := pending;
          sn_cooldownRemainingMs := u32 remaining; sn_currentSessionId := currentSessionId |}.

(** ** Waits *)

Definition WorkerStoppedStatus : client StatusCode :=
  control ← gets cl_control;
  mret (if bool_decide (control = ApiOpen) then PeerDisconnected else ClientClosed).

Definition recovery_state_wait_result (lifecycle : ClientLifecycleState) : StatusCode :=
  match lifecycle with
  | Active | Cooldown | Recovering => Ok
  | Closed => ClientClosed
  | NoSession | IdleClosed | Uninitialized => PeerDisconnected
  end.

Definition RecoveryStateWaitResultLocked : client StatusCode :=
  lifecycle ← gets cl_lifecycle; mret (recovery_state_wait_result lifecycle).

#[local] Open Scope thread_scope.

Definition WaitForCooldownStepLocked (d : deadline) : client_thread RecoveryWaitStep :=
  lifecycle ← gets cl_lifecycle;
  if negb (bool_decide (lifecycle = Cooldown)) then
    status ← RecoveryStateWaitResultLocked; mret (Complete status)
  else
  nowMs ← MonotonicNowMs;
  cooldownUntilMs ← gets cl_cooldownUntilMs;
  if cooldownUntilMs <=? nowMs then mret (Complete Ok) else
  now ← steady_now;
  if deadline_passed d now then mret (Complete CooldownActive) else
  let wakeAt := now + (cooldownUntilMs - nowMs) * NS_PER_MS in
  let wakeAt := match d with None => wakeAt | Some t => Z.min wakeAt t end in
  stateChanged ← cv_wait_until (Some wakeAt) (fun c => negb (bool_decide (cl_lifecycle c = Cooldown)));
  if stateChanged : bool then status ← RecoveryStateWaitResultLocked; mret (Complete status)
  else mret ContinueWaiting.

Definition WaitForRetryStepLocked (d : deadline) : client_thread RecoveryWaitStep :=
  lifecycle ← gets cl_lifecycle;
  if negb (bool_decide (lifecycle = Recovering)) then
    status ← RecoveryStateWaitResultLocked; mret (Complete status)
  else
  now ← steady_now;
  if deadline_passed d now then mret (Complete PeerDisconnected) else
  let waitFor := match d with
                 | None => kRecoveryRetryPollPeriod
                 | Some t => Z.min kRecoveryRetryPollPeriod ((t - now) / NS_PER_MS)
                 end in
  if waitFor <=? 0 then mret (Complete PeerDisconnected) else
  start ← steady_now;                         (* wait_for is wait_until (now + waitFor) *)
  cv_wait_until (Some (start + waitFor * NS_PER_MS))
    (fun c => negb (bool_decide (cl_lifecycle c = Recovering)));;
  lifecycle ← gets cl_lifecycle;
  status ← (if bool_decide (lifecycle = Recovering) then mret Ok else RecoveryStateWaitResultLocked);
  mret (Complete status).

Fixpoint WaitForRecoveryState (fuel : nat) (d : deadline) (mode : RecoveryWaitMode) : client_thread StatusCode :=
  match fuel with
  | O => tdiverge
  | S fuel =>
      running ← gets cl_workersRunning;
      if negb running then WorkerStoppedStatus else
      control ← gets cl_control;
      if negb (bool_decide (control = ApiOpen)) then mret ClientClosed else
      step ← (match mode with
              | WaitCooldown => WaitForCooldownStepLocked d
              | WaitRetryTick => WaitForRetryStepLocked d
              end);
      match step with
      | ContinueWaiting => WaitForRecoveryState fuel d mode
      | Complete status => mret status
      end
  end.

Definition WaitForCooldownToSettle (fuel : nat) (d : deadline) : client_thread StatusCode :=
  WaitForRecoveryState fuel d WaitCooldown.

Definition WaitOneRecoveryRetryTick (fuel : nat) (d : deadline) : client_thread StatusCode :=
  WaitForRecoveryState fuel d WaitRetryTick.

Definition WaitForNotification (observedGeneration : Z) : client_thread unit :=
  cv_wait (fun c => negb (cl_generation c =? observedGeneration) || negb (cl_workersRunning c)).

End Recovery.
