(* ===== verification/ClientCore.v ===== *)
(** * The client: session transport, request store and orchestration

    [ClientSessionTransport], [ClientRequestStore] and the recovery decisions
    of [RpcClient::Impl] (memrpc/src/client/rpc_client.cpp).  A function and
    its [Locked] variant differ in who takes the lifecycle mutex. *)

From Stdlib Require Import Lia.
From S2P Require Import Prelude Machine Threads Types ShmLayout Ring FilePayload EventFd Os Platform Session ClientState .
From S2P Require Import ClientRecovery.
#[local] Open Scope machine_scope.

Section Core.
Context {PF : Platform} {CE : ClientEnv}.

(** ** Request store *)

Definition Put (requestId : Z) (pending : PendingRequest) : client unit :=
  modify (fun c => c <| cl_store := <[requestId := pending]> (cl_store c) |>).

Definition Take (requestId : Z) : client (option PendingRequest) :=
  store ← gets cl_store;
  match store !! requestId with
  | None => mret None
  | Some pending => modify (fun c => c <| cl_store := delete requestId store |>);; mret (Some pending)
  end.

(** The values of the map, in some order. *)
Definition store_values (store : gmap Z PendingRequest) : list PendingRequest := (map_to_list store).*2.

Definition TakeAll : client (list PendingRequest) :=
  store ← gets cl_store;
  modify (fun c => c <| cl_store := ∅ |>);;
  mret (store_values store).

Definition is_expired (now : Z) (kv : Z * PendingRequest) : Prop :=
  Is_true (deadline_passed (pr_waitDeadline (snd kv)) now).

#[export] Instance is_expired_dec now kv : Decision (is_expired now kv) := _.

Definition TakeExpired (now : Z) : client (list PendingRequest) :=
  store ← gets cl_store;
  modify (fun c => c <| cl_store := filter (fun kv => ~ is_expired now kv) store |>);;
  mret (store_values (filter (is_expired now) store)).

(** ** Session transport *)

(** A call on the world, or on the channel and the world. *)
Definition on_world {A} (f : World -> A * World) : client A := fun c =>
  let '(a, w) := f (cl_world c) in Returns (a, c <| cl_world := w |>).

Definition on_kernel {A} (f : Kernel -> run (A * Kernel)) : client A := fun c =>
  let! (a, k) := f (cl_kernel c) in Returns (a, c <| cl_kernel := k |>).

Definition on_fs {A} (f : Fs -> run (A * Fs)) : client A := fun c =>
  let! (a, fs) := f (cl_fs c) in Returns (a, c <| cl_fs := fs |>).

Definition InstallDeathCallbackLocked (deathCallback : bool) : client unit :=
  modify (fun c =>
    match cl_bootstrap c with
    | None => c <| cl_deathCallback := false |>
    | Some ch => c <| cl_deathCallback := deathCallback |>
                   <| cl_bootstrap := Some (ch_SetEngineDeathCallback deathCallback ch) |>
    end).

Definition InstallDeathCallback (deathCallback : bool) : client unit := InstallDeathCallbackLocked deathCallback.

(** [same] says that the new pointer is the old one. *)
Definition SetBootstrapChannel (bootstrap : option Channel) (same : bool) (deathCallback : bool) : client unit :=
  (if same then mret tt
   else modify (fun c => match cl_bootstrap c with
                         | None => c
                         | Some _ => c <| cl_deathCallback := false |>
                         end);;
        modify (fun c => c <| cl_bootstrap := bootstrap |>));;
  InstallDeathCallbackLocked deathCallback.

Definition ClearDeathCallback : client unit :=
  modify (fun c => c <| cl_deathCallback := false |>
                     <| cl_bootstrap := ch_SetEngineDeathCallback false <$> cl_bootstrap c |>).

Definition CurrentSessionId : client Z := gets cl_snapshot.

Definition HasLiveSession : client bool := id ← CurrentSessionId; mret (negb (id =? 0)).

Definition PublishSessionIdLocked (sessionId : Z) : client unit :=
  modify (fun c => c <| cl_snapshot := sessionId |>).

(** The calls on the bootstrap channel; the caller has checked the pointer. *)
Definition bootstrap_OpenSession (ch : Channel) : client (StatusCode * BootstrapHandles) := fun c =>
  let '(status, handles, ch, w) := ch_OpenSession (cl_user c) ch (cl_world c) in
  Returns ((status, handles), c <| cl_bootstrap := Some ch |> <| cl_world := w |>).

Definition bootstrap_CloseSession (ch : Channel) : client StatusCode := fun c =>
  let '(status, ch, w) := ch_CloseSession (cl_user c) ch (cl_world c) in
  Returns (status, c <| cl_bootstrap := Some ch |> <| cl_world := w |>).

Definition bootstrap_CheckHealth (expectedSessionId : Z) (ch : Channel) : client ChannelHealthResult := fun c =>
  let '(result, ch) := ch_CheckHealth (cl_user c) expectedSessionId ch in
  Returns (result, c <| cl_bootstrap := Some ch |>).

Definition session_Attach (handles : BootstrapHandles) : client StatusCode := fun c =>
  let '(status, _, s, w) := Attach env_pid (Some handles) RoleClient (cl_session c) (cl_world c) in
  Returns (status, c <| cl_session := s |> <| cl_world := w |>).

Definition session_Reset : client unit := fun c =>
  let '(s, w) := Reset (cl_session c) (cl_world c) in
  Returns (tt, c <| cl_session := s |> <| cl_world := w |>).

Definition OpenSession : client StatusCode :=
  bootstrap ← gets cl_bootstrap;
  match bootstrap with
  | None => mret InvalidArgument
  | Some ch =>
      '(openStatus, handles) ← bootstrap_OpenSession ch;
      if negb (status_is openStatus Ok) then mret openStatus else
      let sessionId := bh_sessionId handles in
      attachStatus ← session_Attach handles;
      if negb (status_is attachStatus Ok) then mret attachStatus else
      modify (fun c => c <| cl_world := SetState (cl_session c) SessionState_Alive (cl_world c) |>);;
      PublishSessionIdLocked sessionId;;
      mret Ok
  end.

Definition close_bootstrap : client unit :=
  bootstrap ← gets cl_bootstrap;
  match bootstrap with
  | None => mret tt
  | Some ch => bootstrap_CloseSession ch;; mret tt
  end.

Definition CloseLiveSession : client Z :=
  closedSessionId ← CurrentSessionId;
  PublishSessionIdLocked 0;;
  session_Reset;;
  close_bootstrap;;
  mret closedSessionId.

Definition CloseLiveSessionIfSnapshotMatches (expectedSessionId : Z) : client unit :=
  currentSessionId ← CurrentSessionId;
  if negb (currentSessionId =? expectedSessionId) then mret tt else
  valid ← gets (fun c => Valid (cl_session c));
  if (currentSessionId =? 0) || negb valid then mret tt else
  PublishSessionIdLocked 0;;
  session_Reset;;
  close_bootstrap.

(** ** Control state *)

Definition IsApiOpen : client bool := control ← gets cl_control; mret (bool_decide (control = ApiOpen)).

Definition CanEnsureLiveSession : client bool :=
  state ← gets cl_control;
  mret (bool_decide (state = ApiUninitialized) || bool_decide (state = ApiOpen)).

Definition IsApiTerminal : client bool := state ← gets cl_control; mret (bool_decide (state = ApiClosed)).

(** The compare-and-exchange of [FinishInit]. *)
Definition FinishInit : client bool :=
  state ← gets cl_control;
  if bool_decide (state = ApiUninitialized)
  then modify (fun c => c <| cl_control := ApiOpen |>);; mret true
  else mret (bool_decide (state = ApiOpen)).

Definition CanStartShutdown : client bool :=
  state ← gets cl_control;
  mret (negb (bool_decide (state = ApiClosing)) && negb (bool_decide (state = ApiClosed))).

(** [BeginShutdown]; a failed exchange means another thread changed the state
    and the loop looks again. *)
Definition BeginShutdown : client bool :=
  can ← CanStartShutdown;
  if negb can then mret false else modify (fun c => c <| cl_control := ApiClosing |>);; mret true.

Definition FinishShutdown : client unit := modify (fun c => c <| cl_control := ApiClosed |>).

Definition StartRuntime : client bool :=
  running ← gets cl_workersRunning;
  if running : bool then mret false else
  modify (fun c => c <| cl_workersRunning := true |> <| cl_submitStop := false |>
                     <| cl_watchdogStop := false |>);;
  mret true.

Definition StopRuntime : client bool :=
  running ← gets cl_workersRunning;
  if negb running then mret false else modify (fun c => c <| cl_workersRunning := false |>);; mret true.

Definition RuntimeStopStatus : client StatusCode :=
  isOpen ← IsApiOpen; mret (if isOpen : bool then PeerDisconnected else ClientClosed).

Definition AdmissionStatusForInvoke : client StatusCode :=
  isOpen ← IsApiOpen; mret (if isOpen : bool then Ok else ClientClosed).

Definition TouchActivity : client unit :=
  now ← MonotonicNowMs; modify (fun c => c <| cl_lastActivityMs := now |>).

(** [nextRequestId_.fetch_add(1)]. *)
Definition fetch_request_id : client Z :=
  n ← gets cl_nextRequestId; modify (fun c => c <| cl_nextRequestId := u64 (n + 1) |>);; mret n.

(** ** Opening and closing *)

Definition OpenSessionLocked : client StatusCode :=
  status ← OpenSession;
  if negb (status_is status Ok) then mret status else
  TouchActivity;;
  id ← CurrentSessionId;
  FinalizeSessionOpen id;;
  mret Ok.

Definition EnsureLiveSessionLocked : client StatusCode :=
  can ← CanEnsureLiveSession;
  if negb can then mret ClientClosed else
  cooldown ← CooldownActive_;
  if cooldown : bool then CooldownRemainingLocked;; mret CooldownActive else
  live ← HasLiveSession;
  if live : bool then mret Ok else
  lifecycle ← LifecycleState;
  id ← CurrentSessionId;
  BeginSessionOpen lifecycle id;;
  status ← OpenSessionLocked;
  (if negb (status_is status Ok) then id ← CurrentSessionId; HandleSessionOpenFailure id else mret tt);;
  mret status.

Definition EnsureLiveSession : client StatusCode := EnsureLiveSessionLocked.

Definition CloseLiveSessionLocked : client unit := CloseLiveSession;; NotifyRecoveryStateChanged.

Definition CloseLiveSessionForTransportFailure : client unit := CloseLiveSessionLocked.

Definition CloseSessionAndEnterIdleClosedLocked (observedSessionId : Z) : client unit :=
  isOpen ← IsApiOpen;
  if negb isOpen then mret tt else
  CloseLiveSessionIfSnapshotMatches observedSessionId;;
  id ← CurrentSessionId;
  EnterIdleClosed id.

Definition EnterNoSessionWithoutLiveSessionLocked : client unit :=
  isOpen ← IsApiOpen;
  if negb isOpen then mret tt else id ← CurrentSessionId; EnterNoSession id.

Definition CloseSessionAndEnterTerminalClosedLocked : client unit :=
  CloseLiveSessionLocked;; id ← CurrentSessionId; EnterTerminalClosed id.

Definition MaybeReconnectImmediatelyLocked (delayMs : Z) : client unit :=
  if delayMs =? 0 then EnsureLiveSessionLocked;; mret tt else mret tt.

(** ** Recovery decisions *)

Definition MakePendingInfo (submit : PendingSubmit) : client PendingInfo :=
  id ← CurrentSessionId;
  mret {| pi_opcode := call_opcode (sb_call submit); pi_priority := call_priority (sb_call submit);
          pi_execTimeoutMs := call_execTimeoutMs (sb_call submit); pi_requestId := sb_requestId submit;
          pi_sessionId := id |}.

Definition BuildFailureReport (info : PendingInfo) (status : StatusCode) : RpcFailure :=
  {| fl_status := status; fl_opcode := pi_opcode info; fl_priority := pi_priority info;
     fl_execTimeoutMs := pi_execTimeoutMs info; fl_requestId := pi_requestId info;
     fl_sessionId := pi_sessionId info |}.

Definition IsStaleObservedSession (observedSessionId currentSessionId : Z) : bool :=
  negb (currentSessionId =? observedSessionId).

(** A policy callback on the user's state. *)
Definition call_policy {A} (f : A -> User -> RecoveryDecision * User) (a : A) : client RecoveryDecision := fun c =>
  let '(decision, u) := f a (cl_user c) in Returns (decision, c <| cl_user := u |>).

Definition ResolveAllPending (status : StatusCode) : client unit :=
  toFail ← TakeAll;
  for_each toFail (fun pending => ResolveState (pr_future pending) (reply_of_status status)).

(** The recovery decisions call each other: a decision may schedule a
    recovery, which fails the pending requests, each of which asks the policy
    for a decision.  The functions below take [ScheduleRecoveryLocked] as an
    argument. *)
Section Decisions.
Variable schedule : Z -> Z -> PendingRequestRecoveryAction -> client unit.

Definition ApplyRecoveryDecisionLocked (decision : RecoveryDecision) (observedSessionId : Z)
    (pendingAction : PendingRequestRecoveryAction) : client unit :=
  isOpen ← IsApiOpen;
  if negb isOpen then mret tt else
  match rd_action decision with
  | Ignore => mret tt
  | IdleClose => CloseSessionAndEnterIdleClosedLocked observedSessionId
  | ManualShutdown => mret tt
  | Restart => schedule observedSessionId (rd_delayMs decision) pendingAction
  end.

Definition ApplyFailureRecoveryDecisionLocked (info : PendingInfo) (status : StatusCode) : client unit :=
  isOpen ← IsApiOpen;
  if negb isOpen then mret tt else
  currentSessionId ← CurrentSessionId;
  let observedSessionId := pi_sessionId info in
  if IsStaleObservedSession observedSessionId currentSessionId then mret tt else
  policy ← gets cl_policy;
  match onFailure policy with
  | None => mret tt
  | Some f =>
      decision ← call_policy f (BuildFailureReport info status);
      ApplyRecoveryDecisionLocked decision observedSessionId FailWithRecoveryPolicy
  end.

Definition FailAndResolveLocked (info : PendingInfo) (status : StatusCode) (future : future_id) : client unit :=
  ApplyFailureRecoveryDecisionLocked info status;;
  ResolveState future (reply_of_status status).

Definition FailAllPendingWithRecoveryPolicyLocked (status : StatusCode) : client unit :=
  toFail ← TakeAll;
  for_each toFail (fun pending => FailAndResolveLocked (pr_info pending) status (pr_future pending)).

Definition HandlePendingRequestsForRecoveryLocked (action : PendingRequestRecoveryAction) : client unit :=
  match action with
  | FailWithRecoveryPolicy => FailAllPendingWithRecoveryPolicyLocked PeerDisconnected
  | ResolvePeerDisconnected => ResolveAllPending PeerDisconnected
  | KeepCurrentState => mret tt
  end.

End Decisions.

(** [depth] bounds how deep decisions nest. *)
Fixpoint ScheduleRecoveryLocked (depth : nat) (observedSessionId delayMs : Z)
    (pendingAction : PendingRequestRecoveryAction) : client unit :=
  match depth with
  | O => diverge
  | S depth =>
      isOpen ← IsApiOpen;
      if negb isOpen then mret tt else
      StartRecovery delayMs observedSessionId;;
      CloseLiveSessionIfSnapshotMatches observedSessionId;;
      HandlePendingRequestsForRecoveryLocked (ScheduleRecoveryLocked depth) pendingAction;;
      MaybeReconnectImmediatelyLocked delayMs
  end.

(** A recovery scheduled while pending requests are failed finds none left, so
    two levels are enough ([schedule_returns] below). *)
Definition schedule : Z -> Z -> PendingRequestRecoveryAction -> client unit := ScheduleRecoveryLocked 2.

Definition ApplyFailureRecoveryDecision (info : PendingInfo) (status : StatusCode) : client unit :=
  ApplyFailureRecoveryDecisionLocked schedule info status.

Definition HandleIdleRecovery (observedSessionId idleMs : Z) : client unit :=
  isOpen ← IsApiOpen;
  if negb isOpen then mret tt else
  currentSessionId ← CurrentSessionId;
  if IsStaleObservedSession observedSessionId currentSessionId then mret tt else
  policy ← gets cl_policy;
  match onIdle policy with
  | None => mret tt
  | Some f =>
      decision ← call_policy f idleMs;
      ApplyRecoveryDecisionLocked schedule decision observedSessionId FailWithRecoveryPolicy
  end.

Definition HandleExternalRecoveryLocked (observedSessionId : Z) (request : ExternalRecoveryRequest) : client unit :=
  if negb (xr_sessionId request =? 0) && negb (xr_sessionId request =? observedSessionId) then mret tt else
  schedule observedSessionId (xr_delayMs request) ResolvePeerDisconnected.

Definition HandleExternalRecovery (observedSessionId : Z) (request : ExternalRecoveryRequest) : client unit :=
  isOpen ← IsApiOpen;
  if negb isOpen then mret tt else
  currentSessionId ← CurrentSessionId;
  if IsStaleObservedSession observedSessionId currentSessionId then mret tt else
  HandleExternalRecoveryLocked observedSessionId request.

Definition HandleEngineDeathLocked (observedSessionId deadSessionId : Z) : client unit :=
  if observedSessionId =? 0 then mret tt else
  let resolvedDeadSessionId := if negb (deadSessionId =? 0) then deadSessionId else observedSessionId in
  if negb (resolvedDeadSessionId =? 0) && negb (observedSessionId =? 0) &&
     negb (resolvedDeadSessionId =? observedSessionId) then mret tt else
  let report := {| dr_deadSessionId := resolvedDeadSessionId |} in
  CloseLiveSessionIfSnapshotMatches observedSessionId;;
  ResolveAllPending CrashedDuringExecution;;
  policy ← gets cl_policy;
  match onEngineDeath policy with
  | None => EnterNoSessionWithoutLiveSessionLocked
  | Some f =>
      decision ← call_policy f report;
      if bool_decide (rd_action decision = Ignore) then EnterNoSessionWithoutLiveSessionLocked else
      ApplyRecoveryDecisionLocked schedule decision observedSessionId KeepCurrentState
  end.

Definition HandleEngineDeath (observedSessionId deadSessionId : Z) : client unit :=
  isOpen ← IsApiOpen;
  if negb isOpen then mret tt else
  currentSessionId ← CurrentSessionId;
  if IsStaleObservedSession observedSessionId currentSessionId then mret tt else
  HandleEngineDeathLocked observedSessionId deadSessionId.

Definition GetRecoveryRuntimeSnapshot : client RecoveryRuntimeSnapshot :=
  id ← CurrentSessionId; GetSnapshot id.

(** ** Submission of calls *)

Definition RejectInvoke (call : RpcCall) (status : StatusCode) : client future_id :=
  state ← new_future;
  requestId ← fetch_request_id;
  sessionId ← CurrentSessionId;
  let info := {| pi_opcode := call_opcode call; pi_priority := call_priority call;
                 pi_execTimeoutMs := call_execTimeoutMs call; pi_requestId := requestId;
                 pi_sessionId := sessionId |} in
  (if negb (status_is status ClientClosed) then ApplyFailureRecoveryDecision info status else mret tt);;
  ResolveState state (reply_of_status status);;
  mret state.

Definition EnqueueSubmitLocked (call : RpcCall) (futureState : future_id) : client unit :=
  requestId ← fetch_request_id;
  let submit := {| sb_call := call; sb_requestId := requestId; sb_future := futureState |} in
  modify (fun c => c <| cl_submitQueue := cl_submitQueue c ++ [submit] |>).

Definition InvokeAsync (call : RpcCall) : client future_id :=
  futureState ← new_future;
  status ← AdmissionStatusForInvoke;
  if negb (status_is status Ok) then RejectInvoke call status else
  EnqueueSubmitLocked call futureState;;
  mret futureState.

(** [queued.swap(submitQueue_)]. *)
Definition swap_submit_queue : client (list PendingSubmit) :=
  queued ← gets cl_submitQueue; modify (fun c => c <| cl_submitQueue := [] |>);; mret queued.

(** ** Operations of several critical sections *)

#[local] Open Scope thread_scope.

Definition FailAndResolve (info : PendingInfo) (status : StatusCode) (future : future_id) : client_thread unit :=
  ApplyFailureRecoveryDecision info status;;
  yield;;
  ResolveState future (reply_of_status status).

Definition FailAllPendingWithRecoveryPolicy (status : StatusCode) : client_thread unit :=
  toFail ← TakeAll;
  yield;;
  tfor_each toFail (fun pending => FailAndResolve (pr_info pending) status (pr_future pending);; yield).

Definition FailQueuedSubmissions (status : StatusCode) : client_thread unit :=
  queued ← swap_submit_queue;
  yield;;
  tfor_each queued (fun submit => ResolveState (sb_future submit) (reply_of_status status);; yield).

Definition FailOutstandingWork (status : StatusCode) : client_thread unit :=
  FailAllPendingWithRecoveryPolicy status;; FailQueuedSubmissions status.

Definition ClearCallbacks : client_thread unit :=
  modify (fun c => c <| cl_policy := RecoveryPolicy_default |>);;
  yield;;
  ClearRecoveryEventCallback;;
  yield;;
  ClearDeathCallback.

(** The callback given to the bootstrap channel, while its lease is held. *)
Definition bootstrap_death_callback (sessionId : Z) : client_thread unit :=
  lease ← gets cl_deathCallback;
  if negb lease then mret tt else
  yield;;
  currentSessionId ← CurrentSessionId;
  yield;;
  HandleEngineDeath currentSessionId sessionId.

Definition RequestExternalRecovery (request : ExternalRecoveryRequest) : client_thread unit :=
  isOpen ← IsApiOpen;
  if negb isOpen then mret tt else
  yield;;
  currentSessionId ← CurrentSessionId;
  yield;;
  HandleExternalRecovery currentSessionId request.

End Core.
