(* ===== verification/ClientWorkers.v ===== *)
(** * The client: worker threads and public operations

    [SubmitWorker], [ResponseWorker], the watchdog, and the entry points of
    [RpcClient] (memrpc/src/client/rpc_client.cpp).

    An operation that takes several locks one after the other, or that blocks,
    is a [thread]: [yield] marks where other threads may come in between.  What
    one lock protects is one step. *)

From Stdlib Require Import Lia.
From S2P Require Import Prelude Machine Threads Types ByteCodec ShmLayout Ring FilePayload EventFd Os Platform Session.
From S2P Require Import ClientState ClientRecovery ClientCore.
#[local] Open Scope machine_scope.

Definition kPendingTimeoutPollPeriod : Z := 100.
Definition kHealthCheckPeriod : Z := 100.
Definition kIdlePollPeriod : Z := 100.
Definition kRetryUntilRecoverySettlesGrace : Z := 100.
Definition kDisconnectedPushRetryDelay : Z := 10.

(** [SessionWaitHandleUpdate]. *)
Inductive WaitHandleUpdate : Type :=
| KeepCurrent
| ClearCurrent
| ReplaceCurrent (sessionId fd : Z).

Section Pushing.
Context {PF : Platform} {CE : ClientEnv}.

(** ** Pushing a request *)

Definition ValidatePushSession (session : Session) : StatusCode :=
  if negb (Valid session) || negb (bool_decide (is_Some (ss_header session))) then PeerDisconnected else Ok.

Definition next_path : client path_env :=
  n ← gets cl_paths; modify (fun c => c <| cl_paths := S n |>);; mret (env_path n).

Definition PrepareRequestPayloadForTransport (submit : PendingSubmit) (session : Session)
    (transportPayload payloadKind : outptr) : client (StatusCode * bytes * Z) :=
  match transportPayload, payloadKind with
  | Ptr, Ptr =>
      let maxTransportBytes := Z.min (ss_maxRequestBytes session) REQUEST_INLINE_PAYLOAD_BYTES in
      path ← next_path;
      '(ok, payload, kind) ←
        on_fs (PrepareFilePayloadForTransport env_fuel path DEFAULT_FILE_PAYLOAD_DIR
                 (call_payload (sb_call submit)) maxTransportBytes Ptr Ptr);
      mret (if ok : bool then (Ok, payload, kind) else (PayloadTooLarge, payload, kind))
  | _, _ => mret (InvalidArgument, [], PAYLOAD_KIND_INLINE)
  end.

Definition BuildRequestEntry (submit : PendingSubmit) (transportPayload : bytes) (payloadKind : Z)
    : defined RequestRingEntry :=
  match memcpy_into (rq_payload RequestRingEntry_default) transportPayload with
  | Undefined => Undefined
  | Defined payload =>
      Defined {| rq_requestId := sb_requestId submit;
                 rq_execTimeoutMs := call_execTimeoutMs (sb_call submit);
                 rq_opcode := call_opcode (sb_call submit);
                 rq_priority := Priority_to_u8 (call_priority (sb_call submit));
                 rq_payloadKind := payloadKind; rq_payloadSize := u32 (Zlen transportPayload);
                 rq_payload := payload |}
  end.

Definition MakePendingWaitDeadline (execTimeoutMs : Z) : client deadline :=
  if execTimeoutMs =? 0 then mret None else
  now ← steady_now; mret (Some (now + execTimeoutMs * NS_PER_MS)).

Definition BuildPendingRequest (submit : PendingSubmit) : client PendingRequest :=
  info ← MakePendingInfo submit;
  waitDeadline ← MakePendingWaitDeadline (call_execTimeoutMs (sb_call submit));
  mret {| pr_future := sb_future submit; pr_info := info; pr_waitDeadline := waitDeadline |}.

(** [session.PushRequest]; the server may act between the push and the second
    look at the session state. *)
Definition session_PushRequest (high : bool) (entry : RequestRingEntry) : client StatusCode := fun c =>
  let! (status, w) :=
    run_of_defined (PushRequest (env_peer (cl_reads c)) (cl_session c) high entry (cl_world c)) in
  Returns (status, c <| cl_world := w |>).

Definition signal (fd : Z) : client bool := on_kernel (SignalEventFd env_fuel fd).

(** [RemoveFilePayloadFromTransport] on the payload of a request or an entry. *)
Definition remove_transport_file (mem : bytes) (size payloadKind : Z) : client unit :=
  on_fs (fun fs => run_of_defined
    (RemoveFilePayloadFromTransport DEFAULT_FILE_PAYLOAD_DIR (Some mem) size payloadKind fs));;
  mret tt.

(** The cursor behind [session.Header()]. *)
Definition header_cursor (f : SharedMemoryHeader -> RingCursor) : client (option RingCursor) :=
  gets (fun c => f <$> read_header (ss_header (cl_session c)) (cl_world c)).

Definition PushRequestToSession (submit : PendingSubmit) (entry : RequestRingEntry)
    (transportPayload : bytes) (payloadKind : Z) : client StatusCode :=
  let highPriority := IsHighPriority (sb_call submit) in
  status ← session_PushRequest highPriority entry;
  if negb (status_is status Ok) then
    Take (sb_requestId submit);;
    when (payloadKind =? PAYLOAD_KIND_FILE_REF)
      (remove_transport_file transportPayload (Zlen transportPayload) payloadKind);;
    mret status
  else
  cursor ← header_cursor (if highPriority then hd_highRing else hd_normalRing);
  match cursor with
  | None => lift_run RunUndefined
  | Some cursor =>
      handles ← gets (fun c => ss_handles (cl_session c));
      when (RingCountIsOneAfterPush cursor)
        (signal (if highPriority then highReqEventFd handles else normalReqEventFd handles);; mret tt);;
      TouchActivity;;
      mret Ok
  end.

Definition TryPushRequest (submit : PendingSubmit) : client StatusCode :=
  session ← gets cl_session;
  let validationStatus := ValidatePushSession session in
  if negb (status_is validationStatus Ok) then mret validationStatus else
  '(prepareStatus, transportPayload, payloadKind) ← PrepareRequestPayloadForTransport submit session Ptr Ptr;
  if negb (status_is prepareStatus Ok) then mret prepareStatus else
  entry ← lift_run (run_of_defined (BuildRequestEntry submit transportPayload payloadKind));
  pending ← BuildPendingRequest submit;
  Put (sb_requestId submit) pending;;
  PushRequestToSession submit entry transportPayload payloadKind.

(** ** Descriptors to wait on *)

(** [UniqueFd::Reset] of a variable holding [old]. *)
Definition unique_fd_reset (old fd : Z) : client Z :=
  on_world (fun w => (tt, if 0 <=? old then sys_close old w else w));; mret fd.

Definition DuplicateSessionWaitHandle (activeSessionId : Z) (selectFd : BootstrapHandles -> Z)
    : client WaitHandleUpdate :=
  sessionId ← CurrentSessionId;
  if (sessionId =? activeSessionId) && negb (sessionId =? 0) then mret KeepCurrent else
  session ← gets cl_session;
  if negb (Valid session) then mret ClearCurrent else
  let sourceFd := selectFd (ss_handles session) in
  if sourceFd <? 0 then mret ClearCurrent else
  fd ← on_world (sys_dup sourceFd);
  mret (if fd <? 0 then ClearCurrent else ReplaceCurrent sessionId fd).

Definition DuplicateRequestCreditWaitHandle (activeSessionId : Z) : client WaitHandleUpdate :=
  DuplicateSessionWaitHandle activeSessionId reqCreditEventFd.

Definition DuplicateResponseWaitHandle (activeSessionId : Z) : client WaitHandleUpdate :=
  DuplicateSessionWaitHandle activeSessionId respEventFd.

Definition ResetActiveRequestCreditWait : client unit :=
  old ← gets cl_creditWaitFd;
  fd ← unique_fd_reset old (-1);
  modify (fun c => c <| cl_creditWaitFd := fd |> <| cl_creditSessionId := 0 |>).

Definition SyncActiveRequestCreditWait : client unit :=
  active ← gets cl_creditSessionId;
  update ← DuplicateRequestCreditWaitHandle active;
  match update with
  | KeepCurrent => mret tt
  | ClearCurrent => ResetActiveRequestCreditWait
  | ReplaceCurrent sessionId fd =>
      ResetActiveRequestCreditWait;;
      old ← gets cl_creditWaitFd;
      fd ← unique_fd_reset old fd;
      modify (fun c => c <| cl_creditWaitFd := fd |> <| cl_creditSessionId := sessionId |>)
  end.

(** ** Responses *)

Definition ResolveEntryPayload (entry : ResponseRingEntry) (payload : outptr) : client (StatusCode * bytes) :=
  match payload with
  | Null => mret (InvalidArgument, [])
  | Ptr =>
      if RESPONSE_INLINE_PAYLOAD_BYTES <? rs_resultSize entry then mret (ProtocolMismatch, []) else
      if rs_payloadKind entry =? PAYLOAD_KIND_INLINE then
        mret (Ok, Ztake (rs_resultSize entry) (rs_payload entry))
      else if rs_payloadKind entry =? PAYLOAD_KIND_FILE_REF then
        '(ok, data) ← on_fs (fun fs =>
          ResolveFilePayloadFromTransport env_fuel DEFAULT_FILE_PAYLOAD_DIR (Some (rs_payload entry))
            (rs_resultSize entry) (rs_payloadKind entry) Ptr fs);
        mret (if ok : bool then (Ok, data) else (PeerDisconnected, data))
      else mret (ProtocolMismatch, [])
  end.

Definition DiscardEntryPayloadIfPresent (entry : ResponseRingEntry) : client unit :=
  when (rs_payloadKind entry =? PAYLOAD_KIND_FILE_REF)
    (remove_transport_file (rs_payload entry) (rs_resultSize entry) (rs_payloadKind entry)).

(** The block of [DrainResponseRing] under the session mutex: the entry popped,
    whether the ring was full, and the descriptor to signal. *)
Definition pop_response : client (option (ResponseRingEntry * bool * Z)) := fun c =>
  let s := cl_session c in
  match read_header (ss_header s) (cl_world c) with
  | None => Returns (None, c)
  | Some h =>
      let ringBecameNotFull := RingIsFull (hd_responseRing h) in
      let! (e, w) := run_of_defined (PopResponse s Ptr (cl_world c)) in
      Returns ((fun e => (e, ringBecameNotFull, respCreditEventFd (ss_handles s))) <$> e,
               c <| cl_world := w |>)
  end.

(** The descriptor the worker polls and the session it belongs to. *)
Definition poll_state : Type := Z * Z.

Definition ResetActivePollFd (p : poll_state) : client poll_state :=
  fd ← unique_fd_reset (fst p) (-1); mret (fd, 0).

Definition SyncActivePollSession (p : poll_state) : client poll_state :=
  update ← DuplicateResponseWaitHandle (snd p);
  match update with
  | KeepCurrent => mret p
  | ClearCurrent => ResetActivePollFd p
  | ReplaceCurrent sessionId fd =>
      p ← ResetActivePollFd p;
      fd ← unique_fd_reset (fst p) fd;
      mret (fd, sessionId)
  end.

(** ** Health *)

Definition ShouldRequestRecoveryForHealthStatus (status : ChannelHealth.status) : bool :=
  match status with
  | ChannelHealth.Timeout | ChannelHealth.Malformed | ChannelHealth.Unhealthy
  | ChannelHealth.SessionMismatch => true
  | _ => false
  end.

Definition RequestHealthCheckRecovery (status : ChannelHealth.status) (observedSessionId : Z) : client unit :=
  if negb (ShouldRequestRecoveryForHealthStatus status) then mret tt else
  HandleExternalRecovery observedSessionId {| xr_sessionId := observedSessionId; xr_delayMs := 0 |}.

(** ** Setters and construction *)

Definition SetEventCallback (callback : option (RpcEvent -> User -> User)) : client unit :=
  modify (fun c => c <| cl_eventCallback := callback |>).

Definition SetRecoveryPolicy (policy : RecoveryPolicy) : client unit :=
  modify (fun c => c <| cl_policy := policy |>).

Definition RpcClient_SetBootstrapChannel (bootstrap : option Channel) (same : bool) : client unit :=
  SetBootstrapChannel bootstrap same true.

(** [RpcClient(bootstrap)]: the members' initial values, then the death
    callback; [user], [w], [fs] and [k] are the environment's states. *)
Definition RpcClient_new (bootstrap : option Channel) (user : User) (w : World) (fs : Fs) (k : Kernel)
    : run (unit * Client) :=
  InstallDeathCallback true
    {| cl_lifecycle := Uninitialized; cl_cooldownUntilMs := 0; cl_generation := 0;
       cl_recoveryEventCallback := None; cl_bootstrap := bootstrap; cl_deathCallback := false;
       cl_session := Session_default; cl_snapshot := 0; cl_policy := RecoveryPolicy_default;
       cl_eventCallback := None; cl_submitQueue := []; cl_submitStop := false; cl_watchdogStop := false;
       cl_store := ∅; cl_control := ApiUninitialized; cl_workersRunning := false; cl_joinable := []; cl_running := [];
       cl_waitingForCredit := false; cl_creditWaitFd := -1; cl_creditSessionId := 0;
       cl_nextRequestId := 1; cl_lastActivityMs := 0; cl_futures := [];
       cl_user := user; cl_world := w; cl_fs := fs; cl_kernel := k; cl_reads := 0; cl_paths := 0 |}.

Definition computeWaitBudget (snapshot : RecoveryRuntimeSnapshot) : Z :=
  (sn_cooldownRemainingMs snapshot + kRetryUntilRecoverySettlesGrace) * NS_PER_MS.

End Pushing.

Section Workers.
Context {PF : Platform} {CE : ClientEnv}.
#[local] Open Scope thread_scope.

(** [PollEventFd] blocks. *)
Definition poll (fd timeout_ms : Z) : client_thread PollEventFdResult :=
  yield;; on_kernel (PollEventFd env_fuel (Some fd) timeout_ms).

(** [std::this_thread::sleep_for]. *)
Definition sleep_for (ms : Z) : client_thread unit :=
  now ← steady_now; TPause (Some (now + ms * NS_PER_MS)) (fun _ => false) (mret tt).

(** ** Submit worker *)

(** The poll loop of [WaitForRequestCredit]. *)
Fixpoint credit_loop (fuel : nat) (fd : Z) : client_thread PollEventFdResult :=
  match fuel with
  | O => tdiverge
  | S fuel =>
      running ← gets cl_workersRunning;
      if negb running then mret PollFailed else
      waitResult ← poll fd 100;
      yield;;
      currentSessionId ← CurrentSessionId;
      active ← gets cl_creditSessionId;
      let changed := negb (currentSessionId =? active) in
      match waitResult with
      | PollRetry | PollTimeout => if changed then mret PollRetry else credit_loop fuel fd
      | PollFailed => mret (if changed then PollRetry else PollFailed)
      | PollReady => mret PollReady
      end
  end.

Definition WaitForRequestCredit (fuel : nat) : client_thread PollEventFdResult :=
  SyncActiveRequestCreditWait;;
  yield;;
  fd ← gets cl_creditWaitFd;
  if fd <? 0 then id ← CurrentSessionId; mret (if id =? 0 then PollRetry else PollFailed) else
  modify (fun c => c <| cl_waitingForCredit := true |>);;
  result ← credit_loop fuel fd;
  modify (fun c => c <| cl_waitingForCredit := false |>);;
  mret result.

Fixpoint WaitUntilSessionReadyForSubmit (fuel : nat) : client_thread StatusCode :=
  match fuel with
  | O => tdiverge
  | S fuel =>
      running ← gets cl_workersRunning;
      if negb running then RuntimeStopStatus else
      yield;;
      sessionStatus ← EnsureLiveSession;
      yield;;
      if status_is sessionStatus Ok then mret Ok else
      if status_is sessionStatus CooldownActive then
        waitStatus ← WaitForCooldownToSettle fuel None;
        yield;;
        if status_is waitStatus Ok then WaitUntilSessionReadyForSubmit fuel else mret waitStatus
      else if status_is sessionStatus PeerDisconnected then
        waitStatus ← WaitOneRecoveryRetryTick fuel None;
        yield;;
        if status_is waitStatus Ok then WaitUntilSessionReadyForSubmit fuel else mret waitStatus
      else mret sessionStatus
  end.

Definition TryAdmitSubmit (fuel : nat) (submit : PendingSubmit) : client_thread StatusCode :=
  pushStatus ← TryPushRequest submit;
  if status_is pushStatus Ok then mret Ok else
  yield;;
  if status_is pushStatus PayloadTooLarge then mret pushStatus else
  if status_is pushStatus PeerDisconnected then
    CloseLiveSessionForTransportFailure;; sleep_for kDisconnectedPushRetryDelay;; mret pushStatus
  else if status_is pushStatus QueueFull then
    waitResult ← WaitForRequestCredit fuel;
    if bool_decide (waitResult = PollReady) || bool_decide (waitResult = PollRetry) then mret pushStatus else
    yield;;
    CloseLiveSessionForTransportFailure;; mret PeerDisconnected
  else mret pushStatus.

Definition ResolveSubmitFailure (submit : PendingSubmit) (info : PendingInfo) (status : StatusCode) : client_thread unit :=
  FailAndResolve info status (sb_future submit).

Fixpoint submit_loop (fuel : nat) (submit : PendingSubmit) (info : PendingInfo) : client_thread unit :=
  match fuel with
  | O => tdiverge
  | S fuel =>
      yield;;
      running ← gets cl_workersRunning;
      if negb running then status ← RuntimeStopStatus; ResolveSubmitFailure submit info status else
      sessionStatus ← WaitUntilSessionReadyForSubmit fuel;
      if negb (status_is sessionStatus Ok) then ResolveSubmitFailure submit info sessionStatus else
      yield;;
      pushStatus ← TryAdmitSubmit fuel submit;
      if status_is pushStatus Ok then mret tt else
      if status_is pushStatus PeerDisconnected || status_is pushStatus QueueFull
      then submit_loop fuel submit info
      else ResolveSubmitFailure submit info pushStatus
  end.

Definition SubmitOne (fuel : nat) (submit : PendingSubmit) : client_thread unit :=
  info ← MakePendingInfo submit; submit_loop fuel submit info.

(** The block of [SubmitWorker::Run] under the submit mutex, after the wait. *)
Definition pop_submit : client (option PendingSubmit) := (
  stop ← gets cl_submitStop;
  queue ← gets cl_submitQueue;
  match queue with
  | [] => if stop : bool then mret None else lift_run RunUndefined     (* front of an empty deque *)
  | submit :: rest => modify (fun c => c <| cl_submitQueue := rest |>);; mret (Some submit)
  end)%machine.

Fixpoint SubmitWorker_Run (fuel : nat) : client_thread unit :=
  match fuel with
  | O => tdiverge
  | S fuel =>
      cv_wait (fun c => cl_submitStop c || negb (bool_decide (cl_submitQueue c = [])));;
      submit ← pop_submit;
      match submit with
      | None => mret tt
      | Some submit => yield;; SubmitOne fuel submit;; yield;; SubmitWorker_Run fuel
      end
  end.

(** ** Response worker *)

Definition ResolveCompletedRequest (entry : ResponseRingEntry) : client_thread unit :=
  pending ← Take (rs_requestId entry);
  yield;;
  match pending with
  | None => DiscardEntryPayloadIfPresent entry
  | Some pending =>
      '(payloadStatus, payload) ← ResolveEntryPayload entry Ptr;
      yield;;
      let reply := if status_is payloadStatus Ok
                   then {| rp_status := StatusCode_of_u32 (rs_statusCode entry); rp_payload := payload |}
                   else reply_of_status payloadStatus in
      (if negb (status_is (rp_status reply) Ok)
       then ApplyFailureRecoveryDecision (pr_info pending) (rp_status reply);; yield else mret tt);;
      ResolveState (pr_future pending) reply;;
      yield;;
      TouchActivity
  end.

Definition DeliverEvent (entry : ResponseRingEntry) : client_thread unit :=
  callback ← gets cl_eventCallback;
  yield;;
  match callback with
  | None => DiscardEntryPayloadIfPresent entry
  | Some f =>
      '(payloadStatus, payload) ← ResolveEntryPayload entry Ptr;
      yield;;
      if negb (status_is payloadStatus Ok) then
        observedSessionId ← CurrentSessionId;
        yield;;
        HandleEngineDeath observedSessionId observedSessionId
      else
        let event := {| ev_eventDomain := rs_eventDomain entry; ev_eventType := rs_eventType entry;
                        ev_flags := rs_flags entry; ev_payload := payload |} in
        modify (fun c => c <| cl_user := f event (cl_user c) |>);;
        yield;;
        TouchActivity
  end.

Fixpoint DrainResponseRing (fuel : nat) (drained : bool) : client_thread bool :=
  match fuel with
  | O => tdiverge
  | S fuel =>
      yield;;
      popped ← pop_response;
      match popped with
      | None => mret drained
      | Some (entry, ringBecameNotFull, respCreditEventFd) =>
          yield;;
          when ringBecameNotFull (bind (signal respCreditEventFd) (fun _ => mret tt));;
          yield;;
          if RESPONSE_INLINE_PAYLOAD_BYTES <? rs_resultSize entry then
            observedSessionId ← CurrentSessionId;
            yield;;
            HandleEngineDeath observedSessionId observedSessionId;;
            mret true
          else
            (if bool_decide (rs_messageKind entry = KindEvent) then DeliverEvent entry
             else ResolveCompletedRequest entry);;
            DrainResponseRing fuel true
      end
  end.

Fixpoint WaitUntilResponsePollReady (fuel : nat) (p : poll_state) : client_thread (bool * poll_state) :=
  match fuel with
  | O => tdiverge
  | S fuel =>
      running ← gets cl_workersRunning;
      if negb running then mret (false, p) else
      yield;;
      generation ← gets cl_generation;
      yield;;
      p ← SyncActivePollSession p;
      if 0 <=? fst p then mret (true, p) else
      yield;;
      WaitForNotification generation;;
      yield;;
      WaitUntilResponsePollReady fuel p
  end.

Definition WaitForResponseSignal (p : poll_state) : client_thread poll_state :=
  waitResult ← poll (fst p) 100;
  if negb (bool_decide (waitResult = PollFailed)) then mret p else
  p' ← ResetActivePollFd p;
  yield;;
  HandleEngineDeath (snd p) (snd p);;
  mret p'.

Fixpoint response_loop (fuel : nat) (p : poll_state) : client_thread poll_state :=
  match fuel with
  | O => tdiverge
  | S fuel =>
      yield;;
      running ← gets cl_workersRunning;
      if negb running then mret p else
      drained ← DrainResponseRing fuel false;
      if drained : bool then response_loop fuel p else
      '(ready, p) ← WaitUntilResponsePollReady fuel p;
      if negb ready then response_loop fuel p else
      p ← WaitForResponseSignal p;
      response_loop fuel p
  end.

Definition ResponseWorker_Run (fuel : nat) : client_thread unit :=
  p ← response_loop fuel (-1, 0); ResetActivePollFd p;; mret tt.

(** ** Watchdog *)

Definition MaybeRunPendingTimeouts : client_thread unit :=
  now ← steady_now;
  yield;;
  expired ← TakeExpired now;
  yield;;
  tfor_each expired (fun pending => FailAndResolve (pr_info pending) ExecTimeout (pr_future pending);; yield).

(** The clock is read before the time of the last activity. *)
Definition MaybeRunIdlePolicy : client_thread unit :=
  isOpen ← IsApiOpen;
  if negb isOpen then mret tt else
  yield;;
  policy ← gets cl_policy;
  match onIdle policy with
  | None => mret tt
  | Some _ =>
      yield;;
      store ← gets cl_store;
      if negb (bool_decide (store = ∅)) then mret tt else
      yield;;
      queue ← gets cl_submitQueue;
      if negb (bool_decide (queue = [])) then mret tt else
      yield;;
      observedSessionId ← CurrentSessionId;
      if observedSessionId =? 0 then mret tt else
      yield;;
      nowMs ← MonotonicNowMs;
      yield;;
      lastActivityMs ← gets cl_lastActivityMs;
      let idleMs := u64 (nowMs - lastActivityMs) in
      yield;;
      HandleIdleRecovery observedSessionId idleMs
  end.

Definition MaybeRunHealthCheck : client_thread unit :=
  isOpen ← IsApiOpen;
  if negb isOpen then mret tt else
  yield;;
  bootstrap ← gets cl_bootstrap;
  match bootstrap with
  | None => mret tt
  | Some ch =>
      yield;;
      observedSessionId ← CurrentSessionId;
      if observedSessionId =? 0 then mret tt else
      yield;;
      result ← bootstrap_CheckHealth observedSessionId ch;
      yield;;
      RequestHealthCheckRecovery (chr_status result) observedSessionId
  end.

(** [task] when it is due, and the time it is due next. *)
Definition run_due (now due period : Z) (task : client_thread unit) : client_thread Z :=
  if due <=? now then task;; later ← steady_now; mret (later + period * NS_PER_MS) else mret due.

Fixpoint watchdog_loop (fuel : nat) (nextScan nextHealth nextIdle : Z) : client_thread unit :=
  match fuel with
  | O => tdiverge
  | S fuel =>
      now ← steady_now;
      yield;;
      nextScan ← run_due now nextScan kPendingTimeoutPollPeriod MaybeRunPendingTimeouts;
      yield;;
      nextHealth ← run_due now nextHealth kHealthCheckPeriod MaybeRunHealthCheck;
      yield;;
      nextIdle ← run_due now nextIdle kIdlePollPeriod MaybeRunIdlePolicy;
      yield;;
      let nextWakeAt := Z.min nextScan (Z.min nextHealth nextIdle) in
      cv_wait_until (Some nextWakeAt) cl_watchdogStop;;
      stop ← gets cl_watchdogStop;
      if stop : bool then mret tt else yield;; watchdog_loop fuel nextScan nextHealth nextIdle
  end.

Definition WatchdogLoop (fuel : nat) : client_thread unit :=
  now ← steady_now; yield;; watchdog_loop fuel now now now.

(** ** Starting and stopping the threads *)

Definition all_workers : list worker := [SubmitThread; ResponseThread; WatchdogThread].

(** What a background thread runs; [cl_running] says that it has not returned. *)
Definition run_worker (fuel : nat) (w : worker) : client_thread unit :=
  (match w with
   | SubmitThread => SubmitWorker_Run fuel
   | ResponseThread => ResponseWorker_Run fuel
   | WatchdogThread => WatchdogLoop fuel
   end);;
  modify (fun c => c <| cl_running := filter (fun x => x <> w) (cl_running c) |>).

(** [thread_ = std::thread(...)]: assigning to an object that still holds a
    thread ends the process. *)
Definition start_thread (w : worker) : client_thread unit :=
  yield;;
  joinable ← gets cl_joinable;
  if bool_decide (w ∈ joinable) then TAbort else
  modify (fun c => c <| cl_joinable := w :: cl_joinable c |> <| cl_running := w :: cl_running c |>);;
  spawn w.

(** [if (thread_.joinable()) thread_.join();]. *)
Definition join_thread (w : worker) : client_thread unit :=
  yield;;
  joinable ← gets cl_joinable;
  if negb (bool_decide (w ∈ joinable)) then mret tt else
  TPause None (fun c => negb (bool_decide (w ∈ cl_running c))) (mret tt);;
  modify (fun c => c <| cl_joinable := filter (fun x => x <> w) (cl_joinable c) |>).

Definition StartThreads : client_thread unit :=
  started ← StartRuntime;
  if negb started then mret tt else tfor_each all_workers start_thread.

Definition StopThreads : client_thread unit :=
  stopped ← StopRuntime;
  if negb stopped then mret tt else
  yield;;
  modify (fun c => c <| cl_submitStop := true |>);;
  yield;;
  modify (fun c => c <| cl_watchdogStop := true |>);;
  yield;;
  NotifyRecoveryStateChanged;;
  tfor_each all_workers join_thread.

(** ** Public operations *)

Definition Shutdown : client_thread unit :=
  begun ← BeginShutdown;
  if negb begun then mret tt else
  yield;;
  CloseSessionAndEnterTerminalClosedLocked;;
  yield;;
  ClearCallbacks;;
  yield;;
  StopThreads;;
  yield;;
  FailOutstandingWork ClientClosed;;
  yield;;
  FinishShutdown.

Definition Init (mode : ClientInitMode) : client_thread StatusCode :=
  terminal ← IsApiTerminal;
  if terminal : bool then mret ClientClosed else
  yield;;
  running ← gets cl_workersRunning;
  if running : bool then
    match mode with EagerSession => yield;; EnsureLiveSession | LazySession => mret Ok end
  else
  yield;;
  TouchActivity;;
  yield;;
  PrepareForInitOpen (match mode with LazySession => IdleClosed | EagerSession => Uninitialized end);;
  yield;;
  StartThreads;;
  yield;;
  status ← (match mode with EagerSession => EnsureLiveSession : client_thread _ | LazySession => mret Ok end);
  yield;;
  if negb (status_is status Ok) then Shutdown;; mret status else
  finished ← FinishInit;
  mret (if finished : bool then Ok else ClientClosed).

(** [~RpcClient], when it holds the last reference to the implementation: a
    thread object that still holds a thread ends the process. *)
Definition RpcClient_delete : client_thread unit :=
  Shutdown;;
  yield;;
  joinable ← gets cl_joinable;
  if negb (bool_decide (joinable = [])) then TAbort else mret tt.

Fixpoint retry_loop (fuel : nat) (invoke : client_thread StatusCode) (d : Z) (status : StatusCode)
    : client_thread StatusCode :=
  match fuel with
  | O => tdiverge
  | S fuel =>
      snapshot ← GetRecoveryRuntimeSnapshot;
      yield;;
      now ← steady_now;
      let d := Z.max d (now + computeWaitBudget snapshot) in
      if negb (ShouldRetryRecoveryStatus status snapshot) then mret status else
      now ← steady_now;
      if d <=? now then mret status else
      waitStatus ← (match sn_lifecycleState snapshot with
                    | Cooldown => WaitForCooldownToSettle fuel (Some d)
                    | Recovering => WaitOneRecoveryRetryTick fuel (Some d)
                    | _ => mret PeerDisconnected
                    end);
      yield;;
      if negb (status_is waitStatus Ok) then mret status else
      status ← invoke;
      yield;;
      retry_loop fuel invoke d status
  end.

(** Argument evaluation: the clock is read before the snapshot is taken. *)
Definition RetryUntilRecoverySettles (fuel : nat) (invoke : option (client_thread StatusCode)) : client_thread StatusCode :=
  match invoke with
  | None => mret InvalidArgument
  | Some invoke =>
      now ← steady_now;
      snapshot ← GetRecoveryRuntimeSnapshot;
      yield;;
      status ← invoke;
      yield;;
      if status_is status Ok then mret status else
      retry_loop fuel invoke (now + computeWaitBudget snapshot) status
  end.

End Workers.
