(* ===== verification/ClientConfig.v ===== *)
(** * The client: all its threads

    The client as a program with several threads: its public operations,
    called from any number of threads, the background threads, and what the
    server, the kernel, the file system and the clock do in the meantime. *)

From Stdlib Require Import Lia.
From S2P Require Import Prelude Machine Threads Pool Types ShmLayout Ring FilePayload EventFd Os Platform Session.
From S2P Require Import ClientState ClientRecovery ClientCore ClientWorkers.
#[local] Open Scope thread_scope.

Section Config.
Context {PF : Platform} {CE : ClientEnv}.

(** What is called from outside: the public operations, and the callback of
    the bootstrap channel.  [InvokeAsync] is a single step and has a rule of
    its own.  [fuel] bounds the loops of an operation. *)
Inductive client_op : Type :=
| OpInit (mode : ClientInitMode)
| OpExternalRecovery (request : ExternalRecoveryRequest)
| OpEngineDeath (sessionId : Z)
| OpSetPolicy (policy : RecoveryPolicy)
| OpSetEventCallback (callback : option (RpcEvent -> User -> User))
| OpSetRecoveryEventCallback (callback : option (RecoveryEventReport -> User -> User))
| OpSetBootstrap (bootstrap : option Channel) (same : bool)
| OpRetry (fuel : nat) (invoke : option (User -> StatusCode * User))
| OpShutdown.

(** The user's function given to [RetryUntilRecoverySettles]. *)
Definition call_user (f : User -> StatusCode * User) : client StatusCode := fun c =>
  let '(status, u) := f (cl_user c) in Returns (status, c <| cl_user := u |>).

Definition perform (op : client_op) : client_thread unit :=
  match op with
  | OpInit mode => Init mode;; mret tt
  | OpExternalRecovery request => RequestExternalRecovery request
  | OpEngineDeath sessionId => bootstrap_death_callback sessionId
  | OpSetPolicy policy => SetRecoveryPolicy policy
  | OpSetEventCallback callback => SetEventCallback callback
  | OpSetRecoveryEventCallback callback => SetRecoveryEventCallback callback
  | OpSetBootstrap bootstrap same => RpcClient_SetBootstrapChannel bootstrap same
  | OpRetry fuel invoke => RetryUntilRecoverySettles fuel ((fun f => atomic (call_user f)) <$> invoke);; mret tt
  | OpShutdown => Shutdown
  end.

(** [Init] is not made for being called twice at the same time. *)
Definition op_role (op : client_op) : role := match op with OpInit _ => ExclusiveRole | _ => SharedRole end.

(** Time passes, and the server, the kernel and the file system act. *)
Definition environment (c c' : Client) : Prop :=
  exists reads shm fs k, (cl_reads c <= reads)%nat /\
    c' = c <| cl_reads := reads |> <| cl_world := (cl_world c) <| w_shm := shm |> |>
           <| cl_fs := fs |> <| cl_kernel := k |>.

(** Only time passes. *)
Definition pass_time (n : nat) (c : Client) : Client := c <| cl_reads := (cl_reads c + n)%nat |>.

Lemma pass_time_environment n c : environment c (pass_time n c).
Proof.
  exists (cl_reads c + n)%nat, (w_shm (cl_world c)), (cl_fs c), (cl_kernel c). split; [lia|].
  by destruct c as [? ? ? ? ? ? ? ? ? ? ? ? ? ? ? ? ? ? ? ? ? ? ? ? ? [] ? ? ? ?].
Qed.

(** A new client, in any environment. *)
Definition initial (c : Client) : Prop :=
  exists bootstrap user w fs k, w_held w = ∅ /\ RpcClient_new bootstrap user w fs k = Returns (tt, c).

#[export] Instance client_system : System Client worker := {|
  sys_op_role := op_role; sys_perform := perform; sys_invoke := InvokeAsync;
  sys_run_worker := run_worker; sys_environment := environment;
  sys_tick_environment := pass_time_environment; sys_initial := initial |}.

End Config.
