(* ===== verification/ClientFutures.v ===== *)
(** * The client: no call is lost, none is answered twice

    Every future handed out by [InvokeAsync] is, at any time, ready, in the
    submit queue, in the request store, or held by a thread that has taken it
    from there and will answer it; a ready future keeps its reply. *)

From Stdlib Require Import Lia.
From S2P Require Import Prelude Machine Threads Pool Types ByteCodec ShmLayout Ring FilePayload EventFd Os Platform Session.
From S2P Require Import ClientState ClientRecovery ClientCore ClientWorkers ClientConfig.
#[local] Open Scope machine_scope.

Section Tracking.
Context {PF : Platform} {CE : ClientEnv}.

Definition ready (f : future_id) (c : Client) : Prop := exists r, cl_futures c !! f = Some (Some r).

(** The calls known by request id: those queued and those admitted. *)
Definition in_queue (id : Z) (f : future_id) (c : Client) : Prop :=
  exists s, s ∈ cl_submitQueue c /\ sb_requestId s = id /\ sb_future s = f.

Definition in_store (id : Z) (f : future_id) (c : Client) : Prop :=
  exists p, cl_store c !! id = Some p /\ pr_future p = f.

Definition known (hand : list (Z * future_id)) (id : Z) (f : future_id) (c : Client) : Prop :=
  in_queue id f c \/ in_store id f c \/ (id, f) ∈ hand.

(** The bound on the number of calls up to which request ids do not repeat. *)
Definition ids_fit (c : Client) : Prop := Z.of_nat (length (cl_futures c)) < 2 ^ 64 - 1.

(** [hand]: the calls taken from the queue and not yet admitted or answered. *)
Record ids_ok (hand : list (Z * future_id)) (c : Client) : Prop := {
  next_bound : 0 < cl_nextRequestId c <= 1 + Z.of_nat (length (cl_futures c));
  known_bound id f : known hand id f c -> id < cl_nextRequestId c;
  known_unique id f f' : known hand id f c -> known hand id f' c -> f = f';
  known_future id f : known hand id f c -> (f < length (cl_futures c))%nat;
}.

(** [X] are futures to be accounted for, [R] replies already given. *)
Record tracked (hand : list (Z * future_id)) (X : future_id -> Prop) (R : future_id -> RpcReply -> Prop)
    (c : Client) : Prop := {
  tracked_settled f r : R f r -> cl_futures c !! f = Some (Some r);
  tracked_ids : ids_fit c -> ids_ok hand c;
  tracked_all f : ids_fit c -> X f -> ready f c \/ exists id, in_queue id f c \/ in_store id f c;
}.

(** What does not touch futures, queue, store and request ids keeps [tracked]. *)
Definition same_calls (c c' : Client) : Prop :=
  cl_futures c' = cl_futures c /\ cl_submitQueue c' = cl_submitQueue c /\
  cl_store c' = cl_store c /\ cl_nextRequestId c' = cl_nextRequestId c.

Lemma tracked_same hand X R c c' : same_calls c c' -> tracked hand X R c -> tracked hand X R c'.
Proof.
  intros (Hf & Hq & Hs & Hn) [T1 T2 T3].
  assert (Hk : forall h id f, known h id f c' <-> known h id f c).
  { intros. unfold known, in_queue, in_store. by rewrite Hq, Hs. }
  split; unfold ids_fit, ready, in_queue, in_store in *.
  - intros f r. rewrite Hf. apply T1.
  - rewrite Hf. intros Hfit. destruct (T2 Hfit) as [B1 B2 B3 B4]. split.
    + by rewrite Hn, Hf.
    + intros id f Hkn. apply Hk in Hkn. rewrite Hn. by eapply B2.
    + intros id f f' H1 H2. apply Hk in H1, H2. by eapply B3.
    + intros id f Hkn. apply Hk in Hkn. rewrite Hf. by eapply B4.
  - rewrite Hf, Hq, Hs. apply T3.
Qed.

Definition keeps_calls {A} (m : client A) : Prop :=
  forall c a c', m c = Returns (a, c') -> same_calls c c'.

Lemma keeps_tracked {A} hand X R (m : client A) : keeps_calls m -> preserves (tracked hand X R) m.
Proof. intros Hm c a c' Ht Hr. eapply tracked_same; [by eapply Hm|done]. Qed.

(** ** Operations that leave the calls alone *)

Lemma keeps_ret {A} (a : A) : keeps_calls (mret a).
Proof. by intros c a' c' [= <- <-]. Qed.

Lemma keeps_bind {A B} (m : client A) (k : A -> client B) :
  keeps_calls m -> (forall a, keeps_calls (k a)) -> keeps_calls (bind m k).
Proof.
  intros Hm Hk c b c'. unfold bind. destruct (m c) as [[a c1]| |] eqn:E; [|done..]. cbn. intros Hr.
  apply Hm in E as (E1 & E2 & E3 & E4). apply Hk in Hr as (R1 & R2 & R3 & R4).
  unfold same_calls. by rewrite R1, R2, R3, R4.
Qed.

Lemma keeps_gets {A} (f : Client -> A) : keeps_calls (gets f).
Proof. by intros c a c' [= <- <-]. Qed.

Lemma keeps_modify f : (forall c, same_calls c (f c)) -> keeps_calls (modify f).
Proof. intros Hf c [] c' [= <-]. apply Hf. Qed.

Lemma keeps_diverge {A} : keeps_calls (@diverge _ A).
Proof. by intros c a c'. Qed.

Lemma keeps_lift {A} (r : run A) : keeps_calls (lift_run r).
Proof. intros c a c'. unfold lift_run. destruct r; [|done..]. by intros [= <- <-]. Qed.

Lemma keeps_on_world {A} (f : World -> A * World) : keeps_calls (on_world f).
Proof. intros c a c'. unfold on_world. destruct (f (cl_world c)). by intros [= <- <-]. Qed.

Lemma keeps_on_kernel {A} (f : Kernel -> run (A * Kernel)) : keeps_calls (on_kernel f).
Proof. intros c a c'. unfold on_kernel. destruct (f (cl_kernel c)) as [[]| |]; [|done..]. by intros [= <- <-]. Qed.

Lemma keeps_on_fs {A} (f : Fs -> run (A * Fs)) : keeps_calls (on_fs f).
Proof. intros c a c'. unfold on_fs. destruct (f (cl_fs c)) as [[]| |]; [|done..]. by intros [= <- <-]. Qed.

End Tracking.

Create HintDb calls.
#[export] Hint Resolve keeps_ret keeps_gets keeps_diverge keeps_lift keeps_on_world keeps_on_kernel
  keeps_on_fs : calls.

(** Walk through an operation: binds, tests and matches, then the hints. *)
Ltac keeps_step :=
  lazymatch goal with
  | |- forall _, _ => intros ?
  | |- keeps_calls (bind _ _) => apply keeps_bind
  | |- keeps_calls (modify _) => apply keeps_modify; intros ?; try done; repeat case_match; done
  | |- keeps_calls (when _ _) => unfold when
  | |- keeps_calls (match ?x with _ => _ end) => destruct x
  | |- keeps_calls _ => solve [auto with calls nocore]
  end.
Ltac keeps := repeat keeps_step.

Section KeepsCalls.
Context {PF : Platform} {CE : ClientEnv}.

Lemma keeps_clock : keeps_calls steady_now /\ keeps_calls MonotonicNowMs.
Proof. assert (keeps_calls steady_now) by (unfold steady_now; keeps). split; [done|]. unfold MonotonicNowMs. by keeps. Qed.

Lemma keeps_now : keeps_calls steady_now.
Proof. apply keeps_clock. Qed.

Lemma keeps_now_ms : keeps_calls MonotonicNowMs.
Proof. apply keeps_clock. Qed.
#[local] Hint Resolve keeps_now keeps_now_ms : calls.

Lemma keeps_remaining : keeps_calls CooldownRemainingLocked.
Proof. unfold CooldownRemainingLocked. keeps. Qed.
#[local] Hint Resolve keeps_remaining : calls.

Lemma keeps_transition state delay id change until : keeps_calls (TransitionLifecycle state delay id change until).
Proof.
  unfold TransitionLifecycle, ApplyTransitionLocked, BuildTransitionReportLocked, HasPendingRecoveryLocked,
    DispatchRecoveryEvent. keeps.
Qed.
#[local] Hint Resolve keeps_transition : calls.

Lemma keeps_notify : keeps_calls NotifyRecoveryStateChanged.
Proof. unfold NotifyRecoveryStateChanged. keeps. Qed.
#[local] Hint Resolve keeps_notify : calls.

Lemma keeps_start_recovery delay id : keeps_calls (StartRecovery delay id).
Proof. unfold StartRecovery. keeps. Qed.

Lemma keeps_enter_no_session id : keeps_calls (EnterNoSession id).
Proof. unfold EnterNoSession. keeps. Qed.

Lemma keeps_enter_idle_closed id : keeps_calls (EnterIdleClosed id).
Proof. unfold EnterIdleClosed. keeps. Qed.

Lemma keeps_enter_terminal_closed id : keeps_calls (EnterTerminalClosed id).
Proof. unfold EnterTerminalClosed. keeps. Qed.

Lemma keeps_touch : keeps_calls TouchActivity.
Proof. unfold TouchActivity. keeps. Qed.

#[local] Hint Resolve keeps_start_recovery keeps_enter_no_session keeps_enter_idle_closed
  keeps_enter_terminal_closed keeps_touch : calls.

Lemma keeps_bootstrap_open ch : keeps_calls (bootstrap_OpenSession ch).
Proof. intros c a c'. unfold bootstrap_OpenSession. destruct (ch_OpenSession _ _ _) as [[[]]]. by intros [= <- <-]. Qed.

Lemma keeps_bootstrap_close ch : keeps_calls (bootstrap_CloseSession ch).
Proof. intros c a c'. unfold bootstrap_CloseSession. destruct (ch_CloseSession _ _ _) as [[]]. by intros [= <- <-]. Qed.

Lemma keeps_bootstrap_health id ch : keeps_calls (bootstrap_CheckHealth id ch).
Proof. intros c a c'. unfold bootstrap_CheckHealth. destruct (ch_CheckHealth _ _ _). by intros [= <- <-]. Qed.

Lemma keeps_attach hs : keeps_calls (session_Attach hs).
Proof. intros c a c'. unfold session_Attach. destruct (Attach _ _ _ _ _) as [[[]]]. by intros [= <- <-]. Qed.

Lemma keeps_reset : keeps_calls session_Reset.
Proof. intros c a c'. unfold session_Reset. destruct (Reset _ _). by intros [= <- <-]. Qed.

Lemma keeps_call_policy {A} (f : A -> User -> RecoveryDecision * User) a : keeps_calls (call_policy f a).
Proof. intros c d c'. unfold call_policy. destruct (f a _). by intros [= <- <-]. Qed.

#[local] Hint Resolve keeps_bootstrap_open keeps_bootstrap_close keeps_bootstrap_health keeps_attach
  keeps_reset keeps_call_policy : calls.

Lemma keeps_ensure : keeps_calls EnsureLiveSessionLocked.
Proof.
  unfold EnsureLiveSessionLocked, CanEnsureLiveSession, CooldownActive_, HasLiveSession, BeginSessionOpen,
    OpenSessionLocked, OpenSession, PublishSessionIdLocked, FinalizeSessionOpen, HandleSessionOpenFailure,
    LifecycleState, CurrentSessionId. keeps.
Qed.

Lemma keeps_close_bootstrap : keeps_calls close_bootstrap.
Proof. unfold close_bootstrap. keeps. Qed.
#[local] Hint Resolve keeps_ensure keeps_close_bootstrap : calls.

Lemma keeps_close_if id : keeps_calls (CloseLiveSessionIfSnapshotMatches id).
Proof. unfold CloseLiveSessionIfSnapshotMatches, CurrentSessionId, PublishSessionIdLocked. keeps. Qed.

Lemma keeps_close : keeps_calls CloseLiveSessionLocked.
Proof. unfold CloseLiveSessionLocked, CloseLiveSession, CurrentSessionId, PublishSessionIdLocked. keeps. Qed.

Lemma keeps_open : keeps_calls IsApiOpen.
Proof. unfold IsApiOpen. keeps. Qed.
#[local] Hint Resolve keeps_close_if keeps_close keeps_open : calls.

Lemma keeps_idle_close id : keeps_calls (CloseSessionAndEnterIdleClosedLocked id).
Proof. unfold CloseSessionAndEnterIdleClosedLocked, CurrentSessionId. keeps. Qed.

Lemma keeps_no_session : keeps_calls EnterNoSessionWithoutLiveSessionLocked.
Proof. unfold EnterNoSessionWithoutLiveSessionLocked, CurrentSessionId. keeps. Qed.

Lemma keeps_terminal : keeps_calls CloseSessionAndEnterTerminalClosedLocked.
Proof. unfold CloseSessionAndEnterTerminalClosedLocked, CurrentSessionId. keeps. Qed.

Lemma keeps_reconnect delay : keeps_calls (MaybeReconnectImmediatelyLocked delay).
Proof. unfold MaybeReconnectImmediatelyLocked. keeps. Qed.

Lemma keeps_clear_death : keeps_calls ClearDeathCallback.
Proof. unfold ClearDeathCallback. keeps. Qed.

Lemma keeps_set_recovery_callback f : keeps_calls (SetRecoveryEventCallback f).
Proof. unfold SetRecoveryEventCallback. keeps. Qed.

Lemma keeps_current_session : keeps_calls CurrentSessionId.
Proof. apply keeps_gets. Qed.

Lemma keeps_wait_handle active select : keeps_calls (DuplicateSessionWaitHandle active select).
Proof. unfold DuplicateSessionWaitHandle, CurrentSessionId. keeps. Qed.

Lemma keeps_unique_fd old fd : keeps_calls (unique_fd_reset old fd).
Proof. unfold unique_fd_reset. keeps. Qed.
#[local] Hint Resolve keeps_wait_handle keeps_unique_fd keeps_current_session : calls.

Lemma keeps_credit_reset : keeps_calls ResetActiveRequestCreditWait.
Proof. unfold ResetActiveRequestCreditWait. keeps. Qed.
#[local] Hint Resolve keeps_credit_reset : calls.

Lemma keeps_credit_sync : keeps_calls SyncActiveRequestCreditWait.
Proof. unfold SyncActiveRequestCreditWait, DuplicateRequestCreditWaitHandle. keeps. Qed.

Lemma keeps_signal fd : keeps_calls (signal fd).
Proof. apply keeps_on_kernel. Qed.

Lemma keeps_remove_file mem size kind : keeps_calls (remove_transport_file mem size kind).
Proof. unfold remove_transport_file. keeps. Qed.

Lemma keeps_prepare submit session p k : keeps_calls (PrepareRequestPayloadForTransport submit session p k).
Proof. unfold PrepareRequestPayloadForTransport, next_path. keeps. Qed.

Lemma keeps_push high entry : keeps_calls (session_PushRequest high entry).
Proof.
  intros c a c'. unfold session_PushRequest. destruct (run_of_defined _) as [[]| |]; [|done..]. by intros [= <- <-].
Qed.

Lemma keeps_pop : keeps_calls pop_response.
Proof.
  intros c a c'. unfold pop_response. destruct (read_header _ _); [|by intros [= <- <-]].
  destruct (run_of_defined _) as [[]| |]; [|done..]. by intros [= <- <-].
Qed.

Lemma keeps_build submit : keeps_calls (BuildPendingRequest submit).
Proof. unfold BuildPendingRequest, MakePendingInfo, MakePendingWaitDeadline, CurrentSessionId. keeps. Qed.

Lemma keeps_stop_status : keeps_calls RuntimeStopStatus /\ keeps_calls WorkerStoppedStatus /\
  keeps_calls RecoveryStateWaitResultLocked.
Proof. unfold RuntimeStopStatus, WorkerStoppedStatus, RecoveryStateWaitResultLocked. split_and!; keeps. Qed.

End KeepsCalls.

#[export] Hint Resolve keeps_now keeps_now_ms keeps_remaining keeps_transition keeps_notify keeps_start_recovery
  keeps_enter_no_session keeps_enter_idle_closed keeps_enter_terminal_closed keeps_touch
  keeps_bootstrap_health keeps_call_policy keeps_ensure keeps_close_if keeps_close keeps_open keeps_idle_close
  keeps_no_session keeps_terminal keeps_reconnect keeps_clear_death keeps_set_recovery_callback keeps_current_session
  keeps_wait_handle keeps_unique_fd keeps_credit_reset keeps_credit_sync keeps_signal keeps_remove_file
  keeps_prepare keeps_push keeps_pop keeps_build : calls.

Ltac tracks_step :=
  lazymatch goal with
  | |- forall _, _ => intros ?
  | |- preserves _ (bind _ _) => apply preserves_bind
  | |- preserves _ (when _ _) => unfold when
  | |- preserves _ (for_each _ _) => apply preserves_for_each
  | |- preserves _ (match ?x with _ => _ end) => destruct x
  | |- preserves _ _ =>
      solve [auto with tracks nocore | apply keeps_tracked; solve [keeps]]
  end.
Ltac tracks := repeat tracks_step.

(** ** Moving calls between queue, store and hand *)

Section Moves.
Context {PF : Platform} {CE : ClientEnv}.
Implicit Types (X : future_id -> Prop) (R : future_id -> RpcReply -> Prop).

(** [X] without the futures of [L]. *)
Definition without (L : list (Z * future_id)) X : future_id -> Prop := fun f => X f /\ f ∉ L.*2.

Definition with_future (f : future_id) X : future_id -> Prop := fun g => X g \/ g = f.

Definition located (id : Z) (f : future_id) (c : Client) : Prop := in_queue id f c \/ in_store id f c.

Lemma tracked_weaken hand X X' R c :
  (forall f, X' f -> X f) -> tracked hand X R c -> tracked hand X' R c.
Proof. intros HX [T1 T2 T3]. split; eauto. Qed.

(** The calls [L] leave the queue or the store for the hand. *)
Lemma tracked_release L hand X R c c' :
  cl_futures c' = cl_futures c -> cl_nextRequestId c' = cl_nextRequestId c ->
  (forall id f, located id f c -> located id f c' \/ (id, f) ∈ L) ->
  (forall id f, located id f c' \/ (id, f) ∈ L -> located id f c) ->
  tracked hand X R c -> tracked (L ++ hand) (without L X) R c'.
Proof.
  intros Hf Hn Hfw Hbw [T1 T2 T3].
  assert (Hk : forall id f, known (L ++ hand) id f c' -> known hand id f c).
  { intros id f [Hq|[Hs|Hh]]; unfold known.
    - destruct (Hbw id f) as [?|?]; [by left; left|tauto..].
    - destruct (Hbw id f) as [?|?]; [by left; right|tauto..].
    - apply elem_of_app in Hh as [Hl|Hh]; [|tauto]. destruct (Hbw id f) as [?|?]; [by right|tauto..]. }
  split.
  - intros f r. rewrite Hf. apply T1.
  - unfold ids_fit. rewrite Hf. intros Hfit. destruct (T2 Hfit) as [B1 B2 B3 B4].
    split; rewrite ?Hf, ?Hn; eauto.
  - unfold ids_fit, ready. rewrite Hf. intros f Hfit [HX Hnin].
    destruct (T3 f Hfit HX) as [?|(id & Hl)]; [by left|].
    right. exists id. destruct (Hfw id f Hl) as [?|Hin]; [done|].
    exfalso. apply Hnin. apply list_elem_of_fmap. by exists (id, f).
Qed.

Lemma tracked_drop L hand X R c : tracked (L ++ hand) X R c -> tracked hand X R c.
Proof.
  intros [T1 T2 T3]. split; [done| |done]. intros Hfit. destruct (T2 Hfit) as [B1 B2 B3 B4].
  assert (Hk : forall id f, known hand id f c -> known (L ++ hand) id f c).
  { unfold known. set_solver. }
  split; eauto.
Qed.

Lemma tracked_drop1 id f hand X R c : tracked ((id, f) :: hand) X R c -> tracked hand X R c.
Proof. apply (tracked_drop [(id, f)]). Qed.

(** A future in the hand that is not ready yet exists. *)
Lemma tracked_resolve id f hand X R r :
  triple (tracked ((id, f) :: hand) (without [(id, f)] X) R) (ResolveState f r)
    (fun _ => tracked ((id, f) :: hand) X R).
Proof.
  intros c [] c' [T1 T2 T3]. unfold ResolveState, bind, gets. cbn.
  assert (Hcase : forall fs, (forall g r, cl_futures c !! g = Some (Some r) -> fs !! g = Some (Some r)) ->
    length fs = length (cl_futures c) -> (ids_fit c -> exists r, fs !! f = Some (Some r)) ->
    tracked ((id, f) :: hand) X R (c <| cl_futures := fs |>)).
  { intros fs Hmono Hlen Hf. split.
    - intros g q Hr. apply Hmono. by apply T1.
    - unfold ids_fit. cbn. rewrite Hlen. intros Hfit. destruct (T2 Hfit) as [B1 B2 B3 B4].
      split; cbn; rewrite ?Hlen; eauto.
    - unfold ids_fit. cbn. rewrite Hlen. intros g Hfit HX.
      destruct (decide (g = f)) as [->|Hne]; [left; by apply Hf|].
      destruct (T3 g Hfit) as [(q & Hq)|?]; [split; [done|set_solver]|left|by right].
      exists q. by apply Hmono. }
  destruct (cl_futures c !! f) as [[q|]|] eqn:E; cbn; intros [= <-].
  - eapply tracked_same, (Hcase (cl_futures c)); eauto. done.
  - apply Hcase; [|by rewrite length_insert|].
    + intros g q Hg. rewrite list_lookup_insert_ne; [done|]. intros Heq. subst. congruence.
    + intros _. exists r. apply list_lookup_insert_eq. by eapply lookup_lt_Some.
  - eapply tracked_same, (Hcase (cl_futures c)); [done..|]. intros Hfit. destruct (T2 Hfit) as [_ _ _ B4].
    apply lookup_ge_None in E. specialize (B4 id f). exfalso.
    enough (f < length (cl_futures c))%nat by lia. apply B4. unfold known. set_solver.
Qed.

(** [ResolveState] on any future. *)
Lemma tracked_resolve_any f hand X R r : preserves (tracked hand X R) (ResolveState f r).
Proof.
  intros c [] c' [T1 T2 T3]. unfold ResolveState, bind, gets. cbn.
  destruct (cl_futures c !! f) as [[q|]|] eqn:E; cbn; intros [= <-]; [by split| |by split].
  assert (Hmono : forall g r', cl_futures c !! g = Some (Some r') ->
            <[f := Some r]> (cl_futures c) !! g = Some (Some r')).
  { intros g q Hg. rewrite list_lookup_insert_ne; [done|]. intros Heq. subst. congruence. }
  split; unfold ids_fit, ready; cbn; rewrite ?length_insert; eauto.
  - intros Hfit. destruct (T2 Hfit). split; cbn; rewrite ?length_insert; eauto.
  - intros g Hfit HX. destruct (T3 g Hfit HX) as [(q & Hq)|?]; [left; eauto|by right].
Qed.

(** [Put] of the call in the hand. *)
Lemma tracked_put id f hand X R p :
  pr_future p = f ->
  triple (tracked ((id, f) :: hand) (without [(id, f)] X) R) (Put id p)
    (fun _ => tracked ((id, f) :: hand) X R).
Proof.
  intros Hp c [] c' [T1 T2 T3] [= <-].
  assert (Hst : forall id' f', in_store id' f' (c <| cl_store := <[id := p]> (cl_store c) |>) <->
            (id' = id /\ f' = f) \/ (id' <> id /\ in_store id' f' c)).
  { intros id' f'. unfold in_store. cbn. destruct (decide (id' = id)) as [->|Hne].
    - rewrite lookup_insert_eq. naive_solver.
    - rewrite lookup_insert_ne by done. naive_solver. }
  assert (Hk : forall id' f', known ((id, f) :: hand) id' f' (c <| cl_store := <[id := p]> (cl_store c) |>) ->
            known ((id, f) :: hand) id' f' c).
  { intros id' f'. unfold known. rewrite Hst. set_solver. }
  split; [done| |].
  - intros Hfit. destruct (T2 Hfit) as [B1 B2 B3 B4]. split; eauto.
  - intros g Hfit HX. destruct (T2 Hfit) as [_ _ B3 _].
    destruct (decide (g = f)) as [->|Hne]; [right; exists id; right; rewrite Hst; by left|].
    destruct (T3 g Hfit) as [?|(id' & Hl)]; [split; [done|set_solver]|by left|].
    right. exists id'. rewrite Hst. destruct Hl as [?|Hs]; [by left|]. right.
    destruct (decide (id' = id)) as [->|?]; [|by right]. exfalso. apply Hne. apply (B3 id); unfold known; set_solver.
Qed.

(** [Take] puts what it returns into the hand. *)
Lemma tracked_Take id hand X R :
  triple (tracked hand X R) (Take id) (fun p c =>
    match p with
    | Some p => tracked ((id, pr_future p) :: hand) (without [(id, pr_future p)] X) R c
    | None => tracked hand X R c
    end).
Proof.
  intros c p c' Ht. unfold Take, bind, gets. cbn. destruct (cl_store c !! id) as [q|] eqn:E; cbn; intros [= <- <-]; [|done].
  apply (tracked_release [(id, pr_future q)] hand X R c); [done..| | |exact Ht].
  - intros id' f' [?|(p & Hp & Hf)]; [left; by left|]. destruct (decide (id' = id)) as [->|Hne].
    + right. apply list_elem_of_singleton. congruence.
    + left. right. exists p. split; [|done]. cbn. by rewrite lookup_delete_ne.
  - intros id' f' [[?|(p & Hp & Hf)]|Hin]; [by left| |].
    + right. exists p. split; [|done]. cbn in Hp. by apply lookup_delete_Some in Hp as [_ ?].
    + apply list_elem_of_singleton in Hin as [= -> ->]. right. by exists q.
Qed.

(** The calls of a list of store entries. *)
Definition entry_calls (l : list (Z * PendingRequest)) : list (Z * future_id) :=
  (fun kv => (kv.1, pr_future kv.2)) <$> l.

(** Failing or resolving the calls in the hand, one after the other. *)
Lemma tracked_for_each l hand X R (body : PendingRequest -> client unit) :
  (forall id p hand X, triple (tracked ((id, pr_future p) :: hand) (without [(id, pr_future p)] X) R) (body p)
    (fun _ => tracked ((id, pr_future p) :: hand) X R)) ->
  triple (tracked (entry_calls l ++ hand) (without (entry_calls l) X) R) (for_each l.*2 body)
    (fun _ => tracked hand X R).
Proof.
  intros Hb. induction l as [|[id p] l IH]; cbn.
  - apply triple_ret. intros c. apply tracked_weaken. intros f Hf. split; [done|set_solver].
  - eapply triple_bind.
    + eapply triple_weaken; [apply (Hb id p (entry_calls l ++ hand) (without (entry_calls l) X))| |by auto].
      intros c. apply tracked_weaken. intros f [[HX H1] H2]. split; [done|].
      change (f ∉ pr_future p :: (entry_calls l).*2). apply not_elem_of_cons. split; [|done].
      intros ->. by apply H2, list_elem_of_singleton.
    + intros u. eapply triple_weaken; [apply IH| |done]. intros c. apply tracked_drop1.
Qed.

End Moves.

#[export] Hint Resolve tracked_resolve_any : tracks.

(** ** The operations *)

Section Operations.
Context {PF : Platform} {CE : ClientEnv}.
Implicit Types (X : future_id -> Prop) (R : future_id -> RpcReply -> Prop).

(** [take] moves entries of the store to the hand. *)
Definition takes (take : client (list PendingRequest)) : Prop := forall hand X R,
  triple (tracked hand X R) take (fun l c =>
    exists kvs, l = kvs.*2 /\ tracked (entry_calls kvs ++ hand) (without (entry_calls kvs) X) R c).

(** [body] answers the call it is given. *)
Definition answers (body : PendingRequest -> client unit) : Prop := forall id p hand X R,
  triple (tracked ((id, pr_future p) :: hand) (without [(id, pr_future p)] X) R) (body p)
    (fun _ => tracked ((id, pr_future p) :: hand) X R).

Lemma tracked_take_and_answer take body hand X R :
  takes take -> answers body -> preserves (tracked hand X R) (l ← take; for_each l body).
Proof.
  intros Ht Hb. eapply triple_bind; [apply Ht|]. intros l c u c' (kvs & -> & Hc) Hr.
  eapply tracked_for_each; [|exact Hc|exact Hr]. intros. apply Hb.
Qed.

Lemma takes_filter (P : Z * PendingRequest -> Prop) `{!forall kv, Decision (P kv)} hand X R c :
  tracked hand X R c ->
  let kvs := map_to_list (filter P (cl_store c)) in
  tracked (entry_calls kvs ++ hand) (without (entry_calls kvs) X) R
    (c <| cl_store := filter (fun kv => ~ P kv) (cl_store c) |>).
Proof.
  intros Ht kvs. apply (tracked_release (entry_calls kvs) hand X R c); [done..| | |exact Ht].
  - intros id f [?|(p & Hp & Hf)]; [left; by left|]. destruct (decide (P (id, p))) as [HP|HP].
    + right. apply list_elem_of_fmap. exists (id, p). split; [by rewrite <- Hf|].
      apply elem_of_map_to_list. by apply map_lookup_filter_Some_2.
    + left. right. exists p. split; [|done]. cbn. by apply map_lookup_filter_Some_2.
  - intros id f [[?|(p & Hp & Hf)]|Hin]; [by left| |].
    + right. exists p. split; [|done]. cbn in Hp. by apply map_lookup_filter_Some in Hp as [? _].
    + apply list_elem_of_fmap in Hin as ([id' p] & [= -> ->] & Hin).
      apply elem_of_map_to_list, map_lookup_filter_Some in Hin as [? _]. right. by exists p.
Qed.

Lemma takes_expired now : takes (TakeExpired now).
Proof.
  intros hand X R c l c' Ht [= <- <-]. eexists. split; [done|].
  by apply (takes_filter (is_expired now)).
Qed.

Lemma takes_all : takes TakeAll.
Proof.
  intros hand X R c l c' Ht [= <- <-]. exists (map_to_list (cl_store c)). split; [done|].
  pose proof (takes_filter (fun _ => True) hand X R c Ht) as HF. cbn in HF.
  rewrite map_filter_id in HF by done. eapply tracked_same; [|exact HF].
  split; [done|]. split; [done|]. split; [|done]. cbn.
  symmetry. apply map_empty. intros i. apply map_lookup_filter_None. right. intros x _ Hn. by apply Hn.
Qed.

Lemma tracked_resolve_all hand X R status : preserves (tracked hand X R) (ResolveAllPending status).
Proof. apply tracked_take_and_answer; [apply takes_all|]. intros id p hand' X' R'. apply tracked_resolve. Qed.

(** Asking the policy about a failure, whatever it then schedules. *)
Definition tracks {A} (m : client A) : Prop := forall hand X R, preserves (tracked hand X R) m.

Lemma answers_fail (apply_decision : PendingInfo -> client unit) status :
  (forall info, tracks (apply_decision info)) ->
  answers (fun p => apply_decision (pr_info p);; ResolveState (pr_future p) (reply_of_status status)).
Proof. intros Ha id p hand X R. eapply triple_bind; [apply Ha|]. intros u. apply tracked_resolve. Qed.

Lemma tracked_apply_failure sched info status :
  (forall a b p, tracks (sched a b p)) -> tracks (ApplyFailureRecoveryDecisionLocked sched info status).
Proof.
  intros Hs hand X R. unfold ApplyFailureRecoveryDecisionLocked, ApplyRecoveryDecisionLocked. tracks.
  apply Hs.
Qed.

Lemma tracked_schedule depth a b p : tracks (ScheduleRecoveryLocked depth a b p).
Proof.
  revert a b p. induction depth as [|depth IH]; intros a b p hand X R; cbn; [apply preserves_diverge|].
  assert (tracks (FailAllPendingWithRecoveryPolicyLocked (ScheduleRecoveryLocked depth) PeerDisconnected)).
  { intros hand' X' R'. apply tracked_take_and_answer; [apply takes_all|].
    apply (answers_fail (fun i => ApplyFailureRecoveryDecisionLocked (ScheduleRecoveryLocked depth) i PeerDisconnected)).
    intros. by apply tracked_apply_failure. }
  unfold HandlePendingRequestsForRecoveryLocked. tracks; auto using tracked_resolve_all.
Qed.

Lemma tracked_sched a b p : tracks (schedule a b p).
Proof. apply tracked_schedule. Qed.

Lemma tracked_apply info status hand X R :
  preserves (tracked hand X R) (ApplyFailureRecoveryDecision info status).
Proof. apply tracked_apply_failure, tracked_sched. Qed.

Lemma tracked_decision decision id action hand X R :
  preserves (tracked hand X R) (ApplyRecoveryDecisionLocked schedule decision id action).
Proof. unfold ApplyRecoveryDecisionLocked. tracks. apply tracked_sched. Qed.

#[local] Hint Resolve tracked_resolve_all tracked_apply tracked_decision tracked_sched : tracks.

Lemma tracked_engine_death a b hand X R : preserves (tracked hand X R) (HandleEngineDeath a b).
Proof. unfold HandleEngineDeath, HandleEngineDeathLocked. tracks. Qed.

Lemma tracked_idle a b hand X R : preserves (tracked hand X R) (HandleIdleRecovery a b).
Proof. unfold HandleIdleRecovery. tracks. Qed.

Lemma tracked_external a b hand X R : preserves (tracked hand X R) (HandleExternalRecovery a b).
Proof. unfold HandleExternalRecovery, HandleExternalRecoveryLocked. tracks. apply tracked_sched. Qed.

#[local] Hint Resolve tracked_engine_death : tracks.

Lemma tracked_entry_payload entry p : keeps_calls (ResolveEntryPayload entry p).
Proof. unfold ResolveEntryPayload. keeps. Qed.
#[local] Hint Resolve tracked_entry_payload : calls.

End Operations.

#[export] Hint Resolve tracked_resolve_all tracked_apply tracked_decision tracked_engine_death tracked_idle
  tracked_external : tracks.
#[export] Hint Resolve tracked_entry_payload : calls.

(** ** Pushing and queueing *)

Section Queueing.
Context {PF : Platform} {CE : ClientEnv}.
Implicit Types (X : future_id -> Prop) (R : future_id -> RpcReply -> Prop).

Lemma tracked_hand_eq id f f' hand X R c :
  tracked ((id, f') :: (id, f) :: hand) (without [(id, f')] X) R c ->
  tracked ((id, f) :: hand) (without [(id, f)] X) R c.
Proof.
  intros Ht. pose proof (tracked_drop1 _ _ _ _ _ _ Ht) as [T1 T2 _]. destruct Ht as [_ T2' T3]. split; [done..|].
  intros g Hfit Hg. apply T3; [done|]. destruct (T2' Hfit) as [_ _ B3 _].
  by rewrite (B3 id f' f) by (unfold known; set_solver).
Qed.

(** The call of a submission. *)
Definition submit_call (submit : PendingSubmit) : Z * future_id := (sb_requestId submit, sb_future submit).

(** After a push: admitted, or still in the hand. *)
Definition admitted submit hand X R (status : StatusCode) : Client -> Prop :=
  tracked (submit_call submit :: hand) (if status_is status Ok then X else without [submit_call submit] X) R.

Lemma tracked_push_to_session submit entry payload kind hand X R :
  triple (tracked (submit_call submit :: hand) X R) (PushRequestToSession submit entry payload kind)
    (admitted submit hand X R).
Proof.
  unfold PushRequestToSession. eapply triple_bind; [apply keeps_tracked; keeps|]. intros st.
  destruct (negb (status_is st Ok)) eqn:E; bool_to_prop.
  - eapply triple_bind; [apply tracked_Take|]. intros p.
    eapply (triple_bind _ _ _ (fun _ => tracked (submit_call submit :: hand) (without [submit_call submit] X) R)).
    2:{ intros u. apply triple_ret. intros c. unfold admitted. by rewrite E. }
    eapply triple_weaken; [apply (keeps_tracked (submit_call submit :: hand) (without [submit_call submit] X) R); keeps| |done].
    intros c. destruct p as [p|]; [apply tracked_hand_eq|]. apply tracked_weaken. by intros f [].
  - eapply triple_bind; [apply keeps_tracked; unfold header_cursor; keeps|]. intros [cur|].
    2:{ by intros c a c' _. }
    repeat (eapply triple_bind; [apply keeps_tracked; keeps|intros ?]).
    apply triple_ret. intros c. unfold admitted. done.
Qed.

Lemma tracked_push submit hand X R :
  triple (tracked (submit_call submit :: hand) (without [submit_call submit] X) R) (TryPushRequest submit)
    (admitted submit hand X R).
Proof.
  unfold TryPushRequest. apply preserves_gets_bind. intros c0.
  set (P := tracked (submit_call submit :: hand) (without [submit_call submit] X) R).
  destruct (negb (status_is (ValidatePushSession _) Ok)) eqn:E; bool_to_prop.
  { apply triple_ret. intros c [-> Hc]. unfold admitted. by rewrite E. }
  apply (triple_weaken _ P _ _ (admitted submit hand X R)); [|by intros c [-> ?]|done].
  eapply triple_bind; [apply keeps_tracked; keeps|]. intros [[st data] kind].
  destruct (negb (status_is st Ok)) eqn:E2; bool_to_prop.
  { apply triple_ret. intros c Hc. unfold admitted. by rewrite E2. }
  eapply triple_bind; [apply keeps_tracked; keeps|]. intros entry.
  eapply (triple_bind _ _ _ (fun p c => P c /\ pr_future p = sb_future submit)).
  { intros c p c' Hc Hr. split; [by eapply (keeps_tracked _ _ _ _ (keeps_build submit))|].
    revert Hr. unfold BuildPendingRequest, MakePendingInfo, MakePendingWaitDeadline, bind, gets, CurrentSessionId. cbn.
    destruct (_ =? 0); cbn; by intros [= <- _]. }
  intros p c u c' [Hc Hp]. eapply (triple_bind P); [by apply tracked_put|intros ?; apply tracked_push_to_session|done].
Qed.

(** Taking the first submission from the queue. *)
Lemma tracked_dequeue submit rest hand X R c :
  cl_submitQueue c = submit :: rest -> tracked hand X R c ->
  tracked (submit_call submit :: hand) (without [submit_call submit] X) R (c <| cl_submitQueue := rest |>).
Proof.
  intros Hq Ht. apply (tracked_release [submit_call submit] hand X R c); [done..| | |exact Ht].
  - intros id f [(s & Hs & <- & <-)|?]; [|left; by right]. rewrite Hq in Hs.
    apply elem_of_cons in Hs as [->|Hs]; [right; by apply list_elem_of_singleton|left; left; by exists s].
  - intros id f [[(s & Hs & <- & <-)|?]|Hin]; [|by right|].
    + left. exists s. rewrite Hq. split; [by apply elem_of_cons; right|done].
    + apply list_elem_of_singleton in Hin as [= -> ->]. left. exists submit. rewrite Hq.
      split; [by apply elem_of_cons; left|done].
Qed.

Lemma keeps_when b (m : client unit) : keeps_calls m -> keeps_calls (when b m).
Proof. destruct b; [done|]. intros _. apply keeps_ret. Qed.

Lemma push_to_session_spec submit entry data kind c status c' :
  PushRequestToSession submit entry data kind c = Returns (status, c') ->
  cl_futures c' = cl_futures c /\ cl_submitQueue c' = cl_submitQueue c /\
  cl_store c' = if status_is status Ok then cl_store c else delete (sb_requestId submit) (cl_store c).
Proof.
  intros Hr. unfold PushRequestToSession in Hr. step Hr as st c1 E. apply keeps_push in E as (Hf1 & Hq1 & Hs1 & _).
  destruct (negb (status_is st Ok)) eqn:Est; bool_to_prop.
  - step Hr as q c2 E. step Hr as [] c3 E3. injection Hr as <- <-.
    eapply keeps_when in E3 as (Hf3 & Hq3 & Hs3 & _); [|solve [keeps]]. rewrite Est, Hf3, Hq3, Hs3.
    unfold Take, bind, gets in E. cbn in E. rewrite Hs1 in E.
    destruct (cl_store c !! sb_requestId submit) eqn:El; injection E as <- <-; cbn; [done|].
    rewrite Hf1, Hq1, Hs1. by rewrite delete_id.
  - step Hr as cur c2 E. injection E as <- <-. destruct (_ <$> _) as [cur|]; [|done].
    step Hr as hs c2 E. injection E as _ <-.
    step Hr as [] c3 E3. eapply keeps_when in E3 as (Hf3 & Hq3 & Hs3 & _); [|solve [keeps]].
    step Hr as [] c4 E4. apply keeps_touch in E4 as (Hf4 & Hq4 & Hs4 & _). injection Hr as <- <-.
    rewrite status_is_refl. split_and!; congruence.
Qed.

(** [InvokeAsync] when the client accepts calls, and when it does not. *)
Lemma InvokeAsync_open call c :
  cl_control c = ApiOpen ->
  let id := cl_nextRequestId c in
  let f := length (cl_futures c) in
  InvokeAsync call c = Returns (f, c <| cl_futures := cl_futures c ++ [None] |>
    <| cl_nextRequestId := u64 (id + 1) |>
    <| cl_submitQueue := cl_submitQueue c ++ [{| sb_call := call; sb_requestId := id; sb_future := f |}] |>).
Proof.
  intros Ho. unfold InvokeAsync, new_future, AdmissionStatusForInvoke, IsApiOpen, bind, gets, modify. cbn.
  rewrite Ho. done.
Qed.

Lemma InvokeAsync_rejected call c :
  cl_control c <> ApiOpen ->
  InvokeAsync call c = Returns (S (length (cl_futures c)),
    c <| cl_futures := (cl_futures c ++ [None]) ++ [Some (reply_of_status ClientClosed)] |>
      <| cl_nextRequestId := u64 (cl_nextRequestId c + 1) |>).
Proof.
  intros Ho. unfold InvokeAsync, new_future, AdmissionStatusForInvoke, IsApiOpen, RejectInvoke, ResolveState,
    bind, gets, modify. cbn.
  rewrite bool_decide_eq_false_2 by done. unfold fetch_request_id, bind, gets, modify. cbn.
  rewrite status_is_refl, status_is_false by done. cbn.
  rewrite lookup_app_r by (rewrite length_app; cbn; lia). rewrite length_app, Nat.add_1_r, Nat.sub_diag. cbn.
  rewrite insert_app_r_alt by (rewrite length_app; cbn; lia). rewrite length_app, Nat.add_1_r, Nat.sub_diag. done.
Qed.

(** New futures, a new request id, and perhaps a submission [new] with them. *)
Lemma tracked_grow f l new hand X R c c' :
  cl_futures c' = cl_futures c ++ l -> l <> [] -> cl_nextRequestId c' = u64 (cl_nextRequestId c + 1) ->
  cl_store c' = cl_store c -> cl_submitQueue c' = cl_submitQueue c ++ new ->
  (forall s, s ∈ new -> sb_requestId s = cl_nextRequestId c /\ sb_future s = f) ->
  (f < length (cl_futures c'))%nat -> ready f c' \/ new <> [] ->
  tracked hand X R c -> tracked hand (with_future f X) R c'.
Proof.
  intros Hf Hl Hn Hs Hq Hnew Hflt Hnow [T1 T2 T3].
  assert (Hlen : (length (cl_futures c) < length (cl_futures c'))%nat).
  { rewrite Hf, length_app. destruct l; [done|]. cbn. lia. }
  assert (Hfit : ids_fit c' -> ids_fit c) by (unfold ids_fit; lia).
  assert (Hk : forall id g, known hand id g c' -> known hand id g c \/ (id = cl_nextRequestId c /\ g = f)).
  { intros id g [(s & Hin & <- & <-)|[(p & Hp & Hpf)|?]]; unfold known, in_store, in_queue; rewrite <- ?Hs.
    - rewrite Hq in Hin. apply elem_of_app in Hin as [?|Hin]; [left; left; by exists s|right; by apply Hnew].
    - left. right. left. by exists p.
    - tauto. }
  split.
  - intros g r Hr. rewrite Hf. by apply lookup_app_l_Some, T1.
  - intros Hfit'. destruct (T2 (Hfit Hfit')) as [B1 B2 B3 B4].
    assert (Hnext : cl_nextRequestId c' = cl_nextRequestId c + 1).
    { rewrite Hn. apply u64_id. unfold ids_fit in Hfit'. lia. }
    split; [lia| | |].
    + intros id g Hkn. apply Hk in Hkn as [Hkn|[-> _]]; [apply B2 in Hkn|]; lia.
    + intros id g g' H1 H2. apply Hk in H1, H2.
      destruct H1 as [H1|[-> ->]], H2 as [H2|[E ->]]; [by eapply B3| | |done].
      * apply B2 in H1. lia.
      * apply B2 in H2. lia.
    + intros id g Hkn. apply Hk in Hkn as [Hkn|[_ ->]]; [apply B4 in Hkn; lia|done].
  - intros g Hfit' [HX| ->].
    + destruct (T3 g (Hfit Hfit') HX) as [(r & Hr)|(id & Hloc)].
      * left. exists r. rewrite Hf. by apply lookup_app_l_Some.
      * right. exists id. unfold in_queue, in_store in *. rewrite Hs, Hq. destruct Hloc as [(s & ? & ?)|?]; [left|by right].
        exists s. rewrite elem_of_app. tauto.
    + destruct Hnow as [?|Hne]; [by left|]. right. destruct new as [|s new]; [done|].
      destruct (Hnew s) as [_ Hsf]; [by apply elem_of_cons; left|].
      exists (sb_requestId s). left. exists s. rewrite Hq. split; [|done]. set_solver.
Qed.

(** [InvokeAsync] hands out a future that is accounted for. *)
Lemma tracked_invoke call hand X R :
  triple (tracked hand X R) (InvokeAsync call) (fun f => tracked hand (with_future f X) R).
Proof.
  intros c f c' Ht. destruct (decide (cl_control c = ApiOpen)) as [Ho|Ho].
  - rewrite (InvokeAsync_open call c Ho). intros [= <- <-].
    eapply (tracked_grow _ [None]); [..|exact Ht]; try done.
    + by intros s ->%list_elem_of_singleton.
    + cbn. rewrite length_app. cbn. lia.
    + by right.
  - rewrite (InvokeAsync_rejected call c Ho). intros [= <- <-].
    eapply (tracked_grow _ [None; Some (reply_of_status ClientClosed)] []); [..|exact Ht]; try done.
    + cbn. by rewrite <- app_assoc.
    + cbn. by rewrite app_nil_r.
    + by intros s ?%elem_of_nil.
    + cbn. rewrite !length_app. cbn. lia.
    + left. eexists. cbn. rewrite lookup_app_r by (rewrite length_app; cbn; lia).
      rewrite length_app, Nat.add_1_r, Nat.sub_diag. done.
Qed.

End Queueing.
