(* ===== verification/ClientCalls.v ===== *)
(** * The client: the calls of all threads

    [holding hand] is what a thread knows about the calls it has taken from
    the queue or the store and has yet to answer.  Every operation and every
    background thread starts and ends with an empty hand. *)

From Stdlib Require Import Lia.
From S2P Require Import Prelude Machine Threads Pool Types ShmLayout Ring FilePayload EventFd Os Platform Session.
From S2P Require Import ClientState ClientRecovery ClientCore ClientWorkers ClientConfig ClientFutures.
#[local] Abbreviation stays := (Threads.stays (W := worker)).
#[local] Abbreviation twp := (Threads.twp (W := worker)).
#[local] Open Scope thread_scope.

Section Holding.
Context {PF : Platform} {CE : ClientEnv}.

(** A call in the hand: its future, and its request id where it matters. *)
Definition item : Type := option Z * future_id.

Definition matches (hand : list item) (kvs : list (Z * future_id)) : Prop :=
  Forall2 (fun h kv => h.2 = kv.2 /\ forall id, h.1 = Some id -> kv.1 = id) hand kvs.

(** The calls in the hands of the other threads, the futures that are to be
    accounted for, the replies already given. *)
Record frame : Type := {
  fr_hand : list (Z * future_id);
  fr_due : future_id -> Prop;
  fr_replies : future_id -> RpcReply -> Prop;
}.

Definition holding (hand : list item) : assertion := fun fr c =>
  exists kvs, matches hand kvs /\ tracked (kvs ++ fr_hand fr) (without kvs (fr_due fr)) (fr_replies fr) c.

Lemma without_cons kv kvs X f : without [kv] (without kvs X) f <-> without (kv :: kvs) X f.
Proof.
  unfold without. cbn. rewrite !not_elem_of_cons. pose proof (not_elem_of_nil f). tauto.
Qed.

Lemma without_app l kvs X f : without l (without kvs X) f <-> without (l ++ kvs) X f.
Proof. unfold without. rewrite fmap_app, elem_of_app. tauto. Qed.

Lemma holding_nil fr c : holding [] fr c <-> tracked (fr_hand fr) (fr_due fr) (fr_replies fr) c.
Proof.
  split.
  - intros (kvs & Hm & Ht). apply Forall2_nil_inv_l in Hm as ->. eapply tracked_weaken, Ht.
    intros f Hf. split; [done|apply not_elem_of_nil].
  - intros Ht. exists []. split; [constructor|]. eapply tracked_weaken, Ht. by intros f [].
Qed.

Lemma holds_tracks {A} hand (m : client A) : tracks m -> holds (holding hand) m (fun _ => holding hand).
Proof. intros Hm fr c a c' (kvs & Hk & Ht) Hr. exists kvs. split; [done|]. by eapply Hm. Qed.

Lemma holds_keeps {A} hand (m : client A) : keeps_calls m -> holds (holding hand) m (fun _ => holding hand).
Proof. intros Hm. apply holds_tracks. intros h X R. by apply keeps_tracked. Qed.

Lemma stays_tracks {A} hand (m : client A) : tracks m -> stays holding hand (atomic m).
Proof. intros Hm. apply stays_atomic. by apply holds_tracks. Qed.

(** ** Taking calls into the hand and answering them *)

Lemma holds_resolve o f hand r : holds (holding ((o, f) :: hand)) (ResolveState f r) (fun _ => holding hand).
Proof.
  intros fr c u c' (kvs & Hm & Ht) Hr. apply Forall2_cons_inv_l in Hm as ([id f'] & kvs' & [Hf _] & Hm & ->).
  cbn in Hf. subst f'. exists kvs'. split; [done|]. eapply tracked_drop1, (tracked_resolve id); [|exact Hr].
  eapply tracked_weaken, Ht. intros g. apply without_cons.
Qed.

Lemma holds_Take id hand :
  holds (holding hand) (Take id)
    (fun p => match p with Some p => holding ((Some id, pr_future p) :: hand) | None => holding hand end).
Proof.
  intros fr c p c' (kvs & Hm & Ht) Hr. pose proof (tracked_Take id _ _ _ c p c' Ht Hr) as HT.
  destruct p as [p|]; [|by exists kvs]. exists ((id, pr_future p) :: kvs). split.
  - constructor; [|done]. split; [done|]. by intros id' [= <-].
  - eapply tracked_weaken, HT. intros g. apply without_cons.
Qed.

(** The items of requests taken from the store, and of submissions. *)
Definition request_item (p : PendingRequest) : item := (None, pr_future p).

Definition submit_item (s : PendingSubmit) : item := (Some (sb_requestId s), sb_future s).

Lemma matches_requests kvs : matches (request_item <$> kvs.*2) (entry_calls kvs).
Proof. induction kvs as [|[id p] kvs IH]; [constructor|]. cbn. by constructor. Qed.

Lemma matches_submits q : matches (submit_item <$> q) (submit_call <$> q).
Proof. induction q as [|s q IH]; [constructor|]. constructor; [|done]. split; [done|]. by intros id [= <-]. Qed.

Lemma holds_takes take hand :
  takes take -> holds (holding hand) take (fun l => holding ((request_item <$> l) ++ hand)).
Proof.
  intros Htake fr c l c' (kvs & Hm & Ht) Hr. destruct (Htake _ _ _ c l c' Ht Hr) as (new & -> & HT).
  exists (entry_calls new ++ kvs). split; [apply Forall2_app; [apply matches_requests|done]|].
  rewrite <- app_assoc. eapply tracked_weaken, HT. intros g. apply without_app.
Qed.

(** Answering a list of calls one after the other. *)
Lemma twp_answer_all {A} (g : A -> item) (l : list A) hand (body : A -> client_thread unit) :
  (forall a hand, twp holding (holding (g a :: hand)) (body a) (fun _ => holding hand)) ->
  twp holding (holding ((g <$> l) ++ hand)) (tfor_each l body) (fun _ => holding hand).
Proof.
  intros Hb. induction l as [|a l IH]; cbn [tfor_each]; [by apply twp_ret|].
  tw (apply Hb). exact IH.
Qed.

Lemma twp_answer_then_yield (t : client_thread unit) hand1 hand :
  twp holding (holding hand1) t (fun _ => holding hand) ->
  twp holding (holding hand1) (t;; yield) (fun _ => holding hand).
Proof. intros Ht. tw (exact Ht). apply twp_yield. Qed.

Lemma twp_FailAndResolve o f info status hand :
  twp holding (holding ((o, f) :: hand)) (FailAndResolve info status f) (fun _ => holding hand).
Proof.
  unfold FailAndResolve. tw (apply stays_tracks; intros ? ? ?; apply tracked_apply).
  tw (apply twp_yield). apply twp_atomic, holds_resolve.
Qed.

(** Taking requests from the store and failing them. *)
Lemma stays_fail_taken take status hand :
  takes take ->
  stays holding hand (l ← take; yield;;
    tfor_each l (fun p => FailAndResolve (pr_info p) status (pr_future p);; yield)).
Proof.
  intros Ht. tw (apply twp_atomic, holds_takes, Ht) as l.
  tw (apply twp_yield). apply twp_answer_all. intros p h.
  apply twp_answer_then_yield, twp_FailAndResolve.
Qed.

Lemma holds_swap hand :
  holds (holding hand) swap_submit_queue (fun q => holding ((submit_item <$> q) ++ hand)).
Proof.
  intros fr c q c' (kvs & Hm & Ht) [= <- <-]. exists ((submit_call <$> cl_submitQueue c) ++ kvs).
  split; [apply Forall2_app; [apply matches_submits|done]|]. rewrite <- app_assoc.
  eapply tracked_weaken; [intros g; apply without_app|]. eapply (tracked_release _ _ _ _ c); [done..| | |exact Ht].
  - intros id f [(s & Hs & <- & <-)|?]; [right|left; by right]. apply list_elem_of_fmap. by exists s.
  - intros id f [[(s & Hs & _)|?]|Hin]; [by apply not_elem_of_nil in Hs|by right|].
    apply list_elem_of_fmap in Hin as (s & [= -> ->] & Hin). left. by exists s.
Qed.

Lemma holds_pop hand :
  holds (holding hand) pop_submit
    (fun s => match s with Some s => holding (submit_item s :: hand) | None => holding hand end).
Proof.
  intros fr c s c' (kvs & Hm & Ht). unfold pop_submit, bind, gets, modify. cbn.
  destruct (cl_submitQueue c) as [|submit rest] eqn:Hq.
  - destruct (cl_submitStop c); [|done]. intros [= <- <-]. by exists kvs.
  - cbn. intros [= <- <-]. exists (submit_call submit :: kvs). split.
    + constructor; [|done]. split; [done|]. by intros id [= <-].
    + eapply tracked_weaken; [intros g; apply without_cons|]. by apply tracked_dequeue.
Qed.

Lemma holds_push submit hand :
  holds (holding (submit_item submit :: hand)) (TryPushRequest submit)
    (fun st => if status_is st Ok then holding hand else holding (submit_item submit :: hand)).
Proof.
  intros fr c st c' (kvs & Hm & Ht) Hr. apply Forall2_cons_inv_l in Hm as ([id f] & kvs' & [Hf Hid] & Hm & ->).
  cbn in Hf. rewrite (Hid _ eq_refl : id = sb_requestId submit) in *. subst f.
  assert (Ht' : tracked (submit_call submit :: (kvs' ++ fr_hand fr))
    (without [submit_call submit] (without kvs' (fr_due fr))) (fr_replies fr) c).
  { eapply tracked_weaken, Ht. intros g. apply without_cons. }
  pose proof (tracked_push submit _ _ _ c st c' Ht' Hr) as HA. unfold admitted in HA. destruct (status_is st Ok).
  - exists kvs'. split; [done|]. by eapply tracked_drop1.
  - exists (submit_call submit :: kvs'). split; [constructor; [|done]; split; [done|]; by intros id' [= <-]|].
    eapply tracked_weaken, HA. intros g. apply without_cons.
Qed.

End Holding.

(** Steps that leave the hand as it is. *)
Ltac calls_base := apply stays_tracks; intros ? ? ?; tracks.
Ltac calls := repeat stays_step calls_base.

(** ** The threads *)

Section Threads.
Context {PF : Platform} {CE : ClientEnv}.

Lemma calls_recovery_wait fuel d mode hand : stays holding hand (WaitForRecoveryState fuel d mode).
Proof.
  induction fuel as [|fuel IH]; cbn [WaitForRecoveryState]; [apply stays_diverge|].
  unfold WorkerStoppedStatus, WaitForCooldownStepLocked, WaitForRetryStepLocked, RecoveryStateWaitResultLocked. calls.
Qed.

Lemma calls_poll fd t hand : stays holding hand (poll fd t).
Proof. unfold poll. calls. Qed.
#[local] Hint Resolve calls_recovery_wait calls_poll : threads.

Lemma calls_credit_loop fuel fd hand : stays holding hand (credit_loop fuel fd).
Proof. induction fuel as [|fuel IH]; cbn [credit_loop]; [apply stays_diverge|]. calls. Qed.
#[local] Hint Resolve calls_credit_loop : threads.

Lemma calls_credit fuel hand : stays holding hand (WaitForRequestCredit fuel).
Proof. unfold WaitForRequestCredit. calls. Qed.

Lemma calls_session_ready fuel hand : stays holding hand (WaitUntilSessionReadyForSubmit fuel).
Proof.
  induction fuel as [|fuel IH]; cbn [WaitUntilSessionReadyForSubmit]; [apply stays_diverge|].
  unfold RuntimeStopStatus, WaitForCooldownToSettle, WaitOneRecoveryRetryTick, EnsureLiveSession. calls.
Qed.

Lemma calls_sleep ms hand : stays holding hand (sleep_for ms).
Proof. unfold sleep_for. calls. Qed.
#[local] Hint Resolve calls_credit calls_session_ready calls_sleep : threads.

(** After an attempt to admit [submit]: admitted, or still in the hand. *)
Definition admission submit hand (st : StatusCode) : assertion :=
  if status_is st Ok then holding hand else holding (submit_item submit :: hand).

Lemma calls_admit fuel submit hand :
  twp holding (holding (submit_item submit :: hand)) (TryAdmitSubmit fuel submit) (admission submit hand).
Proof.
  unfold TryAdmitSubmit. tw (apply twp_atomic, holds_push) as st.
  destruct (status_is st Ok) eqn:E; [by apply twp_ret|].
  assert (Hst : twp holding (holding (submit_item submit :: hand)) (mret st) (admission submit hand)).
  { apply twp_ret. unfold admission. by rewrite E. }
  assert (Hclose : stays holding (submit_item submit :: hand) CloseLiveSessionForTransportFailure).
  { unfold CloseLiveSessionForTransportFailure. calls. }
  tw (apply twp_yield). destruct (status_is st PayloadTooLarge); [done|].
  destruct (status_is st PeerDisconnected).
  { tw (exact Hclose). eapply twp_bind; [apply calls_sleep|]. by intros ?. }
  destruct (status_is st QueueFull); [|done]. tw (apply calls_credit) as res.
  destruct (_ || _); [done|]. tw (apply twp_yield).
  tw (exact Hclose). by apply twp_ret.
Qed.

Lemma calls_submit_loop fuel submit info hand :
  twp holding (holding (submit_item submit :: hand)) (submit_loop fuel submit info) (fun _ => holding hand).
Proof.
  induction fuel as [|fuel IH]; cbn [submit_loop]; [apply twp_diverge|]. unfold ResolveSubmitFailure.
  tw (apply twp_yield).
  apply stays_then; [calls|]. intros running. destruct (negb running).
  { apply stays_then; [unfold RuntimeStopStatus; calls|].
    intros st. apply twp_FailAndResolve. }
  tw (apply calls_session_ready) as st. destruct (negb (status_is st Ok)); [apply twp_FailAndResolve|].
  tw (apply twp_yield).
  tw (apply calls_admit) as st'. unfold admission. destruct (status_is st' Ok); [by apply twp_ret|].
  destruct (_ || _); [exact IH|apply twp_FailAndResolve].
Qed.

Lemma calls_submit_worker fuel hand : stays holding hand (SubmitWorker_Run fuel).
Proof.
  induction fuel as [|fuel IH]; cbn [SubmitWorker_Run]; [apply stays_diverge|].
  apply stays_bind; [apply stays_cv_wait|]. intros ?.
  tw (apply twp_atomic, holds_pop) as [submit|]; [|by apply twp_ret].
  tw (apply twp_yield). unfold SubmitOne, MakePendingInfo.
  eapply (twp_bind _ _ _ _ (fun _ => holding hand)).
  - apply stays_then; [calls|]. intros info.
    apply calls_submit_loop.
  - intros ?. tw (apply twp_yield). exact IH.
Qed.

(** A reply: the request is taken from the store and its future answered. *)
Lemma calls_reply entry hand : stays holding hand (ResolveCompletedRequest entry).
Proof.
  unfold ResolveCompletedRequest. tw (apply twp_atomic, holds_Take) as [p|].
  2:{ unfold DiscardEntryPayloadIfPresent. apply stays_end. calls. }
  set (h := (Some (rs_requestId entry), pr_future p) :: hand).
  tw (apply (twp_yield _ h)).
  apply stays_then; [calls|]. intros [st data].
  tw (apply (twp_yield _ h)).
  apply stays_then; [calls|]. intros ?.
  tw (apply twp_atomic, holds_resolve).
  apply stays_end. calls.
Qed.

Lemma calls_event entry hand : stays holding hand (DeliverEvent entry).
Proof. unfold DeliverEvent, DiscardEntryPayloadIfPresent. calls. Qed.
#[local] Hint Resolve calls_reply calls_event : threads.

Lemma calls_drain fuel drained hand : stays holding hand (DrainResponseRing fuel drained).
Proof. revert drained. induction fuel as [|fuel IH]; intros drained; cbn [DrainResponseRing]; [apply stays_diverge|]. calls. Qed.

Lemma tracked_sync_poll p hand X R : preserves (tracked hand X R) (SyncActivePollSession p).
Proof. unfold SyncActivePollSession, DuplicateResponseWaitHandle, ResetActivePollFd. tracks. Qed.
#[local] Hint Resolve calls_drain : threads.
#[local] Hint Resolve tracked_sync_poll : tracks.

Lemma calls_poll_ready fuel p hand : stays holding hand (WaitUntilResponsePollReady fuel p).
Proof.
  revert p. induction fuel as [|fuel IH]; intros p; cbn [WaitUntilResponsePollReady]; [apply stays_diverge|].
  unfold WaitForNotification. calls.
Qed.
#[local] Hint Resolve calls_poll_ready : threads.

Lemma calls_response_worker fuel hand : stays holding hand (ResponseWorker_Run fuel).
Proof.
  unfold ResponseWorker_Run.
  assert (Hloop : forall p, stays holding hand (response_loop fuel p)).
  { induction fuel as [|n IH]; intros p; cbn [response_loop]; [apply stays_diverge|].
    unfold WaitForResponseSignal, ResetActivePollFd. calls. }
  unfold ResetActivePollFd. calls.
Qed.

Lemma calls_timeouts hand : stays holding hand MaybeRunPendingTimeouts.
Proof.
  unfold MaybeRunPendingTimeouts. apply stays_bind; [calls|]. intros now. apply stays_bind; [apply stays_yield|].
  intros ?. apply stays_fail_taken, takes_expired.
Qed.

Lemma calls_idle_policy hand : stays holding hand MaybeRunIdlePolicy.
Proof. unfold MaybeRunIdlePolicy. calls. Qed.

Lemma calls_health hand : stays holding hand MaybeRunHealthCheck.
Proof. unfold MaybeRunHealthCheck, RequestHealthCheckRecovery. calls. Qed.
#[local] Hint Resolve calls_timeouts calls_idle_policy calls_health : threads.

Lemma calls_watchdog fuel hand : stays holding hand (WatchdogLoop fuel).
Proof.
  assert (Hloop : forall a b d, stays holding hand (watchdog_loop fuel a b d)).
  { induction fuel as [|n IH]; intros; cbn [watchdog_loop]; [apply stays_diverge|]. unfold run_due. calls. }
  unfold WatchdogLoop. calls.
Qed.

Lemma calls_worker fuel w hand : stays holding hand (run_worker fuel w).
Proof.
  unfold run_worker. apply stays_bind; [|calls].
  destruct w; [apply calls_submit_worker|apply calls_response_worker|apply calls_watchdog].
Qed.

Lemma calls_start hand : stays holding hand StartThreads.
Proof. unfold StartThreads, start_thread, StartRuntime. calls. Qed.

Lemma calls_stop hand : stays holding hand StopThreads.
Proof. unfold StopThreads, join_thread, StopRuntime. calls. Qed.

Lemma calls_fail_outstanding status hand : stays holding hand (FailOutstandingWork status).
Proof.
  unfold FailOutstandingWork. apply stays_bind; [apply stays_fail_taken, takes_all|]. intros ?.
  unfold FailQueuedSubmissions. tw (apply twp_atomic, holds_swap) as q.
  tw (apply twp_yield). apply twp_answer_all. intros s h.
  apply twp_answer_then_yield, twp_atomic. apply holds_resolve.
Qed.
#[local] Hint Resolve calls_start calls_stop calls_fail_outstanding : threads.

Lemma calls_shutdown hand : stays holding hand Shutdown.
Proof. unfold Shutdown, BeginShutdown, CanStartShutdown, FinishShutdown, ClearCallbacks, ClearRecoveryEventCallback. calls. Qed.
#[local] Hint Resolve calls_shutdown : threads.

Lemma calls_init mode hand : stays holding hand (Init mode).
Proof. unfold Init, IsApiTerminal, EnsureLiveSession, PrepareForInitOpen, FinishInit. calls. Qed.

Lemma keeps_call_user f : keeps_calls (call_user f).
Proof. intros c a c'. unfold call_user. destruct (f _). by intros [= <- <-]. Qed.
#[local] Hint Resolve keeps_call_user : calls.

Lemma calls_retry fuel f hand :
  stays holding hand (RetryUntilRecoverySettles fuel ((fun f => atomic (call_user f)) <$> f)).
Proof.
  destruct f as [f|]; cbn [fmap option_fmap option_map RetryUntilRecoverySettles]; [|calls].
  assert (Hloop : forall d st, stays holding hand (retry_loop fuel (atomic (call_user f)) d st)).
  { induction fuel as [|n IH]; intros; cbn [retry_loop]; [apply stays_diverge|].
    unfold GetRecoveryRuntimeSnapshot, GetSnapshot, HasPendingRecoveryLocked, WaitForCooldownToSettle,
      WaitOneRecoveryRetryTick. calls. }
  unfold GetRecoveryRuntimeSnapshot, GetSnapshot, HasPendingRecoveryLocked. calls.
Qed.
#[local] Hint Resolve calls_init calls_retry : threads.

Lemma calls_op op hand : stays holding hand (perform op).
Proof.
  destruct op; cbn [perform]; unfold RequestExternalRecovery, bootstrap_death_callback, SetRecoveryPolicy,
    SetEventCallback, RpcClient_SetBootstrapChannel, SetBootstrapChannel, InstallDeathCallbackLocked; calls.
Qed.

End Threads.

(** ** All threads together *)

Section Together.
Context {PF : Platform} {CE : ClientEnv}.
Implicit Types (calls : list future_id) (R : future_id -> RpcReply -> Prop).

Definition all_hands (ls : list (role * list item)) : list item := concat ls.*2.

(** Every future that was returned is accounted for, and [R] are replies
    already given. *)
Definition calls_global R calls (ls : list (role * list item)) (c : Client) : Prop :=
  exists kvs, matches (all_hands ls) kvs /\ tracked kvs (without kvs (fun f => f ∈ calls)) R c.

Definition calls_compat R calls (r : role) (l1 l2 : list (role * list item)) (fr : frame) : Prop :=
  exists kvs1 kvs2, matches (all_hands l1) kvs1 /\ matches (all_hands l2) kvs2 /\
    fr = {| fr_hand := kvs1 ++ kvs2; fr_due := without (kvs1 ++ kvs2) (fun f => f ∈ calls); fr_replies := R |}.

Lemma tracked_hand_perm hand hand' X X' R c :
  (forall x, x ∈ hand <-> x ∈ hand') -> (forall f, X' f -> X f) -> tracked hand X R c -> tracked hand' X' R c.
Proof.
  intros Hh HX [T1 T2 T3]. assert (Hk : forall id f, known hand' id f c <-> known hand id f c).
  { intros. unfold known. by rewrite Hh. }
  split; [done| |eauto]. intros Hfit. destruct (T2 Hfit) as [B1 B2 B3 B4].
  split; [done|..]; intros id f; rewrite ?Hk; [apply B2| |apply B4]. intros f'. rewrite !Hk. apply B3.
Qed.

Lemma all_hands_app l1 l2 : all_hands (l1 ++ l2) = all_hands l1 ++ all_hands l2.
Proof. unfold all_hands. by rewrite fmap_app, concat_app. Qed.

Lemma all_hands_cons r l ls : all_hands ((r, l) :: ls) = l ++ all_hands ls.
Proof. done. Qed.

Lemma calls_split R calls l1 r l l2 c :
  calls_global R calls (l1 ++ (r, l) :: l2) c <-> exists fr, calls_compat R calls r l1 l2 fr /\ holding l fr c.
Proof.
  split.
  - intros (kvs & Hm & Ht). rewrite all_hands_app, all_hands_cons in Hm.
    apply Forall2_app_inv_l in Hm as (k1 & k' & H1 & Hm & ->). apply Forall2_app_inv_l in Hm as (k & k2 & Hk & H2 & ->).
    eexists. split; [by exists k1, k2|]. exists k. split; [done|]. cbn. eapply tracked_hand_perm, Ht.
    + intros x. rewrite !elem_of_app. tauto.
    + unfold without. intros f. rewrite !fmap_app, !elem_of_app. tauto.
  - intros (fr & (k1 & k2 & H1 & H2 & ->) & k & Hk & Ht). exists (k1 ++ k ++ k2). split.
    + rewrite all_hands_app, all_hands_cons. apply Forall2_app; [done|]. by apply Forall2_app.
    + eapply tracked_hand_perm, Ht; cbn.
      * intros x. rewrite !elem_of_app. tauto.
      * unfold without. intros f. rewrite !fmap_app, !elem_of_app. tauto.
Qed.

#[export] Instance calls_invariant R : Invariant (fun _ : role => holding) [] (calls_compat R) (calls_global R).
Proof.
  split.
  - intros. apply calls_split.
  - intros calls ls r c _ (kvs & Hm & Ht). exists kvs. split; [|done]. rewrite all_hands_app. cbn. by rewrite app_nil_r.
  - intros calls l1 r l2 c (kvs & Hm & Ht). exists kvs. split; [|done]. by rewrite all_hands_app in *.
  - intros op. apply calls_op.
  - intros fuel w. apply calls_worker.
  - intros calls ls c c' (reads & shm & fs & k & _ & ->) (kvs & Hm & Ht). exists kvs. split; [done|].
    by eapply tracked_same, Ht.
  - intros calls ls call c f c' Hr (kvs & Hm & Ht). exists kvs. split; [done|].
    eapply tracked_weaken; [|eapply tracked_invoke; [exact Ht|exact Hr]]. intros g [Hg Hn].
    apply elem_of_cons in Hg as [->|Hg]; [by right|left; by split].
Qed.

Lemma initial_calls c0 : initial c0 -> calls_global (fun _ _ => False) [] [] c0.
Proof.
  intros (b & u & w & fs & k & _ & Hnew). exists []. split; [constructor|].
  unfold RpcClient_new, InstallDeathCallback, InstallDeathCallbackLocked, modify in Hnew.
  assert (Hempty : forall id f, ~ known [] id f c0).
  { destruct b; injection Hnew as <-; intros id f [(s & Hs & _)|[(p & Hp & _)|Hin]]; cbn in *;
      (by apply not_elem_of_nil in Hs) || (by rewrite lookup_empty in Hp) || (by apply not_elem_of_nil in Hin). }
  split; [done| |by intros f _ [Hf%not_elem_of_nil _]]. intros _.
  split; [by destruct b; injection Hnew as <-|..]; intros; exfalso; by eapply Hempty.
Qed.

Lemma reachable_calls cfg : reachable cfg -> config_ok (fun _ => holding) [] (calls_global (fun _ _ => False)) cfg.
Proof. eapply reachable_ok; [apply _|exact initial_calls]. Qed.

(** A thread with the calls [hand] in its hand: it does not end before each of
    them has been answered or handed on. *)
Definition owes (hand : list item) (th : running Client worker) : Prop :=
  twp holding (holding hand) (th_code th) (fun _ => holding []).


(** C15: a reply is final.  Once a future is ready, nothing that happens later,
    in any interleaving, changes its reply: each call is answered at most
    once. *)
Theorem replies_final cfg f r cfg' :
  reachable cfg -> cl_futures (cf_state cfg) !! f = Some (Some r) -> rtc step cfg cfg' ->
  cl_futures (cf_state cfg') !! f = Some (Some r).
Proof.
  intros Hr Hf Hs. destruct (reachable_calls cfg Hr) as (ls & Hp & kvs & Hm & [_ T2 T3]).
  assert (Hok : config_ok (fun _ => holding) [] (calls_global (fun g q => g = f /\ q = r)) cfg).
  { exists ls. split; [done|]. exists kvs. split; [done|]. split; [|done..]. by intros g q [-> ->]. }
  destruct (steps_ok _ _ _ _ _ _ Hok Hs) as (ls' & _ & kvs' & _ & [T1 _ _]). by apply T1.
Qed.

End Together.
