(* ===== verification/ClientTotal.v ===== *)
(** * The client: operations that always return

    Outside the loops of the worker threads the client's operations have no
    unbounded loop; the recursion of recovery decisions through the policy
    callbacks ends after two levels. *)

From Stdlib Require Import Lia.
From S2P Require Import Prelude Machine Threads Pool Types ShmLayout FilePayload EventFd Os Platform Session.
From S2P Require Import ClientState ClientRecovery ClientCore ClientWorkers ClientConfig ClientFutures.
#[local] Open Scope machine_scope.

Section Total.
Context {PF : Platform} {CE : ClientEnv}.

(** [m] returns from every client satisfying [P], in one satisfying [Q]. *)
Definition runs {A} (P : Client -> Prop) (m : client A) (Q : Client -> Prop) : Prop :=
  forall c, P c -> exists a c', m c = Returns (a, c') /\ Q c'.

Definition anything : Client -> Prop := fun _ => True.

Abbreviation total m := (runs anything m anything).

Lemma runs_weaken {A} (P P' Q Q' : Client -> Prop) (m : client A) :
  runs P' m Q' -> (forall c, P c -> P' c) -> (forall c, Q' c -> Q c) -> runs P m Q.
Proof. intros Hm HP HQ c Hc. destruct (Hm c (HP c Hc)) as (a & c' & ? & ?). eauto 6. Qed.

Lemma runs_ret {A} (P : Client -> Prop) (a : A) : runs P (mret a) P.
Proof. intros c Hc. by exists a, c. Qed.

Lemma runs_gets {A} (P : Client -> Prop) (f : Client -> A) : runs P (gets f) P.
Proof. intros c Hc. by exists (f c), c. Qed.

Lemma runs_modify (P Q : Client -> Prop) f : (forall c, P c -> Q (f c)) -> runs P (modify f) Q.
Proof. intros Hf c Hc. exists tt, (f c). eauto. Qed.

Lemma runs_bind {A B} (P Q R : Client -> Prop) (m : client A) (k : A -> client B) :
  runs P m R -> (forall a, runs R (k a) Q) -> runs P (bind m k) Q.
Proof.
  intros Hm Hk c Hc. destruct (Hm c Hc) as (a & c1 & E & H1). destruct (Hk a c1 H1) as (b & c2 & E2 & H2).
  exists b, c2. unfold bind. by rewrite E.
Qed.

Lemma total_bind {A B} (m : client A) (k : A -> client B) :
  total m -> (forall a, total (k a)) -> total (bind m k).
Proof. apply runs_bind. Qed.

Lemma total_for_each {A} (l : list A) body P :
  (forall a, runs P (body a) P) -> runs P (for_each l body) P.
Proof. intros Hb. induction l; cbn; [apply runs_ret|]. by eapply runs_bind. Qed.

Lemma total_on_world {A} (f : World -> A * World) : total (on_world f).
Proof. intros c _. unfold on_world. destruct (f (cl_world c)). do 2 eexists. by split. Qed.

End Total.

Abbreviation total m := (runs anything m anything).

Create HintDb total.
#[export] Hint Resolve runs_ret runs_gets total_on_world : total.

Ltac total_step :=
  lazymatch goal with
  | |- forall _, _ => intros ?
  | |- runs anything (bind _ _) anything => apply total_bind
  | |- runs anything (modify _) anything => by apply runs_modify
  | |- runs anything (when _ _) anything => unfold when
  | |- runs _ (match ?x with _ => _ end) _ => destruct x
  | |- runs _ _ _ => solve [auto with total nocore]
  end.
Ltac total := repeat total_step.

Section Returns.
Context {PF : Platform} {CE : ClientEnv}.

Lemma total_now : total steady_now.
Proof. unfold steady_now. total. Qed.
#[local] Hint Resolve total_now : total.

Lemma total_now_ms : total MonotonicNowMs.
Proof. unfold MonotonicNowMs. total. Qed.
#[local] Hint Resolve total_now_ms : total.

Lemma total_remaining : total CooldownRemainingLocked.
Proof. unfold CooldownRemainingLocked. total. Qed.
#[local] Hint Resolve total_remaining : total.

Lemma total_transition state delay id change until : total (TransitionLifecycle state delay id change until).
Proof.
  unfold TransitionLifecycle, ApplyTransitionLocked, BuildTransitionReportLocked, HasPendingRecoveryLocked,
    DispatchRecoveryEvent. total.
Qed.

Lemma total_notify : total NotifyRecoveryStateChanged.
Proof. unfold NotifyRecoveryStateChanged. total. Qed.

Lemma total_touch : total TouchActivity.
Proof. unfold TouchActivity. total. Qed.
#[local] Hint Resolve total_transition total_notify total_touch : total.

Lemma total_bootstrap_open ch : total (bootstrap_OpenSession ch).
Proof. intros c _. unfold bootstrap_OpenSession. destruct (ch_OpenSession _ _ _) as [[[]]]. do 2 eexists. by split. Qed.

Lemma total_bootstrap_close ch : total (bootstrap_CloseSession ch).
Proof. intros c _. unfold bootstrap_CloseSession. destruct (ch_CloseSession _ _ _) as [[]]. do 2 eexists. by split. Qed.

Lemma total_attach hs : total (session_Attach hs).
Proof. intros c _. unfold session_Attach. destruct (Attach _ _ _ _ _) as [[[]]]. do 2 eexists. by split. Qed.

Lemma total_reset : total session_Reset.
Proof. intros c _. unfold session_Reset. destruct (Reset _ _). do 2 eexists. by split. Qed.

Lemma total_call_policy {A} (f : A -> User -> RecoveryDecision * User) a : total (call_policy f a).
Proof. intros c _. unfold call_policy. destruct (f a _). do 2 eexists. by split. Qed.
#[local] Hint Resolve total_bootstrap_open total_bootstrap_close total_attach total_reset total_call_policy : total.

Lemma total_ensure : total EnsureLiveSessionLocked.
Proof.
  unfold EnsureLiveSessionLocked, CanEnsureLiveSession, CooldownActive_, HasLiveSession, BeginSessionOpen,
    OpenSessionLocked, OpenSession, PublishSessionIdLocked, FinalizeSessionOpen, HandleSessionOpenFailure,
    EnterNoSession, LifecycleState, CurrentSessionId. total.
Qed.

Lemma total_close_if id : total (CloseLiveSessionIfSnapshotMatches id).
Proof. unfold CloseLiveSessionIfSnapshotMatches, CurrentSessionId, PublishSessionIdLocked, close_bootstrap. total. Qed.

Lemma total_close : total CloseLiveSessionLocked.
Proof. unfold CloseLiveSessionLocked, CloseLiveSession, CurrentSessionId, PublishSessionIdLocked, close_bootstrap. total. Qed.

Lemma total_open : total IsApiOpen.
Proof. unfold IsApiOpen. total. Qed.
#[local] Hint Resolve total_ensure total_close_if total_close total_open : total.

Lemma total_start delay id : total (StartRecovery delay id).
Proof. unfold StartRecovery. total. Qed.

Lemma total_idle_close id : total (CloseSessionAndEnterIdleClosedLocked id).
Proof. unfold CloseSessionAndEnterIdleClosedLocked, CurrentSessionId, EnterIdleClosed. total. Qed.

Lemma total_no_session : total EnterNoSessionWithoutLiveSessionLocked.
Proof. unfold EnterNoSessionWithoutLiveSessionLocked, CurrentSessionId, EnterNoSession. total. Qed.

Lemma total_reconnect delay : total (MaybeReconnectImmediatelyLocked delay).
Proof. unfold MaybeReconnectImmediatelyLocked. total. Qed.

Lemma total_terminal : total CloseSessionAndEnterTerminalClosedLocked.
Proof. unfold CloseSessionAndEnterTerminalClosedLocked, CurrentSessionId, EnterTerminalClosed. total. Qed.

(** ** Recovery decisions *)

Definition store_empty (c : Client) : Prop := cl_store c = ∅.

Lemma runs_keeping {A} (m : client A) : total m -> keeps_calls m -> runs store_empty m store_empty.
Proof.
  intros Ht Hk c Hc. destruct (Ht c I) as (a & c' & E & _). exists a, c'. split; [done|].
  apply Hk in E as (_ & _ & Hs & _). unfold store_empty. by rewrite Hs.
Qed.

Lemma runs_resolve P f r :
  (forall c fs, P c -> P (c <| cl_futures := fs |>)) -> runs P (ResolveState f r) P.
Proof.
  intros HP c Hc. unfold ResolveState, bind, gets. cbn.
  destruct (cl_futures c !! f) as [[q|]|]; cbn; do 2 eexists; (split; [reflexivity|]); [done|by apply HP|done].
Qed.

Lemma runs_take_all : runs anything TakeAll store_empty.
Proof. intros c _. unfold TakeAll. do 2 eexists. split; [reflexivity|done]. Qed.

Lemma runs_resolve_all status : runs anything (ResolveAllPending status) store_empty.
Proof.
  eapply runs_bind; [apply runs_take_all|]. intros l. apply total_for_each. intros p. by apply runs_resolve.
Qed.

(** A decision about one failure returns when what it may schedule does. *)
Lemma runs_apply_failure sched info status :
  (forall a b p, runs store_empty (sched a b p) store_empty) ->
  runs store_empty (ApplyFailureRecoveryDecisionLocked sched info status) store_empty.
Proof.
  intros Hs. unfold ApplyFailureRecoveryDecisionLocked, ApplyRecoveryDecisionLocked.
  eapply runs_bind; [apply runs_keeping; [total|keeps]|]. intros b. destruct (negb b); [apply runs_ret|].
  eapply runs_bind; [apply runs_gets|]. intros cur. destruct (IsStaleObservedSession _ _); [apply runs_ret|].
  eapply runs_bind; [apply runs_gets|]. intros pol. destruct (onFailure pol) as [f|]; [|apply runs_ret].
  eapply runs_bind; [apply runs_keeping; [total|keeps]|]. intros d.
  eapply runs_bind; [apply runs_keeping; [total|keeps]|]. intros b'. destruct (negb b'); [apply runs_ret|].
  destruct (rd_action d); [apply runs_ret|apply Hs| |apply runs_ret].
  apply runs_keeping; [apply total_idle_close|keeps].
Qed.

Lemma runs_fail_all sched status :
  (forall a b p, runs store_empty (sched a b p) store_empty) ->
  runs anything (FailAllPendingWithRecoveryPolicyLocked sched status) store_empty.
Proof.
  intros Hs. eapply runs_bind; [apply runs_take_all|]. intros l. apply total_for_each. intros p.
  eapply runs_bind; [by apply runs_apply_failure|]. intros u. by apply runs_resolve.
Qed.

(** With no request pending, failing them all does nothing. *)
Lemma runs_handle_empty sched action :
  runs store_empty (HandlePendingRequestsForRecoveryLocked sched action) store_empty.
Proof.
  intros c Hc. destruct action; cbn.
  - unfold FailAllPendingWithRecoveryPolicyLocked, TakeAll, bind, gets. cbn. rewrite Hc. cbn.
    do 2 eexists. by split.
  - by apply runs_resolve_all.
  - by apply runs_ret.
Qed.

Lemma ScheduleRecoveryLocked_S depth observed delayMs action :
  ScheduleRecoveryLocked (S depth) observed delayMs action =
    (isOpen ← IsApiOpen;
     if negb isOpen then mret tt else
     StartRecovery delayMs observed;;
     CloseLiveSessionIfSnapshotMatches observed;;
     HandlePendingRequestsForRecoveryLocked (ScheduleRecoveryLocked depth) action;;
     MaybeReconnectImmediatelyLocked delayMs).
Proof. reflexivity. Qed.

Lemma runs_schedule_empty depth a b p :
  runs store_empty (ScheduleRecoveryLocked (S depth) a b p) store_empty.
Proof.
  rewrite ScheduleRecoveryLocked_S.
  eapply runs_bind; [apply runs_keeping; [total|keeps]|]. intros o. destruct (negb o); [apply runs_ret|].
  eapply runs_bind; [apply runs_keeping; [apply total_start|keeps]|]. intros u.
  eapply runs_bind; [apply runs_keeping; [total|keeps]|]. intros u1.
  eapply runs_bind; [apply runs_handle_empty|]. intros u2. apply runs_keeping; [apply total_reconnect|keeps].
Qed.

(** Two levels of decisions are enough. *)
Lemma schedule_returns a b p : total (schedule a b p).
Proof.
  unfold schedule. rewrite ScheduleRecoveryLocked_S. eapply runs_bind; [apply total_open|]. intros o.
  destruct (negb o); [apply runs_ret|].
  eapply runs_bind; [apply total_start|]. intros u. eapply runs_bind; [apply total_close_if|]. intros u1.
  eapply runs_bind; [|intros u2; apply total_reconnect]. destruct p; [| |apply runs_ret].
  - eapply runs_weaken; [apply runs_fail_all, runs_schedule_empty|done|done].
  - by eapply runs_weaken; [apply runs_resolve_all| |].
Qed.

Lemma total_apply_decision decision id action : total (ApplyRecoveryDecisionLocked schedule decision id action).
Proof.
  unfold ApplyRecoveryDecisionLocked. eapply runs_bind; [apply total_open|]. intros o. destruct (negb o); [apply runs_ret|].
  destruct (rd_action decision); [apply runs_ret|apply schedule_returns|apply total_idle_close|apply runs_ret].
Qed.
#[local] Hint Resolve total_apply_decision total_no_session schedule_returns : total.

Lemma total_resolve_all status : total (ResolveAllPending status).
Proof. by eapply runs_weaken; [apply runs_resolve_all| |]. Qed.
#[local] Hint Resolve total_resolve_all : total.

Lemma total_apply_failure info status : total (ApplyFailureRecoveryDecision info status).
Proof. unfold ApplyFailureRecoveryDecision, ApplyFailureRecoveryDecisionLocked, CurrentSessionId. total. Qed.

Lemma total_engine_death a b : total (HandleEngineDeath a b).
Proof. unfold HandleEngineDeath, HandleEngineDeathLocked, CurrentSessionId. total. Qed.

Lemma total_external a b : total (HandleExternalRecovery a b).
Proof. unfold HandleExternalRecovery, HandleExternalRecoveryLocked, CurrentSessionId. total. Qed.

Lemma total_idle a b : total (HandleIdleRecovery a b).
Proof. unfold HandleIdleRecovery, CurrentSessionId. total. Qed.

Lemma total_resolve f r : total (ResolveState f r).
Proof. by apply runs_resolve. Qed.
#[local] Hint Resolve total_apply_failure total_resolve : total.

(** [FailAndResolve] when no other thread comes in between. *)
Definition fail_resolve (info : PendingInfo) (status : StatusCode) (f : future_id) : client unit :=
  ApplyFailureRecoveryDecision info status;; ResolveState f (reply_of_status status).

Lemma alone_fail_resolve info status f c :
  alone (tbind (FailAndResolve info status f) (fun _ => yield)) c = fail_resolve info status f c.
Proof.
  rewrite alone_bind. unfold FailAndResolve, fail_resolve. unfold bind at 1. rewrite alone_atomic. unfold bind at 1 2.
  destruct (ApplyFailureRecoveryDecision info status c) as [[[] c1]| |]; [|done..]. cbn [run_bind].
  rewrite alone_yield. cbn [alone atomic]. unfold bind.
  destruct (ResolveState f (reply_of_status status) c1) as [[[] c2]| |]; done.
Qed.

(** The scan for expired requests likewise. *)
Definition expire : client unit :=
  now ← steady_now;
  expired ← TakeExpired now;
  for_each expired (fun p => fail_resolve (pr_info p) ExecTimeout (pr_future p)).

Lemma alone_timeouts c : alone MaybeRunPendingTimeouts c = expire c.
Proof.
  unfold MaybeRunPendingTimeouts, expire. rewrite alone_atomic. apply bind_ext. intros now c1.
  rewrite alone_yield, alone_atomic. apply bind_ext. intros l c2. rewrite alone_yield.
  apply alone_for_each. intros p c3. apply alone_fail_resolve.
Qed.

Lemma total_expire : total expire.
Proof.
  unfold expire. eapply runs_bind; [apply total_now|]. intros now.
  apply total_bind; [by intros c0 _; unfold TakeExpired; do 2 eexists; split; [reflexivity|]|]. intros l.
  apply total_for_each. intros p. unfold fail_resolve. total.
Qed.

(** C18: the recursion of recovery decisions ends.  However the policy
    callbacks answer, scheduling a recovery, handling the death of the engine,
    an external recovery request, an idle period or a failed request, and the
    expiry of requests, each return when no other thread interferes: a decision taken while the pending
    requests are being failed finds no request left to fail, so decisions nest
    at most twice. *)
Theorem recovery_decisions_terminate c sid delay action dead request idleMs info status :
  (exists c', schedule sid delay action c = Returns (tt, c')) /\
  (exists c', HandleEngineDeath sid dead c = Returns (tt, c')) /\
  (exists c', HandleExternalRecovery sid request c = Returns (tt, c')) /\
  (exists c', HandleIdleRecovery sid idleMs c = Returns (tt, c')) /\
  (exists c', ApplyFailureRecoveryDecision info status c = Returns (tt, c')) /\
  (exists c', alone MaybeRunPendingTimeouts c = Returns (tt, c')).
Proof.
  assert (Hx : forall m : client unit, total m -> exists c', m c = Returns (tt, c')).
  { intros m Hm. destruct (Hm c I) as ([] & c' & -> & _). eauto. }
  rewrite alone_timeouts.
  split_and!; apply Hx; [apply schedule_returns|apply total_engine_death|apply total_external|apply total_idle|
    apply total_apply_failure|apply total_expire].
Qed.

End Returns.

#[export] Hint Resolve total_now total_now_ms total_transition total_notify total_touch total_ensure total_close_if
  total_close total_open total_terminal total_resolve : total.
