(* ===== verification/ClientLive.v ===== *)
(** * The client: when a session is live

    The invariant that ties the published session id, the attached session,
    the lifecycle state and the workers together, and its preservation by all
    operations of the client. *)

From Stdlib Require Import Lia.
From S2P Require Import Prelude Machine Threads Pool Types ShmLayout Ring FilePayload EventFd Os Platform Session.
From S2P Require Import ClientState ClientRecovery ClientCore ClientWorkers ClientConfig ClientFutures.
#[local] Open Scope machine_scope.

(** What the client relies on of its environment: the laws of the operating
    system, a steady clock, and a bootstrap channel that leaves the client's
    mutexes alone and never announces a session with the id [0]. *)
Class ClientLaws `{ClientEnv} : Prop := {
  law_platform :: PlatformLaws;
  law_open u ch w status h ch' w' : ch_OpenSession u ch w = (status, h, ch', w') ->
    w_held w' = w_held w /\ (status = Ok -> bh_sessionId h <> 0);
  law_close u ch w status ch' w' : ch_CloseSession u ch w = (status, ch', w') -> w_held w' = w_held w;
  law_peer n w : w_held (env_peer n w) = w_held w;
}.

Section Live.
Context {PF : Platform} {CE : ClientEnv}.

Definition closing (c : Client) : Prop := cl_control c = ApiClosing \/ cl_control c = ApiClosed.

(** No session: nothing published, nothing attached. *)
Definition no_session (c : Client) : Prop := cl_snapshot c = 0 /\ Valid (cl_session c) = false.

(** A session is attached and published under its id. *)
Definition has_session (c : Client) : Prop :=
  cl_snapshot c <> 0 /\ Valid (cl_session c) = true /\ cl_workersRunning c = true.

Definition core (c : Client) : Prop :=
  w_held (cl_world c) = ∅ /\ (cl_control c = ApiOpen -> cl_workersRunning c = true).

Definition live (c : Client) : Prop :=
  core c /\ (no_session c \/ (has_session c /\ cl_lifecycle c = Active /\ cl_cooldownUntilMs c = 0)).

(** Facts that hold from some point of an operation on. *)
Inductive phase : Type := AnyTime | Preparing | Started | Stopping | Finished.

Definition phase_ok (ph : phase) (c : Client) : Prop :=
  match ph with
  | AnyTime => True
  | Preparing => cl_workersRunning c = false
  | Started => cl_workersRunning c = true \/ closing c
  | Stopping => closing c
  | Finished => closing c /\ no_session c
  end.

Definition inv (ph : phase) (c : Client) : Prop := live c /\ phase_ok ph c.

(** ** Operations that do not touch what the invariant is about *)

Definition same_live (c c' : Client) : Prop :=
  w_held (cl_world c') = w_held (cl_world c) /\ cl_snapshot c' = cl_snapshot c /\
  cl_session c' = cl_session c /\ cl_lifecycle c' = cl_lifecycle c /\
  cl_cooldownUntilMs c' = cl_cooldownUntilMs c /\ cl_control c' = cl_control c /\
  cl_workersRunning c' = cl_workersRunning c.

(** A predicate that only looks at those. *)
Class LiveStable (P : Client -> Prop) : Prop := live_stable c c' : same_live c c' -> P c -> P c'.

#[export] Instance stable_and P Q `{!LiveStable P, !LiveStable Q} : LiveStable (fun c => P c /\ Q c).
Proof. intros c c' Hs [? ?]. split; by eapply live_stable. Qed.

#[export] Instance stable_no_session : LiveStable no_session.
Proof. intros c c' (_ & Hn & Hs & _) [? ?]. split; [by rewrite Hn|by rewrite Hs]. Qed.

#[export] Instance stable_closing : LiveStable closing.
Proof. intros c c' (_ & _ & _ & _ & _ & Hc & _). unfold closing. by rewrite Hc. Qed.

#[export] Instance stable_core : LiveStable core.
Proof. intros c c' (Hh & _ & _ & _ & _ & Hc & Hr) [? ?]. split; [by rewrite Hh|by rewrite Hc, Hr]. Qed.

#[export] Instance stable_has_session : LiveStable has_session.
Proof. intros c c' (_ & Hn & Hs & _ & _ & _ & Hr) (? & ? & ?). unfold has_session. by rewrite Hn, Hs, Hr. Qed.

#[export] Instance stable_live : LiveStable live.
Proof.
  intros c c' Hs [Hc Hl]. pose proof Hs as (_ & _ & _ & Hlc & Hcd & _ & _).
  split; [by eapply live_stable|]. destruct Hl as [?|(? & ? & ?)]; [left; by eapply live_stable|right].
  split; [by eapply live_stable|]. by rewrite Hlc, Hcd.
Qed.

#[export] Instance stable_phase ph : LiveStable (phase_ok ph).
Proof.
  intros c c' Hs. pose proof Hs as (_ & _ & _ & _ & _ & _ & Hr).
  destruct ph; [done|cbn; by rewrite Hr| |apply live_stable, Hs|].
  - intros [?|?]; [left; by rewrite Hr|right; by eapply live_stable].
  - intros [? ?]. split; by eapply live_stable.
Qed.

#[export] Instance stable_inv ph : LiveStable (inv ph).
Proof. unfold inv. apply _. Qed.

Definition keeps_live {A} (m : client A) : Prop := forall c a c', m c = Returns (a, c') -> same_live c c'.

Lemma keeps_stable {A} P `{!LiveStable P} (m : client A) : keeps_live m -> preserves P m.
Proof. intros Hm c a c' Hp Hr. eapply live_stable; [by eapply Hm|done]. Qed.

Lemma live_ret {A} (a : A) : keeps_live (mret a).
Proof. by intros c a' c' [= <- <-]. Qed.

Lemma live_bind {A B} (m : client A) (k : A -> client B) :
  keeps_live m -> (forall a, keeps_live (k a)) -> keeps_live (bind m k).
Proof.
  intros Hm Hk c b c'. unfold bind. destruct (m c) as [[a c1]| |] eqn:E; [|done..]. cbn. intros Hr.
  apply Hm in E as (E1 & E2 & E3 & E4 & E5 & E6 & E7). apply Hk in Hr as (R1 & R2 & R3 & R4 & R5 & R6 & R7).
  unfold same_live. by rewrite R1, R2, R3, R4, R5, R6, R7.
Qed.

Lemma live_gets {A} (f : Client -> A) : keeps_live (gets f).
Proof. by intros c a c' [= <- <-]. Qed.

Lemma live_modify f : (forall c, same_live c (f c)) -> keeps_live (modify f).
Proof. intros Hf c [] c' [= <-]. apply Hf. Qed.

Lemma live_diverge {A} : keeps_live (@diverge _ A).
Proof. by intros c a c'. Qed.

Lemma live_lift {A} (r : run A) : keeps_live (lift_run r).
Proof. intros c a c'. unfold lift_run. destruct r; [|done..]. by intros [= <- <-]. Qed.

Lemma live_for_each {A} (l : list A) body : (forall a, keeps_live (body a)) -> keeps_live (for_each l body).
Proof. intros Hb. induction l; cbn; [apply live_ret|by apply live_bind]. Qed.

Lemma live_on_world {A} (f : World -> A * World) :
  (forall w, w_held (snd (f w)) = w_held w) -> keeps_live (on_world f).
Proof.
  intros Hf c a c'. unfold on_world. specialize (Hf (cl_world c)). destruct (f (cl_world c)).
  by intros [= <- <-].
Qed.

Lemma live_on_kernel {A} (f : Kernel -> run (A * Kernel)) : keeps_live (on_kernel f).
Proof. intros c a c'. unfold on_kernel. destruct (f (cl_kernel c)) as [[]| |]; [|done..]. by intros [= <- <-]. Qed.

Lemma live_on_fs {A} (f : Fs -> run (A * Fs)) : keeps_live (on_fs f).
Proof. intros c a c'. unfold on_fs. destruct (f (cl_fs c)) as [[]| |]; [|done..]. by intros [= <- <-]. Qed.

End Live.

Create HintDb live.
Create HintDb control.
#[export] Hint Resolve live_ret live_gets live_diverge live_lift live_on_kernel live_on_fs : live.

Ltac lives_step :=
  lazymatch goal with
  | |- forall _, _ => intros ?
  | |- keeps_live (bind _ _) => apply live_bind
  | |- keeps_live (modify _) => apply live_modify; intros ?; try done; repeat case_match; done
  | |- keeps_live (when _ _) => unfold when
  | |- keeps_live (for_each _ _) => apply live_for_each
  | |- keeps_live (match ?x with _ => _ end) => destruct x
  | |- keeps_live _ => solve [auto with live nocore]
  end.
Ltac lives := repeat lives_step.

Section KeepsLive.
Context {PF : Platform} {CE : ClientEnv} {CL : ClientLaws}.

Lemma live_now : keeps_live steady_now.
Proof. unfold steady_now. lives. Qed.
#[local] Hint Resolve live_now : live.

Lemma live_now_ms : keeps_live MonotonicNowMs.
Proof. unfold MonotonicNowMs. lives. Qed.
#[local] Hint Resolve live_now_ms : live.

Lemma live_remaining : keeps_live CooldownRemainingLocked.
Proof. unfold CooldownRemainingLocked. lives. Qed.

Lemma live_touch : keeps_live TouchActivity.
Proof. unfold TouchActivity. lives. Qed.

Lemma live_notify : keeps_live NotifyRecoveryStateChanged.
Proof. unfold NotifyRecoveryStateChanged. lives. Qed.

Lemma live_open : keeps_live IsApiOpen.
Proof. unfold IsApiOpen. lives. Qed.

Lemma live_current : keeps_live CurrentSessionId.
Proof. apply live_gets. Qed.

Lemma live_resolve f r : keeps_live (ResolveState f r).
Proof. unfold ResolveState. lives. Qed.

Lemma live_call_policy {A} (f : A -> User -> RecoveryDecision * User) a : keeps_live (call_policy f a).
Proof. intros c d c'. unfold call_policy. destruct (f a _). by intros [= <- <-]. Qed.

Lemma live_health id ch : keeps_live (bootstrap_CheckHealth id ch).
Proof. intros c a c'. unfold bootstrap_CheckHealth. destruct (ch_CheckHealth _ _ _). by intros [= <- <-]. Qed.

#[local] Hint Resolve live_remaining live_touch live_notify live_open live_current live_resolve
  live_call_policy live_health : live.

Lemma live_take_all : keeps_live TakeAll.
Proof. unfold TakeAll. lives. Qed.

Lemma live_take_expired now : keeps_live (TakeExpired now).
Proof. unfold TakeExpired. lives. Qed.

Lemma live_take id : keeps_live (Take id).
Proof. unfold Take. lives. Qed.

Lemma live_put id p : keeps_live (Put id p).
Proof. unfold Put. lives. Qed.
#[local] Hint Resolve live_take_all live_take_expired live_take live_put : live.

Lemma live_resolve_all status : keeps_live (ResolveAllPending status).
Proof. unfold ResolveAllPending. lives. Qed.

Lemma live_swap : keeps_live swap_submit_queue.
Proof. unfold swap_submit_queue. lives. Qed.

Lemma live_pop_submit : keeps_live pop_submit.
Proof. unfold pop_submit. lives. Qed.

Lemma live_signal fd : keeps_live (signal fd).
Proof. apply live_on_kernel. Qed.

Lemma live_remove_file mem size kind : keeps_live (remove_transport_file mem size kind).
Proof. unfold remove_transport_file. lives. Qed.

Lemma live_prepare submit session p k : keeps_live (PrepareRequestPayloadForTransport submit session p k).
Proof. unfold PrepareRequestPayloadForTransport, next_path. lives. Qed.

Lemma live_build submit : keeps_live (BuildPendingRequest submit).
Proof. unfold BuildPendingRequest, MakePendingInfo, MakePendingWaitDeadline, CurrentSessionId. lives. Qed.

(** The rings are in shared memory; a push or a pop locks nothing. *)
Lemma put_ring_held s queue r w : w_held (put_ring s queue r w) = w_held w.
Proof. unfold put_ring. by destruct (ss_mappedRegion s), r. Qed.

Lemma push_ring_held peer s queue entry w status w' :
  (forall w, w_held (peer w) = w_held w) ->
  push_ring peer s queue entry w = Defined (status, w') -> w_held w' = w_held w.
Proof.
  intros Hp. unfold push_ring. destruct (negb _); [by intros [= _ <-]|].
  destruct (PushRingEntry _ _) as [[st r]|]; [|done].
  destruct (_ && _); intros [= _ <-]; by rewrite Hp, put_ring_held.
Qed.

Lemma live_push high entry : keeps_live (session_PushRequest high entry).
Proof.
  intros c a c'. unfold session_PushRequest, PushRequest.
  destruct (if high then _ else _) as [[st w]|] eqn:E; [|done]. cbn. intros [= <- <-].
  assert (w_held w = w_held (cl_world c)) by (destruct high; eapply push_ring_held; try exact E; apply law_peer).
  done.
Qed.

Lemma live_pop : keeps_live pop_response.
Proof.
  intros c a c'. unfold pop_response, PopResponse, pop_ring. destruct (read_header _ _); [|by intros [= <- <-]].
  destruct (negb _); [by intros [= <- <-]|]. destruct (PopRingEntry _ _) as [[e r]|]; [|done].
  cbn. intros [= <- <-]. unfold same_live. cbn. by rewrite put_ring_held.
Qed.

Lemma sys_dup_held fd w : w_held (snd (sys_dup fd w)) = w_held w.
Proof. unfold sys_dup, sys_open. destruct (w_fds w !! fd); [|done]. by destruct (_ <? 0). Qed.

Lemma live_wait_handle active select : keeps_live (DuplicateSessionWaitHandle active select).
Proof. unfold DuplicateSessionWaitHandle, CurrentSessionId. lives. apply live_on_world. intros w. apply sys_dup_held. Qed.

Lemma live_unique_fd old fd : keeps_live (unique_fd_reset old fd).
Proof.
  unfold unique_fd_reset. apply live_bind; [|lives]. apply live_on_world. intros w. cbn. by destruct (0 <=? old).
Qed.
#[local] Hint Resolve live_wait_handle live_unique_fd : live.

Lemma live_credit_sync : keeps_live SyncActiveRequestCreditWait.
Proof. unfold SyncActiveRequestCreditWait, DuplicateRequestCreditWaitHandle, ResetActiveRequestCreditWait. lives. Qed.

Lemma live_sync_poll p : keeps_live (SyncActivePollSession p).
Proof. unfold SyncActivePollSession, DuplicateResponseWaitHandle, ResetActivePollFd. lives. Qed.

Lemma live_entry_payload entry p : keeps_live (ResolveEntryPayload entry p).
Proof. unfold ResolveEntryPayload. lives. Qed.

Lemma live_invoke call : keeps_live (InvokeAsync call).
Proof.
  intros c f c'. destruct (decide (cl_control c = ApiOpen)) as [Ho|Ho].
  - rewrite (InvokeAsync_open call c Ho). by intros [= <- <-].
  - rewrite (InvokeAsync_rejected call c Ho). by intros [= <- <-].
Qed.

Lemma live_stop_status : keeps_live RuntimeStopStatus.
Proof. unfold RuntimeStopStatus. lives. Qed.

End KeepsLive.

#[export] Hint Resolve live_now live_now_ms live_remaining live_touch live_notify live_open live_current live_resolve
  live_call_policy live_health live_take_all live_take_expired live_take live_put live_resolve_all live_swap live_pop_submit live_sync_poll
  live_signal live_remove_file live_prepare live_build live_push live_pop live_wait_handle live_unique_fd
  live_credit_sync live_entry_payload live_stop_status live_invoke : live.

(** ** Transitions, closing and opening *)

Ltac keep := lazymatch goal with
  | |- triple ?P ?m _ => apply (keeps_stable P m); lives
  | |- preserves ?P ?m => apply (keeps_stable P m); lives
  end.

Section Sessions.
Context {PF : Platform} {CE : ClientEnv} {CL : ClientLaws}.

(** What a lifecycle transition does not touch. *)
Definition same_session (c c' : Client) : Prop :=
  cl_world c' = cl_world c /\ cl_snapshot c' = cl_snapshot c /\ cl_session c' = cl_session c /\
  cl_control c' = cl_control c /\ cl_workersRunning c' = cl_workersRunning c.

Lemma TransitionLifecycle_spec state delay id change until c u c' :
  TransitionLifecycle state delay id change until c = Returns (u, c') ->
  same_session c c' /\ cl_lifecycle c' = state /\
  cl_cooldownUntilMs c' = match change with
                          | CooldownKeep => cl_cooldownUntilMs c
                          | CooldownClear => 0
                          | CooldownSet => until
                          end.
Proof.
  unfold TransitionLifecycle, ApplyTransitionLocked, BuildTransitionReportLocked, HasPendingRecoveryLocked,
    CooldownRemainingLocked, MonotonicNowMs, steady_now, DispatchRecoveryEvent, bind, gets, modify, mret, machine_ret.
  cbn. destruct change; cbn; destruct (cl_recoveryEventCallback c); cbn; by intros [= <- <-].
Qed.

Lemma Notify_spec c u c' :
  NotifyRecoveryStateChanged c = Returns (u, c') ->
  same_session c c' /\ cl_lifecycle c' = cl_lifecycle c /\ cl_cooldownUntilMs c' = cl_cooldownUntilMs c.
Proof. by intros [= <- <-]. Qed.

Lemma same_session_trans c c1 c2 : same_session c c1 -> same_session c1 c2 -> same_session c c2.
Proof. intros (?&?&?&?&?) (?&?&?&?&?). unfold same_session. split_and!; congruence. Qed.

(** A predicate that does not look at the lifecycle. *)
Class SessionStable (P : Client -> Prop) : Prop := session_stable c c' : same_session c c' -> P c -> P c'.

#[export] Instance session_stable_and P Q `{!SessionStable P, !SessionStable Q} : SessionStable (fun c => P c /\ Q c).
Proof. intros c c' Hs [? ?]. split; by eapply session_stable. Qed.

#[export] Instance session_stable_no_session : SessionStable no_session.
Proof. intros c c' (_ & Hn & Hs & _). unfold no_session. by rewrite Hn, Hs. Qed.

#[export] Instance session_stable_has_session : SessionStable has_session.
Proof. intros c c' (_ & Hn & Hs & _ & Hr). unfold has_session. by rewrite Hn, Hs, Hr. Qed.

#[export] Instance session_stable_core : SessionStable core.
Proof. intros c c' (Hw & _ & _ & Hc & Hr). unfold core. by rewrite Hw, Hc, Hr. Qed.

#[export] Instance session_stable_closing : SessionStable closing.
Proof. intros c c' (_ & _ & _ & Hc & _). unfold closing. by rewrite Hc. Qed.

#[export] Instance session_stable_phase ph : SessionStable (phase_ok ph).
Proof.
  intros c c' Hs. pose proof Hs as (_ & _ & _ & _ & Hr).
  destruct ph; [done|cbn; by rewrite Hr| |apply session_stable, Hs|].
  - intros [?|?]; [left; by rewrite Hr|right; by eapply session_stable].
  - intros [? ?]. split; by eapply session_stable.
Qed.

#[export] Instance session_stable_snapshot id : SessionStable (fun c => cl_snapshot c = id).
Proof. intros c c' (_ & Hn & _). by rewrite Hn. Qed.

#[export] Instance session_stable_control s : SessionStable (fun c => cl_control c = s).
Proof. intros c c' (_ & _ & _ & Hc & _). by rewrite Hc. Qed.

Lemma session_control c c' : same_session c c' -> cl_control c' = cl_control c.
Proof. by intros (_ & _ & _ & ? & _). Qed.

Definition keeps_session {A} (m : client A) : Prop := forall c a c', m c = Returns (a, c') -> same_session c c'.

Lemma keeps_session_bind {A B} (m : client A) (k : A -> client B) :
  keeps_session m -> (forall a, keeps_session (k a)) -> keeps_session (bind m k).
Proof.
  intros Hm Hk c b c'. unfold bind. destruct (m c) as [[a c1]| |] eqn:E; [|done..]. cbn. intros Hr.
  eapply same_session_trans; [by eapply Hm|by eapply Hk].
Qed.

Lemma session_transition state delay id change until : keeps_session (TransitionLifecycle state delay id change until).
Proof. intros c u c' Hr. by apply TransitionLifecycle_spec in Hr as [? _]. Qed.

Lemma session_notify : keeps_session NotifyRecoveryStateChanged.
Proof. by intros c u c' [= <- <-]. Qed.

Lemma session_now : keeps_session MonotonicNowMs.
Proof. by intros c u c' [= <- <-]. Qed.

Lemma session_start delay id : keeps_session (StartRecovery delay id).
Proof.
  unfold StartRecovery. apply keeps_session_bind; [apply session_now|]. intros now.
  apply keeps_session_bind; [apply session_transition|]. intros u. apply session_notify.
Qed.

Lemma session_enter state delay id :
  keeps_session (TransitionLifecycle state delay id CooldownClear 0;; NotifyRecoveryStateChanged).
Proof. apply keeps_session_bind; [apply session_transition|]. intros u. apply session_notify. Qed.

Lemma keeps_session_stable {A} P `{!SessionStable P} (m : client A) : keeps_session m -> preserves P m.
Proof. intros Hm c a c' Hp Hr. eapply session_stable; [by eapply Hm|done]. Qed.

(** Without a session every transition is allowed. *)
Definition quiet_inv (ph : phase) (c : Client) : Prop := (core c /\ phase_ok ph c) /\ no_session c.

#[export] Instance stable_quiet ph : LiveStable (quiet_inv ph).
Proof. unfold quiet_inv. apply _. Qed.

#[export] Instance session_stable_quiet ph : SessionStable (quiet_inv ph).
Proof. unfold quiet_inv. apply _. Qed.

Lemma quiet_is_inv ph c : quiet_inv ph c -> inv ph c.
Proof. intros [[? ?] ?]. split; [|done]. split; [done|by left]. Qed.

(** A session attached, whatever the lifecycle says. *)
Definition loose_inv (ph : phase) (c : Client) : Prop := (core c /\ phase_ok ph c) /\ (no_session c \/ has_session c).

#[export] Instance session_stable_loose ph : SessionStable (loose_inv ph).
Proof.
  unfold loose_inv. intros c c' Hs [? [?|?]]; (split; [by eapply (session_stable (P := fun c => core c /\ phase_ok ph c))|]).
  - left. by eapply session_stable.
  - right. by eapply session_stable.
Qed.

Lemma inv_is_loose ph c : inv ph c -> loose_inv ph c.
Proof. intros [[? [?|(? & _)]] ?]; (split; [done|]); tauto. Qed.

Lemma Reset_default s w : w_held w = ∅ -> exists w', Reset s w = (Session_default, w') /\ w_held w' = ∅.
Proof. intros Hh. destruct (Reset_spec s w Hh) as (w' & ? & _ & _ & ? & _). eauto. Qed.

(** Publishing nothing and resetting the session, then closing the channel. *)
Lemma closes_session ph :
  triple (loose_inv ph) (PublishSessionIdLocked 0;; session_Reset;; close_bootstrap) (fun _ => quiet_inv ph).
Proof.
  eapply (triple_bind _ _ _ (fun _ c => core c /\ (phase_ok ph c /\ cl_snapshot c = 0))).
  { apply triple_modify. intros c [[Hc Hp] Hs]. split; [done|]. split; [|done].
    destruct ph; try done. split; [by destruct Hp|]. split; [done|]. by destruct Hp as [_ [_ ?]]. }
  intros u. eapply (triple_bind _ _ _ (fun _ => quiet_inv ph)).
  - intros c [] c' [[Hh Ho] [Hp Hn]]. unfold session_Reset.
    destruct (Reset_default (cl_session c) (cl_world c) Hh) as (w' & -> & Hh'). intros [= <-].
    split; [|done]. split; [by split|]. destruct ph; try done. split; [by destruct Hp|done].
  - intros u'. unfold close_bootstrap. eapply triple_bind; [apply preserves_gets|]. intros [ch|]; [|by apply triple_ret].
    eapply (triple_bind _ _ _ (fun _ => quiet_inv ph)); [|intros; by apply triple_ret].
    intros c st c' [[[Hh Ho] Hp] Hn]. unfold bootstrap_CloseSession.
    destruct (ch_CloseSession (cl_user c) ch (cl_world c)) as [[st' ch'] w'] eqn:E. intros [= <- <-].
    apply law_close in E. split; [|done]. split; [split; [cbn; congruence|done]|]. by destruct ph.
Qed.

Lemma closes_matching ph id :
  triple (fun c => loose_inv ph c /\ (cl_snapshot c = id \/ no_session c))
    (CloseLiveSessionIfSnapshotMatches id) (fun _ => quiet_inv ph).
Proof.
  intros c u c' [[Hc Hs] Hid]. unfold CloseLiveSessionIfSnapshotMatches, CurrentSessionId.
  unfold bind at 1 2, gets. cbn [run_bind].
  destruct (negb (cl_snapshot c =? id)) eqn:E1; bool_to_prop.
  { intros [= <- <-]. destruct Hid as [?|?]; [done|by split]. }
  destruct (_ || _) eqn:E2.
  - intros [= <- <-]. split; [done|]. destruct Hs as [?|(Hn & Hv & _)]; [done|].
    rewrite Hv in E2. apply Z.eqb_neq in Hn. by rewrite Hn in E2.
  - by apply (closes_session ph).
Qed.

Lemma closes_live ph : triple (loose_inv ph) CloseLiveSessionLocked (fun _ => quiet_inv ph).
Proof.
  intros c u c' Hc. unfold CloseLiveSessionLocked, CloseLiveSession.
  change (((PublishSessionIdLocked 0;; session_Reset;; close_bootstrap;; mret (cl_snapshot c));; NotifyRecoveryStateChanged) c
    = Returns (u, c') -> quiet_inv ph c').
  assert (Ht : triple (loose_inv ph)
    ((PublishSessionIdLocked 0;; session_Reset;; close_bootstrap;; mret (cl_snapshot c));; NotifyRecoveryStateChanged)
    (fun _ => quiet_inv ph)); [|by apply Ht].
  eapply (triple_bind _ _ _ (fun _ => quiet_inv ph)); [|intros ?; keep].
  intros c1 x c2 H1 Hr. pose proof (closes_session ph c1) as HC. revert Hr. unfold bind in *.
  destruct (PublishSessionIdLocked 0 c1) as [[[] c3]| |]; [|done..]. cbn [run_bind] in *.
  destruct (session_Reset c3) as [[[] c4]| |]; [|done..]. cbn [run_bind] in *.
  destruct (close_bootstrap c4) as [[[] c5]| |]; [|done..]. cbn [run_bind] in *. intros [= _ <-]. by apply (HC tt).
Qed.

(** ** Opening a session *)

Definition can_open (c : Client) : Prop := cl_control c = ApiUninitialized -> cl_workersRunning c = true.

#[export] Instance stable_can_open : LiveStable can_open.
Proof. intros c c' (_ & _ & _ & _ & _ & Hc & Hr). unfold can_open. by rewrite Hc, Hr. Qed.

#[export] Instance session_stable_can_open : SessionStable can_open.
Proof. intros c c' (_ & _ & _ & Hc & Hr). unfold can_open. by rewrite Hc, Hr. Qed.

(** The control state allows opening and the workers run. *)
Definition opening (c : Client) : Prop := core c /\ no_session c /\ cl_workersRunning c = true /\ ~ closing c.

Lemma opens_session c st c' :
  opening c -> OpenSession c = Returns (st, c') ->
  (st <> Ok /\ opening c') \/ (st = Ok /\ core c' /\ has_session c' /\ ~ closing c').
Proof.
  intros ([Hh Ho] & [Hn Hv] & Hrun & Hnc). unfold OpenSession, bind, gets. cbn.
  destruct (cl_bootstrap c) as [ch|]; cbn.
  2:{ intros [= <- <-]. left. split; [done|]. by split_and!. }
  unfold bootstrap_OpenSession. destruct (ch_OpenSession (cl_user c) ch (cl_world c)) as [[[ost hs] ch'] w1] eqn:EO.
  apply law_open in EO as [Hw1 Hid]. cbn. destruct (negb (status_is ost Ok)) eqn:E1.
  { intros [= <- <-]. left. split; [intros ->; by rewrite status_is_refl in E1|].
    split; [split; [cbn; congruence|done]|by split_and!]. }
  bool_to_prop. apply status_is_true in E1 as ->. unfold session_Attach. cbn.
  destruct (Attach_spec env_pid hs RoleClient (cl_session c) w1) as (w0 & _ & _ & HA); [congruence|].
  destruct (Attach _ _ _ _ _) as [[[ast h'] s'] w'] eqn:EA. destruct HA as (_ & Hh' & HA). cbn.
  destruct HA as [(Hne & (Hreg & Hhd & _) & _)|(-> & id & shm & HA)].
  - rewrite status_is_false by done. cbn. intros [= <- <-]. left. split; [done|].
    split; [by split|]. split; [split; [done|cbn; unfold Valid; by rewrite Hhd]|done].
  - rewrite status_is_refl. cbn. intros [= <- <-]. right. split; [done|].
    destruct HA as (_ & _ & _ & _ & Hs' & _).
    assert (Hhdr : ss_header s' = Some id) by (by rewrite Hs').
    split; [split; [cbn; unfold SetState; by rewrite Hhdr|done]|]. split; [|done].
    unfold has_session. cbn. unfold Valid. rewrite Hhdr. split_and!; [by apply Hid|done|done].
Qed.

#[export] Instance session_stable_opening : SessionStable opening.
Proof.
  intros c c' Hs (? & ? & ? & Hnc). pose proof Hs as (_ & _ & _ & Hctl & Hr).
  split; [by eapply session_stable|]. split; [by eapply session_stable|]. split; [by rewrite Hr|].
  unfold closing. by rewrite Hctl.
Qed.

(** The phases in which the client is still in use. *)
Definition in_use (ph : phase) : Prop := ph = AnyTime \/ ph = Started.

Lemma opening_inv ph c : in_use ph -> opening c -> inv ph c.
Proof.
  intros Hph (? & ? & ? & _). split; [split; [done|by left]|]. destruct Hph as [-> | ->]; [done|by left].
Qed.

Lemma FinalizeSessionOpen_spec id c u c' :
  FinalizeSessionOpen id c = Returns (u, c') ->
  same_session c c' /\ cl_lifecycle c' = Active /\ cl_cooldownUntilMs c' = 0.
Proof.
  intros Hr. step Hr as [] c1 E. apply TransitionLifecycle_spec in E as (Hs & Hl & Hcd).
  apply Notify_spec in Hr as (Hs' & -> & ->). split; [by eapply same_session_trans|done].
Qed.

Lemma same_live_session c c' : same_live c c' -> cl_control c' = cl_control c /\ cl_workersRunning c' = cl_workersRunning c.
Proof. by intros (_ & _ & _ & _ & _ & ? & ?). Qed.

#[export] Instance stable_opening : LiveStable opening.
Proof.
  intros c c' Hs (? & ? & ? & Hnc). pose proof (same_live_session _ _ Hs) as [Hctl Hr].
  split; [by eapply live_stable|]. split; [by eapply live_stable|]. split; [by rewrite Hr|].
  unfold closing. by rewrite Hctl.
Qed.

Lemma OpenSessionLocked_spec ph c st c' :
  in_use ph -> opening c -> OpenSessionLocked c = Returns (st, c') ->
  (st <> Ok /\ opening c') \/ (st = Ok /\ inv ph c').
Proof.
  intros Hph Hc Hr. step Hr as st1 c1 E. apply opens_session in E; [|done].
  destruct E as [(Hne & Hc1)|(-> & Hcore & Hhas & Hnc)].
  { rewrite status_is_false in Hr by done. cbn in Hr. injection Hr as <- <-. by left. }
  rewrite status_is_refl in Hr. cbn [negb] in Hr. right.
  step Hr as [] c2 E. apply live_touch in E. step Hr as id c3 E3. injection E3 as _ <-.
  step Hr as [] c4 E4. injection Hr as <- <-. apply FinalizeSessionOpen_spec in E4 as (Hs & Hl & Hcd).
  assert (Hcore4 : core c4) by (eapply session_stable; [done|by eapply live_stable]).
  assert (Hhas4 : has_session c4) by (eapply session_stable; [done|by eapply live_stable]).
  split; [done|]. split; [split; [done|by right]|]. destruct Hph as [-> | ->]; [done|]. left. by destruct Hhas4 as (_ & _ & ?).
Qed.

Lemma ensure_live ph c st c' :
  inv ph c -> can_open c -> EnsureLiveSessionLocked c = Returns (st, c') -> inv ph c'.
Proof.
  intros Hi Hcan Hr. unfold EnsureLiveSessionLocked in Hr.
  step Hr as can c1 E. unfold CanEnsureLiveSession, bind, gets in E. cbn in E. injection E as <- <-.
  destruct (negb (_ || _)) eqn:Ectl; [by injection Hr as _ <-|].
  step Hr as cd c1 E. assert (Hk : same_live c c1).
  { by eapply (ltac:(unfold CooldownActive_; lives) : keeps_live CooldownActive_). }
  assert (Hi1 : inv ph c1) by (by eapply live_stable). destruct cd.
  { step Hr as x c2 E2. injection Hr as _ <-. apply live_remaining in E2. by eapply live_stable. }
  step Hr as hl c2 E2. unfold HasLiveSession, CurrentSessionId, bind, gets in E2. cbn in E2. injection E2 as <- <-.
  destruct (negb (cl_snapshot c1 =? 0)) eqn:En; [by injection Hr as _ <-|]. bool_to_prop.
  assert (Hop : opening c1).
  { destruct Hi1 as [[Hcore Hl] _]. destruct Hl as [Hno|((? & _) & _)]; [|done].
    pose proof (same_live_session _ _ Hk) as [Hctl Hrun]. destruct Hcore as [Hh Ho].
    apply orb_true_iff in Ectl. split; [done|]. split; [done|].
    unfold closing, can_open in *. rewrite Hctl in *. split.
    - destruct Ectl; bool_to_prop; [rewrite Hrun; by apply Hcan|by apply Ho].
    - intros [?|?]; destruct Ectl; bool_to_prop; congruence. }
  assert (Hph : in_use ph).
  { destruct Hop as (_ & _ & Hrun & Hn), Hi1 as [_ Hp].
    destruct ph; [by left|by cbn in Hp; congruence|by right|done|by destruct Hp]. }
  step Hr as lc c2 E2. injection E2 as _ <-. step Hr as id c2 E2. injection E2 as _ <-.
  step Hr as [] c2 E2. assert (Hop2 : opening c2).
  { eapply session_stable; [|exact Hop]. unfold BeginSessionOpen in E2. destruct (_ && _); [by eapply session_transition|].
    by injection E2 as <-. }
  step Hr as st3 c3 E3. apply (OpenSessionLocked_spec ph) in E3; [|done..]. step Hr as [] c4 E4. injection Hr as _ <-.
  destruct E3 as [(Hne & Hop3)|(-> & Hi3)].
  - rewrite status_is_false in E4 by done. cbn [negb] in E4. step E4 as id' c5 E5. injection E5 as _ <-.
    apply opening_inv; [done|]. eapply session_stable; [|exact Hop3]. unfold HandleSessionOpenFailure in E4.
    step E4 as lc' c6 E6. injection E6 as _ <-.
    destruct (bool_decide (lc' = Recovering) || bool_decide (lc' = Cooldown)); [by eapply session_enter|by injection E4 as <-].
  - rewrite status_is_refl in E4. by injection E4 as <-.
Qed.

End Sessions.

(** ** Control state and workers only change in Init and Shutdown *)

Section Control.
Context {PF : Platform} {CE : ClientEnv}.

Definition keeps_control {A} (m : client A) : Prop := forall c a c', m c = Returns (a, c') ->
  cl_control c' = cl_control c /\ cl_workersRunning c' = cl_workersRunning c.

Lemma control_ret {A} (a : A) : keeps_control (mret a).
Proof. by intros c a' c' [= <- <-]. Qed.

Lemma control_bind {A B} (m : client A) (k : A -> client B) :
  keeps_control m -> (forall a, keeps_control (k a)) -> keeps_control (bind m k).
Proof.
  intros Hm Hk c b c' Hr. step Hr as a c1 E. apply Hm in E as [<- <-]. by eapply Hk.
Qed.

Lemma control_modify f :
  (forall c, cl_control (f c) = cl_control c /\ cl_workersRunning (f c) = cl_workersRunning c) ->
  keeps_control (modify f).
Proof. intros Hf c [] c' [= <-]. apply Hf. Qed.

Lemma control_live {A} (m : client A) : keeps_live m -> keeps_control m.
Proof. intros Hm c a c' Hr. by apply same_live_session, (Hm c a). Qed.

Lemma control_session {A} (m : client A) : keeps_session m -> keeps_control m.
Proof. intros Hm c a c' Hr. apply Hm in Hr as (_ & _ & _ & ? & ?). done. Qed.

Lemma control_bootstrap_open ch : keeps_control (bootstrap_OpenSession ch).
Proof. intros c a c'. unfold bootstrap_OpenSession. destruct (ch_OpenSession _ _ _) as [[[]]]. by intros [= <- <-]. Qed.

Lemma control_bootstrap_close ch : keeps_control (bootstrap_CloseSession ch).
Proof. intros c a c'. unfold bootstrap_CloseSession. destruct (ch_CloseSession _ _ _) as [[]]. by intros [= <- <-]. Qed.

Lemma control_attach hs : keeps_control (session_Attach hs).
Proof. intros c a c'. unfold session_Attach. destruct (Attach _ _ _ _ _) as [[[]]]. by intros [= <- <-]. Qed.

Lemma control_reset : keeps_control session_Reset.
Proof. intros c a c'. unfold session_Reset. destruct (Reset _ _). by intros [= <- <-]. Qed.

End Control.

#[export] Hint Resolve control_ret control_bootstrap_open control_bootstrap_close control_attach control_reset : control.

Ltac controls_step :=
  lazymatch goal with
  | |- forall _, _ => intros ?
  | |- keeps_control (bind _ _) => apply control_bind
  | |- keeps_control (modify _) => apply control_modify; intros ?; done
  | |- keeps_control (match ?x with _ => _ end) => destruct x
  | |- keeps_control _ =>
      solve [auto with control nocore | apply control_session; auto using session_transition, session_start
            | apply control_live; solve [lives]]
  end.
Ltac controls := repeat controls_step.

Section Decisions.
Context {PF : Platform} {CE : ClientEnv} {CL : ClientLaws}.

Lemma control_close_bootstrap : keeps_control close_bootstrap.
Proof. unfold close_bootstrap. controls. Qed.
#[local] Hint Resolve control_close_bootstrap : control.

Lemma control_ensure : keeps_control EnsureLiveSessionLocked.
Proof.
  unfold EnsureLiveSessionLocked, CanEnsureLiveSession, CooldownActive_, HasLiveSession, BeginSessionOpen,
    OpenSessionLocked, OpenSession, PublishSessionIdLocked, FinalizeSessionOpen, HandleSessionOpenFailure,
    EnterNoSession, LifecycleState, CurrentSessionId. controls.
Qed.

Lemma control_close_if id : keeps_control (CloseLiveSessionIfSnapshotMatches id).
Proof. unfold CloseLiveSessionIfSnapshotMatches, CurrentSessionId, PublishSessionIdLocked. controls. Qed.

(** The invariant while the client is open. *)
Definition open_inv (ph : phase) (c : Client) : Prop := inv ph c /\ cl_control c = ApiOpen.

#[export] Instance stable_control s : LiveStable (fun c => cl_control c = s).
Proof. intros c c' Hs. apply same_live_session in Hs as [Hc _]. by rewrite Hc. Qed.

#[export] Instance stable_open_inv ph : LiveStable (open_inv ph).
Proof. unfold open_inv. apply _. Qed.

Lemma ensure_open ph : preserves (open_inv ph) EnsureLiveSessionLocked.
Proof.
  intros c st c' [Hi Ho] Hr. split.
  - eapply ensure_live; [exact Hi| |exact Hr]. unfold can_open. by rewrite Ho.
  - by apply control_ensure in Hr as [-> _].
Qed.

(** The session observed is the current one, or there is none any more. *)
Definition observes (id : Z) (c : Client) : Prop := cl_snapshot c = id \/ no_session c.

Lemma closes_observed ph id :
  triple (fun c => open_inv ph c /\ observes id c) (CloseLiveSessionIfSnapshotMatches id)
    (fun _ c => quiet_inv ph c /\ cl_control c = ApiOpen).
Proof.
  intros c u c' [[Hi Ho] Hid] Hr. split.
  - eapply closes_matching; [|exact Hr]. split; [by apply inv_is_loose|exact Hid].
  - by apply control_close_if in Hr as [-> _].
Qed.

Definition decides (id : Z) (m : client unit) : Prop := forall ph,
  triple (fun c => open_inv ph c /\ observes id c) m (fun _ => open_inv ph).

Lemma decides_idle_close id : decides id (CloseSessionAndEnterIdleClosedLocked id).
Proof.
  intros ph c [] c' Hc Hr. unfold CloseSessionAndEnterIdleClosedLocked in Hr.
  step Hr as o c1 E. injection E as <- <-. destruct Hc as [[Hi Ho] Hid]. rewrite Ho in Hr. cbn in Hr.
  step Hr as [] c1 E. apply (closes_observed ph) in E as [Hq Ho1]; [|split; [by split|exact Hid]].
  step Hr as sid c2 E2. injection E2 as _ <-. apply session_enter in Hr.
  split; [apply quiet_is_inv; by eapply session_stable|by rewrite (session_control _ _ Hr)].
Qed.

Lemma decides_no_session ph :
  triple (fun c => quiet_inv ph c /\ cl_control c = ApiOpen) EnterNoSessionWithoutLiveSessionLocked
    (fun _ c => open_inv ph c).
Proof.
  intros c [] c' [Hq Ho] Hr. step Hr as o c1 E. injection E as <- <-. rewrite Ho in Hr. cbn in Hr.
  step Hr as sid c2 E2. injection E2 as _ <-. apply session_enter in Hr.
  split; [apply quiet_is_inv; by eapply session_stable|by rewrite (session_control _ _ Hr)].
Qed.

Lemma open_inv_for_each {A} ph (l : list A) body :
  (forall a, preserves (open_inv ph) (body a)) -> preserves (open_inv ph) (for_each l body).
Proof. apply preserves_for_each. Qed.

Lemma decides_apply sched decision id action :
  (forall id b p, decides id (sched id b p)) -> decides id (ApplyRecoveryDecisionLocked sched decision id action).
Proof.
  intros Hs ph c [] c' Hc Hr. unfold ApplyRecoveryDecisionLocked in Hr. step Hr as o c1 E. injection E as <- <-.
  destruct (negb _); [injection Hr as <-; by destruct Hc|].
  destruct (rd_action decision); [injection Hr as <-; by destruct Hc|by eapply Hs|by eapply decides_idle_close|
    injection Hr as <-; by destruct Hc].
Qed.

Lemma open_apply_failure sched info status ph :
  (forall id b p, decides id (sched id b p)) ->
  preserves (open_inv ph) (ApplyFailureRecoveryDecisionLocked sched info status).
Proof.
  intros Hs c [] c' Hc Hr. unfold ApplyFailureRecoveryDecisionLocked in Hr. step Hr as o c1 E. injection E as <- <-.
  destruct (negb _); [by injection Hr as <-|]. step Hr as cur c1 E. injection E as <- <-.
  destruct (IsStaleObservedSession _ _) eqn:Est; [by injection Hr as <-|].
  step Hr as pol c1 E. injection E as <- <-. destruct (onFailure (cl_policy c)) as [f|]; [|by injection Hr as <-].
  step Hr as d c1 E. apply live_call_policy in E. eapply decides_apply; [exact Hs| |exact Hr].
  split; [by eapply live_stable|]. left. unfold IsStaleObservedSession in Est. bool_to_prop.
  destruct E as (_ & -> & _). done.
Qed.

Lemma open_fail_all sched status ph :
  (forall id b p, decides id (sched id b p)) ->
  preserves (open_inv ph) (FailAllPendingWithRecoveryPolicyLocked sched status).
Proof.
  intros Hs. apply preserves_bind; [keep|]. intros l. apply preserves_for_each. intros p.
  apply preserves_bind; [by apply open_apply_failure|]. intros u. keep.
Qed.

Lemma decides_schedule depth id delay action : decides id (ScheduleRecoveryLocked depth id delay action).
Proof.
  revert id delay action. induction depth as [|depth IH]; intros id delay action ph c [] c' Hc Hr; [done|].
  cbn [ScheduleRecoveryLocked] in Hr. step Hr as o c1 E. injection E as <- <-. destruct Hc as [[Hi Ho] Hid].
  rewrite Ho in Hr. cbn in Hr. step Hr as [] c1 E. apply session_start in E.
  step Hr as [] c2 E2. assert (Hq : quiet_inv ph c2).
  { eapply closes_matching; [|exact E2]. split; [eapply session_stable; [exact E|by apply inv_is_loose]|].
    destruct Hid as [?|?]; [left; by eapply (session_stable (P := fun c => cl_snapshot c = id))|right; by eapply session_stable]. }
  apply control_close_if in E2 as [Ho2 _].
  assert (Ho1 : cl_control c1 = ApiOpen) by (by rewrite (session_control _ _ E)).
  step Hr as [] c3 E3. assert (Hi3 : open_inv ph c3).
  { assert (Hi2 : open_inv ph c2) by (split; [by apply quiet_is_inv|congruence]).
    destruct action; cbn [HandlePendingRequestsForRecoveryLocked] in E3.
    - by eapply open_fail_all.
    - eapply (keeps_stable (open_inv ph)); [|exact Hi2|exact E3]. lives.
    - by injection E3 as <-. }
  unfold MaybeReconnectImmediatelyLocked in Hr. destruct (delay =? 0); [|by injection Hr as <-].
  step Hr as st c4 E4. injection Hr as <-. by eapply ensure_open.
Qed.

End Decisions.
