(* ===== verification/ClientInvariant.v ===== *)
(** * The client: the invariant holds under every interleaving

    [inv] is preserved by every step of the operations of the client and of
    its background threads.  [knows ph] is what a thread may rely on while it
    pauses: the invariant, and a fact [ph] the others keep. *)

From Stdlib Require Import Lia.
From S2P Require Import Prelude Machine Threads Pool Types ShmLayout Ring FilePayload EventFd Os Platform Session.
From S2P Require Import ClientState ClientRecovery ClientCore ClientWorkers ClientConfig ClientFutures.
From S2P Require Import ClientLive.
#[local] Abbreviation stays := (Threads.stays (W := worker)).
#[local] Abbreviation twp := (Threads.twp (W := worker)).
#[local] Open Scope machine_scope.

(** Walk through an operation, for the invariant [inv ph]. *)
Ltac invs_step :=
  lazymatch goal with
  | |- forall _, _ => intros ?
  | |- preserves _ (bind _ _) => apply preserves_bind
  | |- preserves _ (when _ _) => unfold when
  | |- preserves _ (for_each _ _) => apply preserves_for_each
  | |- preserves _ (match ?x with _ => _ end) => destruct x
  | |- preserves ?P ?m => solve [auto with invs nocore | apply (keeps_stable P m); solve [lives]]
  end.
Ltac invs := repeat invs_step.
Create HintDb invs.

Section Handlers.
Context {PF : Platform} {CE : ClientEnv} {CL : ClientLaws}.

Lemma inv_when_open ph (m : client unit) :
  preserves (open_inv ph) m ->
  preserves (inv ph) (isOpen ← IsApiOpen; if negb isOpen then mret tt else m).
Proof.
  intros Hm c [] c' Hi Hr. step Hr as o c1 E. injection E as <- <-.
  destruct (decide (cl_control c = ApiOpen)) as [Ho|Ho].
  - rewrite bool_decide_eq_true_2 in Hr by done. cbn in Hr. by apply (Hm c tt c' (conj Hi Ho)) in Hr as [? _].
  - rewrite bool_decide_eq_false_2 in Hr by done. cbn in Hr. by injection Hr as <-.
Qed.

(** The same for what is only done when the session observed is current. *)
Lemma open_when_current ph id (m : client unit) :
  triple (fun c => open_inv ph c /\ observes id c) m (fun _ => open_inv ph) ->
  preserves (open_inv ph) (cur ← CurrentSessionId; if IsStaleObservedSession id cur then mret tt else m).
Proof.
  intros Hm c [] c' Hi Hr. step Hr as cur c1 E. injection E as <- <-.
  destruct (IsStaleObservedSession id (cl_snapshot c)) eqn:Es; [by injection Hr as <-|].
  unfold IsStaleObservedSession in Es. bool_to_prop. eapply Hm; [|exact Hr]. split; [done|by left].
Qed.

Lemma decides_sched id b p : decides id (schedule id b p).
Proof. apply decides_schedule. Qed.

Lemma observes_stable id : LiveStable (observes id).
Proof. intros c c' Hs [Hn|Hn]; [left|right; by eapply live_stable]. destruct Hs as (_ & -> & _). done. Qed.

(** A decision asked for about the session [id]. *)
Lemma decides_policy {A} ph id (f : A -> User -> RecoveryDecision * User) a action :
  triple (fun c => open_inv ph c /\ observes id c)
    (decision ← call_policy f a; ApplyRecoveryDecisionLocked schedule decision id action) (fun _ => open_inv ph).
Proof.
  eapply triple_bind; [|intros d; apply decides_apply; apply decides_sched].
  pose proof (observes_stable id). apply (keeps_stable (fun c => open_inv ph c /\ observes id c)). lives.
Qed.

Lemma inv_apply_failure ph info status : preserves (inv ph) (ApplyFailureRecoveryDecision info status).
Proof.
  unfold ApplyFailureRecoveryDecision, ApplyFailureRecoveryDecisionLocked. apply inv_when_open, open_when_current.
  intros c [] c' [Hc Hid] Hr. step Hr as pol c1 E. injection E as <- <-.
  destruct (onFailure (cl_policy c)) as [f|]; [|by injection Hr as <-]. by eapply decides_policy.
Qed.

Lemma inv_idle ph id idleMs : preserves (inv ph) (HandleIdleRecovery id idleMs).
Proof.
  unfold HandleIdleRecovery. apply inv_when_open, open_when_current. intros c [] c' [Hc Hid] Hr.
  step Hr as pol c1 E. injection E as <- <-. destruct (onIdle (cl_policy c)) as [f|]; [|by injection Hr as <-].
  by eapply decides_policy.
Qed.

Lemma inv_external ph id request : preserves (inv ph) (HandleExternalRecovery id request).
Proof.
  unfold HandleExternalRecovery, HandleExternalRecoveryLocked. apply inv_when_open, open_when_current.
  destruct (_ && _); [apply triple_ret; by intros c [? _]|apply decides_sched].
Qed.

Lemma inv_engine_death ph id dead : preserves (inv ph) (HandleEngineDeath id dead).
Proof.
  unfold HandleEngineDeath, HandleEngineDeathLocked. apply inv_when_open, open_when_current.
  destruct (id =? 0); [apply triple_ret; by intros c [? _]|].
  destruct (negb _ && negb _ && negb _); [apply triple_ret; by intros c [? _]|].
  eapply triple_bind; [apply closes_observed|]. intros u.
  eapply (triple_bind _ _ _ (fun _ c => quiet_inv ph c /\ cl_control c = ApiOpen)).
  { apply (keeps_stable (fun c => quiet_inv ph c /\ cl_control c = ApiOpen)). lives. }
  intros u'. apply preserves_gets_bind. intros c0.
  destruct (onEngineDeath (cl_policy c0)) as [f|].
  2:{ eapply triple_weaken; [apply (decides_no_session ph)|by intros c [-> ?]|done]. }
  eapply (triple_bind _ _ _ (fun _ c => quiet_inv ph c /\ cl_control c = ApiOpen)).
  { eapply triple_weaken; [apply (keeps_stable (fun c => quiet_inv ph c /\ cl_control c = ApiOpen)); lives|by intros c [-> ?]|done]. }
  intros d. destruct (bool_decide _); [apply (decides_no_session ph)|].
  eapply triple_weaken; [apply (decides_apply schedule d id KeepCurrentState decides_sched ph)| |done].
  intros c [Hq Ho]. split; [split; [by apply quiet_is_inv|done]|]. right. by destruct Hq.
Qed.

Lemma inv_close_live ph : preserves (inv ph) CloseLiveSessionLocked.
Proof. intros c u c' Hi Hr. apply quiet_is_inv. eapply closes_live; [by apply inv_is_loose|exact Hr]. Qed.

Lemma inv_close_transport ph : preserves (inv ph) CloseLiveSessionForTransportFailure.
Proof. apply inv_close_live. Qed.

#[local] Hint Resolve inv_apply_failure inv_idle inv_external inv_engine_death inv_close_live inv_close_transport : invs.

Lemma inv_try_push ph submit : preserves (inv ph) (TryPushRequest submit).
Proof. unfold TryPushRequest, PushRequestToSession, header_cursor. invs. Qed.

End Handlers.

#[export] Hint Resolve inv_apply_failure inv_idle inv_external inv_engine_death inv_close_live inv_close_transport
  inv_try_push : invs.

(** ** What a thread knows *)

Section Knowledge.
Context {PF : Platform} {CE : ClientEnv} {CL : ClientLaws}.

(** Only [Init] may rely on the workers not having been started.  The frame are
    the facts the other threads rely on. *)
Definition may_know (r : role) (ph : phase) : Prop := ph = Preparing -> r = ExclusiveRole.

Definition knows (r : role) (ph : phase) : @assertion _ (list phase) := fun fr c =>
  may_know r ph /\ inv ph c /\ Forall (fun p => inv p c) fr /\
  (r = ExclusiveRole -> Preparing ∉ fr).

(** An operation all phases survive. *)
Lemma knows_preserved {A} r ph (m : client A) :
  (forall ph, preserves (inv ph) m) -> stays (knows r) ph (atomic m).
Proof.
  intros Hm. apply stays_atomic. intros fr c a c' (Hr & Hi & Hf & Hn) Hrun.
  split; [done|]. split; [by eapply Hm|]. split; [|done]. eapply Forall_impl; [exact Hf|]. intros p Hp. exact (Hm p c a c' Hp Hrun).
Qed.

(** An operation after which the thread knows more, or less. *)
Lemma knows_triple {A} r ph (m : client A) (ph' : A -> phase) :
  (forall p, triple (fun c => inv ph c /\ inv p c) m (fun a c => inv (ph' a) c /\ inv p c)) ->
  (forall a, may_know r (ph' a)) -> holds (knows r ph) m (fun a => knows r (ph' a)).
Proof.
  intros Hm Hk fr c a c' (Hr & Hi & Hf & Hn) Hrun. split; [done|].
  split; [by apply (Hm ph c a c' (conj Hi Hi) Hrun)|]. split; [|done].
  eapply Forall_impl; [exact Hf|]. intros p Hp. by apply (Hm p c a c' (conj Hi Hp) Hrun).
Qed.

Lemma knows_weaken r ph ph' fr c :
  may_know r ph' -> (phase_ok ph c -> phase_ok ph' c) -> knows r ph fr c -> knows r ph' fr c.
Proof. intros Hk Hp (_ & [Hl Hi] & Hf & Hn). split; [done|]. split; [split; auto|done]. Qed.

Lemma knows_any r ph fr c : knows r ph fr c -> knows r AnyTime fr c.
Proof. by apply knows_weaken. Qed.

End Knowledge.

Ltac knows_base := apply knows_preserved; intros ?; invs.
Ltac knows_all := repeat stays_step knows_base.

(** ** The threads *)

Section Threads.
Context {PF : Platform} {CE : ClientEnv} {CL : ClientLaws}.
Implicit Types (r : role) (ph : phase).

Lemma knows_recovery_wait r ph fuel d mode : stays (knows r) ph (WaitForRecoveryState fuel d mode).
Proof.
  induction fuel as [|fuel IH]; cbn [WaitForRecoveryState]; [apply stays_diverge|].
  unfold WorkerStoppedStatus, WaitForCooldownStepLocked, WaitForRetryStepLocked, RecoveryStateWaitResultLocked. knows_all.
Qed.

Lemma knows_poll r ph fd t : stays (knows r) ph (poll fd t).
Proof. unfold poll. knows_all. Qed.

Lemma knows_sleep r ph ms : stays (knows r) ph (sleep_for ms).
Proof. unfold sleep_for. knows_all. Qed.
#[local] Hint Resolve knows_recovery_wait knows_poll knows_sleep : threads.

Lemma knows_credit r ph fuel : stays (knows r) ph (WaitForRequestCredit fuel).
Proof.
  assert (Hl : forall fd, stays (knows r) ph (credit_loop fuel fd)).
  { intros fd. induction fuel as [|n IH]; cbn [credit_loop]; [apply stays_diverge|]. knows_all. }
  unfold WaitForRequestCredit. knows_all.
Qed.
#[local] Hint Resolve knows_credit : threads.

(** Looking whether the workers run: they do, or will have been stopped. *)
Lemma holds_running r :
  holds (knows r AnyTime) (gets cl_workersRunning)
    (fun b => knows r (if b then Started else AnyTime)).
Proof.
  apply knows_triple; [|by intros []]. intros p c b c' [[Hl Hi] Hp] [= <- <-]. split; [|done].
  split; [done|]. destruct (cl_workersRunning c) eqn:E; [by left|done].
Qed.

(** Opening a session once the workers have been started. *)
Lemma knows_ensure r : stays (knows r) Started EnsureLiveSession.
Proof.
  apply twp_atomic, (knows_triple r Started _ (fun _ => Started)); [|done].
  intros p c st c' [H1 H2] Hr. assert (Hcan : can_open c).
  { intros Hu. destruct H1 as [_ [?|[?|?]]]; congruence. }
  split; by eapply ensure_live.
Qed.
#[local] Hint Resolve knows_ensure : threads.

Lemma knows_session_ready r fuel : stays (knows r) AnyTime (WaitUntilSessionReadyForSubmit fuel).
Proof.
  induction fuel as [|fuel IH]; cbn [WaitUntilSessionReadyForSubmit]; [apply stays_diverge|].
  tw (apply twp_atomic, holds_running) as b. destruct b; cbn [negb].
  2:{ apply stays_end. unfold RuntimeStopStatus. knows_all. }
  tw (apply (twp_yield _ Started)). tw (apply knows_ensure) as st.
  eapply twp_pre; [intros ? ?; apply knows_any|]. unfold WaitForCooldownToSettle, WaitOneRecoveryRetryTick.
  apply stays_end. knows_all.
Qed.
#[local] Hint Resolve knows_session_ready : threads.

Lemma knows_SubmitOne r fuel submit : stays (knows r) AnyTime (SubmitOne fuel submit).
Proof.
  assert (Hl : forall info, stays (knows r) AnyTime (submit_loop fuel submit info)).
  { intros info. induction fuel as [|n IH]; cbn [submit_loop]; [apply stays_diverge|].
    unfold TryAdmitSubmit, ResolveSubmitFailure, FailAndResolve. knows_all. }
  unfold SubmitOne, MakePendingInfo. knows_all.
Qed.
#[local] Hint Resolve knows_SubmitOne : threads.

Lemma knows_submit_worker r fuel : stays (knows r) AnyTime (SubmitWorker_Run fuel).
Proof. induction fuel as [|fuel IH]; cbn [SubmitWorker_Run]; [apply stays_diverge|]. knows_all. Qed.

Lemma knows_drain r ph fuel drained : stays (knows r) ph (DrainResponseRing fuel drained).
Proof.
  revert drained. induction fuel as [|fuel IH]; intros drained; cbn [DrainResponseRing]; [apply stays_diverge|].
  unfold DeliverEvent, ResolveCompletedRequest, DiscardEntryPayloadIfPresent. knows_all.
Qed.
#[local] Hint Resolve knows_drain : threads.

Lemma knows_poll_ready r ph fuel p : stays (knows r) ph (WaitUntilResponsePollReady fuel p).
Proof.
  revert p. induction fuel as [|fuel IH]; intros p; cbn [WaitUntilResponsePollReady]; [apply stays_diverge|].
  unfold WaitForNotification. knows_all.
Qed.
#[local] Hint Resolve knows_poll_ready : threads.

Lemma knows_response_worker r ph fuel : stays (knows r) ph (ResponseWorker_Run fuel).
Proof.
  assert (Hl : forall p, stays (knows r) ph (response_loop fuel p)).
  { induction fuel as [|n IH]; intros p; cbn [response_loop]; [apply stays_diverge|].
    unfold WaitForResponseSignal, ResetActivePollFd. knows_all. }
  unfold ResponseWorker_Run, ResetActivePollFd. knows_all.
Qed.

Lemma knows_watchdog r ph fuel : stays (knows r) ph (WatchdogLoop fuel).
Proof.
  assert (Hl : forall a b d, stays (knows r) ph (watchdog_loop fuel a b d)).
  { induction fuel as [|n IH]; intros; cbn [watchdog_loop]; [apply stays_diverge|].
    unfold run_due, MaybeRunPendingTimeouts, FailAndResolve, MaybeRunHealthCheck, RequestHealthCheckRecovery,
      MaybeRunIdlePolicy. knows_all. }
  unfold WatchdogLoop. knows_all.
Qed.

Lemma knows_worker fuel w : stays (knows SharedRole) AnyTime (run_worker fuel w).
Proof.
  unfold run_worker. apply stays_bind; [|knows_all].
  destruct w; [apply knows_submit_worker|apply knows_response_worker|apply knows_watchdog].
Qed.

(** ** Shutdown *)

Lemma holds_begin_shutdown r :
  holds (knows r AnyTime) BeginShutdown (fun begun => knows r (if begun then Stopping else AnyTime)).
Proof.
  apply knows_triple; [|by intros []]. intros p c b c' [Hi [[[Hh Ho] Hl] Hp]] Hr. unfold BeginShutdown in Hr.
  step Hr as can c1 E. injection E as <- <-. destruct (negb (negb _ && negb _)); [by injection Hr as <- <-|].
  step Hr as [] c1 E. injection Hr as <- <-. injection E as <-.
  assert (Hlive : live (c <| cl_control := ApiClosing |>)) by (by split; [split|]).
  split; (split; [done|]); [by left|].
  destruct p; try done; [right; by left|by left|]. split; [by left|]. by destruct Hp.
Qed.

Lemma holds_terminal r :
  holds (knows r Stopping) CloseSessionAndEnterTerminalClosedLocked (fun _ => knows r Finished).
Proof.
  apply (knows_triple r Stopping _ (fun _ => Finished)); [|done].
  intros p c [] c' [H1 H2] Hr. unfold CloseSessionAndEnterTerminalClosedLocked in Hr. step Hr as [] c1 E.
  assert (Hq : forall ph, inv ph c -> quiet_inv ph c') ; [|pose proof (Hq p H2); apply Hq in H1 as [[Hc Hs] Hn]].
  { intros ph Hi. assert (Hq1 : quiet_inv ph c1) by (eapply closes_live; [by apply inv_is_loose|exact E]).
    step Hr as id c2 E2. injection E2 as _ <-. apply session_enter in Hr. by eapply session_stable. }
  split; [|by apply quiet_is_inv]. split; [split; [done|by left]|by split].
Qed.

Lemma holds_stop_runtime r : holds (knows r Finished) StopRuntime (fun _ => knows r Finished).
Proof.
  apply (knows_triple r Finished _ (fun _ => Finished)); [|done].
  intros p c b c' [[_ [Hcl Hn]] [[[Hh Ho] Hl] Hp]] Hr. unfold StopRuntime in Hr. step Hr as r' c1 E. injection E as <- <-.
  destruct (negb _); [by injection Hr as <- <-; split; split|]. step Hr as [] c1 E. injection Hr as <- <-. injection E as <-.
  assert (Hlive : live (c <| cl_workersRunning := false |>)).
  { split; [split; [done|]|by left]. intros Ho'. destruct Hcl as [Hcl|Hcl]; cbn in Ho'; congruence. }
  split; (split; [done|]); [by split|]. destruct p; try done. by right.
Qed.

Lemma knows_stop r : stays (knows r) Finished StopThreads.
Proof.
  unfold StopThreads. tw (apply twp_atomic, holds_stop_runtime) as b. apply stays_end. unfold join_thread. knows_all.
Qed.
#[local] Hint Resolve knows_stop : threads.

Lemma holds_finish_shutdown r : holds (knows r Finished) FinishShutdown (fun _ => knows r AnyTime).
Proof.
  apply (knows_triple r Finished _ (fun _ => AnyTime)); [|done].
  intros p c [] c' [[_ [Hcl Hn]] [[[Hh Ho] Hl] Hp]] [= <-].
  assert (Hlive : live (c <| cl_control := ApiClosed |>)) by (split; [by split|by left]).
  split; (split; [done|]); [done|]. destruct p; try done; [right; by right|by right|]. split; [by right|]. by destruct Hp.
Qed.

Lemma knows_shutdown r : stays (knows r) AnyTime Shutdown.
Proof.
  unfold Shutdown. tw (apply twp_atomic, holds_begin_shutdown) as begun. destruct begun; cbn [negb]; [|by apply twp_ret].
  tw (apply (twp_yield _ Stopping)). tw (apply twp_atomic, holds_terminal). tw (apply (twp_yield _ Finished)).
  apply stays_then; [unfold ClearCallbacks, ClearRecoveryEventCallback, SetRecoveryEventCallback, ClearDeathCallback; knows_all|].
  intros ?. tw (apply (twp_yield _ Finished)). tw (apply knows_stop). tw (apply (twp_yield _ Finished)).
  apply stays_then; [unfold FailOutstandingWork, FailAllPendingWithRecoveryPolicy, FailQueuedSubmissions, FailAndResolve; knows_all|].
  intros ?. tw (apply (twp_yield _ Finished)). apply twp_atomic, holds_finish_shutdown.
Qed.

(** ** Init *)

(** [Init] finds the workers running, or knows that they are not. *)
Lemma holds_not_running :
  holds (knows ExclusiveRole AnyTime) (gets cl_workersRunning)
    (fun b => knows ExclusiveRole (if b then Started else Preparing)).
Proof.
  apply knows_triple; [|by intros []]. intros p c b c' [[Hl Hi] Hp] [= <- <-]. split; [|done].
  split; [done|]. destruct (cl_workersRunning c) eqn:E; [by left|done].
Qed.

Lemma knows_prepare state : stays (knows ExclusiveRole) Preparing (PrepareForInitOpen state).
Proof.
  apply twp_atomic, (knows_triple ExclusiveRole Preparing _ (fun _ => Preparing)); [|done].
  intros p c [] c' [[[Hc Hl] Hrun] [_ Hp]] [= <-]. destruct Hl as [Hn|((_ & _ & Hrun') & _)]; [|cbn in Hrun; congruence].
  split; (split; [split; [done|by left]|]); [done|]. by destruct p.
Qed.

(** Starting the workers; no other thread relies on them not running. *)
Lemma holds_start_runtime :
  holds (knows ExclusiveRole Preparing) StartRuntime (fun _ => knows ExclusiveRole Started).
Proof.
  intros fr c b c' (_ & [[[Hh Ho] Hl] _] & Hf & Hn) Hr. unfold StartRuntime in Hr. step Hr as r c1 E. injection E as <- <-.
  assert (Hlive : live (c <| cl_workersRunning := true |> <| cl_submitStop := false |> <| cl_watchdogStop := false |>)).
  { split; [by split|]. destruct Hl as [?|((? & ? & ?) & ?)]; [by left|right]. done. }
  destruct (cl_workersRunning c) eqn:Hrun.
  - injection Hr as _ <-. split; [done|]. split; [split; [by split; [split|]|by left]|by split].
  - step Hr as [] c1 E. injection Hr as _ <-. injection E as <-. split; [done|]. split; [split; [done|by left]|].
    split; [|done]. apply Forall_forall. intros p Hp. specialize (Hn eq_refl). rewrite Forall_forall in Hf.
    destruct (Hf p Hp) as [_ Hpc]. split; [done|]. destruct p; try done; [by left].
Qed.

Lemma holds_finish_init : holds (knows ExclusiveRole Started) FinishInit (fun _ => knows ExclusiveRole AnyTime).
Proof.
  apply (knows_triple ExclusiveRole Started _ (fun _ => AnyTime)); [|done].
  intros p c b c' [[_ Hst] [[[Hh Ho] Hl] Hp]] Hr. unfold FinishInit in Hr. step Hr as r c1 E. injection E as <- <-.
  destruct (decide (cl_control c = ApiUninitialized)) as [Hu|Hu].
  2:{ rewrite bool_decide_eq_false_2 in Hr by done. injection Hr as _ <-. by split; [|split]. }
  rewrite bool_decide_eq_true_2 in Hr by done. step Hr as [] c1 E. injection Hr as _ <-. injection E as <-.
  assert (Hrun : cl_workersRunning c = true) by (destruct Hst as [?|[?|?]]; congruence).
  assert (Hlive : live (c <| cl_control := ApiOpen |>)) by (by split; [split|]).
  split; (split; [done|]); [done|]. destruct p; try done; [by left|by destruct Hp; congruence|].
  destruct Hp as [[?|?] _]; congruence.
Qed.

Lemma knows_start_threads :
  twp (knows ExclusiveRole) (knows ExclusiveRole Preparing) StartThreads (fun _ => knows ExclusiveRole Started).
Proof.
  unfold StartThreads. tw (apply twp_atomic, holds_start_runtime) as b. apply stays_end. unfold start_thread. knows_all.
Qed.

Lemma knows_init mode : stays (knows ExclusiveRole) AnyTime (Init mode).
Proof.
  unfold Init. apply stays_then; [unfold IsApiTerminal; knows_all|]. intros []; [by apply twp_ret|].
  tw (apply (twp_yield _ AnyTime)). tw (apply twp_atomic, holds_not_running) as b. destruct b.
  { eapply twp_post; [intros ? ? ?; apply (knows_any ExclusiveRole Started)|]. apply stays_end.
    destruct mode; knows_all. }
  tw (apply (twp_yield _ Preparing)). apply stays_then; [knows_all|]. intros ?. tw (apply (twp_yield _ Preparing)).
  tw (apply knows_prepare). tw (apply (twp_yield _ Preparing)). tw (apply knows_start_threads).
  tw (apply (twp_yield _ Started)). apply stays_then; [destruct mode; knows_all|]. intros st.
  tw (apply (twp_yield _ Started)). destruct (negb (status_is st Ok)).
  - eapply twp_pre; [intros ? ?; apply (knows_any ExclusiveRole Started)|].
    tw (apply knows_shutdown). by apply twp_ret.
  - tw (apply twp_atomic, holds_finish_init). by apply twp_ret.
Qed.

Lemma live_call_user f : keeps_live (call_user f).
Proof. intros c a c'. unfold call_user. destruct (f _). by intros [= <- <-]. Qed.
#[local] Hint Resolve live_call_user : live.

Lemma knows_retry r ph fuel f :
  stays (knows r) ph (RetryUntilRecoverySettles fuel ((fun f => atomic (call_user f)) <$> f)).
Proof.
  destruct f as [f|]; cbn [fmap option_fmap option_map RetryUntilRecoverySettles]; [|knows_all].
  assert (Hl : forall d st, stays (knows r) ph (retry_loop fuel (atomic (call_user f)) d st)).
  { induction fuel as [|n IH]; intros; cbn [retry_loop]; [apply stays_diverge|].
    unfold GetRecoveryRuntimeSnapshot, GetSnapshot, HasPendingRecoveryLocked, WaitForCooldownToSettle,
      WaitOneRecoveryRetryTick. knows_all. }
  unfold GetRecoveryRuntimeSnapshot, GetSnapshot, HasPendingRecoveryLocked. knows_all.
Qed.
#[local] Hint Resolve knows_retry knows_init knows_shutdown : threads.

Lemma knows_op op : stays (knows (op_role op)) AnyTime (perform op).
Proof.
  destruct op; cbn [perform op_role]; unfold RequestExternalRecovery, bootstrap_death_callback, SetRecoveryPolicy,
    SetEventCallback, SetRecoveryEventCallback, RpcClient_SetBootstrapChannel, SetBootstrapChannel,
    InstallDeathCallbackLocked; knows_all.
Qed.

End Threads.

(** ** All threads together *)

Section Together.
Context {PF : Platform} {CE : ClientEnv} {CL : ClientLaws}.

(** At most one of the threads is an [Init]. *)
Definition inits (roles : list role) : list role := filter (fun r => r = ExclusiveRole) roles.

Definition one_init (roles : list role) : Prop := (length (inits roles) <= 1)%nat.

Lemma inits_other roles : Forall (fun r => r = SharedRole) roles -> inits roles = [].
Proof. induction 1 as [|r roles -> _ IH]; [done|]. unfold inits. by rewrite filter_cons_False. Qed.

Lemma inits_app l1 l2 : length (inits (l1 ++ l2)) = (length (inits l1) + length (inits l2))%nat.
Proof. unfold inits. by rewrite filter_app, length_app. Qed.

Definition inv_global (calls : list future_id) (ls : list (role * phase)) (c : Client) : Prop :=
  inv AnyTime c /\ Forall (fun l => may_know l.1 l.2 /\ inv l.2 c) ls /\ one_init ls.*1.

Definition inv_compat (calls : list future_id) (r : role) (l1 l2 : list (role * phase)) (fr : list phase) : Prop :=
  fr = AnyTime :: (l1 ++ l2).*2 /\ Forall (fun l => may_know l.1 l.2) (l1 ++ l2) /\
  one_init (l1.*1 ++ r :: l2.*1).

(** Next to an [Init] no other thread is preparing. *)
Lemma others_not_preparing l1 l2 :
  one_init (l1.*1 ++ ExclusiveRole :: l2.*1) -> Forall (fun l => may_know l.1 l.2) (l1 ++ l2) ->
  Preparing ∉ AnyTime :: (l1 ++ l2).*2.
Proof.
  intros Hone Hk Hin. apply elem_of_cons in Hin as [?|Hin]; [done|].
  apply list_elem_of_fmap in Hin as ([r ph] & Hph & Hin). cbn in Hph. subst ph.
  rewrite Forall_forall in Hk. specialize (Hk _ Hin eq_refl). cbn in Hk. subst r.
  assert (Hi : ExclusiveRole ∈ inits (l1 ++ l2).*1).
  { apply list_elem_of_filter. split; [done|]. apply list_elem_of_fmap. by exists (ExclusiveRole, Preparing). }
  unfold one_init in Hone. rewrite inits_app in Hone. unfold inits at 2 in Hone. rewrite filter_cons_True in Hone by done.
  cbn in Hone. fold (inits l2.*1) in Hone. rewrite fmap_app in Hi.
  assert (Hz : length (inits (l1.*1 ++ l2.*1)) = 0%nat) by (rewrite inits_app; lia).
  apply nil_length_inv in Hz. rewrite Hz in Hi. by apply not_elem_of_nil in Hi.
Qed.

Lemma inv_split_global calls l1 r l l2 c :
  inv_global calls (l1 ++ (r, l) :: l2) c <-> exists fr, inv_compat calls r l1 l2 fr /\ knows r l fr c.
Proof.
  split.
  - intros (Hi & Hf & Hone). rewrite fmap_app, fmap_cons in Hone. cbn in Hone.
    apply Forall_app in Hf as [H1 Hf]. apply Forall_cons in Hf as [[Hk Hl] H2].
    assert (Hf : Forall (fun l => may_know l.1 l.2 /\ inv l.2 c) (l1 ++ l2)) by (by apply Forall_app).
    assert (Hks : Forall (fun l => may_know l.1 l.2) (l1 ++ l2)) by (eapply Forall_impl; [exact Hf|by intros ? []]).
    eexists. split; [by split|]. split; [done|]. split; [done|]. split.
    + constructor; [done|]. apply Forall_fmap. eapply Forall_impl; [exact Hf|]. by intros ? [].
    + intros ->. by apply others_not_preparing.
  - intros (fr & (-> & Hks & Hone) & Hk & Hl & Hf & _). apply Forall_cons in Hf as [Hi Hf].
    rewrite Forall_fmap in Hf. apply Forall_app in Hf as [H1 H2], Hks as [K1 K2].
    split; [done|]. split; [|by rewrite fmap_app, fmap_cons].
    apply Forall_app. split; [by apply Forall_and|]. constructor; [done|by apply Forall_and].
Qed.

Lemma one_init_new roles r :
  (r = ExclusiveRole -> Forall (fun r => r = SharedRole) roles) -> one_init roles -> one_init (roles ++ [r]).
Proof.
  intros Hr Hone. unfold one_init. rewrite inits_app. destruct r; [|by rewrite Nat.add_0_r].
  by rewrite inits_other by (by apply Hr).
Qed.

Lemma one_init_drop l1 r l2 : one_init (l1 ++ r :: l2) -> one_init (l1 ++ l2).
Proof.
  unfold one_init. rewrite !inits_app. unfold inits at 2. destruct (decide (r = ExclusiveRole)).
  - rewrite filter_cons_True by done. cbn. fold (inits l2). lia.
  - by rewrite filter_cons_False.
Qed.

#[export] Instance live_invariant : Invariant knows AnyTime inv_compat inv_global.
Proof.
  split.
  - intros. apply inv_split_global.
  - intros calls ls r c Hr (Hi & Hf & Hone). split; [done|]. split.
    + apply Forall_app. split; [done|]. apply Forall_singleton. by split.
    + rewrite fmap_app. apply one_init_new; [|done]. intros Hr'. apply Forall_fmap. by apply Hr.
  - intros calls l1 r l2 c (Hi & Hf & Hone). split; [done|]. rewrite fmap_app in *. split.
    + apply Forall_app in Hf as [? Hf]. apply Forall_cons in Hf as [_ ?]. by apply Forall_app.
    + by eapply one_init_drop.
  - intros op. apply knows_op.
  - intros fuel w. apply knows_worker.
  - intros calls ls c c' (reads & shm & fs & k & _ & ->) (Hi & Hf & Hone).
    split; [by eapply live_stable, Hi|]. split; [|done]. eapply Forall_impl; [exact Hf|].
    intros l [? Hl]. split; [done|]. by eapply live_stable, Hl.
  - intros calls ls call c f c' Hr (Hi & Hf & Hone). apply live_invoke in Hr.
    split; [by eapply live_stable|]. split; [|done]. eapply Forall_impl; [exact Hf|].
    intros l [? Hl]. split; [done|]. by eapply live_stable.
Qed.

Lemma initial_inv c0 : initial c0 -> inv_global [] [] c0.
Proof.
  intros (b & u & w & fs & k & Hw & Hnew). split; [|split; [constructor|unfold one_init; cbn; lia]].
  revert Hnew. unfold RpcClient_new, InstallDeathCallback, InstallDeathCallbackLocked, modify. intros [= <-].
  split; [|done]. destruct b; (split; [by split|by left]).
Qed.

Lemma reachable_inv cfg : reachable cfg -> inv AnyTime (cf_state cfg).
Proof.
  intros Hr. assert (Hok : config_ok knows AnyTime inv_global cfg).
  { eapply reachable_ok; [apply _|exact initial_inv|exact Hr]. }
  by destruct Hok as (ls & _ & Hinv & _).
Qed.


End Together.
