(* ===== verification/ClientClosed.v ===== *)
(** * The client: nothing is left behind by [Shutdown]

    Once the client is closing and its session is gone, no call enters the
    queue or the store any more; what [Shutdown] empties stays empty, and a
    closed client has answered all its calls. *)

From Stdlib Require Import Lia.
From S2P Require Import Prelude Machine Threads Pool Types ShmLayout Ring FilePayload EventFd Os Platform Session.
From S2P Require Import ClientState ClientRecovery ClientCore ClientWorkers ClientConfig ClientFutures.
From S2P Require Import ClientCalls ClientLive.
#[local] Abbreviation stays := (Threads.stays (W := worker)).
#[local] Abbreviation twp := (Threads.twp (W := worker)).
#[local] Open Scope machine_scope.

Section Sealing.
Context {PF : Platform} {CE : ClientEnv} {CL : ClientLaws}.

(** What a step does not undo: the control state stays, and of a closing
    client the empty queue stays empty, the missing session stays missing,
    and without a session the empty store stays empty. *)
Definition seal (c c' : Client) : Prop :=
  cl_control c' = cl_control c /\
  (closing c ->
     (cl_submitQueue c = [] -> cl_submitQueue c' = []) /\
     (Valid (cl_session c) = false ->
        Valid (cl_session c') = false /\ (cl_store c = ∅ -> cl_store c' = ∅))).

Lemma seal_refl c : seal c c.
Proof. by split; [|split; [|split]]. Qed.

Lemma seal_closing c c' : seal c c' -> closing c -> closing c'.
Proof. intros [Hc _]. unfold closing. by rewrite Hc. Qed.

Lemma seal_trans c c1 c2 : seal c c1 -> seal c1 c2 -> seal c c2.
Proof.
  intros H1 H2. split; [destruct H1, H2; congruence|]. intros Hc. pose proof (seal_closing _ _ H1 Hc) as Hc1.
  destruct H1 as [_ H1], H2 as [_ H2]. specialize (H1 Hc) as [Q1 V1]. specialize (H2 Hc1) as [Q2 V2].
  split; [auto|]. intros Hv. destruct (V1 Hv) as [Hv1 S1], (V2 Hv1) as [Hv2 S2]. auto.
Qed.

(** While the client is not closing only its control state matters. *)
Lemma seal_open c c' : ~ closing c -> cl_control c' = cl_control c -> seal c c'.
Proof. intros Hn Hc. by split. Qed.

Definition seals {A} (m : client A) : Prop := forall c a c', m c = Returns (a, c') -> seal c c'.

Lemma seals_ret {A} (a : A) : seals (mret a).
Proof. intros c a' c' [= <- <-]. apply seal_refl. Qed.

Lemma seals_bind {A B} (m : client A) (k : A -> client B) : seals m -> (forall a, seals (k a)) -> seals (bind m k).
Proof. intros Hm Hk c b c' Hr. step Hr as a c1 E. eapply seal_trans; [by eapply Hm|by eapply Hk]. Qed.

Lemma seals_for_each {A} (l : list A) body : (forall a, seals (body a)) -> seals (for_each l body).
Proof. intros Hb. induction l; cbn; [apply seals_ret|by apply seals_bind]. Qed.

Lemma seals_keeps {A} (m : client A) : keeps_live m -> keeps_calls m -> seals m.
Proof.
  intros Hl Hk c a c' Hr. apply Hl in Hr as Hlive. apply Hk in Hr as (_ & Hq & Hs & _).
  destruct Hlive as (_ & _ & Hss & _ & _ & Hc & _). split; [done|]. rewrite Hq, Hs, Hss. by split; [|split].
Qed.

(** What is only done while the client is open. *)
Lemma seals_guarded (m : client unit) :
  keeps_control m -> seals (isOpen ← IsApiOpen; if negb isOpen then mret tt else m).
Proof.
  intros Hm c [] c' Hr. step Hr as o c1 E. injection E as <- <-.
  destruct (decide (cl_control c = ApiOpen)) as [Ho|Ho].
  - rewrite bool_decide_eq_true_2 in Hr by done. apply Hm in Hr as [Hc _]. apply seal_open; [|done].
    intros [?|?]; congruence.
  - rewrite bool_decide_eq_false_2 in Hr by done. injection Hr as <-. apply seal_refl.
Qed.

(** ** The decisions leave the control state alone *)

Lemma control_for_each {A} (l : list A) body : (forall a, keeps_control (body a)) -> keeps_control (for_each l body).
Proof. intros Hb. induction l; cbn; [apply control_ret|by apply control_bind]. Qed.

Lemma control_idle_close id : keeps_control (CloseSessionAndEnterIdleClosedLocked id).
Proof.
  unfold CloseSessionAndEnterIdleClosedLocked, CurrentSessionId, EnterIdleClosed. pose proof (control_close_if id).
  controls; auto.
Qed.

Lemma control_no_session : keeps_control EnterNoSessionWithoutLiveSessionLocked.
Proof. unfold EnterNoSessionWithoutLiveSessionLocked, CurrentSessionId, EnterNoSession. controls. Qed.

Lemma control_failure sched info status :
  (forall a b p, keeps_control (sched a b p)) -> keeps_control (ApplyFailureRecoveryDecisionLocked sched info status).
Proof.
  intros Hs. unfold ApplyFailureRecoveryDecisionLocked, ApplyRecoveryDecisionLocked.
  pose proof control_idle_close. controls; auto.
Qed.

Lemma control_schedule depth a b p : keeps_control (ScheduleRecoveryLocked depth a b p).
Proof.
  revert a b p. induction depth as [|depth IH]; intros a b p; cbn [ScheduleRecoveryLocked]; [by intros c x c'|].
  pose proof (control_close_if a). pose proof control_ensure.
  assert (forall p, keeps_control (HandlePendingRequestsForRecoveryLocked (ScheduleRecoveryLocked depth) p)).
  { intros []; cbn [HandlePendingRequestsForRecoveryLocked]; [| |controls].
    - apply control_bind; [controls|]. intros l. apply control_for_each. intros q.
      apply control_bind; [by apply control_failure|]. intros u. controls.
    - controls. }
  unfold MaybeReconnectImmediatelyLocked. controls; auto.
Qed.

Lemma control_sched a b p : keeps_control (schedule a b p).
Proof. apply control_schedule. Qed.

Lemma control_decision d id action : keeps_control (ApplyRecoveryDecisionLocked schedule d id action).
Proof.
  unfold ApplyRecoveryDecisionLocked. pose proof control_idle_close. pose proof control_sched. controls; auto.
Qed.

Lemma seals_engine_death a b : seals (HandleEngineDeath a b).
Proof.
  apply seals_guarded. unfold HandleEngineDeathLocked, CurrentSessionId. pose proof (control_close_if a).
  pose proof control_no_session. pose proof control_decision. controls; auto.
Qed.

Lemma seals_external a request : seals (HandleExternalRecovery a request).
Proof.
  apply seals_guarded. unfold HandleExternalRecoveryLocked, CurrentSessionId. pose proof control_sched. controls; auto.
Qed.

Lemma seals_idle a b : seals (HandleIdleRecovery a b).
Proof. apply seals_guarded. unfold CurrentSessionId. pose proof control_decision. controls; auto. Qed.

Lemma seals_failure info status : seals (ApplyFailureRecoveryDecision info status).
Proof. apply seals_guarded. unfold CurrentSessionId. pose proof control_decision. controls; auto. Qed.

(** ** Sessions and calls *)

Lemma seals_ensure : seals EnsureLiveSession.
Proof.
  intros c st c' Hr. destruct (decide (cl_control c = ApiUninitialized \/ cl_control c = ApiOpen)) as [Ho|Ho].
  - apply seal_open; [|by apply control_ensure in Hr as [? _]]. intros [?|?]; destruct Ho; congruence.
  - step Hr as can c1 E. injection E as <- <-. rewrite !bool_decide_eq_false_2 in Hr by tauto. injection Hr as _ <-. apply seal_refl.
Qed.

Lemma close_live_spec c u c' :
  CloseLiveSessionLocked c = Returns (u, c') -> seal c c' /\ Valid (cl_session c') = false.
Proof.
  intros Hr. assert (Hv : Valid (cl_session c') = false /\ cl_control c' = cl_control c).
  { revert Hr. unfold CloseLiveSessionLocked, CloseLiveSession, CurrentSessionId, PublishSessionIdLocked, session_Reset,
      close_bootstrap, bootstrap_CloseSession, NotifyRecoveryStateChanged, bind, gets, modify, Reset. cbn.
    destruct (CloseHandles _ _) as [? w]. cbn. destruct (cl_bootstrap c) as [ch|]; [|by intros [= <- <-]]. cbn.
    destruct (ch_CloseSession _ ch w) as [[st ch'] w']. by intros [= <- <-]. }
  apply keeps_close in Hr as (_ & Hq & Hs & _). destruct Hv as [Hv Hc]. split; [|done]. split; [done|].
  intros _. rewrite Hq, Hs. split; [done|]. by split.
Qed.

Lemma seals_close : seals CloseLiveSessionForTransportFailure.
Proof. intros c u c' Hr. by apply close_live_spec in Hr as [? _]. Qed.

Lemma seals_resolve f r : seals (ResolveState f r).
Proof.
  intros c u c'. unfold ResolveState, bind, gets. cbn. destruct (cl_futures c !! f) as [[|]|]; intros [= <- <-];
    by split; [|split; [|split]].
Qed.

Lemma seals_take id : seals (Take id).
Proof.
  intros c p c'. unfold Take, bind, gets. cbn. destruct (cl_store c !! id) eqn:E; intros [= <- <-]; [|apply seal_refl].
  split; [done|]. intros _. split; [done|]. intros Hv. split; [done|]. intros Hs. rewrite Hs, lookup_empty in E. done.
Qed.

Lemma seals_take_expired now : seals (TakeExpired now).
Proof.
  intros c p c' [= <- <-]. split; [done|]. intros _. split; [done|]. intros Hv. split; [done|]. intros Hs. cbn.
  by rewrite Hs, map_filter_empty.
Qed.

Lemma seals_pop_submit : seals pop_submit.
Proof.
  intros c s c'. unfold pop_submit, bind, gets. cbn. destruct (cl_submitQueue c) as [|x q] eqn:E.
  - destruct (cl_submitStop c); [|done]. intros [= <- <-]. apply seal_refl.
  - intros [= <- <-]. split; [done|]. intros _. split; [congruence|]. by split.
Qed.


(** Without a session nothing is pushed. *)
Lemma seals_push submit : seals (TryPushRequest submit).
Proof.
  intros c st c' Hr. assert (Hl : same_live c c').
  { eapply (ltac:(unfold TryPushRequest, PushRequestToSession, header_cursor; lives) : keeps_live (TryPushRequest submit)).
    exact Hr. }
  destruct Hl as (_ & _ & Hss & _ & _ & Hc & _). split; [done|]. intros _.
  assert (Hq : cl_submitQueue c' = cl_submitQueue c /\ (Valid (cl_session c) = false -> c' = c)).
  { unfold TryPushRequest in Hr. step Hr as s c1 E. injection E as <- <-. unfold ValidatePushSession in Hr.
    destruct (Valid (cl_session c)) eqn:Hv; [split; [|done]|by injection Hr as _ <-].
    destruct (negb (status_is (if _ || _ then _ else _) Ok)); [by injection Hr as _ <-|].
    step Hr as [[pst data] kind] c1 E. apply keeps_prepare in E as (_ & Hq1 & _).
    destruct (negb (status_is pst Ok)); [by injection Hr as _ <-|].
    step Hr as entry c2 E. unfold lift_run in E. destruct (run_of_defined _); [|done..]. injection E as _ <-.
    step Hr as p c3 E3. apply keeps_build in E3 as (_ & Hq3 & _). step Hr as [] c4 E4. injection E4 as <-.
    apply push_to_session_spec in Hr as (_ & Hq & _). cbn in Hq. congruence. }
  destruct Hq as [Hq Hv]. rewrite Hq. split; [done|]. intros Hf. by rewrite (Hv Hf).
Qed.

End Sealing.

Create HintDb seals.
#[export] Hint Resolve seals_ret seals_engine_death seals_external seals_idle seals_failure seals_ensure seals_close
  seals_resolve seals_take seals_take_expired seals_pop_submit seals_push : seals.

Ltac seals_step :=
  lazymatch goal with
  | |- forall _, _ => intros ?
  | |- seals (bind _ _) => apply seals_bind
  | |- seals (when _ _) => unfold when
  | |- seals (for_each _ _) => apply seals_for_each
  | |- seals (match ?x with _ => _ end) => destruct x
  | |- seals _ => solve [auto with seals nocore | apply seals_keeps; [solve [lives]|solve [keeps]]]
  end.

(** ** What a thread knows about a closing client *)

Section Draining.
Context {PF : Platform} {CE : ClientEnv} {CL : ClientLaws}.

Inductive drain : Type := DAny | DClosing | DSealed | DNoStore | DEmpty.

Definition drain_ok (d : drain) (c : Client) : Prop :=
  match d with
  | DAny => True
  | DClosing => closing c
  | DSealed => closing c /\ Valid (cl_session c) = false
  | DNoStore => closing c /\ Valid (cl_session c) = false /\ cl_store c = ∅
  | DEmpty => closing c /\ Valid (cl_session c) = false /\ cl_store c = ∅ /\ cl_submitQueue c = []
  end.

Definition closed_empty (c : Client) : Prop := cl_control c = ApiClosed -> drain_ok DEmpty c.

Lemma drain_seal d c c' : seal c c' -> drain_ok d c -> drain_ok d c'.
Proof.
  intros Hs. pose proof (seal_closing _ _ Hs) as Hc. destruct Hs as [_ Hs]. destruct d; cbn; [done|done|..].
  - intros [Hcl Hv]. destruct (Hs Hcl) as [_ HV]. split; [auto|]. by apply HV.
  - intros (Hcl & Hv & He). destruct (Hs Hcl) as [_ HV]. destruct (HV Hv) as [? ?]. auto.
  - intros (Hcl & Hv & He & Hq). destruct (Hs Hcl) as [HQ HV]. destruct (HV Hv) as [? ?]. auto.
Qed.

Lemma closed_seal c c' : seal c c' -> closed_empty c -> closed_empty c'.
Proof. intros Hs Hc Hcl. eapply drain_seal; [exact Hs|]. apply Hc. destruct Hs. congruence. Qed.

Definition drained (d : drain) : @assertion _ (list drain) := fun fr c =>
  closed_empty c /\ drain_ok d c /\ Forall (fun d => drain_ok d c) fr.

Lemma holds_seals {A} d (m : client A) : seals m -> holds (drained d) m (fun _ => drained d).
Proof.
  intros Hm fr c a c' (Hc & Hd & Hf) Hr. apply Hm in Hr. split; [by eapply closed_seal|].
  split; [by eapply drain_seal|]. eapply Forall_impl; [exact Hf|]. intros d'. by apply drain_seal.
Qed.

Lemma stays_seals {A} d (m : client A) : seals m -> stays drained d (atomic m).
Proof. intros Hm. apply stays_atomic. by apply holds_seals. Qed.

(** A step that seals, after which the thread knows more. *)
Lemma holds_drains {A} d (m : client A) d' :
  seals m -> (forall c a c', drain_ok d c -> m c = Returns (a, c') -> drain_ok d' c') ->
  holds (drained d) m (fun _ => drained d').
Proof.
  intros Hm Hd fr c a c' Hc Hr. destruct (holds_seals d m Hm fr c a c' Hc Hr) as (? & _ & ?).
  destruct Hc as (_ & ? & _). split; [done|]. split; [by eapply Hd|done].
Qed.

(** A step that only changes the control state of a client that is not
    closing. *)
Lemma holds_control {A} (m : client A) (d : A -> drain) :
  (forall c a c', m c = Returns (a, c') -> c' = c \/ (~ closing c /\ cl_control c' <> ApiClosed)) ->
  (forall c a c', m c = Returns (a, c') -> drain_ok (d a) c') ->
  holds (drained DAny) m (fun a => drained (d a)).
Proof.
  intros Hm Hd fr c a c' (Hc & _ & Hf) Hr. pose proof (Hd _ _ _ Hr). apply Hm in Hr as [->|[Hn Hcl]]; [by split|].
  split; [done|]. split; [done|]. eapply Forall_impl; [exact Hf|].
  intros []; cbn; [done|..]; [by intros ?|by intros [? _]..].
Qed.

End Draining.

Ltac drains_base := apply stays_seals; repeat seals_step.
Ltac drains := repeat stays_step drains_base.

(** ** The threads *)

#[local] Open Scope thread_scope.

Section Threads.
Context {PF : Platform} {CE : ClientEnv} {CL : ClientLaws}.
Implicit Types (d : drain).

Lemma drains_recovery_wait d fuel dl mode : stays drained d (WaitForRecoveryState fuel dl mode).
Proof.
  induction fuel as [|fuel IH]; cbn [WaitForRecoveryState]; [apply stays_diverge|].
  unfold WorkerStoppedStatus, WaitForCooldownStepLocked, WaitForRetryStepLocked, RecoveryStateWaitResultLocked. drains.
Qed.

Lemma drains_poll d fd t : stays drained d (poll fd t).
Proof. unfold poll. drains. Qed.

Lemma drains_sleep d ms : stays drained d (sleep_for ms).
Proof. unfold sleep_for. drains. Qed.
#[local] Hint Resolve drains_recovery_wait drains_poll drains_sleep : threads.

Lemma drains_credit d fuel : stays drained d (WaitForRequestCredit fuel).
Proof.
  assert (Hl : forall fd, stays drained d (credit_loop fuel fd)).
  { intros fd. induction fuel as [|n IH]; cbn [credit_loop]; [apply stays_diverge|]. drains. }
  unfold WaitForRequestCredit. drains.
Qed.

Lemma drains_session_ready d fuel : stays drained d (WaitUntilSessionReadyForSubmit fuel).
Proof.
  induction fuel as [|fuel IH]; cbn [WaitUntilSessionReadyForSubmit]; [apply stays_diverge|].
  unfold WaitForCooldownToSettle, WaitOneRecoveryRetryTick, RuntimeStopStatus. drains.
Qed.

Lemma drains_fail_resolve d info status f : stays drained d (FailAndResolve info status f).
Proof. unfold FailAndResolve. drains. Qed.
#[local] Hint Resolve drains_credit drains_session_ready drains_fail_resolve : threads.

Lemma drains_SubmitOne d fuel submit : stays drained d (SubmitOne fuel submit).
Proof.
  assert (Hl : forall info, stays drained d (submit_loop fuel submit info)).
  { intros info. induction fuel as [|n IH]; cbn [submit_loop]; [apply stays_diverge|].
    unfold TryAdmitSubmit, ResolveSubmitFailure, RuntimeStopStatus. drains. }
  unfold SubmitOne, MakePendingInfo. drains.
Qed.
#[local] Hint Resolve drains_SubmitOne : threads.

Lemma drains_submit_worker d fuel : stays drained d (SubmitWorker_Run fuel).
Proof. induction fuel as [|fuel IH]; cbn [SubmitWorker_Run]; [apply stays_diverge|]. drains. Qed.

Lemma drains_drain d fuel b : stays drained d (DrainResponseRing fuel b).
Proof.
  revert b. induction fuel as [|fuel IH]; intros b; cbn [DrainResponseRing]; [apply stays_diverge|].
  unfold DeliverEvent, ResolveCompletedRequest, DiscardEntryPayloadIfPresent. drains.
Qed.
#[local] Hint Resolve drains_drain : threads.

Lemma drains_poll_ready d fuel p : stays drained d (WaitUntilResponsePollReady fuel p).
Proof.
  revert p. induction fuel as [|n IH]; intros p; cbn [WaitUntilResponsePollReady]; [apply stays_diverge|].
  unfold WaitForNotification, SyncActivePollSession, DuplicateResponseWaitHandle, ResetActivePollFd. drains.
Qed.
#[local] Hint Resolve drains_poll_ready : threads.

Lemma drains_response_worker d fuel : stays drained d (ResponseWorker_Run fuel).
Proof.
  assert (Hl : forall p, stays drained d (response_loop fuel p)).
  { induction fuel as [|n IH]; intros p; cbn [response_loop]; [apply stays_diverge|].
    unfold WaitForResponseSignal, ResetActivePollFd. drains. }
  unfold ResponseWorker_Run, ResetActivePollFd. drains.
Qed.

Lemma drains_watchdog d fuel : stays drained d (WatchdogLoop fuel).
Proof.
  assert (Hl : forall x y z, stays drained d (watchdog_loop fuel x y z)).
  { induction fuel as [|n IH]; intros; cbn [watchdog_loop]; [apply stays_diverge|].
    unfold run_due, MaybeRunPendingTimeouts, MaybeRunHealthCheck, RequestHealthCheckRecovery, MaybeRunIdlePolicy. drains. }
  unfold WatchdogLoop. drains.
Qed.

(** The flags and lists of the threads are not what this is about. *)
Lemma seals_threads f :
  (forall c, cl_control (f c) = cl_control c /\ cl_submitQueue (f c) = cl_submitQueue c /\
     cl_session (f c) = cl_session c /\ cl_store (f c) = cl_store c) -> seals (modify f).
Proof.
  intros Hf c u c' [= <- <-]. destruct (Hf c) as (Hc & Hq & Hss & Hs). split; [done|].
  rewrite Hq, Hss, Hs. by split; [|split].
Qed.

Lemma seals_start_runtime : seals StartRuntime.
Proof.
  unfold StartRuntime. apply seals_bind; [apply seals_keeps; [lives|keeps]|]. intros []; [apply seals_ret|].
  apply seals_bind; [by apply seals_threads|]. intros _. apply seals_ret.
Qed.

Lemma seals_stop_runtime : seals StopRuntime.
Proof.
  unfold StopRuntime. apply seals_bind; [apply seals_keeps; [lives|keeps]|]. intros []; [|apply seals_ret].
  apply seals_bind; [by apply seals_threads|]. intros _. apply seals_ret.
Qed.

Lemma seals_prepare state : seals (PrepareForInitOpen state).
Proof. by apply seals_threads. Qed.
#[local] Hint Resolve seals_start_runtime seals_stop_runtime seals_prepare : seals.

Lemma drains_worker d fuel w : stays drained d (run_worker fuel w).
Proof.
  unfold run_worker. apply stays_bind; [|drains].
  destruct w; [apply drains_submit_worker|apply drains_response_worker|apply drains_watchdog].
Qed.

Lemma drains_start d : stays drained d StartThreads.
Proof. unfold StartThreads, start_thread. drains. Qed.

Lemma drains_stop d : stays drained d StopThreads.
Proof. unfold StopThreads, join_thread. drains. Qed.
#[local] Hint Resolve drains_start drains_stop : threads.

(** ** Shutdown *)

Lemma holds_begin_shutdown_drain :
  holds (drained DAny) BeginShutdown (fun begun => drained (if begun then DClosing else DAny)).
Proof.
  apply (holds_control BeginShutdown (fun begun => if begun then DClosing else DAny)); intros c b c';
    unfold BeginShutdown, CanStartShutdown, bind, gets; cbn; do 2 case_bool_decide; cbn; intros [= <- <-]; try by auto.
  - right. split; [|done]. by intros [?|?].
  - by left.
Qed.

Lemma holds_terminal_drain :
  holds (drained DClosing) CloseSessionAndEnterTerminalClosedLocked (fun _ => drained DSealed).
Proof.
  assert (Hspec : forall c u c', CloseSessionAndEnterTerminalClosedLocked c = Returns (u, c') ->
    seal c c' /\ Valid (cl_session c') = false).
  { intros c u c' Hr. step Hr as [] c1 E. apply close_live_spec in E as [Hs Hv]. step Hr as id c2 E2.
    injection E2 as _ <-. unfold EnterTerminalClosed in Hr.
    pose proof (session_enter _ _ _ _ _ _ Hr) as (_ & _ & Hss & Hc & _).
    assert (Hk : keeps_calls (EnterTerminalClosed id)) by keeps.
    apply Hk in Hr as (_ & Hq & Hst & _). rewrite Hss. split; [|done]. eapply seal_trans; [exact Hs|].
    split; [done|]. rewrite Hss, Hq, Hst. by split; [|split]. }
  apply holds_drains; [intros c u c' Hr; by apply Hspec in Hr as [? _]|]. intros c u c' Hc Hr. apply Hspec in Hr as [Hs Hv].
  split; [by eapply seal_closing|done].
Qed.

Lemma holds_take_all_drain : holds (drained DSealed) TakeAll (fun _ => drained DNoStore).
Proof.
  apply holds_drains; [intros c l c' [= <- <-]; by split; [|split; [|split]]|]. intros c l c' [Hc Hv] [= <- <-]. done.
Qed.

Lemma holds_swap_drain : holds (drained DNoStore) swap_submit_queue (fun _ => drained DEmpty).
Proof.
  apply holds_drains; [intros c l c' [= <- <-]; by split; [|split; [|split]]|]. intros c l c' (Hc & Hv & Hs) [= <- <-]. done.
Qed.

Lemma holds_finish_drain : holds (drained DEmpty) FinishShutdown (fun _ => drained DAny).
Proof.
  intros fr c [] c' (Hc & (Hcl & Hv & Hs & Hq) & Hf) [= <-]. split; [intros _; split; [by right|done]|].
  split; [done|]. eapply Forall_impl; [exact Hf|]. intros []; cbn; [done|..]; [by right|..]; intros Hd; (split; [by right|]);
    by destruct Hd as (_ & ?).
Qed.

Lemma drains_fail_outstanding :
  twp drained (drained DSealed) (FailOutstandingWork ClientClosed) (fun _ => drained DEmpty).
Proof.
  unfold FailOutstandingWork, FailAllPendingWithRecoveryPolicy, FailQueuedSubmissions.
  eapply (twp_bind _ _ _ _ (fun _ => drained DNoStore)).
  - tw (apply twp_atomic, holds_take_all_drain) as l. apply stays_end. drains.
  - intros _. tw (apply twp_atomic, holds_swap_drain) as q. apply stays_end. drains.
Qed.

Lemma drains_shutdown : stays drained DAny Shutdown.
Proof.
  unfold Shutdown. tw (apply twp_atomic, holds_begin_shutdown_drain) as begun. destruct begun; cbn [negb]; [|by apply twp_ret].
  tw (apply (twp_yield _ DClosing)). tw (apply twp_atomic, holds_terminal_drain). tw (apply (twp_yield _ DSealed)).
  apply stays_then; [unfold ClearCallbacks, ClearRecoveryEventCallback, SetRecoveryEventCallback, ClearDeathCallback; drains|]. intros ?.
  tw (apply (twp_yield _ DSealed)). tw (apply drains_stop). tw (apply (twp_yield _ DSealed)).
  tw (apply drains_fail_outstanding). tw (apply (twp_yield _ DEmpty)). apply twp_atomic, holds_finish_drain.
Qed.
#[local] Hint Resolve drains_shutdown : threads.

Lemma drains_finish_init : stays drained DAny FinishInit.
Proof.
  apply twp_atomic, (holds_control _ (fun _ => DAny)); [|done]. intros c b c'. unfold FinishInit, bind, gets. cbn.
  case_bool_decide as Hu; cbn; intros [= <- <-]; [right|by left]. split; [|done]. intros [?|?]; congruence.
Qed.
#[local] Hint Resolve drains_finish_init : threads.

Lemma drains_init mode : stays drained DAny (Init mode).
Proof. unfold Init, IsApiTerminal. drains. Qed.

Lemma drains_retry d fuel f :
  stays drained d (RetryUntilRecoverySettles fuel ((fun f => atomic (call_user f)) <$> f)).
Proof.
  destruct f as [f|]; cbn [fmap option_fmap option_map RetryUntilRecoverySettles]; [|drains].
  assert (Hu : stays drained d (call_user f)).
  { apply stays_seals. apply seals_keeps; intros c a c'; unfold call_user; destruct (f _); by intros [= <- <-]. }
  assert (Hl : forall dl st, stays drained d (retry_loop fuel (atomic (call_user f)) dl st)).
  { induction fuel as [|n IH]; intros; cbn [retry_loop]; [apply stays_diverge|].
    unfold GetRecoveryRuntimeSnapshot, GetSnapshot, HasPendingRecoveryLocked, WaitForCooldownToSettle,
      WaitOneRecoveryRetryTick. drains. }
  unfold GetRecoveryRuntimeSnapshot, GetSnapshot, HasPendingRecoveryLocked. drains.
Qed.
#[local] Hint Resolve drains_init drains_retry : threads.

Lemma drains_op op : stays drained DAny (perform op).
Proof.
  destruct op; cbn [perform]; unfold RequestExternalRecovery, bootstrap_death_callback, SetRecoveryPolicy,
    SetEventCallback, SetRecoveryEventCallback, RpcClient_SetBootstrapChannel, SetBootstrapChannel,
    InstallDeathCallbackLocked; drains.
Qed.

End Threads.

(** ** All threads together *)

Section Together.
Context {PF : Platform} {CE : ClientEnv} {CL : ClientLaws}.

Definition drain_global (calls : list future_id) (ls : list (role * drain)) (c : Client) : Prop :=
  closed_empty c /\ Forall (fun l => drain_ok l.2 c) ls.

Definition drain_compat (calls : list future_id) (r : role) (l1 l2 : list (role * drain)) (fr : list drain) : Prop :=
  fr = (l1 ++ l2).*2.

Lemma drain_global_seal calls calls' ls c c' :
  seal c c' -> drain_global calls ls c -> drain_global calls' ls c'.
Proof.
  intros Hs [Hc Hf]. split; [by eapply closed_seal|]. eapply Forall_impl; [exact Hf|]. intros l. by apply drain_seal.
Qed.

Lemma seals_invoke call : seals (InvokeAsync call).
Proof.
  intros c f c' Hr. destruct (decide (cl_control c = ApiOpen)) as [Ho|Ho].
  - rewrite (InvokeAsync_open call c Ho) in Hr. injection Hr as <- <-. apply seal_open; [|done].
    intros [?|?]; congruence.
  - rewrite (InvokeAsync_rejected call c Ho) in Hr. injection Hr as <- <-. by split; [|split; [|split]].
Qed.

#[export] Instance drain_invariant : Invariant (fun _ : role => drained) DAny drain_compat drain_global.
Proof.
  split.
  - intros calls l1 r l l2 c. unfold drain_compat, drain_global, drained. split.
    + intros [Hc Hf]. apply Forall_app in Hf as [? Hf]. apply Forall_cons in Hf as [? ?].
      eexists. split; [done|]. split; [done|]. split; [done|]. apply Forall_fmap, Forall_app. by split.
    + intros (fr & -> & Hc & Hd & Hf). split; [done|]. rewrite Forall_fmap in Hf. apply Forall_app in Hf as [? ?].
      apply Forall_app. split; [done|]. by constructor.
  - intros calls ls r c _ [Hc Hf]. split; [done|]. apply Forall_app. split; [done|]. by apply Forall_singleton.
  - intros calls l1 r l2 c [Hc Hf]. split; [done|]. apply Forall_app in Hf as [? Hf].
    apply Forall_cons in Hf as [_ ?]. by apply Forall_app.
  - intros op. apply drains_op.
  - intros fuel w. apply drains_worker.
  - intros calls ls c c' (reads & shm & fs & k & _ & ->). apply drain_global_seal. by split; [|split; [|split]].
  - intros calls ls call c f c' Hr. apply drain_global_seal. exact (seals_invoke call c f c' Hr).
Qed.

Lemma reachable_drained cfg : reachable cfg -> closed_empty (cf_state cfg).
Proof.
  intros Hr. assert (Hok : config_ok (fun _ => drained) DAny drain_global cfg).
  { eapply reachable_ok, Hr; [apply _|]. intros c0 (b & u & w & fs & k & _ & Hnew). split; [|done]. revert Hnew.
    unfold RpcClient_new, InstallDeathCallback, InstallDeathCallbackLocked, modify. intros [= <-]. by destruct b. }
  by destruct Hok as (ls & _ & Hc & _).
Qed.

(** C3: [Shutdown] leaves nothing behind.  In every interleaving, a client
    that is closed has no session, no queued and no pending call; and once its
    threads are gone, every call it ever accepted has been answered. *)
Theorem shutdown_answers_every_call cfg :
  reachable cfg -> cl_control (cf_state cfg) = ApiClosed ->
  cl_submitQueue (cf_state cfg) = [] /\ cl_store (cf_state cfg) = ∅ /\ Valid (cl_session (cf_state cfg)) = false /\
  (cf_pool cfg = [] -> ids_fit (cf_state cfg) -> forall f, f ∈ cf_calls cfg -> ready f (cf_state cfg)).
Proof.
  intros Hr Hcl. destruct (reachable_drained cfg Hr Hcl) as (_ & Hv & Hs & Hq).
  split; [done|]. split; [done|]. split; [done|]. intros Hp Hfit f Hf.
  destruct (reachable_calls cfg Hr) as (ls & Hls & kvs & Hm & Ht). rewrite Hp in Hls. apply Forall2_nil_inv_l in Hls as ->.
  apply Forall2_nil_inv_l in Hm as ->. destruct (tracked_all _ _ _ _ Ht f Hfit) as [?|(id & [(s & Hin & _)|(p & Hin & _)])].
  - split; [done|apply not_elem_of_nil].
  - done.
  - rewrite Hq in Hin. by apply not_elem_of_nil in Hin.
  - rewrite Hs, lookup_empty in Hin. done.
Qed.

End Together.
