(* ===== verification/ClientSpec.v ===== *)
(** * The client: what its operations do

    The effect of the death of the engine, of timeouts, replies, pushes and
    stale events on the calls, and the wait for the end of a cooldown. *)

From Stdlib Require Import Lia.
From S2P Require Import Prelude Machine Threads Pool Types ShmLayout Ring FilePayload EventFd Os Platform Session SessionRings.
From S2P Require Import ClientState ClientRecovery ClientCore ClientWorkers ClientConfig ClientFutures.
From S2P Require Import ClientCalls ClientTotal ClientLive ClientInvariant.
#[local] Open Scope machine_scope.

Section Effects.
Context {PF : Platform} {CE : ClientEnv}.

(** ** Resolving futures *)

(** [ResolveState] as a function of the table of futures. *)
Definition settle (f : future_id) (r : RpcReply) (fs : list (option RpcReply)) : list (option RpcReply) :=
  match fs !! f with Some None => <[f := Some r]> fs | _ => fs end.

Definition settle_all (l : list future_id) (r : RpcReply) (fs : list (option RpcReply)) : list (option RpcReply) :=
  fold_left (fun fs f => settle f r fs) l fs.

Lemma settle_lookup f r fs g :
  settle f r fs !! g = match fs !! g with Some None => if decide (g = f) then Some (Some r) else Some None | x => x end.
Proof.
  unfold settle. destruct (fs !! f) as [[q|]|] eqn:E.
  - destruct (fs !! g) as [[|]|] eqn:Eg; try done. case_decide; [subst; congruence|done].
  - destruct (decide (g = f)) as [->|Hne].
    + rewrite E, list_lookup_insert_eq by (by eapply lookup_lt_Some). done.
    + rewrite list_lookup_insert_ne by done. by destruct (fs !! g) as [[|]|].
  - destruct (fs !! g) as [[|]|] eqn:Eg; try done. case_decide; [subst; congruence|done].
Qed.

Lemma settle_all_lookup l r fs g :
  settle_all l r fs !! g =
    match fs !! g with Some None => if decide (g ∈ l) then Some (Some r) else Some None | x => x end.
Proof.
  revert fs. induction l as [|f l IH]; intros fs; cbn.
  - by destruct (fs !! g) as [[|]|].
  - fold (settle_all l r (settle f r fs)). rewrite IH, settle_lookup. destruct (fs !! g) as [[|]|]; try done.
    destruct (decide (g = f)) as [->|Hne]; [by rewrite decide_True by set_solver|].
    destruct (decide (g ∈ l)); [by rewrite decide_True by set_solver|by rewrite decide_False by set_solver].
Qed.

(** What is the same but for the futures. *)
Definition with_futures (fs : list (option RpcReply)) (c : Client) : Client := c <| cl_futures := fs |>.

Lemma ResolveState_eq f r c : exists c', ResolveState f r c = Returns (tt, c') /\
  cl_futures c' = settle f r (cl_futures c) /\ same_live c c' /\ cl_store c' = cl_store c /\
  cl_submitQueue c' = cl_submitQueue c /\ cl_policy c' = cl_policy c /\ cl_user c' = cl_user c.
Proof.
  unfold ResolveState, settle, bind, gets. cbn.
  destruct (cl_futures c !! f) as [[q|]|] eqn:E; cbn; eexists; (split; [reflexivity|]); cbn; done.
Qed.

Lemma resolve_all_eq (l : list PendingRequest) r c :
  exists c', for_each l (fun p => ResolveState (pr_future p) r) c = Returns (tt, c') /\
    cl_futures c' = settle_all (pr_future <$> l) r (cl_futures c) /\ same_live c c' /\
    cl_store c' = cl_store c /\ cl_policy c' = cl_policy c /\ cl_user c' = cl_user c.
Proof.
  revert c. induction l as [|p l IH]; intros c; cbn [for_each]; [by eexists|].
  destruct (ResolveState_eq (pr_future p) r c) as (c1 & E1 & Hf1 & Hl1 & Hs1 & _ & Hp1 & Hu1).
  destruct (IH c1) as (c2 & E2 & Hf2 & Hl2 & Hs2 & Hp2 & Hu2). exists c2.
  unfold bind. rewrite E1. cbn. split; [exact E2|]. split; [cbn; by rewrite Hf2, Hf1|].
  split; [|split_and!; congruence].
  destruct Hl1 as (?&?&?&?&?&?&?), Hl2 as (?&?&?&?&?&?&?). unfold same_live. split_and!; congruence.
Qed.

(** The futures of the requests in the store. *)
Definition pending_futures (store : gmap Z PendingRequest) : list future_id := pr_future <$> store_values store.

Lemma pending_futures_spec store f :
  f ∈ pending_futures store <-> exists id p, store !! id = Some p /\ pr_future p = f.
Proof.
  unfold pending_futures, store_values. rewrite list_elem_of_fmap. split.
  - intros (p & -> & Hp). apply list_elem_of_fmap in Hp as ([id q] & -> & Hin).
    apply elem_of_map_to_list in Hin. by exists id, q.
  - intros (id & p & Hp & <-). exists p. split; [done|]. apply list_elem_of_fmap. exists (id, p).
    split; [done|]. by apply elem_of_map_to_list.
Qed.

Lemma ResolveAllPending_eq status c :
  exists c', ResolveAllPending status c = Returns (tt, c') /\
    cl_futures c' = settle_all (pending_futures (cl_store c)) (reply_of_status status) (cl_futures c) /\
    same_live c c' /\ cl_store c' = ∅ /\ cl_policy c' = cl_policy c /\ cl_user c' = cl_user c.
Proof.
  unfold ResolveAllPending, TakeAll.
  destruct (resolve_all_eq (store_values (cl_store c)) (reply_of_status status) (c <| cl_store := ∅ |>))
    as (c' & E & Hf & Hl & Hs & Hp & Hu). exists c'. unfold bind, gets, modify. cbn.
  split; [exact E|]. split; [exact Hf|]. split; [exact Hl|]. by split.
Qed.

(** ** The death of the engine *)

(** Where the decision leaves the client when no session is reopened. *)
Definition lifecycle_after_death (d : option RecoveryDecision) (before : ClientLifecycleState) : ClientLifecycleState :=
  match d with
  | None => NoSession
  | Some d =>
      match rd_action d with
      | Ignore => NoSession
      | Restart => Cooldown
      | IdleClose => IdleClosed
      | ManualShutdown => before
      end
  end.

(** The decision the policy takes about the death of session [sid]. *)
Definition death_decision (sid : Z) (c : Client) : option RecoveryDecision :=
  (fun f => fst (f {| dr_deadSessionId := sid |} (cl_user c))) <$> onEngineDeath (cl_policy c).

End Effects.

Section Death.
Context {PF : Platform} {CE : ClientEnv} {CL : ClientLaws}.

Lemma schedule_keeps_calls sid delay : keeps_calls (schedule sid delay KeepCurrentState).
Proof. unfold schedule. rewrite ScheduleRecoveryLocked_S. cbn [HandlePendingRequestsForRecoveryLocked]. keeps. Qed.

Lemma decision_keeps_calls d sid : keeps_calls (ApplyRecoveryDecisionLocked schedule d sid KeepCurrentState).
Proof. unfold ApplyRecoveryDecisionLocked. pose proof (schedule_keeps_calls sid). keeps. Qed.

Lemma policy_of_close_if id c u c' :
  CloseLiveSessionIfSnapshotMatches id c = Returns (u, c') -> cl_policy c' = cl_policy c /\ cl_user c' = cl_user c /\
    cl_lifecycle c' = cl_lifecycle c.
Proof.
  unfold CloseLiveSessionIfSnapshotMatches, CurrentSessionId, PublishSessionIdLocked, session_Reset, close_bootstrap,
    bootstrap_CloseSession, bind, gets, modify. cbn.
  destruct (negb _); [by intros [= <- <-]|]. destruct (_ || _); [by intros [= <- <-]|]. cbn.
  destruct (Reset _ _) as [s w]. cbn. destruct (cl_bootstrap c) as [ch|]; [|by intros [= <- <-]]. cbn.
  destruct (ch_CloseSession _ ch w) as [[st ch'] w']. by intros [= <- <-].
Qed.

Lemma enter_spec state delay id c u c' :
  (TransitionLifecycle state delay id CooldownClear 0;; NotifyRecoveryStateChanged) c = Returns (u, c') ->
  same_session c c' /\ cl_lifecycle c' = state.
Proof.
  intros Hr. step Hr as [] c1 E. apply TransitionLifecycle_spec in E as (Hs & Hl & _).
  apply Notify_spec in Hr as (Hs' & -> & _). split; [by eapply same_session_trans|done].
Qed.

(** Without a session there is nothing to close. *)
Lemma close_if_quiet id c u c' :
  no_session c -> id <> 0 -> CloseLiveSessionIfSnapshotMatches id c = Returns (u, c') -> c' = c.
Proof.
  intros [Hn _] Hid. unfold CloseLiveSessionIfSnapshotMatches, CurrentSessionId, bind, gets. cbn. rewrite Hn.
  destruct (Z.eqb_spec 0 id); [congruence|]. cbn. by intros [= _ <-].
Qed.

Lemma schedule_delayed sid delay c c' :
  cl_control c = ApiOpen -> no_session c -> sid <> 0 -> delay <> 0 ->
  schedule sid delay KeepCurrentState c = Returns (tt, c') -> no_session c' /\ cl_lifecycle c' = Cooldown.
Proof.
  intros Ho Hn Hs Hd Hr. unfold schedule in Hr. rewrite ScheduleRecoveryLocked_S in Hr.
  step Hr as o c1 E. injection E as <- <-. rewrite Ho in Hr. cbn [bool_decide negb decide_rel] in Hr.
  step Hr as [] c1 E. step E as now c0 En. apply session_now in En. apply Z.eqb_neq in Hd. rewrite Hd in E.
  step E as [] c2 E2. apply TransitionLifecycle_spec in E2 as (Hs2 & Hl2 & _). apply Notify_spec in E as (Hs1 & Hl1 & _).
  assert (Hn1 : no_session c1) by (do 3 (eapply session_stable; [done|]); done).
  step Hr as [] c3 E3. apply close_if_quiet in E3 as ->; [|done..]. step Hr as [] c4 E4. injection E4 as <-.
  unfold MaybeReconnectImmediatelyLocked in Hr. rewrite Hd in Hr. injection Hr as <-. split; [done|congruence].
Qed.

(** What follows once the session is closed and the requests are answered. *)
Definition after_death (sid : Z) : client unit :=
  policy ← gets cl_policy;
  match onEngineDeath policy with
  | None => EnterNoSessionWithoutLiveSessionLocked
  | Some f =>
      decision ← call_policy f {| dr_deadSessionId := sid |};
      if bool_decide (rd_action decision = Ignore) then EnterNoSessionWithoutLiveSessionLocked else
      ApplyRecoveryDecisionLocked schedule decision sid KeepCurrentState
  end.

Lemma HandleEngineDeath_current sid dead c :
  cl_control c = ApiOpen -> cl_snapshot c = sid -> sid <> 0 -> dead = 0 \/ dead = sid ->
  HandleEngineDeath sid dead c =
    (CloseLiveSessionIfSnapshotMatches sid;; ResolveAllPending CrashedDuringExecution;; after_death sid) c.
Proof.
  intros Ho Hs Hnz Hd. unfold HandleEngineDeath, HandleEngineDeathLocked, IsApiOpen, CurrentSessionId, IsStaleObservedSession.
  unfold bind at 1 2 3, gets at 1 2. cbn [run_bind mret machine_ret]. rewrite Ho.
  rewrite bool_decide_eq_true_2 by done. cbn [negb]. cbv beta. rewrite Hs, Z.eqb_refl. cbn [negb].
  rewrite (proj2 (Z.eqb_neq sid 0)) by done.
  assert (Hres : (if negb (dead =? 0) then dead else sid) = sid).
  { destruct Hd as [->| ->]; [done|]. by destruct (negb (sid =? 0)). }
  rewrite Hres, Z.eqb_refl, andb_false_r. reflexivity.
Qed.

Lemma after_death_keeps sid : keeps_calls (after_death sid).
Proof. unfold after_death. pose proof (fun d => decision_keeps_calls d sid). keeps. Qed.

Lemma enter_no_session_spec c c' :
  cl_control c = ApiOpen -> no_session c -> EnterNoSessionWithoutLiveSessionLocked c = Returns (tt, c') ->
  no_session c' /\ cl_lifecycle c' = NoSession.
Proof.
  intros Ho Hn Hr. step Hr as o c1 E. injection E as <- <-. rewrite Ho in Hr. cbn in Hr.
  step Hr as id c1 E. injection E as _ <-. apply enter_spec in Hr as [Hs ->]. split; [by eapply session_stable|done].
Qed.

Lemma after_death_spec sid c c' d :
  cl_control c = ApiOpen -> no_session c -> sid <> 0 -> death_decision sid c = d ->
  (forall d', d = Some d' -> ~ (rd_action d' = Restart /\ rd_delayMs d' = 0)) ->
  after_death sid c = Returns (tt, c') ->
  no_session c' /\ cl_lifecycle c' = lifecycle_after_death d (cl_lifecycle c).
Proof.
  intros Ho Hn Hnz Hd Hnr Hr. unfold after_death in Hr. step Hr as pol c1 E. injection E as <- <-.
  unfold death_decision in Hd. destruct (onEngineDeath (cl_policy c)) as [f|]; cbn in Hd; subst d.
  2:{ by apply enter_no_session_spec in Hr. }
  step Hr as d c1 E. unfold call_policy in E. destruct (f _ (cl_user c)) as [d' u']. cbn in Hnr.
  injection E as <- <-. cbn. specialize (Hnr d' eq_refl).
  case_bool_decide as Hact.
  { apply enter_no_session_spec in Hr as [? ?]; [|done..]. by rewrite Hact. }
  unfold ApplyRecoveryDecisionLocked in Hr. step Hr as o c1 E. injection E as <- <-.
  rewrite bool_decide_eq_true_2 in Hr by done. cbn [negb] in Hr.
  destruct (rd_action d') eqn:Ea; cbn; [done| | |].
  - apply schedule_delayed in Hr; [done..|]. intros Hz. by apply Hnr.
  - step Hr as o c1 E. injection E as <- <-.
    rewrite bool_decide_eq_true_2 in Hr by done. cbn [negb] in Hr.
    step Hr as [] c1 E. apply close_if_quiet in E as ->; [|done..]. step Hr as id c2 E. injection E as _ <-.
    apply enter_spec in Hr as [Hs ->]. split; [by eapply session_stable|done].
  - by injection Hr as <-.
Qed.

(** C16: the death of the engine.  When the live session dies, every request
    that was sent on it and has no reply yet is answered with
    [CrashedDuringExecution]; replies already given stay; no request stays
    pending; and the session is gone unless the decision of the policy is an
    immediate restart, in which case a new one may have been opened. *)
Theorem engine_death_answers_pending c sid dead :
  inv AnyTime c -> cl_control c = ApiOpen -> cl_snapshot c = sid -> sid <> 0 -> dead = 0 \/ dead = sid ->
  exists c', HandleEngineDeath sid dead c = Returns (tt, c') /\
    cl_store c' = ∅ /\
    (forall f, cl_futures c' !! f =
       match cl_futures c !! f with
       | Some None => if decide (f ∈ pending_futures (cl_store c))
                      then Some (Some (reply_of_status CrashedDuringExecution)) else Some None
       | x => x
       end) /\
    inv AnyTime c' /\
    (forall d, death_decision sid c = d ->
       (forall d', d = Some d' -> ~ (rd_action d' = Restart /\ rd_delayMs d' = 0)) ->
       no_session c' /\ cl_lifecycle c' = lifecycle_after_death d (cl_lifecycle c)).
Proof.
  intros Hi Ho Hsid Hnz Hdead.
  destruct (total_engine_death sid dead c I) as ([] & c' & Hr & _). exists c'. split; [done|].
  assert (Hinv : inv AnyTime c') by (by eapply inv_engine_death).
  rewrite HandleEngineDeath_current in Hr by done. step Hr as [] c1 E1.
  pose proof (policy_of_close_if _ _ _ _ E1) as (Hp1 & Hu1 & Hl1).
  pose proof (keeps_close_if sid c tt c1 E1) as (Hf1 & _ & Hs1 & _).
  pose proof (control_close_if sid c tt c1 E1) as [Hc1 _].
  assert (Hq1 : quiet_inv AnyTime c1).
  { eapply closes_matching; [|exact E1]. split; [by apply inv_is_loose|by left]. }
  step Hr as [] c2 E2. destruct (ResolveAllPending_eq CrashedDuringExecution c1) as (c2' & E2' & Hf2 & Hl2 & Hs2 & Hp2 & Hu2).
  rewrite E2' in E2. injection E2 as ->. pose proof (after_death_keeps sid _ _ _ Hr) as (Hf & _ & Hs & _).
  split; [by rewrite Hs|]. split.
  { intros f. rewrite Hf, Hf2, Hf1, Hs1. apply settle_all_lookup. }
  split; [done|]. intros d Hd Hnr. destruct Hl2 as (_ & Hn2 & Hss2 & Hlc2 & _ & Hc2 & _).
  assert (Hns : no_session c2) by (destruct Hq1 as [_ [? ?]]; unfold no_session; by rewrite Hn2, Hss2).
  rewrite <- Hl1, <- Hlc2. eapply after_death_spec; [congruence|done|done| |exact Hnr|exact Hr].
  unfold death_decision in *. by rewrite Hp2, Hp1, Hu2, Hu1.
Qed.

End Death.

(** ** Futures only become ready *)

Section Settles.
Context {PF : Platform} {CE : ClientEnv}.

(** [m] creates no future and changes no reply. *)
Definition settles {A} (m : client A) : Prop := forall c a c', m c = Returns (a, c') ->
  length (cl_futures c') = length (cl_futures c) /\
  forall f r, cl_futures c !! f = Some (Some r) -> cl_futures c' !! f = Some (Some r).

Lemma settles_keeps {A} (m : client A) : keeps_calls m -> settles m.
Proof. intros Hm c a c' Hr. apply Hm in Hr as (-> & _). done. Qed.

Lemma settles_bind {A B} (m : client A) (k : A -> client B) :
  settles m -> (forall a, settles (k a)) -> settles (bind m k).
Proof.
  intros Hm Hk c b c' Hr. step Hr as a c1 E. apply Hm in E as [<- Hf]. apply Hk in Hr as [<- Hf']. eauto.
Qed.

Lemma settles_for_each {A} (l : list A) body : (forall a, settles (body a)) -> settles (for_each l body).
Proof. intros Hb. induction l; cbn; [apply settles_keeps; keeps|by apply settles_bind]. Qed.

Lemma settles_resolve f r : settles (ResolveState f r).
Proof.
  intros c [] c' Hr. destruct (ResolveState_eq f r c) as (c1 & E & Hf & _). rewrite E in Hr. injection Hr as <-.
  rewrite Hf. split; [unfold settle; destruct (cl_futures c !! f) as [[|]|]; [done|apply length_insert|done]|].
  intros g q Hg. by rewrite settle_lookup, Hg.
Qed.

Lemma settles_take_all : settles TakeAll.
Proof. by intros c l c' [= <- <-]. Qed.

Lemma settles_apply_failure sched info status :
  (forall a b p, settles (sched a b p)) -> settles (ApplyFailureRecoveryDecisionLocked sched info status).
Proof.
  intros Hs. unfold ApplyFailureRecoveryDecisionLocked, ApplyRecoveryDecisionLocked.
  repeat first [apply settles_bind; [apply settles_keeps; solve [keeps]|intros ?]
               |match goal with |- settles (match ?x with _ => _ end) => destruct x end
               |apply Hs|apply settles_keeps; solve [keeps]].
Qed.

Lemma settles_schedule depth a b p : settles (ScheduleRecoveryLocked depth a b p).
Proof.
  revert a b p. induction depth as [|depth IH]; intros a b p; [apply settles_keeps; cbn; keeps|].
  rewrite ScheduleRecoveryLocked_S. apply settles_bind; [apply settles_keeps; keeps|]. intros o.
  destruct (negb o); [apply settles_keeps; keeps|].
  do 2 (apply settles_bind; [apply settles_keeps; keeps|intros ?]).
  apply settles_bind; [|intros; apply settles_keeps; keeps].
  destruct p; cbn [HandlePendingRequestsForRecoveryLocked]; [| |apply settles_keeps; keeps];
    (apply settles_bind; [apply settles_take_all|intros l; apply settles_for_each; intros q]).
  - apply settles_bind; [by apply settles_apply_failure|intros; apply settles_resolve].
  - apply settles_resolve.
Qed.

Lemma settles_fail_resolve info status f : settles (fail_resolve info status f).
Proof.
  apply settles_bind; [apply settles_apply_failure, settles_schedule|intros; apply settles_resolve].
Qed.

(** [fail_resolve] makes its future ready. *)
Lemma fail_resolve_ready info status f c u c' :
  (f < length (cl_futures c))%nat -> fail_resolve info status f c = Returns (u, c') -> ready f c'.
Proof.
  intros Hlt Hr. step Hr as [] c1 E. apply settles_apply_failure in E as [Hlen _]; [|apply settles_schedule].
  destruct u. destruct (ResolveState_eq f (reply_of_status status) c1) as (c2 & E2 & Hf & _).
  rewrite E2 in Hr. injection Hr as <-. unfold ready. rewrite Hf, settle_lookup.
  destruct (cl_futures c1 !! f) as [[r|]|] eqn:E1; [by exists r| |].
  - rewrite decide_True by done. eauto.
  - apply lookup_ge_None in E1. lia.
Qed.

Lemma fail_list_ready status l c c' p :
  for_each l (fun p => fail_resolve (pr_info p) status (pr_future p)) c = Returns (tt, c') ->
  p ∈ l -> (pr_future p < length (cl_futures c))%nat -> ready (pr_future p) c'.
Proof.
  revert c. induction l as [|q l IH]; intros c Hr Hin Hlt; [by apply not_elem_of_nil in Hin|].
  cbn [for_each] in Hr. step Hr as [] c1 E. apply elem_of_cons in Hin as [->|Hin].
  - apply fail_resolve_ready in E as (r & Hq); [|done]. exists r.
    eapply settles_for_each; [|exact Hr|exact Hq]. intros. apply settles_fail_resolve.
  - apply (IH c1); [done..|]. apply settles_fail_resolve in E as [-> _]. done.
Qed.

(** Without a policy, failing is resolving. *)
Lemma fail_resolve_no_policy info status f c :
  onFailure (cl_policy c) = None -> fail_resolve info status f c = ResolveState f (reply_of_status status) c.
Proof.
  intros Hp. unfold fail_resolve, ApplyFailureRecoveryDecision, ApplyFailureRecoveryDecisionLocked.
  unfold bind at 1. replace ((isOpen ← IsApiOpen;
     if negb isOpen then mret tt else _) c) with (Returns (tt, c)); [done|].
  unfold IsApiOpen, CurrentSessionId, bind, gets. cbn. destruct (negb _); [done|].
  cbn. destruct (IsStaleObservedSession _ _); [done|]. cbn. by rewrite Hp.
Qed.

Lemma fail_list_no_policy status l c :
  onFailure (cl_policy c) = None ->
  for_each l (fun p => fail_resolve (pr_info p) status (pr_future p)) c =
    for_each l (fun p => ResolveState (pr_future p) (reply_of_status status)) c.
Proof.
  revert c. induction l as [|q l IH]; intros c Hp; [done|]. cbn [for_each]. unfold bind.
  rewrite fail_resolve_no_policy by done.
  destruct (ResolveState_eq (pr_future q) (reply_of_status status) c) as (c1 & -> & _ & _ & _ & _ & Hp1 & _).
  cbn. apply IH. congruence.
Qed.

(** The requests whose deadline is over at the time [now]. *)
Definition expired (now : Z) (store : gmap Z PendingRequest) : gmap Z PendingRequest := filter (is_expired now) store.


End Settles.

Section Events.
Context {PF : Platform} {CE : ClientEnv}.

(** Events about another session change nothing.  The death of an engine,
    a request for recovery, a failed request or an idle period that was
    observed on a session other than the current one, or on a client that is
    not open, leaves the client exactly as it is; so does the death of a
    session other than the one observed. *)
Theorem stale_events_ignored c observed dead request info status idleMs :
  (cl_control c <> ApiOpen \/ cl_snapshot c <> observed \/ observed = 0 \/ (dead <> 0 /\ dead <> observed) ->
     HandleEngineDeath observed dead c = Returns (tt, c)) /\
  (cl_control c <> ApiOpen \/ cl_snapshot c <> observed \/
     (xr_sessionId request <> 0 /\ xr_sessionId request <> observed) ->
     HandleExternalRecovery observed request c = Returns (tt, c)) /\
  (cl_control c <> ApiOpen \/ cl_snapshot c <> pi_sessionId info ->
     ApplyFailureRecoveryDecision info status c = Returns (tt, c)) /\
  (cl_control c <> ApiOpen \/ cl_snapshot c <> observed -> HandleIdleRecovery observed idleMs c = Returns (tt, c)).
Proof.
  assert (Hguard : forall obs (m : client unit),
    (cl_control c <> ApiOpen \/ cl_snapshot c <> obs \/ m c = Returns (tt, c)) ->
    (isOpen ← IsApiOpen; if negb isOpen then mret tt else
     cur ← CurrentSessionId; if IsStaleObservedSession obs cur then mret tt else m) c = Returns (tt, c)).
  { intros obs m Hm. unfold IsApiOpen, CurrentSessionId, IsStaleObservedSession, bind, gets. cbn.
    case_bool_decide as Ho; cbn; [|done]. destruct (Z.eqb_spec (cl_snapshot c) obs); cbn; [|done]. naive_solver. }
  split_and!; intros Hc; apply Hguard.
  - destruct Hc as [?|[?|Hc]]; [tauto..|]. right. right. unfold HandleEngineDeathLocked.
    destruct (Z.eqb_spec observed 0); [done|]. destruct Hc as [?|[Hd Hd']]; [done|].
    apply Z.eqb_neq in Hd, Hd'. rewrite Hd. cbn [negb]. rewrite Hd, Hd'. done.
  - destruct Hc as [?|[?|[Hd Hd']]]; [tauto..|]. right. right. unfold HandleExternalRecoveryLocked.
    apply Z.eqb_neq in Hd, Hd'. by rewrite Hd, Hd'.
  - tauto.
  - tauto.
Qed.

(** The bytes of the reply in an entry whose payload is inline. *)
Definition inline_reply (entry : ResponseRingEntry) : RpcReply :=
  {| rp_status := StatusCode_of_u32 (rs_statusCode entry);
     rp_payload := Ztake (rs_resultSize entry) (rs_payload entry) |}.

(** A reply reaches its caller.  The response to a pending request makes
    its future ready with the status and the payload bytes of the entry, the
    request is no longer pending, no other future changes; and the same
    response arriving again changes nothing. *)
Theorem reply_delivered c entry p :
  cl_store c !! rs_requestId entry = Some p -> cl_futures c !! pr_future p = Some None ->
  rs_payloadKind entry = PAYLOAD_KIND_INLINE -> rs_resultSize entry <= RESPONSE_INLINE_PAYLOAD_BYTES ->
  StatusCode_of_u32 (rs_statusCode entry) = Ok ->
  exists c', alone (ResolveCompletedRequest entry) c = Returns (tt, c') /\
    cl_futures c' = <[pr_future p := Some (inline_reply entry)]> (cl_futures c) /\
    cl_store c' = delete (rs_requestId entry) (cl_store c) /\
    alone (ResolveCompletedRequest entry) c' = Returns (tt, c').
Proof.
  intros Hs Hf Hk Hz Hok. unfold ResolveCompletedRequest. cbn [alone tbind atomic].
  unfold Take, ResolveEntryPayload, bind, gets, modify. cbn. rewrite Hs. cbn.
  rewrite (proj2 (Z.ltb_ge _ _)) by done. rewrite Hk. cbn. rewrite Hok. rewrite !status_is_refl. cbn.
  unfold ResolveState, TouchActivity, MonotonicNowMs, steady_now, bind, gets, modify. cbn. rewrite Hf. cbn.
  eexists. split; [reflexivity|]. cbn. rewrite lookup_delete_eq. cbn.
  unfold inline_reply. rewrite Hok. split; [done|]. split; [done|].
  unfold DiscardEntryPayloadIfPresent. rewrite Hk. done.
Qed.

Lemma BuildPendingRequest_spec submit c p c' :
  BuildPendingRequest submit c = Returns (p, c') ->
  pr_future p = sb_future submit /\ pi_sessionId (pr_info p) = cl_snapshot c /\
  pi_requestId (pr_info p) = sb_requestId submit /\
  (pr_waitDeadline p = None <-> call_execTimeoutMs (sb_call submit) = 0) /\
  forall d, pr_waitDeadline p = Some d ->
    exists n, d = env_clock n + call_execTimeoutMs (sb_call submit) * NS_PER_MS.
Proof.
  unfold BuildPendingRequest, MakePendingInfo, MakePendingWaitDeadline, CurrentSessionId, steady_now, bind, gets, modify. cbn.
  destruct (Z.eqb_spec (call_execTimeoutMs (sb_call submit)) 0); cbn; intros [= <- _]; cbn; split_and!; try done.
  intros d [= <-]. eauto.
Qed.

(** A push admits the request or leaves no trace of it.  When
    [TryPushRequest] succeeds, exactly one entry has been added to the store,
    for the future of the submission, with the current session and a deadline
    [execTimeoutMs] from now (none for [0]); when it fails, the store is as
    before.  In both cases no future and no queued submission changes. *)
Theorem push_admits_or_leaves c submit status c' :
  cl_store c !! sb_requestId submit = None -> TryPushRequest submit c = Returns (status, c') ->
  cl_futures c' = cl_futures c /\ cl_submitQueue c' = cl_submitQueue c /\
  (status <> Ok -> cl_store c' = cl_store c) /\
  (status = Ok -> exists p, cl_store c' = <[sb_requestId submit := p]> (cl_store c) /\
     pr_future p = sb_future submit /\ pi_sessionId (pr_info p) = cl_snapshot c /\
     pi_requestId (pr_info p) = sb_requestId submit /\
     (pr_waitDeadline p = None <-> call_execTimeoutMs (sb_call submit) = 0) /\
     forall d, pr_waitDeadline p = Some d ->
       exists n, d = env_clock n + call_execTimeoutMs (sb_call submit) * NS_PER_MS).
Proof.
  intros Hnone Hr. unfold TryPushRequest in Hr. step Hr as s c1 E. injection E as <- <-.
  destruct (negb (status_is (ValidatePushSession _) Ok)) eqn:Ev.
  { injection Hr as <- <-. split_and!; try done. intros Hok. by rewrite Hok, status_is_refl in Ev. }
  step Hr as [[pst data] kind] c1 E. assert (Hsnap : cl_snapshot c1 = cl_snapshot c) by (by apply live_prepare in E as (_ & ? & _)).
  apply keeps_prepare in E as (Hf1 & Hq1 & Hs1 & _). destruct (negb (status_is pst Ok)) eqn:Ep.
  { injection Hr as <- <-. split_and!; try done. intros Hok. by rewrite Hok, status_is_refl in Ep. }
  step Hr as entry c2 E. unfold lift_run in E. destruct (run_of_defined _); [|done..]. injection E as _ <-.
  step Hr as p c3 E3. pose proof (BuildPendingRequest_spec _ _ _ _ E3) as Hp. apply keeps_build in E3 as (Hf3 & Hq3 & Hs3 & _).
  step Hr as [] c4 E4. injection E4 as <-. apply push_to_session_spec in Hr as (Hf & Hq & Hs). cbn in Hf, Hq, Hs.
  rewrite Hs3, Hs1 in Hs. split; [congruence|]. split; [congruence|]. split.
  - intros Hne. rewrite status_is_false in Hs by done. by rewrite Hs, delete_insert_id.
  - intros ->. rewrite status_is_refl in Hs. exists p. split; [done|]. by rewrite <- Hsnap.
Qed.

End Events.

(** ** A failed push closes the session *)

Section TransportFailure.
Context {PF : Platform} {CE : ClientEnv} {CL : ClientLaws}.

Lemma lifecycle_of_close c u c' :
  CloseLiveSessionLocked c = Returns (u, c') -> cl_lifecycle c' = cl_lifecycle c.
Proof.
  unfold CloseLiveSessionLocked, CloseLiveSession, CurrentSessionId, PublishSessionIdLocked, session_Reset, close_bootstrap,
    bootstrap_CloseSession, NotifyRecoveryStateChanged, bind, gets, modify. cbn.
  destruct (Reset _ _) as [s w]. cbn. destruct (cl_bootstrap c) as [ch|]; [|by intros [= <- <-]]. cbn.
  destruct (ch_CloseSession _ ch w) as [[st ch'] w']. by intros [= <- <-].
Qed.

(** C19: a transport failure strands the requests in flight.  When a push finds
    the peer gone, the live session is closed, but the requests already sent
    on it stay pending, without a reply, and the client stays [Active] although
    it has no session any more. *)
Theorem transport_failure_strands_requests c :
  inv AnyTime c -> cl_snapshot c <> 0 ->
  exists c', CloseLiveSessionForTransportFailure c = Returns (tt, c') /\
    no_session c' /\ cl_lifecycle c' = Active /\
    cl_store c' = cl_store c /\ cl_futures c' = cl_futures c.
Proof.
  intros Hi Hn. destruct (total_close c I) as ([] & c' & Hr & _). exists c'. split; [done|].
  assert (Hq : quiet_inv AnyTime c') by (eapply closes_live; [by apply inv_is_loose|exact Hr]).
  split; [by destruct Hq|]. split.
  { rewrite (lifecycle_of_close _ _ _ Hr). destruct Hi as [[_ [[? _]|(_ & ? & _)]] _]; done. }
  apply keeps_close in Hr as (? & _ & ? & _). done.
Qed.

End TransportFailure.

(** ** Waiting for a cooldown to end *)

Section Waiting.
Context {PF : Platform} {CE : ClientEnv} {CL : ClientLaws}.
Lemma clock_ms n : u64 (env_clock n / NS_PER_MS) = env_clock n / NS_PER_MS.
Proof.
  pose proof (law_clock_range n). unfold NS_PER_MS. apply u64_id. split; [apply Z.div_pos; lia|].
  apply Z.div_lt_upper_bound; lia.
Qed.

(** The outcome of a wait for the end of the cooldown. *)
Definition settled (status : StatusCode) (c : Client) : Prop :=
  status <> CooldownActive /\
  (status = Ok ->
     (cl_lifecycle c = Cooldown /\ cl_cooldownUntilMs c <= env_clock (pred (cl_reads c)) / NS_PER_MS) \/
     cl_lifecycle c = Active \/ cl_lifecycle c = Recovering).

Lemma settled_result c : cl_lifecycle c <> Cooldown -> settled (recovery_state_wait_result (cl_lifecycle c)) c.
Proof. intros Hl. unfold settled. destruct (cl_lifecycle c); cbn; split; by auto. Qed.

Lemma settled_stopped (b : bool) c : settled (if b then PeerDisconnected else ClientClosed) c.
Proof. by destruct b. Qed.

Ltac look := unfold WorkerStoppedStatus, WaitForCooldownStepLocked, RecoveryStateWaitResultLocked, cv_wait_until,
  MonotonicNowMs, steady_now, bind, gets, modify; cbn.
Ltac outcome := do 2 eexists; split; [reflexivity|].

(** A round of the loop once the window is over. *)
Lemma cooldown_over fuel c :
  cl_lifecycle c = Cooldown -> cl_cooldownUntilMs c <= env_clock (cl_reads c) / NS_PER_MS ->
  exists status c1, advance (WaitForRecoveryState (S fuel) None WaitCooldown) c = Returns (AtEnd status, c1) /\
    settled status c1.
Proof.
  intros Hl Hw. cbn [WaitForRecoveryState]. look. destruct (cl_workersRunning c); cbn; [|outcome; by case_bool_decide].
  case_bool_decide; cbn; [|by outcome]. rewrite bool_decide_eq_true_2 by done. cbn. rewrite clock_ms, (proj2 (Z.leb_le _ _)) by done. cbn.
  outcome. split; [done|]. intros _. left. by cbn.
Qed.

(** The wait for a cooldown ends.  The thread returns at once, or pauses
    once: with a deadline after which the cooldown window it has seen is over,
    so that, when it is woken up and the window has not been moved in the
    meantime, it returns.  What it returns is never that the cooldown is still
    active; and when it is [Ok] the cooldown is over, or the client has left
    the cooldown for a state in which a session may be used. *)
Theorem cooldown_wait_ends c :
  exists s c1, advance (WaitForCooldownToSettle 2 None) c = Returns (s, c1) /\
    match s with
    | AtEnd status => settled status c1
    | AtPause d cond k => forall c2, awake d cond c2 = true ->
        (cl_lifecycle c2 = Cooldown -> cl_cooldownUntilMs c2 = cl_cooldownUntilMs c) ->
        exists status c3, advance k c2 = Returns (AtEnd status, c3) /\ settled status c3
    | _ => False
    end.
Proof.
  unfold WaitForCooldownToSettle. remember 1%nat as n eqn:Hn. cbn [WaitForRecoveryState]. look.
  destruct (cl_workersRunning c); cbn; [|outcome; by case_bool_decide].
  case_bool_decide; cbn; [|by outcome]. case_bool_decide as Hl; cbn; [|outcome; by apply settled_result].
  rewrite clock_ms. destruct (Z.leb_spec (cl_cooldownUntilMs c) (env_clock (cl_reads c) / NS_PER_MS)); cbn.
  { outcome. split; [done|]. intros _. left. by cbn. }
  rewrite bool_decide_eq_true_2 by done. cbn. outcome. cbn. intros c2 Hw Hsame.
  destruct (decide (cl_lifecycle c2 = Cooldown)) as [Hl2|Hl2].
  - rewrite bool_decide_eq_true_2 by done. cbn. subst n. apply cooldown_over; [done|]. rewrite Hsame by done.
    unfold awake, deadline_passed, clock, client_clock in Hw. rewrite bool_decide_eq_true_2 in Hw by done. cbn in Hw. apply Z.leb_le in Hw.
    pose proof (law_clock (cl_reads c) (S (cl_reads c)) ltac:(lia)) as Hmono.
    pose proof (Z.mul_div_le (env_clock (cl_reads c)) NS_PER_MS) as Hdiv.
    apply Z.div_le_lower_bound; [done|]. unfold NS_PER_MS in *. lia.
  - rewrite bool_decide_eq_false_2 by done. cbn. outcome. by apply settled_result.
Qed.

End Waiting.
