(* ===== verification/ClientDemo.v ===== *)
(** * A client in a concrete environment

    An instance of the client's parameters and of their laws: the file system
    and the event descriptors in memory, a clock that advances a millisecond
    per reading, and a bootstrap channel that hands out one session.  The
    theorems about the client are applied to schedules of its threads, and two
    races are exhibited. *)

From Stdlib Require Import Lia.
From S2P Require Import Prelude Machine Threads Pool Types ShmLayout Ring FilePayload EventFd Os Platform Session SessionRings.
From S2P Require Import ClientState ClientRecovery ClientCore ClientWorkers ClientConfig ClientFutures.
From S2P Require Import ClientCalls ClientTotal ClientLive ClientInvariant ClientClosed ClientSpec.

Module ClientDemo.

Export DemoPlatform.

(** The user's callbacks record the idle times they are told. *)
#[global] Instance env : ClientEnv := {|
  User := list Z; Channel := bool; env_peer := fun _ w => w;
  ch_OpenSession := fun _ ch w => (Ok, Demo.handles, ch,
    w <| w_fds := w_fds Demo.world |> <| w_shm := w_shm Demo.world |>);
  ch_CloseSession := fun _ ch w => (Ok, ch, w);
  ch_CheckHealth := fun _ id ch => ({| chr_status := ChannelHealth.Healthy; chr_sessionId := id |}, ch);
  ch_SetEngineDeathCallback := fun _ ch => ch |}.

#[global] Instance laws : ClientLaws.
Proof.
  split; cbn.
  - exact platform_laws.
  - intros u ch w status hs ch' w' [= <- <- <- <-]. by split.
  - by intros u ch w status ch' w' [= _ _ <-].
  - done.
Qed.

Definition world0 : World := {| w_fds := ∅; w_shm := ∅; w_maps := []; w_held := ∅; w_tick := 0 |}.

Definition new_client : run (unit * Client) :=
  RpcClient_new (Some true) ([] : list Z) world0 MemFs.empty MemKernel.demo.

Definition no_client : Client := Build_Client Uninitialized 0 0 None None false
  Session_default 0 RecoveryPolicy_default None [] false false ∅ ApiUninitialized false [] [] false 0 0 0 0 [] [] world0
  MemFs.empty MemKernel.demo 0 0.

Definition fresh : Client := match new_client with Returns (_, c) => c | _ => no_client end.

Definition start : config Client worker := {| cf_state := fresh; cf_pool := []; cf_calls := [] |}.

(** The configuration after a schedule. *)
Definition after (ms : list move) (cfg : config Client worker) : config Client worker := match exec ms cfg with Some cfg => cfg | None => cfg end.

Definition is_some {A} (x : option A) : bool := match x with Some _ => true | None => false end.

Lemma after_steps ms cfg : is_some (exec ms cfg) = true -> rtc step cfg (after ms cfg).
Proof. unfold after. destruct (exec ms cfg) eqn:E; [|done]. intros _. by eapply exec_steps. Qed.

Lemma after_reachable ms : is_some (exec ms start) = true -> reachable (after ms start).
Proof.
  intros Hms. exists fresh. split; [|by apply after_steps].
  by exists (Some true), [], world0, MemFs.empty, MemKernel.demo.
Qed.

(** [n] steps of the thread number [i]. *)
Definition run (i n : nat) : list move := repeat (MRun i 50) n.

Definition call : RpcCall :=
  {| call_opcode := 1; call_priority := Normal; call_execTimeoutMs := 5; call_payload := [] |}.

(** [Init] with a session, up to its end; threads 0, 1 and 2 are then the
    submit worker, the response worker and the watchdog. *)
Definition eager : list move := MCall (OpInit EagerSession) :: run 0 10.

(** A call is made and the submit worker sends it. *)
Definition busy : list move := eager ++ [MInvoke call] ++ run 0 8.

(** [Shutdown], up to the end of all threads. *)
Definition closed : list move := busy ++ [MCall OpShutdown] ++ run 3 12 ++ run 0 2 ++ run 0 10 ++ run 0 9.

Lemma busy_reachable : reachable (after busy start).
Proof. apply after_reachable. vm_compute. reflexivity. Qed.

Lemma busy_inv : inv AnyTime (cf_state (after busy start)).
Proof. apply reachable_inv, busy_reachable. Qed.

(** What an operation returns, and the client it leaves. *)
Definition final {A} (m : client A) (c : Client) : Client := match m c with Returns (_, c') => c' | _ => c end.
Definition result {A} (d : A) (m : client A) (c : Client) : A := match m c with Returns (a, _) => a | _ => d end.
Definition is_return {A} (r : Prelude.run A) : bool := match r with Returns _ => true | _ => false end.

Lemma returns_eq {A} (d : A) (m : client A) c : is_return (m c) = true -> m c = Returns (result d m c, final m c).
Proof. unfold result, final. by destruct (m c) as [[a c']| |]. Qed.

(** The request sent, and the response to it. *)
Definition pending : PendingRequest :=
  default {| pr_future := 0; pr_waitDeadline := None;
             pr_info := {| pi_opcode := 0; pi_priority := Normal; pi_execTimeoutMs := 0; pi_requestId := 0;
                           pi_sessionId := 0 |} |} (cl_store (cf_state (after busy start)) !! 1).

Definition response : ResponseRingEntry := ResponseRingEntry_default <| rs_requestId := 1 |>.

Definition submit : PendingSubmit := {| sb_call := call; sb_requestId := 77; sb_future := 0 |}.

(** A policy that records the idle times it is told. *)
Definition idle_policy : RecoveryPolicy := {| onFailure := None; onEngineDeath := None;
  onIdle := Some (fun idleMs user => ({| rd_action := Ignore; rd_delayMs := 0 |}, idleMs :: user)) |}.

(** The watchdog reads the clock; the submit worker sends a call; then the
    watchdog reads the time of the last activity. *)
Definition idle_race : list move :=
  MCall (OpSetPolicy idle_policy) :: MRun 0 50 :: eager ++ run 2 16 ++ [MInvoke call] ++ run 0 8 ++ run 2 2.

(** [Shutdown] has stopped the runtime, but has not joined the threads yet,
    when [Init] is called. *)
Definition restart_race : list move :=
  eager ++ [MCall OpShutdown] ++ run 3 7 ++ [MCall (OpInit LazySession)] ++ run 4 5.

(** A client with a cooldown of half a second before it. *)
Definition cooling : Client :=
  (cf_state (after busy start)) <| cl_lifecycle := Cooldown |> <| cl_cooldownUntilMs := 500 |>.

End ClientDemo.

Import ClientDemo.


Lemma replies_final_witness :
  cl_futures (cf_state (after [MTime 5] (after closed start))) !! 0%nat = Some (Some (reply_of_status ExecTimeout)).
Proof.
  apply (replies_final (after closed start) 0 (reply_of_status ExecTimeout)).
  - apply after_reachable. vm_compute. reflexivity.
  - vm_compute. reflexivity.
  - apply after_steps. vm_compute. reflexivity.
Defined.


Lemma shutdown_answers_every_call_witness :
  let cfg := after closed start in
  cl_submitQueue (cf_state cfg) = [] /\ cl_store (cf_state cfg) = ∅ /\ Valid (cl_session (cf_state cfg)) = false /\
  (cf_pool cfg = [] -> ids_fit (cf_state cfg) -> forall f, f ∈ cf_calls cfg -> ready f (cf_state cfg)).
Proof.
  apply (shutdown_answers_every_call (after closed start)).
  - apply after_reachable. vm_compute. reflexivity.
  - vm_compute. reflexivity.
Defined.

Lemma engine_death_answers_pending_witness :
  let c := cf_state (after busy start) in
  exists c', HandleEngineDeath 42 42 c = Returns (tt, c') /\
    cl_store c' = ∅ /\
    (forall f, cl_futures c' !! f =
       match cl_futures c !! f with
       | Some None => if decide (f ∈ pending_futures (cl_store c))
                      then Some (Some (reply_of_status CrashedDuringExecution)) else Some None
       | x => x
       end) /\
    inv AnyTime c' /\
    (forall d, death_decision 42 c = d ->
       (forall d', d = Some d' -> ~ (rd_action d' = Restart /\ rd_delayMs d' = 0)) ->
       no_session c' /\ cl_lifecycle c' = lifecycle_after_death d (cl_lifecycle c)).
Proof.
  apply (engine_death_answers_pending (cf_state (after busy start)) 42 42).
  - apply busy_inv.
  - vm_compute. reflexivity.
  - vm_compute. reflexivity.
  - discriminate.
  - right. reflexivity.
Defined.

Lemma reply_delivered_witness :
  let c := cf_state (after busy start) in
  exists c', alone (ResolveCompletedRequest response) c = Returns (tt, c') /\
    cl_futures c' = <[pr_future pending := Some (inline_reply response)]> (cl_futures c) /\
    cl_store c' = delete (rs_requestId response) (cl_store c) /\
    alone (ResolveCompletedRequest response) c' = Returns (tt, c').
Proof.
  apply (reply_delivered (cf_state (after busy start)) response pending).
  - vm_compute. reflexivity.
  - vm_compute. reflexivity.
  - reflexivity.
  - vm_compute. discriminate.
  - vm_compute. reflexivity.
Defined.

Lemma push_admits_or_leaves_witness :
  let c := cf_state (after eager start) in
  let c' := final (TryPushRequest submit) c in
  cl_futures c' = cl_futures c /\ cl_submitQueue c' = cl_submitQueue c /\
  (result Ok (TryPushRequest submit) c <> Ok -> cl_store c' = cl_store c) /\
  (result Ok (TryPushRequest submit) c = Ok -> exists p, cl_store c' = <[sb_requestId submit := p]> (cl_store c) /\
     pr_future p = sb_future submit /\ pi_sessionId (pr_info p) = cl_snapshot c /\
     pi_requestId (pr_info p) = sb_requestId submit /\
     (pr_waitDeadline p = None <-> call_execTimeoutMs (sb_call submit) = 0) /\
     forall d, pr_waitDeadline p = Some d ->
       exists n, d = env_clock n + call_execTimeoutMs (sb_call submit) * NS_PER_MS).
Proof.
  apply (push_admits_or_leaves (cf_state (after eager start)) submit (result Ok (TryPushRequest submit) (cf_state (after eager start)))
    (final (TryPushRequest submit) (cf_state (after eager start)))).
  - vm_compute. reflexivity.
  - apply returns_eq. vm_compute. reflexivity.
Defined.

Lemma transport_failure_strands_requests_witness :
  let c := cf_state (after busy start) in
  exists c', CloseLiveSessionForTransportFailure c = Returns (tt, c') /\
    no_session c' /\ cl_lifecycle c' = Active /\
    cl_store c' = cl_store c /\ cl_futures c' = cl_futures c.
Proof.
  apply (transport_failure_strands_requests (cf_state (after busy start))).
  - apply busy_inv.
  - vm_compute. discriminate.
Defined.

(** ** Races *)

Lemma cooldown_wait_ends_witness :
  exists s c1, advance (WaitForCooldownToSettle 2 None) cooling = Returns (s, c1) /\
    match s with
    | AtEnd status => settled status c1
    | AtPause d cond k => forall c2, awake d cond c2 = true ->
        (cl_lifecycle c2 = Cooldown -> cl_cooldownUntilMs c2 = cl_cooldownUntilMs cooling) ->
        exists status c3, advance k c2 = Returns (AtEnd status, c3) /\ settled status c3
    | _ => False
    end.
Proof. exact (cooldown_wait_ends cooling). Defined.

(** [Init] during [Shutdown] can end the process.  [Init] only refuses a
    client that is already closed; called between the point where [Shutdown]
    has stopped the runtime and the one where it has joined the threads, it
    starts the threads again, and assigns a new thread to an object that still
    holds one. *)
Theorem init_during_shutdown_terminates : exists cfg, reachable cfg /\ crashes cfg.
Proof.
  exists (after restart_race start). split; [apply after_reachable; vm_compute; reflexivity|].
  apply (aborts_crashes 4). vm_compute. reflexivity.
Qed.

(** The idle time underflows.  The watchdog reads the clock before the
    time of the last activity; when another thread is active in between, the
    idle policy is told an idle time of almost 2^64 milliseconds on a client
    that has just sent a request. *)
Theorem idle_time_underflows :
  exists cfg, reachable cfg /\ cl_user (cf_state cfg) = [2 ^ 64 - 3] /\ cl_snapshot (cf_state cfg) <> 0.
Proof.
  exists (after idle_race start). split; [apply after_reachable; vm_compute; reflexivity|].
  split; [vm_compute; reflexivity|vm_compute; discriminate].
Qed.
