(* ===== verification/ServerState.v ===== *)
(** * The server: state

    The data of memrpc/src/server/rpc_server.cpp ([RpcServer::Impl]) and of
    its headers.  What the server calls and the sources do not define are the
    parameters [Platform] and [ServerEnv]: the client on the other side of the
    shared memory, [poll] on two descriptors, and the handlers' own state.

    [sv_trace] is not in the code: it records what becomes of each request, and
    no operation reads it. *)

From Stdlib Require Import Lia.
From S2P Require Import Prelude Machine Threads Types ShmLayout Ring FilePayload EventFd Os Platform Session Executor.

Class ServerEnv `{Platform} : Type := {
  HandlerState : Type;                                       (* the state behind the handlers *)
  env_client : nat -> World -> World;                        (* what the client does during the n-th push *)
  env_poll2 : Z -> Z -> Z -> Kernel -> Z * Z * Z * Kernel;   (* fds, timeout: result and the two revents *)
}.

Record ServerOptions : Type := {
  so_highWorkerThreads : Z;
  so_normalWorkerThreads : Z;
  so_completionQueueCapacity : Z;
}.

Definition ServerOptions_default : ServerOptions :=
  {| so_highWorkerThreads := 1; so_normalWorkerThreads := 1; so_completionQueueCapacity := 0 |}.

Record RpcServerRuntimeStats : Type := {
  st_completionBacklog : Z;
  st_completionBacklogCapacity : Z;
  st_highRequestRingPending : Z;
  st_normalRequestRingPending : Z;
  st_responseRingPending : Z;
  st_activeRequestExecutions : Z;
  st_oldestExecutionAgeMs : Z;
  st_waitingForResponseCredit : bool;
}.

#[export] Instance RpcServerRuntimeStats_eta : Eta RpcServerRuntimeStats := fun r =>
  Build_RpcServerRuntimeStats (st_completionBacklog r) (st_completionBacklogCapacity r)
    (st_highRequestRingPending r) (st_normalRequestRingPending r) (st_responseRingPending r)
    (st_activeRequestExecutions r) (st_oldestExecutionAgeMs r) (st_waitingForResponseCredit r).

Definition RpcServerRuntimeStats_default : RpcServerRuntimeStats :=
  Build_RpcServerRuntimeStats 0 0 0 0 0 0 0 false.

(** A [CompletionState] is an index into the table of completions. *)
Record CompletionItem : Type := {
  ci_entry : ResponseRingEntry;
  ci_retryBudget : Z;                                        (* ms *)
  ci_breakSessionOnFailure : bool;
  ci_completion : option nat;
}.

(** The background threads: the response writer, the dispatcher, the workers
    of the two executors, and the asynchronous task of [Stop]. *)
Inductive server_worker : Type :=
| WriterThread
| DispatcherThread
| PoolThread (high : bool)
| ShutdownThread.

#[export] Instance server_worker_eq_dec : EqDecision server_worker.
Proof. solve_decision. Defined.

(** What becomes of requests: one was taken from its ring; a reply or an event
    was written to the response ring; a request will get no reply. *)
Inductive server_event : Type :=
| EvTaken (request : RequestRingEntry)
| EvPushed (entry : ResponseRingEntry)
| EvFailed (requestId : Z) (status : StatusCode).

(** What a handler does: it returns a result after a time, ends the process,
    never returns, or has undefined behaviour. *)
Inductive outcome (U A : Type) : Type :=
| Finishes (delayMs : Z) (a : A) (u : U)
| Aborts
| Hangs
| Misbehaves.                                                (* undefined behaviour *)
Arguments Finishes {U A} _ _ _.
Arguments Aborts {U A}.
Arguments Hangs {U A}.
Arguments Misbehaves {U A}.

Section Server.
Context {PF : Platform} {SE : ServerEnv}.

(** A handler gets the call and the reply to fill in. *)
Definition RpcHandler : Type := RpcServerCall -> RpcReply -> HandlerState -> outcome HandlerState RpcReply.

Record Server : Type := {
  sv_handles : BootstrapHandles;
  sv_options : ServerOptions;
  sv_session : Session;
  sv_highExecutor : bool;                                    (* the pointers are set *)
  sv_normalExecutor : bool;
  sv_highPool : ThreadPoolExecutor RequestRingEntry;         (* the objects *)
  sv_normalPool : ThreadPoolExecutor RequestRingEntry;
  sv_completionLocked : bool;                                (* completionMutex, while it is held across steps *)
  sv_completionNotified : nat;                               (* notifications of completionCv so far *)
  sv_completionQueue : list CompletionItem;
  sv_completionQueueCapacity : Z;
  sv_pendingCompletionCount : Z;
  sv_responseWriterRunning : bool;
  sv_responseWriterWaitingForCredit : bool;
  sv_running : bool;
  sv_handlers : gmap Z RpcHandler;
  sv_activeExecutions : gmap Z Z;
  sv_pendingSubmittedTasks : Z;
  sv_joinable : list server_worker;                          (* the thread objects that hold a thread *)
  sv_alive : list server_worker;                             (* the threads that have not returned *)
  sv_completions : list (option StatusCode);                 (* the completion states: [None] until ready *)
  sv_trace : list server_event;
  (* the environment's states and how often it was read *)
  sv_user : HandlerState;
  sv_world : World;
  sv_fs : Fs;
  sv_kernel : Kernel;
  sv_reads : nat;
  sv_paths : nat;
}.

#[export] Instance Server_eta : Eta Server := fun r =>
  Build_Server (sv_handles r) (sv_options r) (sv_session r) (sv_highExecutor r) (sv_normalExecutor r)
    (sv_highPool r) (sv_normalPool r) (sv_completionLocked r) (sv_completionNotified r) (sv_completionQueue r)
    (sv_completionQueueCapacity r) (sv_pendingCompletionCount r) (sv_responseWriterRunning r)
    (sv_responseWriterWaitingForCredit r) (sv_running r) (sv_handlers r) (sv_activeExecutions r)
    (sv_pendingSubmittedTasks r) (sv_joinable r) (sv_alive r) (sv_completions r) (sv_trace r) (sv_user r)
    (sv_world r) (sv_fs r) (sv_kernel r) (sv_reads r) (sv_paths r).

End Server.

Arguments Server {_ _}.
Abbreviation server := (machine Server).
Abbreviation server_thread := (thread Server server_worker).

#[export] Instance server_clock `{ServerEnv} : Clock Server := fun s => env_clock (sv_reads s).
