(* ===== verification/ServerCore.v ===== *)
(** * The server: operations

    The operations of [RpcServer::Impl] (memrpc/src/server/rpc_server.cpp) that
    are one step: what one critical section or one access to the session does. *)

From Stdlib Require Import Lia.
From S2P Require Import Prelude Machine Threads Types ByteCodec ShmLayout Ring FilePayload EventFd Os Platform Session.
From S2P Require Import Executor ServerState.
#[local] Open Scope machine_scope.

Definition RESPONSE_RETRY_BUDGET : Z := 50.
Definition EVENT_RETRY_BUDGET : Z := 10.
Definition STOP_TIMEOUT : Z := 5000.
Definition SPIN_ITERATIONS : nat := 256.
Definition UINT32_MAX : Z := 2 ^ 32 - 1.

Definition IsHighPriority (entry : RequestRingEntry) : bool := rq_priority entry =? Priority_to_u8 High.

Section Core.
Context {PF : Platform} {SE : ServerEnv}.

(** ** Effects *)

(** [std::chrono::steady_clock::now()], in ns. *)
Definition steady_now : server Z :=
  n ← gets sv_reads; modify (fun s => s <| sv_reads := S n |>);; mret (env_clock n).

Definition MonotonicNowMs : server Z := now ← steady_now; mret (u64 (now / NS_PER_MS)).

Definition DeadlineReached (d : Z) : server bool := now ← steady_now; mret (d <=? now).

Definition next_path : server path_env :=
  n ← gets sv_paths; modify (fun s => s <| sv_paths := S n |>);; mret (env_path n).

Definition on_kernel {A} (f : Kernel -> run (A * Kernel)) : server A := fun s =>
  let! (a, k) := f (sv_kernel s) in Returns (a, s <| sv_kernel := k |>).

Definition on_fs {A} (f : Fs -> run (A * Fs)) : server A := fun s =>
  let! (a, fs) := f (sv_fs s) in Returns (a, s <| sv_fs := fs |>).

Definition record (e : server_event) : server unit := modify (fun s => s <| sv_trace := e :: sv_trace s |>).

Definition handle (f : BootstrapHandles -> Z) : server Z := gets (fun s => f (ss_handles (sv_session s))).

Definition signal (fd : Z) : server bool := on_kernel (SignalEventFd env_fuel fd).

(** [if (fd >= 0) (void)SignalEventFd(fd);]. *)
Definition signal_handle (f : BootstrapHandles -> Z) : server unit :=
  fd ← handle f; if 0 <=? fd then signal fd;; mret tt else mret tt.

(** ** Executors *)

Definition pool (high : bool) (s : Server) : ThreadPoolExecutor RequestRingEntry :=
  if high then sv_highPool s else sv_normalPool s.

Definition set_pool (high : bool) (p : ThreadPoolExecutor RequestRingEntry) (s : Server) : Server :=
  if high then s <| sv_highPool := p |> else s <| sv_normalPool := p |>.

(** [highExecutor != nullptr]. *)
Definition has_executor (high : bool) (s : Server) : bool :=
  if high then sv_highExecutor s else sv_normalExecutor s.

Definition executor_HasCapacity (high : bool) : server bool := gets (fun s => ex_HasCapacity (pool high s)).

Definition executor_TrySubmit (high : bool) (task : RequestRingEntry) : server bool :=
  p ← gets (pool high);
  let '(accepted, p) := ex_TrySubmit (Some task) p in
  modify (set_pool high p);; mret accepted.

Definition executor_take (high : bool) : server (option RequestRingEntry) :=
  p ← gets (pool high);
  '(task, p) ← lift_run (run_of_defined (ex_take p));
  modify (set_pool high p);; mret task.

Definition executor_begin_stop (high : bool) : server bool :=
  p ← gets (pool high);
  let '(stopped, p) := ex_Stop p in
  modify (set_pool high p);; mret stopped.

(** ** Bookkeeping *)

Definition MarkExecutionStarted (requestId : Z) : server unit :=
  now ← MonotonicNowMs;
  modify (fun s => s <| sv_activeExecutions := <[requestId := now]> (sv_activeExecutions s) |>).

Definition MarkExecutionFinished (requestId : Z) : server unit :=
  modify (fun s => s <| sv_activeExecutions := delete requestId (sv_activeExecutions s) |>).

(** [MakeSubmittedTaskToken] and the token's deleter. *)
Definition MakeSubmittedTaskToken : server unit :=
  modify (fun s => s <| sv_pendingSubmittedTasks := u32 (sv_pendingSubmittedTasks s + 1) |>).

Definition release_token : server unit :=
  modify (fun s => if 0 <? sv_pendingSubmittedTasks s
                   then s <| sv_pendingSubmittedTasks := sv_pendingSubmittedTasks s - 1 |> else s).

(** ** Completions *)

(** [std::make_shared<CompletionState>()]. *)
Definition new_completion : server nat :=
  cs ← gets sv_completions; modify (fun s => s <| sv_completions := cs ++ [None] |>);; mret (length cs).

Definition CompleteItem (completion : option nat) (status : StatusCode) : server unit :=
  match completion with
  | None => mret tt
  | Some i => modify (fun s => s <| sv_completions := <[i := Some status]> (sv_completions s) |>)
  end.

Definition completion_ready (i : nat) (s : Server) : bool :=
  match sv_completions s !! i with Some (Some _) => true | _ => false end.

(** [completion->status], once ready. *)
Definition completion_status (i : nat) (s : Server) : StatusCode :=
  match sv_completions s !! i with Some (Some status) => status | _ => EngineInternalError end.

Definition OnCompletionItemFinished : server unit :=
  modify (fun s => if 0 <? sv_pendingCompletionCount s
                   then s <| sv_pendingCompletionCount := sv_pendingCompletionCount s - 1 |> else s).

Definition notify_completion : server unit :=
  modify (fun s => s <| sv_completionNotified := S (sv_completionNotified s) |>).

Definition EnqueueCompletion (item : CompletionItem) : server bool :=
  running ← gets sv_responseWriterRunning;
  pending ← gets sv_pendingCompletionCount;
  capacity ← gets sv_completionQueueCapacity;
  if negb running || (capacity <=? pending) then mret false else
  modify (fun s => s <| sv_completionQueue := sv_completionQueue s ++ [item] |>
                     <| sv_pendingCompletionCount := u32 (pending + 1) |>);;
  notify_completion;;
  mret true.

(** The predicate of [WaitAndPopCompletionItem] and what follows the wait. *)
Definition completion_wakes (s : Server) : bool :=
  negb (sv_responseWriterRunning s) || negb (bool_decide (sv_completionQueue s = [])).

Definition pop_completion : server (option CompletionItem) :=
  running ← gets sv_responseWriterRunning;
  queue ← gets sv_completionQueue;
  if negb running && bool_decide (queue = []) then mret None else
  match queue with
  | [] => lift_run RunUndefined                                    (* front of an empty queue *)
  | item :: rest => modify (fun s => s <| sv_completionQueue := rest |>);; mret (Some item)
  end.

(** [queued.swap(completionQueue)] and the reset of the count. *)
Definition swap_completions : server (list CompletionItem) :=
  queued ← gets sv_completionQueue;
  modify (fun s => s <| sv_completionQueue := [] |> <| sv_pendingCompletionCount := 0 |>);;
  mret queued.

(** A request that gets no reply; events have none. *)
Definition record_failed (entry : ResponseRingEntry) (status : StatusCode) : server unit :=
  if bool_decide (rs_messageKind entry = KindReply) then record (EvFailed (rs_requestId entry) status) else mret tt.

(** ** The session *)

Definition session_Attach : server StatusCode := fun s =>
  let '(status, handles, ss, w) := Attach env_pid (Some (sv_handles s)) RoleServer (sv_session s) (sv_world s) in
  Returns (status, s <| sv_session := ss |> <| sv_world := w |>
                     <| sv_handles := default (sv_handles s) handles |>).

Definition session_Reset : server unit := fun s =>
  let '(ss, w) := Reset (sv_session s) (sv_world s) in
  Returns (tt, s <| sv_session := ss |> <| sv_world := w |>).

Definition session_State : server Z := gets (fun s => State (sv_session s) (sv_world s)).

Definition session_header : server (option SharedMemoryHeader) :=
  gets (fun s => read_header (ss_header (sv_session s)) (sv_world s)).

(** The pointer [session.Header()] is set. *)
Definition has_header : server bool := gets (fun s => bool_decide (is_Some (ss_header (sv_session s)))).

(** [session.PushResponse]; the client may act between the push and the second
    look at the session state. *)
Definition session_PushResponse (entry : ResponseRingEntry) : server StatusCode := fun s =>
  let! (status, w) :=
    run_of_defined (PushResponse (env_client (sv_reads s)) (sv_session s) entry (sv_world s)) in
  Returns (status, if status_is status Ok
                   then s <| sv_world := w |> <| sv_trace := EvPushed entry :: sv_trace s |>
                   else s <| sv_world := w |>).

Definition session_PopRequest (high : bool) : server (option RequestRingEntry) := fun s =>
  let! (e, w) := run_of_defined (PopRequest (sv_session s) high Ptr (sv_world s)) in
  Returns (e, match e with
              | Some e => s <| sv_world := w |> <| sv_trace := EvTaken e :: sv_trace s |>
              | None => s <| sv_world := w |>
              end).

Definition remove_pending_files : server unit := fun s =>
  let! fs := run_of_defined (RemovePendingFilePayloads (sv_session s) DEFAULT_FILE_PAYLOAD_DIR (sv_world s) (sv_fs s)) in
  Returns (tt, s <| sv_fs := fs |>).

Definition RemoveResponseFilePayloadIfPresent (entry : ResponseRingEntry) : server unit :=
  on_fs (fun fs => run_of_defined
    (RemoveFilePayloadFromTransport DEFAULT_FILE_PAYLOAD_DIR (Some (rs_payload entry)) (rs_resultSize entry)
       (rs_payloadKind entry) fs));;
  mret tt.

(** ** Requests and replies *)

Definition ResolveRequestPayload (requestEntry : RequestRingEntry) (payload : outptr) : server (bool * bytes) :=
  match payload with
  | Null => mret (false, [])
  | Ptr =>
      on_fs (ResolveFilePayloadFromTransport env_fuel DEFAULT_FILE_PAYLOAD_DIR (Some (rq_payload requestEntry))
               (rq_payloadSize requestEntry) (rq_payloadKind requestEntry) Ptr)
  end.

Definition BuildServerCall (requestEntry : RequestRingEntry) (payload : bytes) : RpcServerCall := {|
  sc_opcode := rq_opcode requestEntry;
  sc_priority := if IsHighPriority requestEntry then High else Normal;
  sc_execTimeoutMs := rq_execTimeoutMs requestEntry;
  sc_payload := payload |}.

Definition PrepareResponsePayloadForTransport (data : bytes) (payload payloadKind : outptr)
    : server (StatusCode * bytes * Z) :=
  match payload, payloadKind with
  | Ptr, Ptr =>
      session ← gets sv_session;
      header ← has_header;
      if negb (Valid session) || negb header then mret (PeerDisconnected, data, PAYLOAD_KIND_INLINE) else
      let maxTransportBytes := Z.min (ss_maxResponseBytes session) RESPONSE_INLINE_PAYLOAD_BYTES in
      path ← next_path;
      '(ok, entryPayload, kind) ←
        on_fs (PrepareFilePayloadForTransport env_fuel path DEFAULT_FILE_PAYLOAD_DIR data maxTransportBytes Ptr Ptr);
      mret (if ok : bool then (Ok, entryPayload, kind) else (PayloadTooLarge, data, kind))
  | _, _ => mret (InvalidArgument, data, PAYLOAD_KIND_INLINE)
  end.

Definition BuildReplyEntry (requestEntry : RequestRingEntry) (reply : RpcReply) (payloadKind : Z)
    : defined ResponseRingEntry :=
  match memcpy_into (rs_payload ResponseRingEntry_default) (rp_payload reply) with
  | Undefined => Undefined
  | Defined payload =>
      Defined (ResponseRingEntry_default
        <| rs_requestId := rq_requestId requestEntry |>
        <| rs_messageKind := KindReply |>
        <| rs_statusCode := StatusCode_to_u32 (rp_status reply) |>
        <| rs_resultSize := u32 (Zlen (rp_payload reply)) |>
        <| rs_payloadKind := payloadKind |>
        <| rs_payload := payload |>)
  end.

Definition BuildResponseCompletionItem (entry : ResponseRingEntry) (completion : option nat) : CompletionItem :=
  {| ci_entry := entry; ci_retryBudget := RESPONSE_RETRY_BUDGET; ci_breakSessionOnFailure := true;
     ci_completion := completion |}.

(** The entry [PublishEvent] builds. *)
Definition build_event_entry (event : RpcEvent) (payload : bytes) (payloadKind : Z) : defined ResponseRingEntry :=
  match memcpy_into (rs_payload ResponseRingEntry_default) payload with
  | Undefined => Undefined
  | Defined bytes =>
      Defined (ResponseRingEntry_default
        <| rs_messageKind := KindEvent |>
        <| rs_eventDomain := ev_eventDomain event |>
        <| rs_eventType := ev_eventType event |>
        <| rs_flags := ev_flags event |>
        <| rs_payloadKind := payloadKind |>
        <| rs_resultSize := u32 (Zlen payload) |>
        <| rs_payload := bytes |>)
  end.

(** The checks [ProcessEntry] makes before it looks at the payload. *)
Definition invalidInlinePayload (session : Session) (e : RequestRingEntry) : bool :=
  (rq_payloadKind e =? PAYLOAD_KIND_INLINE) &&
  ((ss_maxRequestBytes session <? rq_payloadSize e) || (REQUEST_INLINE_PAYLOAD_BYTES <? rq_payloadSize e)).

Definition invalidFilePayloadRef (session : Session) (e : RequestRingEntry) : bool :=
  (rq_payloadKind e =? PAYLOAD_KIND_FILE_REF) &&
  ((rq_payloadSize e =? 0) || (ss_maxRequestBytes session <? rq_payloadSize e) ||
   (REQUEST_INLINE_PAYLOAD_BYTES <? rq_payloadSize e)).

Definition unknownPayloadKind (e : RequestRingEntry) : bool :=
  negb (rq_payloadKind e =? PAYLOAD_KIND_INLINE) && negb (rq_payloadKind e =? PAYLOAD_KIND_FILE_REF).

(** ** Rings *)

Definition request_cursor (high : bool) (h : SharedMemoryHeader) : RingCursor :=
  if high then hd_highRing h else hd_normalRing h.

Definition ring_was_full (high : bool) : server bool :=
  header ← session_header;
  match header with
  | None => lift_run RunUndefined
  | Some h => mret (RingWasFullBeforePop (request_cursor high h))
  end.

Definition ring_pending (high : bool) : server bool :=
  header ← session_header;
  match header with
  | None => lift_run RunUndefined
  | Some h => mret (0 <? RingCount (request_cursor high h))
  end.

(** [poll] on the two request descriptors. *)
Definition poll_requests (fd0 fd1 timeout_ms : Z) : server (Z * Z * Z) := fun s =>
  let '(result, revents0, revents1, k) := env_poll2 fd0 fd1 timeout_ms (sv_kernel s) in
  Returns ((result, revents0, revents1), s <| sv_kernel := k |>).

(** ** Setters and construction *)

Definition RegisterHandler (opcode : Z) (handler : option RpcHandler) : server unit :=
  modify (fun s => s <| sv_handlers := match handler with
                                       | None => delete (u16 opcode) (sv_handlers s)
                                       | Some h => <[u16 opcode := h]> (sv_handlers s)
                                       end |>).

Definition SetBootstrapHandles (handles : BootstrapHandles) : server unit :=
  modify (fun s => s <| sv_handles := handles |>).

Definition SetOptions (options : ServerOptions) : server unit :=
  modify (fun s => s <| sv_options := options |>).

(** [RpcServer()]: the members' initial values; [RpcServer(handles, options)]
    assigns two of them. *)
Definition RpcServer_default (user : HandlerState) (w : World) (fs : Fs) (k : Kernel) : Server :=
  {| sv_handles := MakeDefaultBootstrapHandles; sv_options := ServerOptions_default;
     sv_session := Session_default; sv_highExecutor := false; sv_normalExecutor := false;
     sv_highPool := ThreadPoolExecutor_default; sv_normalPool := ThreadPoolExecutor_default;
     sv_completionLocked := false; sv_completionNotified := 0; sv_completionQueue := [];
     sv_completionQueueCapacity := 0; sv_pendingCompletionCount := 0; sv_responseWriterRunning := false;
     sv_responseWriterWaitingForCredit := false; sv_running := false; sv_handlers := ∅;
     sv_activeExecutions := ∅; sv_pendingSubmittedTasks := 0; sv_joinable := []; sv_alive := [];
     sv_completions := []; sv_trace := []; sv_user := user; sv_world := w; sv_fs := fs; sv_kernel := k;
     sv_reads := 0; sv_paths := 0 |}.

Definition RpcServer_new (handles : BootstrapHandles) (options : ServerOptions) (user : HandlerState) (w : World)
    (fs : Fs) (k : Kernel) : Server :=
  (RpcServer_default user w fs k) <| sv_handles := handles |> <| sv_options := options |>.

(** ** Statistics *)

Definition completion_stats : server RpcServerRuntimeStats :=
  pending ← gets sv_pendingCompletionCount;
  capacity ← gets sv_completionQueueCapacity;
  mret (RpcServerRuntimeStats_default <| st_completionBacklog := pending |>
                                      <| st_completionBacklogCapacity := capacity |>).

Definition ring_stats (stats : RpcServerRuntimeStats) : server RpcServerRuntimeStats :=
  header ← session_header;
  mret match header with
       | None => stats
       | Some h => stats <| st_highRequestRingPending := RingCount (hd_highRing h) |>
                         <| st_normalRequestRingPending := RingCount (hd_normalRing h) |>
                         <| st_responseRingPending := RingCount (hd_responseRing h) |>
       end.

(** The least start time; the loop starts with the first element. *)
Definition oldest_start (starts : list Z) : option Z :=
  match starts with
  | [] => None
  | first :: _ => Some (fold_left Z.min starts first)
  end.

Definition execution_stats (stats : RpcServerRuntimeStats) : server RpcServerRuntimeStats :=
  active ← gets sv_activeExecutions;
  let stats := stats <| st_activeRequestExecutions := u32 (Z.of_nat (size active)) |> in
  match oldest_start (map_to_list active).*2 with
  | None => mret stats
  | Some oldestStartMs =>
      nowMs ← MonotonicNowMs;
      let ageMs := u64 (nowMs - oldestStartMs) in
      mret (stats <| st_oldestExecutionAgeMs := Z.min ageMs UINT32_MAX |>)
  end.

End Core.
