(* ===== verification/ServerThreads.v ===== *)
(** * The server: threads and public operations

    The response writer, the dispatcher, the executors' workers, and the entry
    points of [RpcServer] (memrpc/src/server/rpc_server.cpp).

    [yield] marks where other threads may come in between; [lock_completion]
    is such a point where, moreover, [completionMutex] has to be free.  The
    wait of the response writer is modelled down to the moment between the
    test of its predicate and the wait itself, because one of the variables it
    tests is written without that mutex. *)

From Stdlib Require Import Lia.
From S2P Require Import Prelude Machine Threads Types ByteCodec ShmLayout Ring FilePayload EventFd Os Platform Session.
From S2P Require Import Executor ServerState ServerCore.

Section Writer.
Context {PF : Platform} {SE : ServerEnv}.
#[local] Open Scope thread_scope.

(** ** Breaking the session *)

Definition MarkSessionBroken : server_thread unit :=
  modify (fun s => s <| sv_world := SetState (sv_session s) SessionState_Broken (sv_world s) |>);;
  yield;;
  remove_pending_files;;
  yield;;
  signal_handle respEventFd.

(** ** The response writer *)

Definition lock_completion : server_thread unit :=
  TPause None (fun s => negb (sv_completionLocked s)) (mret tt).

(** [PollEventFd] blocks. *)
Definition poll (fd timeout_ms : Z) : server_thread PollEventFdResult :=
  yield;; on_kernel (PollEventFd env_fuel (Some fd) timeout_ms).

Fixpoint response_credit_loop (fuel : nat) (fd d : Z) : server_thread PollEventFdResult :=
  match fuel with
  | O => tdiverge
  | S fuel =>
      running ← gets sv_responseWriterRunning;
      if negb running then mret PollFailed else
      now ← steady_now;
      let remainingMs := RemainingTimeoutMs (Some d) now in
      if remainingMs <=? 0 then mret PollTimeout else
      waitResult ← poll fd (i32 remainingMs);
      if bool_decide (waitResult = PollRetry) then yield;; response_credit_loop fuel fd d else mret waitResult
  end.

Definition WaitForResponseCredit (fuel : nat) (d : Z) : server_thread PollEventFdResult :=
  fd ← handle respCreditEventFd;
  if fd <? 0 then mret PollFailed else
  modify (fun s => s <| sv_responseWriterWaitingForCredit := true |>);;
  yield;;
  result ← response_credit_loop fuel fd d;
  modify (fun s => s <| sv_responseWriterWaitingForCredit := false |>);;
  mret result.

Fixpoint push_retry_loop (fuel : nat) (response : ResponseRingEntry) (d : Z) : server_thread StatusCode :=
  match fuel with
  | O => tdiverge
  | S fuel =>
      status ← session_PushResponse response;
      if status_is status Ok || negb (status_is status QueueFull) then mret status else
      yield;;
      reached ← DeadlineReached d;
      if reached : bool then mret QueueFull else
      waitResult ← WaitForResponseCredit fuel d;
      if bool_decide (waitResult = PollReady) then yield;; push_retry_loop fuel response d else
      mret (if bool_decide (waitResult = PollTimeout) then QueueFull else PeerDisconnected)
  end.

Definition PushResponseWithRetry (fuel : nat) (response : ResponseRingEntry) (retryBudget : Z)
    : server_thread StatusCode :=
  now ← steady_now;
  yield;;
  push_retry_loop fuel response (now + retryBudget * NS_PER_MS).

(** [completionCv.wait(lock, predicate)], up to the point where the mutex is
    held and the predicate true.  When it is false the thread blocks until the
    next notification; between the test and that point the mutex is held. *)
Fixpoint wait_completion (fuel : nat) : server_thread unit :=
  match fuel with
  | O => tdiverge
  | S fuel =>
      lock_completion;;
      ready ← gets completion_wakes;
      if ready : bool then mret tt else
      modify (fun s => s <| sv_completionLocked := true |>);;
      yield;;
      seen ← gets sv_completionNotified;
      modify (fun s => s <| sv_completionLocked := false |>);;
      TPause None (fun s => negb (sv_completionNotified s =? seen)%nat) (mret tt);;
      wait_completion fuel
  end.

Definition WaitAndPopCompletionItem (fuel : nat) (item : outptr) : server_thread (option CompletionItem) :=
  match item with
  | Null => mret None
  | Ptr => wait_completion fuel;; pop_completion
  end.

(** The body of [ResponseWriterLoop]. *)
Definition write_item (fuel : nat) (item : CompletionItem) : server_thread unit :=
  yield;;
  status ← PushResponseWithRetry fuel (ci_entry item) (ci_retryBudget item);
  (if status_is status Ok then yield;; fd ← handle respEventFd; signal fd;; mret tt
   else record_failed (ci_entry item) status;; yield;; RemoveResponseFilePayloadIfPresent (ci_entry item));;
  yield;;
  (if negb (status_is status Ok) && ci_breakSessionOnFailure item then MarkSessionBroken;; yield else mret tt);;
  CompleteItem (ci_completion item) status;;
  lock_completion;;
  OnCompletionItemFinished.

Fixpoint ResponseWriterLoop (fuel : nat) : server_thread unit :=
  match fuel with
  | O => tdiverge
  | S fuel =>
      item ← WaitAndPopCompletionItem fuel Ptr;
      match item with
      | None => mret tt
      | Some item => write_item fuel item;; yield;; ResponseWriterLoop fuel
      end
  end.

Definition FailPendingCompletionItems (status : StatusCode) : server_thread unit :=
  lock_completion;;
  queued ← swap_completions;
  yield;;
  tfor_each queued (fun item =>
    record_failed (ci_entry item) status;;
    RemoveResponseFilePayloadIfPresent (ci_entry item);;
    yield;;
    CompleteItem (ci_completion item) status;;
    yield).

(** ** Replies and events *)

(** A completion state and the item that refers to it, queued in one critical
    section; a state whose item is refused is released again. *)
Definition enqueue_new (item : option nat -> CompletionItem) : server (option nat) := (
  before ← gets sv_completions;
  i ← new_completion;
  queued ← EnqueueCompletion (item (Some i));
  if queued : bool then mret (Some i)
  else modify (fun s => s <| sv_completions := before |>);; mret None)%machine.

Definition AwaitWriteCompletion (completion : nat) : server_thread StatusCode :=
  cv_wait (completion_ready completion);; gets (completion_status completion).

Definition WriteResponse (requestEntry : RequestRingEntry) (reply : RpcReply) : server_thread StatusCode :=
  '(prepareStatus, payload, payloadKind) ← PrepareResponsePayloadForTransport (rp_payload reply) Ptr Ptr;
  if negb (status_is prepareStatus Ok) && negb (status_is prepareStatus PayloadTooLarge)
  then record (EvFailed (rq_requestId requestEntry) prepareStatus);; mret prepareStatus else
  let '(reply, payloadKind) :=
    if status_is prepareStatus PayloadTooLarge
    then ({| rp_status := PayloadTooLarge; rp_payload := [] |}, PAYLOAD_KIND_INLINE)
    else ({| rp_status := rp_status reply; rp_payload := payload |}, payloadKind) in
  entry ← lift_run (run_of_defined (BuildReplyEntry requestEntry reply payloadKind));
  lock_completion;;
  queued ← enqueue_new (BuildResponseCompletionItem entry);
  match queued with
  | None =>
      record_failed entry PeerDisconnected;;
      yield;;
      RemoveResponseFilePayloadIfPresent entry;;
      yield;;
      MarkSessionBroken;;
      mret PeerDisconnected
  | Some completion => AwaitWriteCompletion completion
  end.

Definition PublishEvent (event : RpcEvent) : server_thread StatusCode :=
  running ← gets sv_running;
  yield;;
  state ← session_State;
  if negb running || negb (state =? SessionState_Alive) then mret PeerDisconnected else
  yield;;
  session ← gets sv_session;
  if negb (Valid session) || (respEventFd (ss_handles session) <? 0) || negb (bool_decide (is_Some (ss_header session)))
  then mret EngineInternalError else
  yield;;
  '(prepareStatus, payload, payloadKind) ← PrepareResponsePayloadForTransport (ev_payload event) Ptr Ptr;
  if negb (status_is prepareStatus Ok) then mret prepareStatus else
  entry ← lift_run (run_of_defined (build_event_entry event payload payloadKind));
  lock_completion;;
  queued ← enqueue_new (fun completion =>
    {| ci_entry := entry; ci_retryBudget := EVENT_RETRY_BUDGET; ci_breakSessionOnFailure := false;
       ci_completion := completion |});
  match queued with
  | None => yield;; RemoveResponseFilePayloadIfPresent entry;; mret QueueFull
  | Some completion => AwaitWriteCompletion completion
  end.

(** ** Executing a request *)

(** The call of a handler, on the state of the handlers. *)
Definition call_handler (handler : RpcHandler) (call : RpcServerCall) : server_thread RpcReply :=
  outcome ← gets (fun s => handler call RpcReply_default (sv_user s));
  match outcome with
  | Finishes delayMs reply u =>
      modify (fun s => s <| sv_user := u |>);;
      (if 0 <? delayMs
       then now ← steady_now; TPause (Some (now + delayMs * NS_PER_MS)) (fun _ => false) (mret tt)
       else mret tt);;
      mret reply
  | Aborts => TAbort
  | Hangs => TPause None (fun _ => false) (mret RpcReply_default)
  | Misbehaves => lift_run RunUndefined
  end.

Definition InvokeHandler (requestEntry : RequestRingEntry) : server_thread RpcReply :=
  handlers ← gets sv_handlers;
  match handlers !! rq_opcode requestEntry with
  | None => mret (reply_of_status InvalidArgument)
  | Some handler =>
      yield;;
      '(ok, requestPayload) ← ResolveRequestPayload requestEntry Ptr;
      yield;;
      if negb ok then mret (reply_of_status ProtocolMismatch) else
      call_handler handler (BuildServerCall requestEntry requestPayload)
  end.

Definition ProcessEntry (requestEntry : RequestRingEntry) : server_thread unit :=
  session ← gets sv_session;
  header ← has_header;
  if negb (Valid session) || negb header
  then record (EvFailed (rq_requestId requestEntry) PeerDisconnected) else
  if invalidInlinePayload session requestEntry || invalidFilePayloadRef session requestEntry ||
     unknownPayloadKind requestEntry then
    yield;;
    WriteResponse requestEntry
      (reply_of_status (if unknownPayloadKind requestEntry then ProtocolMismatch else PayloadTooLarge));;
    mret tt
  else
  yield;;
  MarkExecutionStarted (rq_requestId requestEntry);;
  yield;;
  reply ← InvokeHandler requestEntry;
  yield;;
  WriteResponse requestEntry reply;;
  yield;;
  MarkExecutionFinished (rq_requestId requestEntry).

(** [ThreadPoolExecutor::WorkerLoop] with the tasks [DrainQueue] submits; the
    token is released when the task is destroyed. *)
Fixpoint WorkerLoop (fuel : nat) (high : bool) : server_thread unit :=
  match fuel with
  | O => tdiverge
  | S fuel =>
      cv_wait (fun s => ex_worker_wakes (pool high s));;
      task ← executor_take high;
      match task with
      | None => mret tt
      | Some task => yield;; ProcessEntry task;; yield;; release_token;; yield;; WorkerLoop fuel high
      end
  end.

End Writer.

Section Dispatcher.
Context {PF : Platform} {SE : ServerEnv}.
#[local] Open Scope thread_scope.

(** ** The dispatcher *)

(** The loop of [DrainQueue]: whether anything was taken, and whether the ring
    was full before. *)
Fixpoint drain_queue_loop (fuel : nat) (high drained ringBecameNotFull : bool) : server_thread (bool * bool) :=
  match fuel with
  | O => tdiverge
  | S fuel =>
      hasCapacity ← executor_HasCapacity high;
      if negb hasCapacity then mret (drained, ringBecameNotFull) else
      yield;;
      popped ← session_PopRequest high;
      match popped with
      | None => mret (drained, ringBecameNotFull)
      | Some entry =>
          yield;;
          wasFull ← ring_was_full high;
          yield;;
          MakeSubmittedTaskToken;;
          yield;;
          accepted ← executor_TrySubmit high entry;
          (if accepted : bool then mret tt
           else record (EvFailed (rq_requestId entry) QueueFull);; yield;; release_token);;
          yield;;
          drain_queue_loop fuel high true (ringBecameNotFull || wasFull)
      end
  end.

Definition DrainQueue (fuel : nat) (high : bool) : server_thread bool :=
  executor ← gets (has_executor high);
  header ← has_header;
  if negb executor || negb header then mret false else
  '(drained, ringBecameNotFull) ← drain_queue_loop fuel high false false;
  (if ringBecameNotFull : bool then yield;; fd ← handle reqCreditEventFd; signal fd;; mret tt else mret tt);;
  mret drained.

(** [WaitForCapacity(100ms)]. *)
Definition WaitForCapacity (high : bool) (timeout : Z) : server_thread bool :=
  now ← steady_now;
  cv_wait_until (Some (now + timeout * NS_PER_MS)) (fun s => ex_capacity_wakes (pool high s)).

(** Requests are waiting and the executor cannot take them. *)
Definition queue_backlogged (high : bool) : server_thread bool :=
  pending ← ring_pending high;
  if negb pending then mret false else
  yield;;
  hasCapacity ← executor_HasCapacity high;
  mret (negb hasCapacity).

Definition HandleBackloggedQueues : server_thread bool :=
  header ← has_header;
  high ← gets (has_executor true);
  normal ← gets (has_executor false);
  if negb header || negb high || negb normal then mret false else
  highBacklogged ← queue_backlogged true;
  yield;;
  normalBacklogged ← queue_backlogged false;
  yield;;
  if highBacklogged : bool then WaitForCapacity true 100;; mret true else
  if normalBacklogged : bool then WaitForCapacity false 100;; mret true else
  mret false.

Fixpoint spin_loop (iterations : nat) : server_thread bool :=
  match iterations with
  | O => mret false
  | S iterations =>
      yield;;
      high ← ring_pending true;
      normal ← ring_pending false;
      if (high : bool) || normal then mret true else spin_loop iterations
  end.

Definition SpinForRingActivity (iterations : nat) : server_thread bool :=
  header ← has_header;
  if negb header then mret false else spin_loop iterations.

Definition drain_event (fd : Z) : server_thread unit :=
  yield;; on_kernel (DrainEventFd env_fuel fd);; yield.

Fixpoint dispatcher_loop (fuel : nat) (fd0 fd1 : Z) : server_thread unit :=
  match fuel with
  | O => tdiverge
  | S fuel =>
      yield;;
      running ← gets sv_running;
      if negb running then mret tt else
      highWork ← DrainQueue fuel true;
      yield;;
      (if highWork : bool then mret tt else DrainQueue fuel false;; yield);;
      backlogged ← HandleBackloggedQueues;
      if backlogged : bool then dispatcher_loop fuel fd0 fd1 else
      active ← SpinForRingActivity SPIN_ITERATIONS;
      if active : bool then dispatcher_loop fuel fd0 fd1 else
      yield;;
      '(pollResult, revents0, revents1) ← poll_requests fd0 fd1 100;
      if pollResult <? 0 then dispatcher_loop fuel fd0 fd1 else
      highWork ← (if (0 <? pollResult) && negb (Z.land revents0 POLLIN =? 0)
                  then drain_event fd0;; DrainQueue fuel true else mret highWork);
      (if (0 <? pollResult) && negb highWork && negb (Z.land revents1 POLLIN =? 0)
       then drain_event fd1;; DrainQueue fuel false;; mret tt else mret tt);;
      dispatcher_loop fuel fd0 fd1
  end.

Definition DispatcherLoop (fuel : nat) : server_thread unit :=
  fd0 ← handle highReqEventFd;
  fd1 ← handle normalReqEventFd;
  dispatcher_loop fuel fd0 fd1.

(** ** Threads *)

(** [thread = std::thread(...)]: assigning to an object that still holds a
    thread ends the process. *)
Definition start_thread (w : server_worker) : server_thread unit :=
  yield;;
  joinable ← gets sv_joinable;
  if bool_decide (w ∈ joinable) then TAbort else
  modify (fun s => s <| sv_joinable := w :: sv_joinable s |> <| sv_alive := w :: sv_alive s |>);;
  spawn w.

(** [if (thread.joinable()) thread.join();]. *)
Definition join_thread (w : server_worker) : server_thread unit :=
  joinable ← gets sv_joinable;
  if negb (bool_decide (w ∈ joinable)) then mret tt else
  TPause None (fun s => negb (bool_decide (w ∈ sv_alive s))) (mret tt);;
  modify (fun s => s <| sv_joinable := filter (fun x => x <> w) (sv_joinable s) |>).

(** [std::make_shared<ThreadPoolExecutor>(threadCount)]. *)
Definition make_executor (high : bool) (threadCount : Z) : server_thread unit :=
  modify (fun s => set_pool high (ThreadPoolExecutor_new threadCount)
    (if high then s <| sv_highExecutor := true |> else s <| sv_normalExecutor := true |>));;
  tfor_each (replicate (Z.to_nat (ThreadPoolExecutor_threads threadCount)) tt) (fun _ => spawn (PoolThread high)).

(** [executor->Stop()]: the flag, then the joins. *)
Definition executor_Stop (high : bool) : server_thread unit :=
  stopped ← executor_begin_stop high;
  if negb stopped then mret tt else
  TPause None (fun s => bool_decide (tp_workers (pool high s) = 0%nat)) (mret tt).

Definition WaitForSubmittedTasks : server_thread unit :=
  cv_wait (fun s => sv_pendingSubmittedTasks s =? 0).

(** ** Public operations *)

Definition Start : server_thread StatusCode :=
  handlers ← gets sv_handlers;
  if bool_decide (handlers = ∅) then mret InvalidArgument else
  running ← gets sv_running;
  modify (fun s => s <| sv_running := true |>);;
  if running : bool then mret Ok else
  yield;;
  attachStatus ← session_Attach;
  if negb (status_is attachStatus Ok)
  then yield;; modify (fun s => s <| sv_running := false |>);; mret attachStatus else
  options ← gets sv_options;
  make_executor true (so_highWorkerThreads options);;
  make_executor false (so_normalWorkerThreads options);;
  modify (fun s => s <| sv_completionQueueCapacity :=
    if so_completionQueueCapacity options =? 0 then ss_responseRingSize (sv_session s)
    else so_completionQueueCapacity options |>);;
  yield;;
  modify (fun s => s <| sv_responseWriterRunning := true |>);;
  start_thread WriterThread;;
  start_thread DispatcherThread;;
  mret Ok.

Definition GetRuntimeStats : server_thread RpcServerRuntimeStats :=
  lock_completion;;
  stats ← completion_stats;
  yield;;
  stats ← ring_stats stats;
  yield;;
  stats ← execution_stats stats;
  yield;;
  waiting ← gets sv_responseWriterWaitingForCredit;
  mret (stats <| st_waitingForResponseCredit := waiting |>).

Definition StopResponseWriter : server_thread unit :=
  modify (fun s => s <| sv_responseWriterRunning := false |>);;
  yield;;
  signal_handle respCreditEventFd;;
  yield;;
  notify_completion;;
  yield;;
  join_thread WriterThread;;
  FailPendingCompletionItems PeerDisconnected.

(** The task [Stop] runs in the background. *)
Definition shutdown_task : server_thread unit :=
  StopResponseWriter;;
  yield;;
  joinable ← gets (fun s => bool_decide (DispatcherThread ∈ sv_joinable s));
  (if joinable : bool
   then signal_handle highReqEventFd;; yield;; signal_handle normalReqEventFd;; yield;; join_thread DispatcherThread
   else mret tt);;
  yield;;
  high ← gets (has_executor true);
  normal ← gets (has_executor false);
  modify (fun s => s <| sv_highExecutor := false |> <| sv_normalExecutor := false |>);;
  yield;;
  (if high : bool then executor_Stop true;; yield else mret tt);;
  (if normal : bool then executor_Stop false;; yield else mret tt);;
  WaitForSubmittedTasks;;
  yield;;
  session_Reset.

(** [Stop] waits for the task for a limited time, then ends the process. *)
Definition Stop : server_thread unit :=
  running ← gets sv_running;
  modify (fun s => s <| sv_running := false |>);;
  if negb running then mret tt else
  yield;;
  MarkSessionBroken;;
  yield;;
  modify (fun s => s <| sv_responseWriterRunning := false |> <| sv_alive := ShutdownThread :: sv_alive s |>);;
  spawn ShutdownThread;;
  now ← steady_now;
  ready ← cv_wait_until (Some (now + STOP_TIMEOUT * NS_PER_MS)) (fun s => negb (bool_decide (ShutdownThread ∈ sv_alive s)));
  if ready : bool then mret tt else TAbort.

(** [~RpcServer]; the implementation is released when no thread uses it any
    more, which after [Stop] is the case. *)
Definition RpcServer_delete : server_thread unit := Stop.

(** What a background thread runs. *)
Definition run_worker (fuel : nat) (w : server_worker) : server_thread unit :=
  (match w with
   | WriterThread => ResponseWriterLoop fuel
   | DispatcherThread => DispatcherLoop fuel
   | PoolThread high => WorkerLoop fuel high
   | ShutdownThread => shutdown_task
   end);;
  modify (fun s =>
    match w with
    | PoolThread high => set_pool high (worker_exit (pool high s)) s
    | _ => s <| sv_alive := filter (fun x => x <> w) (sv_alive s) |>
    end).

End Dispatcher.
