(* ===== verification/ServerConfig.v ===== *)
(** * The server: all its threads

    The server as a program with several threads: its public operations,
    called from any number of threads, the background threads, and what the
    client, the kernel, the file system and the clock do in the meantime. *)

From Stdlib Require Import Lia.
From S2P Require Import Prelude Machine Threads Pool Types ShmLayout Ring FilePayload EventFd Os Platform Session.
From S2P Require Import Executor ServerState ServerCore ServerThreads.
#[local] Open Scope thread_scope.

Section Config.
Context {PF : Platform} {SE : ServerEnv}.

Inductive server_op : Type :=
| OpStart
| OpStop
| OpPublishEvent (event : RpcEvent)
| OpGetRuntimeStats
| OpRegisterHandler (opcode : Z) (handler : option RpcHandler)
| OpSetBootstrapHandles (handles : BootstrapHandles)
| OpSetOptions (options : ServerOptions).

Definition perform (op : server_op) : server_thread unit :=
  match op with
  | OpStart => Start;; mret tt
  | OpStop => Stop
  | OpPublishEvent event => PublishEvent event;; mret tt
  | OpGetRuntimeStats => GetRuntimeStats;; mret tt
  | OpRegisterHandler opcode handler => RegisterHandler opcode handler
  | OpSetBootstrapHandles handles => SetBootstrapHandles handles
  | OpSetOptions options => SetOptions options
  end.

(** [Start] and [Stop] are not made for being called at the same time. *)
Definition op_role (op : server_op) : role :=
  match op with OpStart | OpStop => ExclusiveRole | _ => SharedRole end.

(** Time passes, and the client, the kernel and the file system act. *)
Definition environment (s s' : Server) : Prop :=
  exists reads shm fs k, (sv_reads s <= reads)%nat /\
    s' = s <| sv_reads := reads |> <| sv_world := (sv_world s) <| w_shm := shm |> |>
           <| sv_fs := fs |> <| sv_kernel := k |>.

(** Only time passes. *)
Definition pass_time (n : nat) (s : Server) : Server := s <| sv_reads := (sv_reads s + n)%nat |>.

Lemma server_time_environment n s : environment s (pass_time n s).
Proof.
  exists (sv_reads s + n)%nat, (w_shm (sv_world s)), (sv_fs s), (sv_kernel s). split; [lia|].
  by destruct s as [? ? ? ? ? ? ? ? ? ? ? ? ? ? ? ? ? ? ? ? ? ? ? [] ? ? ? ?].
Qed.

(** A new server, in any environment. *)
Definition initial (s : Server) : Prop :=
  exists handles options user w fs k, s = RpcServer_new handles options user w fs k.

(** No operation of the server is a single step that returns a handle. *)
#[export] Instance server_system : System Server server_worker := {|
  sys_op_role := op_role; sys_perform := perform;
  sys_invoke := fun call : Empty_set => match call with end;
  sys_run_worker := run_worker; sys_environment := environment;
  sys_tick_environment := server_time_environment; sys_initial := initial |}.

End Config.
