(* ===== verification/ServerDemo.v ===== *)
(** * A server in a concrete environment

    An instance of the server's parameters, in which the theorems about the
    server are applied to schedules of its threads, and a race is exhibited. *)

From Stdlib Require Import Lia.
From S2P Require Import Prelude Machine Threads Pool Types ShmLayout Ring FilePayload EventFd Os Platform Session.
From S2P Require Import SessionRings Executor ServerState ServerCore ServerThreads ServerConfig.

Module ServerDemo.

Export DemoPlatform.

(** The handlers count their calls. *)
#[global] Instance env : ServerEnv := {|
  HandlerState := nat; env_client := fun _ w => w; env_poll2 := fun _ _ _ k => (0, 0, 0, k) |}.

Definition fresh : Server :=
  RpcServer_new Demo.handles ServerOptions_default 0%nat Demo.world MemFs.empty MemKernel.demo.

Definition start : config Server server_worker := {| cf_state := fresh; cf_pool := []; cf_calls := [] |}.

(** The configuration after a schedule. *)
Definition after (ms : list move) (cfg : config Server server_worker) : config Server server_worker :=
  match exec ms cfg with Some cfg => cfg | None => cfg end.

Definition is_some {A} (x : option A) : bool := match x with Some _ => true | None => false end.

Lemma server_reachable ms : is_some (exec ms start) = true -> reachable (after ms start).
Proof.
  intros Hms. exists fresh. split; [by eexists _, _, _, _, _, _|].
  unfold after. destruct (exec ms start) eqn:E; [|done]. by apply exec_steps in E.
Qed.

(** [n] steps of the thread number [i]. *)
Definition run (i n : nat) : list move := repeat (MRun i 50) n.

(** Answers every call with its payload. *)
Definition echo : RpcHandler := fun call reply n =>
  Finishes 0 {| rp_status := Ok; rp_payload := sc_payload call |} (S n).

(** The server is started: threads 0 and 1 are the executors' workers, 2 is
    the response writer and 3 the dispatcher. *)
Definition started : list move :=
  MCall (OpRegisterHandler 1 (Some echo)) :: MRun 0 50 :: MCall OpStart :: run 0 8.

(** The response writer has tested its predicate when [Stop], and then its
    background task, go on to the notification; the dispatcher returns. *)
Definition stop_race : list move :=
  started ++ run 2 1 ++ [MCall OpStop] ++ run 4 6 ++ run 5 5 ++ run 2 1 ++ run 0 1 ++ run 1 1 ++ run 3 2.

End ServerDemo.
Import ServerDemo.

(** C24: [Stop] can end the process although nothing is wrong.  The response
    writer tests [responseWriterRunning] under [completionMutex] and then
    waits; [StopResponseWriter] clears the flag and notifies without that
    mutex, so that the notification can come between the test and the wait.
    Then every thread of the server waits for something that does not happen,
    until the five seconds [Stop] allows are over and it ends the process. *)
Theorem stop_loses_wakeup :
  exists cfg, reachable cfg /\ length (cf_pool cfg) = 5%nat /\ forallb (blocked (cf_state cfg)) (cf_pool cfg) = true /\
    crashes (later 5000 cfg).
Proof.
  exists (after stop_race start). split; [apply server_reachable; vm_compute; reflexivity|].
  split; [vm_compute; reflexivity|]. split; [vm_compute; reflexivity|].
  apply (aborts_crashes 3). vm_compute. reflexivity.
Qed.
