(* ===== verification/EndToEnd.v ===== *)
(** * A call from the client to the handler and back

    The client and the server on one platform, with one file system: what
    [TryPushRequest] writes into a request entry is what [InvokeHandler] hands
    to the handler, and what [WriteResponse] writes into a response entry is
    what [ResolveCompletedRequest] stores in the caller's future.  The rings
    between them are the subject of [Ring], [Spsc] and [SessionRings]. *)

From Stdlib Require Import Lia.
From S2P Require Import Prelude Machine Threads Types ByteCodec ShmLayout Ring FilePayload EventFd Os Platform Session.
From S2P Require Import SessionRings Executor ClientState ClientRecovery ClientCore ClientWorkers.
From S2P Require Import ServerState ServerCore ServerThreads.

(** ** Entries *)

Lemma memcpy_into_fits array src :
  Zlen src <= Zlen array -> memcpy_into array src = Defined (src ++ Zdrop (Zlen src) array).
Proof. intros Hl. unfold memcpy_into. by rewrite (proj2 (Z.leb_le _ _)). Qed.

Lemma Zlen_zero_payload n : 0 <= n -> Zlen (zero_payload n) = n.
Proof. intros Hn. unfold zero_payload, Zlen. rewrite repeat_length. lia. Qed.

(** A file payload is never sent as an empty transport payload. *)
Lemma Zlen_envelope_bytes ref : 16 <= Zlen (envelope_bytes ref).
Proof. unfold envelope_bytes. rewrite !Zlen_app, !Zlen_le_bytes. pose proof (Zlen_nonneg (to_bytes (fr_path ref))). lia. Qed.

#[local] Arguments PrepareFilePayloadForTransport : simpl never.
#[local] Arguments ResolveFilePayloadFromTransport : simpl never.
#[local] Arguments ResolveEntryPayload : simpl never.

Section EndToEnd.
Context {PF : Platform} {FL : PosixFsLaws Fs} {CE : ClientEnv} {SE : ServerEnv}.

(** The generated path fits a length field, and the loops over system calls
    have fuel for [payload]. *)
Definition transportable (path : path_env) (payload : bytes) (fs : Fs) : Prop :=
  Zlen (to_bytes (MakeFilePayloadPath path DEFAULT_FILE_PAYLOAD_DIR)) < 2 ^ 32 /\
  (String.length DEFAULT_FILE_PAYLOAD_DIR + length payload + fs_interrupts fs < env_fuel)%nat.

(** ** The request *)

(** What the handler is to be called with. *)
Definition server_call (call : RpcCall) : RpcServerCall :=
  {| sc_opcode := call_opcode call; sc_priority := call_priority call;
     sc_execTimeoutMs := call_execTimeoutMs call; sc_payload := call_payload call |}.

Lemma PrepareRequest_carries submit session c :
  PosixFsReliable Fs -> transportable (env_path (cl_paths c)) (call_payload (sb_call submit)) (cl_fs c) ->
  exists status tp kind c1,
    PrepareRequestPayloadForTransport submit session Ptr Ptr c = Returns ((status, tp, kind), c1) /\
    (Zlen (call_payload (sb_call submit)) <= Z.min (ss_maxRequestBytes session) REQUEST_INLINE_PAYLOAD_BYTES -> status = Ok) /\
    (fs_interrupts (cl_fs c1) <= fs_interrupts (cl_fs c))%nat /\
    (status = Ok ->
     Zlen tp <= Z.min (ss_maxRequestBytes session) REQUEST_INLINE_PAYLOAD_BYTES /\
     exists file, carries DEFAULT_FILE_PAYLOAD_DIR (call_payload (sb_call submit)) tp kind file (cl_fs c1) /\
       forall fs2, consumed file (cl_fs c1) fs2 -> same_files (cl_fs c) fs2) /\
    (status <> Ok -> same_files (cl_fs c) (cl_fs c1)).
Proof.
  intros Hrel [Hpath Hfuel]. unfold PrepareRequestPayloadForTransport, ClientWorkers.next_path, bind, gets, modify.
  set (limit := Z.min _ _).
  destruct (Prepare_carries (env_path (cl_paths c)) DEFAULT_FILE_PAYLOAD_DIR (call_payload (sb_call submit))
    limit env_fuel (cl_fs c))
    as (ok & tp & kind & fs1 & HP & Hin & HI & Hok); try done.
  unfold ClientCore.on_fs. cbn. rewrite HP. cbn.
  destruct ok; eexists _, tp, kind, _; (split; [done|]); cbn; split_and!; try done; try tauto.
  intros Hle. by destruct (Hin Hle).
Qed.

(** What the client writes into the entry of a request. *)
Definition request_entry (submit : PendingSubmit) (tp : bytes) (kind : Z) : RequestRingEntry :=
  {| rq_requestId := sb_requestId submit; rq_execTimeoutMs := call_execTimeoutMs (sb_call submit);
     rq_opcode := call_opcode (sb_call submit); rq_priority := Priority_to_u8 (call_priority (sb_call submit));
     rq_payloadKind := kind; rq_payloadSize := Zlen tp;
     rq_payload := tp ++ Zdrop (Zlen tp) (zero_payload REQUEST_INLINE_PAYLOAD_BYTES) |}.

Lemma BuildRequestEntry_fits submit tp kind :
  Zlen tp <= REQUEST_INLINE_PAYLOAD_BYTES -> BuildRequestEntry submit tp kind = Defined (request_entry submit tp kind).
Proof.
  intros Hl. pose proof (Zlen_nonneg tp). unfold BuildRequestEntry.
  assert (REQUEST_INLINE_PAYLOAD_BYTES < 2 ^ 32) by reflexivity.
  rewrite memcpy_into_fits by (cbn [rq_payload RequestRingEntry_default]; by rewrite Zlen_zero_payload).
  rewrite u32_id by (unfold is_u32; lia). done.
Qed.

(** The checks of [ProcessEntry] on what a client sends. *)
Definition entry_rejected (session : Session) (e : RequestRingEntry) : bool :=
  invalidInlinePayload session e || invalidFilePayloadRef session e || unknownPayloadKind e.

Lemma carried_not_rejected session submit payload tp kind file fs :
  carries DEFAULT_FILE_PAYLOAD_DIR payload tp kind file fs ->
  Zlen tp <= Z.min (ss_maxRequestBytes session) REQUEST_INLINE_PAYLOAD_BYTES ->
  entry_rejected session (request_entry submit tp kind) = false.
Proof.
  intros Hc Hl. unfold entry_rejected, invalidInlinePayload, invalidFilePayloadRef, unknownPayloadKind, request_entry.
  cbn [rq_payloadKind rq_payloadSize].
  rewrite !(proj2 (Z.ltb_ge _ _)) by lia.
  destruct file as [p|]; [destruct Hc as (-> & _ & _ & _ & _ & _ & ->)|by destruct Hc as [-> _]].
  cbn [orb]. rewrite (proj2 (Z.eqb_neq (Zlen _) 0)); [done|]. pose proof (Zlen_envelope_bytes {| fr_path := p; fr_size := Zlen payload |}). lia.
Qed.

Lemma InvokeHandler_carried s submit tp kind file handler delayMs reply u :
  PosixFsReliable Fs -> Zlen tp <= REQUEST_INLINE_PAYLOAD_BYTES ->
  carries DEFAULT_FILE_PAYLOAD_DIR (call_payload (sb_call submit)) tp kind file (sv_fs s) ->
  (length (call_payload (sb_call submit)) + fs_interrupts (sv_fs s) < env_fuel)%nat ->
  sv_handlers s !! call_opcode (sb_call submit) = Some handler ->
  handler (server_call (sb_call submit)) RpcReply_default (sv_user s) = Finishes delayMs reply u ->
  exists fs' reads, consumed file (sv_fs s) fs' /\
    alone (InvokeHandler (request_entry submit tp kind)) s =
      Returns (reply, s <| sv_fs := fs' |> <| sv_user := u |> <| sv_reads := reads |>).
Proof.
  intros Hrel Hl Hc Hf Hh EH. assert (Hsmall : Zlen tp < 2 ^ 63) by (by eapply Z.le_lt_trans).
  destruct (Resolve_carries env_fuel DEFAULT_FILE_PAYLOAD_DIR (call_payload (sb_call submit)) tp kind file
    (Zdrop (Zlen tp) (zero_payload REQUEST_INLINE_PAYLOAD_BYTES)) (sv_fs s)) as (fs' & HR & Hg); try done.
  exists fs'. unfold InvokeHandler. cbn [alone tbind atomic]. unfold bind, gets. cbn [run_bind].
  destruct (sv_handlers s !! rq_opcode _) as [h|] eqn:E;
    [|exfalso; by apply (is_Some_None (A := RpcHandler)); rewrite <- E; exists handler].
  assert (h = handler) as -> by (apply (inj Some); by rewrite <- E). cbn.
  unfold bind, ServerCore.on_fs. cbn. rewrite HR. cbn. unfold bind, call_handler, BuildServerCall. cbn.
  replace (if _ : bool then High else Normal) with (call_priority (sb_call submit))
    by (unfold ServerCore.IsHighPriority; cbn; by destruct (call_priority (sb_call submit))).
  unfold server_call in EH. rewrite EH. destruct (0 <? delayMs); cbn; eexists; (split; [exact Hg|]); [done|by destruct s].
Qed.

(** C4: a request reaches its handler as it was made.  Whatever its payload
    and whether or not it has to go through a file, what the client puts into
    the entry is accepted by a server with the same limits, and the handler
    registered for the opcode is called with the caller's opcode, priority,
    time-out and payload, and its reply is the one to send; afterwards no
    payload file is left.  A payload the
    client cannot send leaves no file either, and one that fits the limits is
    always sent. *)
Theorem request_reaches_handler c submit :
  PosixFsReliable Fs -> transportable (env_path (cl_paths c)) (call_payload (sb_call submit)) (cl_fs c) ->
  exists status tp kind c1,
    PrepareRequestPayloadForTransport submit (cl_session c) Ptr Ptr c = Returns ((status, tp, kind), c1) /\
    (Zlen (call_payload (sb_call submit)) <= Z.min (ss_maxRequestBytes (cl_session c)) REQUEST_INLINE_PAYLOAD_BYTES ->
     status = Ok) /\
    (status <> Ok -> same_files (cl_fs c) (cl_fs c1)) /\
    (status = Ok -> exists entry, BuildRequestEntry submit tp kind = Defined entry /\
     forall s handler,
       sv_fs s = cl_fs c1 -> ss_maxRequestBytes (sv_session s) = ss_maxRequestBytes (cl_session c) ->
       sv_handlers s !! call_opcode (sb_call submit) = Some handler ->
       entry_rejected (sv_session s) entry = false /\
       forall delayMs reply u,
         handler (server_call (sb_call submit)) RpcReply_default (sv_user s) = Finishes delayMs reply u ->
         exists fs' reads, same_files (cl_fs c) fs' /\
           alone (InvokeHandler entry) s =
             Returns (reply, s <| sv_fs := fs' |> <| sv_user := u |> <| sv_reads := reads |>)).
Proof.
  intros Hrel Ht. pose proof (proj2 Ht) as Hfuel.
  destruct (PrepareRequest_carries submit (cl_session c) c Hrel Ht) as (status & tp & kind & c1 & HP & Hin & HI & Hok & Hno).
  exists status, tp, kind, c1. split_and!; try done. intros Hs. destruct (Hok Hs) as (Hl & file & Hc & Hgone).
  exists (request_entry submit tp kind). split; [apply BuildRequestEntry_fits; lia|].
  intros s handler Hfs Hm Hh. split; [eapply carried_not_rejected; [done|by rewrite Hm]|].
  intros delayMs reply u EH.
  destruct (InvokeHandler_carried s submit tp kind file handler delayMs reply u) as (fs' & reads & Hg & HR);
    rewrite ?Hfs; try done; [lia..|].
  exists fs', reads. split; [apply Hgone; by rewrite <- Hfs|done].
Qed.

(** ** The reply *)

Lemma PrepareResponse_carries data s :
  PosixFsReliable Fs -> transportable (env_path (sv_paths s)) data (sv_fs s) ->
  Valid (sv_session s) = true -> is_Some (ss_header (sv_session s)) ->
  exists status tp kind s1,
    PrepareResponsePayloadForTransport data Ptr Ptr s = Returns ((status, tp, kind), s1) /\
    (status = Ok \/ status = PayloadTooLarge) /\
    (Zlen data <= Z.min (ss_maxResponseBytes (sv_session s)) RESPONSE_INLINE_PAYLOAD_BYTES -> status = Ok) /\
    (fs_interrupts (sv_fs s1) <= fs_interrupts (sv_fs s))%nat /\
    (status = Ok ->
     Zlen tp <= RESPONSE_INLINE_PAYLOAD_BYTES /\
     exists file, carries DEFAULT_FILE_PAYLOAD_DIR data tp kind file (sv_fs s1) /\
       forall fs2, consumed file (sv_fs s1) fs2 -> same_files (sv_fs s) fs2) /\
    (status <> Ok -> same_files (sv_fs s) (sv_fs s1)).
Proof.
  intros Hrel [Hpath Hfuel] Hv Hh.
  unfold PrepareResponsePayloadForTransport, has_header, ServerCore.next_path, bind, gets, modify.
  cbn [run_bind]. rewrite Hv, bool_decide_eq_true_2 by done. cbn [negb orb].
  destruct (Prepare_carries (env_path (sv_paths s)) DEFAULT_FILE_PAYLOAD_DIR data
    (Z.min (ss_maxResponseBytes (sv_session s)) RESPONSE_INLINE_PAYLOAD_BYTES) env_fuel (sv_fs s))
    as (ok & tp & kind & fs1 & HP & Hin & HI & Hok); try done.
  set (limit := Z.min _ _) in *. unfold ServerCore.on_fs. cbn. rewrite HP. cbn.
  destruct ok; eexists _, _, _, _; (split; [done|]); cbn; split_and!; try done; try tauto.
  - intros _. destruct Hok as [Hl Hf]. split; [|exact Hf]. unfold limit in Hl. lia.
  - intros Hle. by destruct (Hin Hle).
Qed.

(** What the server writes into the entry of a reply. *)
Definition reply_entry (requestId : Z) (status : StatusCode) (tp : bytes) (kind : Z) : ResponseRingEntry :=
  ResponseRingEntry_default
    <| rs_requestId := requestId |> <| rs_messageKind := KindReply |> <| rs_statusCode := StatusCode_to_u32 status |>
    <| rs_resultSize := Zlen tp |> <| rs_payloadKind := kind |>
    <| rs_payload := tp ++ Zdrop (Zlen tp) (zero_payload RESPONSE_INLINE_PAYLOAD_BYTES) |>.

Lemma BuildReplyEntry_fits e status tp kind :
  Zlen tp <= RESPONSE_INLINE_PAYLOAD_BYTES ->
  BuildReplyEntry e {| rp_status := status; rp_payload := tp |} kind = Defined (reply_entry (rq_requestId e) status tp kind).
Proof.
  intros Hl. pose proof (Zlen_nonneg tp). unfold BuildReplyEntry. cbn [rp_payload rp_status].
  assert (RESPONSE_INLINE_PAYLOAD_BYTES < 2 ^ 32) by reflexivity.
  rewrite memcpy_into_fits by (cbn [rs_payload ResponseRingEntry_default]; by rewrite Zlen_zero_payload).
  rewrite u32_id by (unfold is_u32; lia). done.
Qed.

Lemma ResolveEntryPayload_carried c id status tp kind file data :
  PosixFsReliable Fs -> Zlen tp <= RESPONSE_INLINE_PAYLOAD_BYTES ->
  carries DEFAULT_FILE_PAYLOAD_DIR data tp kind file (cl_fs c) ->
  (length data + fs_interrupts (cl_fs c) < env_fuel)%nat ->
  exists fs', consumed file (cl_fs c) fs' /\
    ResolveEntryPayload (reply_entry id status tp kind) Ptr c = Returns ((Ok, data), c <| cl_fs := fs' |>).
Proof.
  intros Hrel Hl Hc Hf. assert (Hsmall : Zlen tp < 2 ^ 63) by (by eapply Z.le_lt_trans).
  unfold ResolveEntryPayload. set (e := reply_entry id status tp kind).
  assert (rs_resultSize e = Zlen tp) as -> by done. assert (rs_payloadKind e = kind) as -> by done.
  assert (rs_payload e = tp ++ Zdrop (Zlen tp) (zero_payload RESPONSE_INLINE_PAYLOAD_BYTES)) as -> by done.
  rewrite (proj2 (Z.ltb_ge _ _)) by lia.
  destruct file as [p|].
  - destruct (Resolve_carries env_fuel DEFAULT_FILE_PAYLOAD_DIR data tp kind (Some p)
      (Zdrop (Zlen tp) (zero_payload RESPONSE_INLINE_PAYLOAD_BYTES)) (cl_fs c)) as (fs' & HR & Hg); try done.
    destruct Hc as (-> & _). exists fs'. split; [done|].
    change (PAYLOAD_KIND_FILE_REF =? PAYLOAD_KIND_INLINE) with false. rewrite Z.eqb_refl.
    unfold bind, ClientCore.on_fs. by rewrite HR.
  - destruct Hc as [-> ->]. exists (cl_fs c). split; [done|]. cbn [Z.eqb PAYLOAD_KIND_INLINE].
    rewrite Ztake_app_exact by done. by destruct c.
Qed.

(** The client takes the entry of a successful reply from the ring. *)
Lemma Resolve_reply c id tp kind file data p :
  PosixFsReliable Fs -> Zlen tp <= RESPONSE_INLINE_PAYLOAD_BYTES ->
  carries DEFAULT_FILE_PAYLOAD_DIR data tp kind file (cl_fs c) ->
  (length data + fs_interrupts (cl_fs c) < env_fuel)%nat ->
  cl_store c !! id = Some p -> cl_futures c !! pr_future p = Some None ->
  exists c', alone (ResolveCompletedRequest (reply_entry id Ok tp kind)) c = Returns (tt, c') /\
    cl_futures c' = <[pr_future p := Some {| rp_status := Ok; rp_payload := data |}]> (cl_futures c) /\
    cl_store c' = delete id (cl_store c) /\ consumed file (cl_fs c) (cl_fs c').
Proof.
  intros Hrel Hl Hc Hfuel Hp Hf.
  destruct (ResolveEntryPayload_carried (c <| cl_store := delete id (cl_store c) |>) id Ok tp kind file data Hrel Hl)
    as (fs' & Hg & HR); [done..|].
  unfold ResolveCompletedRequest. cbn [alone tbind atomic]. unfold Take, bind at 1 2, gets, modify.
  change (rs_requestId _) with id. cbn [run_bind]. rewrite Hp. cbn.
  unfold bind at 1. cbn in HR. rewrite HR. cbn. change (StatusCode_of_u32 0) with Ok. rewrite !status_is_refl. cbn.
  unfold bind, ResolveState, TouchActivity, MonotonicNowMs, steady_now, bind, gets, modify. cbn. rewrite Hf. cbn.
  eexists. split; [reflexivity|]. cbn. by split.
Qed.


End EndToEnd.

(** ** A concrete call

    Seventy-four bytes, where seventy-two fit, go by file in both directions. *)

From S2P Require Import ClientDemo ServerDemo.

Module CallDemo.

Definition session : Session := Demo.client <| ss_maxRequestBytes := 72 |> <| ss_maxResponseBytes := 72 |>.
Definition payload : bytes := repeat Byte.x41 74.

Definition submit : PendingSubmit := {|
  sb_call := {| call_opcode := 1; call_priority := High; call_execTimeoutMs := 5; call_payload := payload |};
  sb_requestId := 9; sb_future := 0%nat |}.

Definition client_state : Client := ClientDemo.fresh <| cl_session := session |>.

(** With the client's files. *)
Definition server_state (fs : MemFs.t) : Server :=
  (RpcServer_new Demo.handles ServerOptions_default 0%nat Demo.world fs MemKernel.demo : Server)
    <| sv_session := session |> <| sv_handlers := {[1 := ServerDemo.echo]} |>.

Definition status_of {St} (r : run (StatusCode * bytes * Z * St)) : StatusCode :=
  match r with Returns ((status, _, _), _) => status | _ => PeerDisconnected end.

End CallDemo.
Import CallDemo.

Lemma request_reaches_handler_witness :
  exists tp kind c1 entry s',
    PrepareRequestPayloadForTransport submit session Ptr Ptr client_state = Returns ((Ok, tp, kind), c1) /\
    BuildRequestEntry submit tp kind = Defined entry /\
    alone (InvokeHandler entry) (server_state (cl_fs c1)) = Returns ({| rp_status := Ok; rp_payload := payload |}, s').
Proof.
  destruct (request_reaches_handler client_state submit) as (status & tp & kind & c1 & HP & _ & _ & Hok);
    [exact MemFs.reliable|split; [vm_compute; reflexivity|apply Nat.ltb_lt; vm_compute; reflexivity]|].
  assert (status = Ok) as ->.
  { change status with (status_of (Returns ((status, tp, kind), c1))). rewrite <- HP. vm_compute. reflexivity. }
  destruct (Hok eq_refl) as (entry & HB & Hs).
  destruct (Hs (server_state (cl_fs c1)) ServerDemo.echo) as [_ HH]; [reflexivity..|].
  destruct (HH 0 {| rp_status := Ok; rp_payload := payload |} 1%nat eq_refl) as (fs' & reads & _ & HI). eauto 8.
Defined.

