(* ===== verification/Sockets.v ===== *)
(** * Stream sockets

    The calls of the socket interface the control channel and the registry
    use, as a parameter with its documented behaviour, and the loops over
    them: [SendAll] and [RecvAll] (transport/ves_control_proxy.cpp,
    ohos_sa_mock/src/mock_service_socket.cpp), [SendMessage] and [RecvMessage]
    (transport/registry_protocol.cpp). *)

From Stdlib Require Import Lia String.
From S2P Require Import Prelude.

Class Sockets (K : Type) : Type := {
  sk_socket : K -> Z * K;                         (* fd or -1 *)
  sk_connect : Z -> string -> K -> Z * K;         (* fd, sun_path: 0 or -1 *)
  sk_send : Z -> bytes -> K -> Z * K;             (* bytes sent, or -1 *)
  sk_recv : Z -> Z -> K -> (Z * bytes) * K;       (* bytes received, 0 at the end of the stream, or -1 *)
  sk_recv_waitall : Z -> Z -> K -> (Z * bytes) * K;
  sk_peek : Z -> K -> (Z * Z) * K;                (* MSG_PEEK of one byte: result and errno *)
  sk_recvmsg : Z -> Z -> K -> (Z * bytes * option (list Z)) * K;   (* and the descriptors, when there are some *)
  sk_sendmsg : Z -> bytes -> list Z -> K -> Z * K;
  sk_poll : Z -> Z -> K -> Z * K;                 (* POLLIN, with a timeout in ms *)
  sk_shutdown : Z -> K -> K;
  sk_close : Z -> K -> K;
}.

(** The calls of a process that accepts connections. *)
Class ListenSockets (K : Type) : Type := {
  sk_unlink : string -> K -> K;
  sk_bind : Z -> string -> K -> Z * K;            (* fd, sun_path: 0 or -1 *)
  sk_listen : Z -> Z -> K -> Z * K;               (* fd, backlog: 0 or -1 *)
  sk_accept : Z -> K -> Z * K;                    (* a connection, or -1 *)
}.

(** What was sent on a descriptor, and what its peer sends from now on. *)
Class SocketLaws (K : Type) `{Sockets K} : Type := {
  sk_sent : K -> Z -> bytes;
  sk_pending : K -> Z -> bytes;
  socket_law k fd k' : sk_socket k = (fd, k') ->
    forall fd', fd' <> fd -> sk_sent k' fd' = sk_sent k fd' /\ sk_pending k' fd' = sk_pending k fd';
  send_law fd data k n k' : sk_send fd data k = (n, k') ->
    n <= Zlen data /\ sk_sent k' fd = sk_sent k fd ++ Ztake n data /\
    sk_pending k' fd = sk_pending k fd /\
    forall fd', fd' <> fd -> sk_sent k' fd' = sk_sent k fd' /\ sk_pending k' fd' = sk_pending k fd';
  recv_law fd want k n data k' : 0 < want ->
    sk_recv fd want k = ((n, data), k') \/ sk_recv_waitall fd want k = ((n, data), k') ->
    n <= want /\ data = Ztake n (sk_pending k fd) /\ (0 <= n -> Zlen data = n) /\
    sk_pending k' fd = Zdrop n (sk_pending k fd) /\ sk_sent k' fd = sk_sent k fd;
  poll_law fd timeout k n k' : sk_poll fd timeout k = (n, k') ->
    forall fd', sk_sent k' fd' = sk_sent k fd' /\ sk_pending k' fd' = sk_pending k fd';
  close_law fd k fd' : sk_sent (sk_close fd k) fd' = sk_sent k fd';
}.

(** Connections do not fail: everything sent is accepted, and receiving
    returns nothing only at the end of the stream, which [poll] reports before
    its time-out. *)
Class SocketsReliable (K : Type) `{SocketLaws K} : Prop := {
  send_reliable fd data k : data <> [] -> 0 < fst (sk_send fd data k);
  send_whole fd data k : Zlen data <= 4 -> fst (sk_send fd data k) = Zlen data;
  recv_reliable fd want k : 0 < want -> sk_pending k fd <> [] -> 0 < fst (fst (sk_recv fd want k));
  poll_reliable fd timeout k : sk_pending k fd <> [] -> 0 < fst (sk_poll fd timeout k);
  waitall_reliable fd want k : 0 < want <= Zlen (sk_pending k fd) -> fst (fst (sk_recv_waitall fd want k)) = want;
}.

Section Loops.
Context {K : Type} {SK : Sockets K}.

(** The characters before the first NUL. *)
Fixpoint c_str (s : string) : string :=
  match s with
  | EmptyString => EmptyString
  | String c s => if Ascii.eqb c Ascii.zero then EmptyString else String c (c_str s)
  end.

(** [strncpy] into [sun_path], whose last byte stays NUL. *)
Definition sun_path (path : string) : string := substring 0 107 (c_str path).

(** [socket], [connect], and [close] when it fails. *)
Definition ConnectToService (path : string) (k : K) : Z * K :=
  let '(fd, k) := sk_socket k in
  if fd <? 0 then (-1, k) else
  let '(rc, k) := sk_connect fd (sun_path path) k in
  if rc <? 0 then (-1, sk_close fd k) else (fd, k).

Fixpoint SendAll (fuel : nat) (fd : Z) (buffer : bytes) (k : K) : run (bool * K) :=
  match buffer with
  | [] => Returns (true, k)
  | _ =>
      match fuel with
      | O => OutOfFuel
      | S fuel =>
          let '(rc, k) := sk_send fd buffer k in
          if rc <=? 0 then Returns (false, k) else SendAll fuel fd (Zdrop rc buffer) k
      end
  end.

(** The bytes received so far are [acc]. *)
Fixpoint RecvAll (fuel : nat) (fd : Z) (size : Z) (acc : bytes) (k : K) : run (bool * bytes * K) :=
  if size <=? 0 then Returns (true, acc, k) else
  match fuel with
  | O => OutOfFuel
  | S fuel =>
      let '((rc, data), k) := sk_recv fd size k in
      if rc <=? 0 then Returns (false, acc, k) else RecvAll fuel fd (size - rc) (acc ++ data) k
  end.

(** The length is sent with one call, the rest as [SendAll] does. *)
Definition SendMessage (fuel : nat) (fd : Z) (msg : bytes) (k : K) : run (bool * K) :=
  let '(rc, k) := sk_send fd (le_bytes 4 (u32 (Zlen msg))) k in
  if negb (rc =? 4) then Returns (false, k) else SendAll fuel fd msg k.

Definition MAX_MESSAGE_BYTES : Z := 64 * 1024.

Definition RecvMessage (fuel : nat) (fd : Z) (msg : outptr) (k : K) : run (bool * bytes * K) :=
  match msg with
  | Null => Returns (false, [], k)
  | Ptr =>
      let '((n, data), k) := sk_recv_waitall fd 4 k in
      let len := le_value data in
      if negb (n =? 4) || (MAX_MESSAGE_BYTES <? len) then Returns (false, [], k) else RecvAll fuel fd len [] k
  end.

(** ** What the loops do *)

Context {SL : SocketLaws K}.

Lemma SendAll_spec fuel fd buffer k :
  (length buffer <= fuel)%nat ->
  exists ok k', SendAll fuel fd buffer k = Returns (ok, k') /\ sk_pending k' fd = sk_pending k fd /\
    (exists n, sk_sent k' fd = sk_sent k fd ++ take n buffer) /\
    (ok = true -> sk_sent k' fd = sk_sent k fd ++ buffer) /\ (SocketsReliable K -> ok = true).
Proof.
  revert buffer k. induction fuel as [|fuel IH]; intros buffer k Hf.
  { destruct buffer; [|cbn in Hf; lia]. exists true, k. rewrite app_nil_r. split_and!; try done. by exists 0%nat; rewrite app_nil_r. }
  destruct buffer as [|b buffer]; [exists true, k; rewrite app_nil_r; split_and!; try done; by exists 0%nat; rewrite app_nil_r|].
  cbn [SendAll]. remember (b :: buffer) as d eqn:Ed. destruct (sk_send fd d k) as [rc k1] eqn:ES.
  destruct (send_law _ _ _ _ _ ES) as (Hn & Hs & Hp & _). destruct (Z.leb_spec rc 0) as [Hrc|Hrc].
  - exists false, k1. split_and!; try done; [by exists (Z.to_nat rc)|]. intros Hrel.
    pose proof (send_reliable fd d k ltac:(by subst d)) as Hpos. rewrite ES in Hpos. cbn in Hpos. lia.
  - destruct (IH (Zdrop rc d) k1) as (ok & k' & -> & Hp' & [m Hm] & Ht & Hr).
    { unfold Zdrop. rewrite length_drop. lia. }
    exists ok, k'. split_and!; [done|by rewrite Hp'| | |done].
    + exists (Z.to_nat rc + m)%nat. rewrite Hm, Hs, <- app_assoc. f_equal. unfold Ztake, Zdrop. by rewrite take_take_drop.
    + intros Hok. rewrite (Ht Hok), Hs, <- app_assoc. unfold Ztake, Zdrop. by rewrite take_drop.
Qed.

Lemma RecvAll_spec fuel fd size acc k :
  (Z.to_nat size <= fuel)%nat ->
  exists ok data k', RecvAll fuel fd size acc k = Returns (ok, data, k') /\ sk_sent k' fd = sk_sent k fd /\
    (ok = true -> data = acc ++ Ztake size (sk_pending k fd) /\ size <= Z.max 0 (Zlen (sk_pending k fd)) /\
                  sk_pending k' fd = Zdrop size (sk_pending k fd)) /\
    (SocketsReliable K -> size <= Zlen (sk_pending k fd) -> ok = true).
Proof.
  revert size acc k. induction fuel as [|fuel IH]; intros size acc k Hf.
  all: cbn; destruct (Z.leb_spec size 0) as [H0|H0]; try lia.
  1,2: exists true, acc, k; split_and!; try done; intros _; unfold Ztake, Zdrop;
    replace (Z.to_nat size) with 0%nat by lia; rewrite app_nil_r; split_and!; [done|lia|done].
  destruct (sk_recv fd size k) as [[rc data] k1] eqn:ER.
  destruct (recv_law fd size k rc data k1 H0 (or_introl ER)) as (Hle & Hd & Hlen & Hp & Hs).
  destruct (Z.leb_spec rc 0) as [Hrc|Hrc].
  - exists false, acc, k1. split_and!; try done. intros Hrel Hsize.
    pose proof (recv_reliable fd size k H0) as Hpos. rewrite ER in Hpos. cbn in Hpos.
    destruct (sk_pending k fd); [rewrite Zlen_nil in Hsize; lia|]. specialize (Hpos ltac:(done)). lia.
  - specialize (Hlen ltac:(lia)). assert (Hrl : rc <= Zlen (sk_pending k fd)).
    { rewrite <- Hlen, Hd. unfold Zlen, Ztake. rewrite length_take. lia. }
    assert (Hlen1 : Zlen (sk_pending k1 fd) = Zlen (sk_pending k fd) - rc).
    { rewrite Hp. unfold Zlen, Zdrop in *. rewrite length_drop. lia. }
    destruct (IH (size - rc) (acc ++ data) k1) as (ok & d & k' & -> & Hs' & Hok & Hr); [lia|].
    exists ok, d, k'. split_and!; [done|by rewrite Hs'| |intros Hrel Hsize; apply Hr; [done|lia]].
    intros Ht. destruct (Hok Ht) as (-> & Hmax & ->). rewrite Hp, Hd. split_and!; [|lia|].
    + rewrite <- app_assoc. f_equal. unfold Ztake, Zdrop. rewrite Z2Nat.inj_sub by lia.
      rewrite take_take_drop. f_equal. lia.
    + unfold Zdrop. rewrite drop_drop. f_equal. lia.
Qed.

(** A message on the wire: its length, then its bytes. *)
Definition frame (msg : bytes) : bytes := le_bytes 4 (u32 (Zlen msg)) ++ msg.

Lemma SendMessage_spec fuel fd msg k :
  (length msg <= fuel)%nat ->
  exists ok k', SendMessage fuel fd msg k = Returns (ok, k') /\ sk_pending k' fd = sk_pending k fd /\
    (ok = true -> sk_sent k' fd = sk_sent k fd ++ frame msg) /\ (SocketsReliable K -> ok = true).
Proof.
  intros Hf. unfold SendMessage. destruct (sk_send fd _ k) as [rc k1] eqn:ES.
  destruct (send_law _ _ _ _ _ ES) as (_ & Hs & Hp & _). destruct (Z.eqb_spec rc 4) as [->|Hrc]; cbn [negb].
  - destruct (SendAll_spec fuel fd msg k1 Hf) as (ok & k' & -> & Hp' & _ & Ht & Hr).
    exists ok, k'. split_and!; [done|by rewrite Hp'| |done]. intros Hok. rewrite (Ht Hok), Hs, <- app_assoc. unfold frame. do 2 f_equal.
  - exists false, k1. split_and!; try done. intros Hrel. destruct Hrc.
    pose proof (send_whole fd (le_bytes 4 (u32 (Zlen msg))) k) as Hw. rewrite ES, Zlen_le_bytes in Hw. by apply Hw.
Qed.

(** The length of the next message, when it arrives whole. *)
Lemma recv_length fd k n data k' msg rest :
  sk_recv_waitall fd 4 k = ((n, data), k') -> sk_pending k fd = frame msg ++ rest -> Zlen msg < 2 ^ 32 ->
  sk_sent k' fd = sk_sent k fd /\ (SocketsReliable K -> n = 4) /\
  (n = 4 -> le_value data = Zlen msg /\ sk_pending k' fd = msg ++ rest).
Proof.
  intros ER Hpend Hl. destruct (recv_law fd 4 k n data k' ltac:(lia) (or_intror ER)) as (_ & Hd & _ & Hp & Hs).
  pose proof (Zlen_nonneg msg). pose proof (Zlen_nonneg rest). split; [done|]. split.
  - intros Hrel. pose proof (waitall_reliable fd 4 k) as Hw. rewrite ER, Hpend in Hw. apply Hw. unfold frame.
    rewrite !Zlen_app, Zlen_le_bytes. lia.
  - intros ->. rewrite Hd, Hp, Hpend. unfold frame. rewrite <- app_assoc.
    rewrite Ztake_app_exact, Zdrop_app_exact by (by rewrite Zlen_le_bytes).
    by rewrite le_value_bytes4, (u32_id (u32 _)), u32_id by (apply u32_range || (split; lia)).
Qed.

Lemma RecvMessage_spec fuel fd k msg rest :
  SocketsReliable K -> sk_pending k fd = frame msg ++ rest -> Zlen msg <= MAX_MESSAGE_BYTES -> (length msg <= fuel)%nat ->
  exists k', RecvMessage fuel fd Ptr k = Returns (true, msg, k') /\
    sk_pending k' fd = rest /\ sk_sent k' fd = sk_sent k fd.
Proof.
  intros Hrel Hpend Hl Hf. unfold MAX_MESSAGE_BYTES in Hl. unfold RecvMessage.
  destruct (sk_recv_waitall fd 4 k) as [[n data] k1] eqn:ER.
  destruct (recv_length fd k n data k1 msg rest ER Hpend ltac:(lia)) as (Hs & Hn & Hv). specialize (Hn Hrel). subst n.
  destruct (Hv eq_refl) as [-> Hp]. cbn [Z.eqb negb orb]. rewrite (proj2 (Z.ltb_ge MAX_MESSAGE_BYTES _)) by done.
  destruct (RecvAll_spec fuel fd (Zlen msg) [] k1) as (ok & d & k' & HR & Hs' & Hok & Hr); [unfold Zlen; lia|].
  assert (ok = true) as ->. { apply Hr; [done|]. rewrite Hp, Zlen_app. pose proof (Zlen_nonneg rest). lia. }
  destruct (Hok eq_refl) as (-> & _ & Hp'). cbn. rewrite HR. rewrite Hp in *. exists k'. cbn [app].
  rewrite Ztake_app_exact by done. split; [done|]. split; [by rewrite Hp', Zdrop_app_exact|by rewrite Hs'].
Qed.

(** A longer message is refused, however it arrives. *)
Lemma RecvMessage_too_long fuel fd k msg rest :
  sk_pending k fd = frame msg ++ rest -> MAX_MESSAGE_BYTES < Zlen msg < 2 ^ 32 ->
  exists k', RecvMessage fuel fd Ptr k = Returns (false, [], k').
Proof.
  intros Hpend Hl. unfold RecvMessage. destruct (sk_recv_waitall fd 4 k) as [[n data] k1] eqn:ER.
  destruct (recv_length fd k n data k1 msg rest ER Hpend ltac:(lia)) as (_ & _ & Hv). exists k1.
  destruct (Z.eqb_spec n 4) as [Hn|]; [|done]. destruct (Hv Hn) as [-> _]. cbn [negb orb]. by rewrite (proj2 (Z.ltb_lt _ _)) by lia.
Qed.

End Loops.

(** ** Sockets in memory *)

(** ** What messages leave alone *)
Section Frame.
Context {K : Type} {SK : Sockets K} (R : K -> K -> Prop) {PR : PreOrder R}.
Hypothesis send_frame : forall fd data k n k', sk_send fd data k = (n, k') -> R k k'.
Hypothesis recv_frame : forall fd want k x k', sk_recv fd want k = (x, k') -> R k k'.
Hypothesis waitall_frame : forall fd want k x k', sk_recv_waitall fd want k = (x, k') -> R k k'.

Lemma SendAll_frame fuel fd buffer k ok k' : SendAll fuel fd buffer k = Returns (ok, k') -> R k k'.
Proof using PR send_frame.
  revert buffer k. induction fuel as [|fuel IH]; intros [|b buffer] k; [by intros [= _ <-]|done|by intros [= _ <-]|].
  cbn [SendAll]. destruct (sk_send _ _ k) as [rc k1] eqn:E. apply send_frame in E.
  destruct (rc <=? 0); [by intros [= _ <-]|]. intros H. etransitivity; [exact E|by eapply IH].
Qed.

Lemma RecvAll_frame fuel fd size acc k x k' : RecvAll fuel fd size acc k = Returns (x, k') -> R k k'.
Proof using PR recv_frame.
  revert size acc k. induction fuel as [|fuel IH]; intros size acc k; cbn [RecvAll];
    (destruct (size <=? 0); [by intros [= _ <-]|]); [done|].
  destruct (sk_recv _ _ k) as [[rc data] k1] eqn:E. apply recv_frame in E.
  destruct (rc <=? 0); [by intros [= _ <-]|]. intros H. etransitivity; [exact E|by eapply IH].
Qed.

Lemma SendMessage_frame fuel fd msg k ok k' : SendMessage fuel fd msg k = Returns (ok, k') -> R k k'.
Proof using PR send_frame.
  unfold SendMessage. destruct (sk_send _ _ k) as [rc k1] eqn:E. apply send_frame in E.
  destruct (negb _); [by intros [= _ <-]|]. intros H. etransitivity; [exact E|by eapply SendAll_frame].
Qed.

Lemma RecvMessage_frame fuel fd msg k x k' : RecvMessage fuel fd msg k = Returns (x, k') -> R k k'.
Proof using PR recv_frame waitall_frame.
  unfold RecvMessage. destruct msg; [by intros [= _ <-]|]. destruct (sk_recv_waitall _ _ k) as [[n data] k1] eqn:E.
  apply waitall_frame in E. destruct (_ || _); [by intros [= _ <-]|]. intros H. etransitivity; [exact E|by eapply RecvAll_frame].
Qed.

End Frame.

(** Every call but the one for a length moves at most three bytes. *)
Module MemSockets.

Record t : Type := { sent : gmap Z bytes; pending : gmap Z bytes; next_fd : Z }.

Definition chunk : Z := 3.
Definition get (m : gmap Z bytes) (fd : Z) : bytes := default [] (m !! fd).

Definition send (fd : Z) (data : bytes) (m : t) : Z * t :=
  let n := if Zlen data <=? 4 then Zlen data else chunk in
  (n, {| sent := <[fd := get (sent m) fd ++ Ztake n data]> (sent m); pending := pending m; next_fd := next_fd m |}).

Definition recv (most fd want : Z) (m : t) : (Z * bytes) * t :=
  let n := Z.min (Zlen (get (pending m) fd)) (Z.min want most) in
  ((n, Ztake n (get (pending m) fd)),
   {| sent := sent m; pending := <[fd := Zdrop n (get (pending m) fd)]> (pending m); next_fd := next_fd m |}).

#[global] Instance sockets : Sockets t := {|
  sk_socket m := (next_fd m, {| sent := sent m; pending := pending m; next_fd := next_fd m + 1 |});
  sk_connect _ _ m := (0, m); sk_peek _ m := ((1, 0), m); sk_recvmsg _ _ m := ((0, [], None), m);
  sk_sendmsg _ _ _ m := (-1, m); sk_poll _ _ m := (1, m); sk_shutdown _ m := m; sk_send := send; sk_recv := recv chunk; sk_recv_waitall fd want := recv want fd want;
  sk_close _ m := m |}.

Lemma get_insert m fd b : get (<[fd := b]> m) fd = b.
Proof. unfold get. by rewrite lookup_insert_eq. Qed.

Lemma get_insert_ne m fd fd' b : fd' <> fd -> get (<[fd := b]> m) fd' = get m fd'.
Proof. intros Hne. unfold get. by rewrite lookup_insert_ne by done. Qed.

#[global] Instance laws : SocketLaws t.
Proof.
  refine {| sk_sent m fd := get (sent m) fd; sk_pending m fd := get (pending m) fd |}.
  - intros k fd k' [= <- <-]. done.
  - intros fd data k n k' [= <- <-]. cbn. pose proof (Zlen_nonneg data). unfold chunk.
    split; [destruct (Z.leb_spec (Zlen data) 4); lia|]. rewrite get_insert. split; [done|]. split; [done|].
    intros fd' Hne. by rewrite get_insert_ne.
  - intros fd want k n data k' Hw Hr. pose proof (Zlen_nonneg (get (pending k) fd)).
    assert (Hs : exists most, 0 < most /\ recv most fd want k = ((n, data), k')) by (destruct Hr; [exists chunk|exists want]; by split).
    destruct Hs as (most & Hm & [= <- <- <-]). cbn. rewrite get_insert. split_and!; [lia|done| |done|done].
    intros _. apply Zlen_Ztake. lia.
  - by intros fd timeout k n k' [= <- <-].
  - done.
Defined.

#[global] Instance reliable : SocketsReliable t.
Proof.
  split.
  - intros fd data k Hd. cbn. unfold chunk. destruct data as [|b data]; [done|]. rewrite Zlen_cons.
    pose proof (Zlen_nonneg data). destruct (_ <=? _); lia.
  - intros fd data k Hd. cbn. by rewrite (proj2 (Z.leb_le _ _)).
  - intros fd want k Hw Hp. cbn in *. unfold chunk. destruct (get (pending k) fd); [done|]. rewrite Zlen_cons.
    pose proof (Zlen_nonneg l). lia.
  - done.
  - intros fd want k Hw. cbn in *. lia.
Qed.

End MemSockets.
