(* ===== verification/VesMessages.v ===== *)
(** * The messages of the virus executor service

    The message types of virus_executor_service (ves_types.h, ves_protocol.h,
    ves_control_interface.h, testkit_types.h, testkit_protocol.h) and their
    codecs (ves_codec.h, testkit_codec.h) as instances of [CodecTraits], with
    the laws the typed facades of the framework rely on. *)

From Stdlib Require Import Lia String Sorting.Sorted.
From stdpp Require Import sorting.
From S2P Require Import Prelude Types ByteCodec.

(** ** ves_types.h, ves_protocol.h *)

Record InitReply : Type := { ir_code : Z }.
Record ScanTask : Type := { st_path : string }.
Record ScanFileReply : Type := { sr_code : Z; sr_threatLevel : Z }.

Definition ScanFileReply_default : ScanFileReply := {| sr_code := 0; sr_threatLevel := 0 |}.

Definition VesOpcode_ScanFile : Z := 102.
Definition VES_EVENT_DOMAIN_RUNTIME : Z := 1.
Definition VesEventType_RandomScanResult : Z := 1.
Definition VesEventType_RandomHealthHint : Z := 2.
Definition VesEventType_RandomLifecycle : Z := 3.

(** ** testkit_types.h, testkit_protocol.h *)

Record EchoRequest : Type := { eq_text : string }.
Record EchoReply : Type := { er_text : string }.
Record AddRequest : Type := { aq_lhs : Z; aq_rhs : Z }.
Record AddReply : Type := { ar_sum : Z }.
Record SleepRequest : Type := { sq_delayMs : Z }.
Record SleepReply : Type := { sp_status : Z }.

Definition TestkitOpcode_Echo : Z := 200.
Definition TestkitOpcode_Add : Z := 201.
Definition TestkitOpcode_Sleep : Z := 202.
Definition TestkitOpcode_CrashForTest : Z := 203.
Definition TestkitOpcode_HangForTest : Z := 204.
Definition TestkitOpcode_OomForTest : Z := 205.
Definition TestkitOpcode_StackOverflowForTest : Z := 206.

(** ** ves_control_interface.h *)

Definition VES_OPEN_SESSION_REQUEST_VERSION : Z := 1.
Definition VES_OPEN_SESSION_MAX_ENGINE_KINDS : Z := 32.
Definition VesEngineKind_Scan : Z := 1.

Definition VIRUS_PROTECTION_EXECUTOR_SA_ID : Z := 1251.

Record VesOpenSessionRequest : Type := {
  os_version : Z;
  os_engineKinds : list Z;
}.

#[export] Instance VesOpenSessionRequest_eta : Eta VesOpenSessionRequest := fun r =>
  Build_VesOpenSessionRequest (os_version r) (os_engineKinds r).

Definition DefaultVesOpenSessionRequest : VesOpenSessionRequest :=
  {| os_version := VES_OPEN_SESSION_REQUEST_VERSION; os_engineKinds := [] |}.

(** [std::unique] and the [erase] that follows it. *)
Fixpoint unique (l : list Z) : list Z :=
  match l with
  | [] => []
  | x :: l' => match l' with
               | [] => [x]
               | y :: _ => if x =? y then unique l' else x :: unique l'
               end
  end.

Definition NormalizeVesEngineKinds (engineKinds : list Z) : list Z :=
  unique (merge_sort Z.le engineKinds).

Definition IsValidVesOpenSessionRequest (request : VesOpenSessionRequest) : bool :=
  if negb (os_version request =? VES_OPEN_SESSION_REQUEST_VERSION) ||
     (VES_OPEN_SESSION_MAX_ENGINE_KINDS <? Zlen (os_engineKinds request)) then false
  else forallb (fun engineKind => negb (engineKind =? 0)) (os_engineKinds request).

(** ** Codecs *)

(** [if (out == nullptr) return false; ByteReader reader(bytes, size); ...]. *)
Definition decode_with {T} (m : reader T) (mem : option bytes) (size : Z) (out : outptr) : read_result T :=
  match out with
  | Null => ReadFail (MakeByteReader mem size)
  | Ptr => m (MakeByteReader mem size)
  end.

Definition InitReply_Encode (reply : InitReply) (out : outptr) : defined (bool * bytes) :=
  AssignBytes (WriteInt32 (ir_code reply)) out.
Definition InitReply_Decode : option bytes -> Z -> outptr -> read_result InitReply :=
  decode_with (code <-r ReadInt32 Ptr; rd_ret {| ir_code := code |})%reader.

Definition ScanTask_Encode (request : ScanTask) (out : outptr) : defined (bool * bytes) :=
  AssignBytes (WriteString (st_path request)) out.
Definition ScanTask_Decode : option bytes -> Z -> outptr -> read_result ScanTask :=
  decode_with (path <-r ReadString Ptr; rd_ret {| st_path := path |})%reader.

Definition ScanFileReply_Encode (reply : ScanFileReply) (out : outptr) : defined (bool * bytes) :=
  AssignBytes (WriteInt32 (sr_code reply) &&w WriteInt32 (sr_threatLevel reply)) out.
Definition ScanFileReply_Decode : option bytes -> Z -> outptr -> read_result ScanFileReply :=
  decode_with (code <-r ReadInt32 Ptr; threatLevel <-r ReadInt32 Ptr;
               rd_ret {| sr_code := code; sr_threatLevel := threatLevel |})%reader.

(** The loops of [CodecTraits<VesOpenSessionRequest>]. *)
Fixpoint write_kinds (engineKinds : list Z) : writer :=
  match engineKinds with
  | [] => fun w => Defined (true, w)
  | engineKind :: rest => WriteUint32 engineKind &&w write_kinds rest
  end.

Fixpoint read_kinds (engineCount : nat) : reader (list Z) :=
  match engineCount with
  | O => rd_ret []
  | S n => (engineKind <-r ReadUint32 Ptr; rest <-r read_kinds n; rd_ret (engineKind :: rest))%reader
  end.

Definition VesOpenSessionRequest_Encode (request : VesOpenSessionRequest) (out : outptr) : defined (bool * bytes) :=
  AssignBytes (WriteUint32 (os_version request) &&w WriteUint32 (u32 (Zlen (os_engineKinds request))) &&w
               write_kinds (os_engineKinds request)) out.
Definition VesOpenSessionRequest_Decode : option bytes -> Z -> outptr -> read_result VesOpenSessionRequest :=
  decode_with
    (version <-r ReadUint32 Ptr; engineCount <-r ReadUint32 Ptr;
     if VES_OPEN_SESSION_MAX_ENGINE_KINDS <? engineCount then rd_fail else
     engineKinds <-r read_kinds (Z.to_nat engineCount);
     rd_ret {| os_version := version; os_engineKinds := engineKinds |})%reader.

Definition EchoRequest_Encode (request : EchoRequest) (out : outptr) : defined (bool * bytes) :=
  AssignBytes (WriteString (eq_text request)) out.
Definition EchoRequest_Decode : option bytes -> Z -> outptr -> read_result EchoRequest :=
  decode_with (text <-r ReadString Ptr; rd_ret {| eq_text := text |})%reader.

Definition EchoReply_Encode (reply : EchoReply) (out : outptr) : defined (bool * bytes) :=
  AssignBytes (WriteString (er_text reply)) out.
Definition EchoReply_Decode : option bytes -> Z -> outptr -> read_result EchoReply :=
  decode_with (text <-r ReadString Ptr; rd_ret {| er_text := text |})%reader.

Definition AddRequest_Encode (request : AddRequest) (out : outptr) : defined (bool * bytes) :=
  AssignBytes (WriteInt32 (aq_lhs request) &&w WriteInt32 (aq_rhs request)) out.
Definition AddRequest_Decode : option bytes -> Z -> outptr -> read_result AddRequest :=
  decode_with (lhs <-r ReadInt32 Ptr; rhs <-r ReadInt32 Ptr; rd_ret {| aq_lhs := lhs; aq_rhs := rhs |})%reader.

Definition AddReply_Encode (reply : AddReply) (out : outptr) : defined (bool * bytes) :=
  AssignBytes (WriteInt32 (ar_sum reply)) out.
Definition AddReply_Decode : option bytes -> Z -> outptr -> read_result AddReply :=
  decode_with (sum <-r ReadInt32 Ptr; rd_ret {| ar_sum := sum |})%reader.

Definition SleepRequest_Encode (request : SleepRequest) (out : outptr) : defined (bool * bytes) :=
  AssignBytes (WriteUint32 (sq_delayMs request)) out.
Definition SleepRequest_Decode : option bytes -> Z -> outptr -> read_result SleepRequest :=
  decode_with (delayMs <-r ReadUint32 Ptr; rd_ret {| sq_delayMs := delayMs |})%reader.

Definition SleepReply_Encode (reply : SleepReply) (out : outptr) : defined (bool * bytes) :=
  AssignBytes (WriteInt32 (sp_status reply)) out.
Definition SleepReply_Decode : option bytes -> Z -> outptr -> read_result SleepReply :=
  decode_with (status <-r ReadInt32 Ptr; rd_ret {| sp_status := status |})%reader.

(** A string that a length field of four bytes can describe. *)
Definition wire_string (s : string) : Prop := Zlen (to_bytes s) < 2 ^ 32.

#[export] Instance InitReply_codec : CodecTraits InitReply :=
  {| Encode := InitReply_Encode; Decode := InitReply_Decode; codec_valid r := is_i32 (ir_code r) |}.
#[export] Instance ScanTask_codec : CodecTraits ScanTask :=
  {| Encode := ScanTask_Encode; Decode := ScanTask_Decode; codec_valid r := wire_string (st_path r) |}.
#[export] Instance ScanFileReply_codec : CodecTraits ScanFileReply :=
  {| Encode := ScanFileReply_Encode; Decode := ScanFileReply_Decode;
     codec_valid r := is_i32 (sr_code r) /\ is_i32 (sr_threatLevel r) |}.
#[export] Instance VesOpenSessionRequest_codec : CodecTraits VesOpenSessionRequest :=
  {| Encode := VesOpenSessionRequest_Encode; Decode := VesOpenSessionRequest_Decode;
     codec_valid r := is_u32 (os_version r) /\ Forall is_u32 (os_engineKinds r) /\
                      Zlen (os_engineKinds r) <= VES_OPEN_SESSION_MAX_ENGINE_KINDS |}.
#[export] Instance EchoRequest_codec : CodecTraits EchoRequest :=
  {| Encode := EchoRequest_Encode; Decode := EchoRequest_Decode; codec_valid r := wire_string (eq_text r) |}.
#[export] Instance EchoReply_codec : CodecTraits EchoReply :=
  {| Encode := EchoReply_Encode; Decode := EchoReply_Decode; codec_valid r := wire_string (er_text r) |}.
#[export] Instance AddRequest_codec : CodecTraits AddRequest :=
  {| Encode := AddRequest_Encode; Decode := AddRequest_Decode;
     codec_valid r := is_i32 (aq_lhs r) /\ is_i32 (aq_rhs r) |}.
#[export] Instance AddReply_codec : CodecTraits AddReply :=
  {| Encode := AddReply_Encode; Decode := AddReply_Decode; codec_valid r := is_i32 (ar_sum r) |}.
#[export] Instance SleepRequest_codec : CodecTraits SleepRequest :=
  {| Encode := SleepRequest_Encode; Decode := SleepRequest_Decode; codec_valid r := is_u32 (sq_delayMs r) |}.
#[export] Instance SleepReply_codec : CodecTraits SleepReply :=
  {| Encode := SleepReply_Encode; Decode := SleepReply_Decode; codec_valid r := is_i32 (sp_status r) |}.

(** ** The laws of the codecs *)

Section Laws.
Context {T : Type} {CT : CodecTraits T}.

(** A codec that writes [wire v] and reads it back with [m]. *)
Lemma codec_laws (w : T -> writer) (wire : T -> bytes) (m : reader T) :
  (forall v, Encode v Ptr = AssignBytes (w v) Ptr) -> (forall v, w v [] = Defined (true, wire v)) ->
  (forall mem size p, Decode mem size p = decode_with m mem size p) -> reader_safe m ->
  (forall v, codec_valid v -> exists r, m (reader_at [] (wire v)) = ReadOk v r) -> CodecLaws T.
Proof.
  intros He Hw Hd Hs Hm. split.
  - intros v. exists (wire v). rewrite He. unfold AssignBytes. by rewrite Hw.
  - intros v b Hv. rewrite He, Hd. unfold AssignBytes. rewrite Hw. intros [= <-]. by apply Hm.
  - intros mem size p H0 H1 H2. rewrite Hd. destruct p; [done|]. by apply reader_safe_start.
Qed.

End Laws.

Definition int_wire (v : Z) : bytes := le_bytes 4 v ++ [].
Definition string_wire (s : string) : bytes :=
  (le_bytes 4 (u32 (Zlen (to_bytes s))) ++ Ztake (u32 (Zlen (to_bytes s))) (to_bytes s)) ++ [].

Lemma WriteInt32_wire v : WriteInt32 v [] = Defined (true, int_wire v).
Proof. rewrite WriteInt32_eq. unfold int_wire. by rewrite app_nil_r. Qed.

Lemma WriteString_wire s : WriteString s [] = Defined (true, string_wire s).
Proof. rewrite WriteString_total. unfold string_wire. by rewrite app_nil_r. Qed.

Lemma read_int_wire v : is_i32 v -> exists r, ReadInt32 Ptr (reader_at [] (int_wire v)) = ReadOk v r.
Proof. intros Hv. eexists. apply ReadInt32_at; [done|]. by autorewrite with memrpc. Qed.

Lemma read_uint_wire v : is_u32 v -> exists r, ReadUint32 Ptr (reader_at [] (int_wire v)) = ReadOk v r.
Proof. intros Hv. eexists. unfold int_wire. rewrite ReadUint32_at; [by rewrite u32_id|]. by autorewrite with memrpc. Qed.

Lemma read_string_wire s : wire_string s -> exists r, ReadString Ptr (reader_at [] (string_wire s)) = ReadOk s r.
Proof.
  intros Hs. unfold wire_string in Hs. pose proof (Zlen_nonneg (to_bytes s)). eexists. unfold string_wire.
  rewrite u32_id by (split; lia). rewrite Ztake_all.
  apply ReadString_at; [done|]. autorewrite with memrpc. lia.
Qed.

(** Two integers, one after the other. *)
Definition pair_wire (v1 v2 : Z) : bytes := le_bytes 4 v1 ++ le_bytes 4 v2 ++ [].

Lemma WriteInt32_pair v1 v2 : (WriteInt32 v1 &&w WriteInt32 v2) [] = Defined (true, pair_wire v1 v2).
Proof. unfold wr_and, pair_wire. rewrite WriteInt32_eq, WriteInt32_eq. by rewrite app_nil_r. Qed.

Lemma read_pair_wire v1 v2 {A} (k : Z -> Z -> A) :
  is_i32 v1 -> is_i32 v2 ->
  exists r, (a <-r ReadInt32 Ptr; b <-r ReadInt32 Ptr; rd_ret (k a b))%reader (reader_at [] (pair_wire v1 v2)) =
    ReadOk (k v1 v2) r.
Proof.
  intros H1 H2. unfold rd_bind, pair_wire. rewrite ReadInt32_at; [|done|by autorewrite with memrpc].
  rewrite ReadInt32_at; [|done|by autorewrite with memrpc]. by eexists.
Qed.

Lemma read_pair_safe {A} (k : Z -> Z -> A) :
  reader_safe (a <-r ReadInt32 Ptr; b <-r ReadInt32 Ptr; rd_ret (k a b))%reader.
Proof. apply rd_bind_safe; [apply ReadInt32_safe|]. intros a. apply rd_bind_safe; auto with memrpc. Qed.

(** A message made of one field. *)
Lemma read_one {A B} (m : reader A) (k : A -> B) r0 a r :
  m r0 = ReadOk a r -> exists r', (x <-r m; rd_ret (k x))%reader r0 = ReadOk (k a) r'.
Proof. intros Hm. unfold rd_bind. rewrite Hm. by eexists. Qed.

Ltac one_int wire read :=
  eapply (codec_laws _ wire); [done|intros v; apply WriteInt32_wire|done|auto with memrpc|];
  intros [v] Hv; destruct (read _ Hv) as [r Hr]; eapply read_one, Hr.

#[export] Instance InitReply_laws : CodecLaws InitReply.
Proof. one_int (fun r => int_wire (ir_code r)) read_int_wire. Qed.

#[export] Instance AddReply_laws : CodecLaws AddReply.
Proof. one_int (fun r => int_wire (ar_sum r)) read_int_wire. Qed.

#[export] Instance SleepReply_laws : CodecLaws SleepReply.
Proof. one_int (fun r => int_wire (sp_status r)) read_int_wire. Qed.

#[export] Instance SleepRequest_laws : CodecLaws SleepRequest.
Proof. one_int (fun r => int_wire (sq_delayMs r)) read_uint_wire. Qed.

Ltac one_string wire :=
  eapply (codec_laws _ wire); [done|intros v; apply WriteString_wire|done|auto with memrpc|];
  intros [v] Hv; destruct (read_string_wire _ Hv) as [r Hr]; eapply read_one, Hr.

#[export] Instance ScanTask_laws : CodecLaws ScanTask.
Proof. one_string (fun r => string_wire (st_path r)). Qed.

#[export] Instance EchoRequest_laws : CodecLaws EchoRequest.
Proof. one_string (fun r => string_wire (eq_text r)). Qed.

#[export] Instance EchoReply_laws : CodecLaws EchoReply.
Proof. one_string (fun r => string_wire (er_text r)). Qed.

#[export] Instance ScanFileReply_laws : CodecLaws ScanFileReply.
Proof.
  apply (codec_laws (fun r => WriteInt32 (sr_code r) &&w WriteInt32 (sr_threatLevel r))
    (fun r => pair_wire (sr_code r) (sr_threatLevel r)) (a <-r ReadInt32 Ptr; b <-r ReadInt32 Ptr; rd_ret (Build_ScanFileReply a b))%reader);
    [reflexivity|intros v; apply WriteInt32_pair|reflexivity|apply read_pair_safe|].
  intros [a b] [Ha Hb]. by apply (read_pair_wire a b Build_ScanFileReply).
Qed.

#[export] Instance AddRequest_laws : CodecLaws AddRequest.
Proof.
  apply (codec_laws (fun r => WriteInt32 (aq_lhs r) &&w WriteInt32 (aq_rhs r))
    (fun r => pair_wire (aq_lhs r) (aq_rhs r)) (a <-r ReadInt32 Ptr; b <-r ReadInt32 Ptr; rd_ret (Build_AddRequest a b))%reader);
    [reflexivity|intros v; apply WriteInt32_pair|reflexivity|apply read_pair_safe|].
  intros [a b] [Ha Hb]. by apply (read_pair_wire a b Build_AddRequest).
Qed.

(** The engine kinds, four bytes each. *)
Definition kinds_wire (l : list Z) : bytes := concat (map (le_bytes 4) l).

Lemma Zlen_kinds_wire l : Zlen (kinds_wire l) = 4 * Zlen l.
Proof.
  induction l as [|k l IH]; [done|]. unfold kinds_wire in *. cbn [map concat].
  rewrite Zlen_app, IH, Zlen_le_bytes, Zlen_cons. lia.
Qed.

Lemma write_kinds_eq l w : write_kinds l w = Defined (true, w ++ kinds_wire l).
Proof.
  revert w. induction l as [|k l IH]; intros w; cbn; [by rewrite app_nil_r|].
  unfold wr_and. rewrite WriteUint32_eq, IH. by rewrite <- app_assoc.
Qed.

Lemma read_kinds_at l a :
  Forall is_u32 l -> Zlen (a ++ kinds_wire l ++ []) < 2 ^ 64 ->
  read_kinds (length l) (reader_at a (kinds_wire l ++ [])) = ReadOk l (reader_at (a ++ kinds_wire l) []).
Proof.
  revert a. induction l as [|k l IH]; intros a Hl Hlen; [cbn; unfold rd_ret; by rewrite app_nil_r|].
  apply Forall_cons in Hl as [Hk Hl]. cbn [length read_kinds]. unfold rd_bind at 1.
  change (kinds_wire (k :: l)) with (le_bytes 4 k ++ kinds_wire l) in *. rewrite <- app_assoc in Hlen |- *.
  rewrite ReadUint32_at by done. rewrite u32_id by done. unfold rd_bind at 1.
  rewrite IH; [|done|by rewrite <- app_assoc]. unfold rd_ret. by rewrite <- app_assoc.
Qed.

Lemma read_kinds_safe n : reader_safe (read_kinds n).
Proof. induction n as [|n IH]; cbn; auto with memrpc. Qed.

#[export] Instance VesOpenSessionRequest_laws : CodecLaws VesOpenSessionRequest.
Proof.
  eapply (codec_laws _ (fun r => le_bytes 4 (os_version r) ++ le_bytes 4 (u32 (Zlen (os_engineKinds r))) ++
                                kinds_wire (os_engineKinds r) ++ [])); [done| |done| |].
  - intros v. unfold wr_and. rewrite WriteUint32_eq, WriteUint32_eq, write_kinds_eq. cbn.
    by rewrite app_nil_r, <- app_assoc.
  - apply rd_bind_safe; [auto with memrpc|]. intros version. apply rd_bind_safe; [auto with memrpc|]. intros count.
    case_match; auto using read_kinds_safe with memrpc.
  - intros [version kinds] (Hv & Hk & Hl). cbn [os_version os_engineKinds] in *. pose proof (Zlen_nonneg kinds).
    unfold VES_OPEN_SESSION_MAX_ENGINE_KINDS in *.
    unfold rd_bind at 1. rewrite ReadUint32_at by (rewrite !Zlen_app, Zlen_kinds_wire, !Zlen_le_bytes, !Zlen_nil; lia).
    unfold rd_bind at 1. rewrite ReadUint32_at by (rewrite !Zlen_app, Zlen_kinds_wire, !Zlen_le_bytes, !Zlen_nil; lia).
    rewrite (u32_id (u32 _)), (u32_id (Zlen kinds)), (u32_id version) by (apply u32_range || done || (unfold is_u32; lia)).
    rewrite (proj2 (Z.ltb_ge _ _)) by lia.
    unfold Zlen at 1. rewrite Nat2Z.id. unfold rd_bind. rewrite read_kinds_at; [by eexists|done|].
    rewrite !Zlen_app, Zlen_kinds_wire, !Zlen_le_bytes, !Zlen_nil. lia.
Qed.

(** ** Normal form of engine lists *)

Lemma elem_of_unique x l : x ∈ unique l <-> x ∈ l.
Proof.
  induction l as [|a l IH]; [done|]. cbn. destruct l as [|b l]; [done|].
  destruct (Z.eqb_spec a b) as [->|_]; rewrite ?IH, !elem_of_cons in *; [|by rewrite IH]. tauto.
Qed.

Lemma unique_sorted l : StronglySorted Z.le l -> StronglySorted Z.lt (unique l).
Proof.
  induction 1 as [|a l Hs IH Ha]; [constructor|]. cbn. destruct l as [|b l]; [by repeat constructor|].
  destruct (Z.eqb_spec a b) as [_|Hne]; [done|]. constructor; [done|]. apply Forall_forall. intros x Hx.
  rewrite elem_of_unique in Hx. rewrite Forall_forall in Ha. apply elem_of_cons in Hx as [->|Hx].
  - specialize (Ha b ltac:(by left)). lia.
  - pose proof (Ha b ltac:(by left)). apply StronglySorted_inv in Hs as [_ Hb].
    rewrite Forall_forall in Hb. specialize (Hb x Hx). lia.
Qed.

Lemma sorted_lt_NoDup l : StronglySorted Z.lt l -> NoDup l.
Proof.
  induction 1 as [|a l Hs IH Ha]; constructor; [|done]. intros Hin. rewrite Forall_forall in Ha.
  specialize (Ha a Hin). lia.
Qed.

Lemma NormalizeVesEngineKinds_sorted l : StronglySorted Z.lt (NormalizeVesEngineKinds l).
Proof. apply unique_sorted, (StronglySorted_merge_sort Z.le). Qed.

Lemma elem_of_normalize x l : x ∈ NormalizeVesEngineKinds l <-> x ∈ l.
Proof. unfold NormalizeVesEngineKinds. rewrite elem_of_unique. by rewrite (merge_sort_Permutation Z.le l). Qed.

(** Two lists have the same normal form exactly when they name the same kinds. *)
Lemma normalize_eq a b :
  NormalizeVesEngineKinds a = NormalizeVesEngineKinds b <-> forall x, x ∈ a <-> x ∈ b.
Proof.
  split; [intros He x; by rewrite <- (elem_of_normalize x a), He, elem_of_normalize|]. intros He.
  assert (AntiSymm (=) Z.lt) by (intros x y; lia).
  apply (StronglySorted_unique Z.lt); [apply NormalizeVesEngineKinds_sorted..|].
  apply NoDup_Permutation; [apply sorted_lt_NoDup, NormalizeVesEngineKinds_sorted..|].
  intros x. by rewrite !elem_of_normalize.
Qed.
