(* ===== verification/VesRules.v ===== *)
(** * Sample rules

    virus_executor_service/src/ves/ves_sample_rules.cpp: what a scan of a
    sample path does. *)

From Stdlib Require Import Lia String Ascii.
From S2P Require Import Prelude.

Record SampleBehavior : Type := {
  sb_threatLevel : Z;
  sb_sleepMs : Z;
  sb_shouldCrash : bool;
}.

Definition MAX_SLEEP_MS : Z := 5000.

Definition isdigit (c : ascii) : bool := (48 <=? Z.of_N (N_of_ascii c)) && (Z.of_N (N_of_ascii c) <=? 57).

(** [static_cast<uint32_t>(c - '0')]. *)
Definition digit (c : ascii) : Z := Z.of_N (N_of_ascii c) - 48.

(** The loop of [ParseSleepMs]; [ms] is a [uint32_t]. *)
Fixpoint parse_loop (s : string) (ms : Z) : Z :=
  match s with
  | EmptyString => ms
  | String c s => if isdigit c then parse_loop s (u32 (ms * 10 + digit c)) else ms
  end.

(** The part of [path] from index [pos] on. *)
Definition suffix (pos : nat) (path : string) : string := substring pos (String.length path - pos) path.

Definition ParseSleepMs (path : string) : Z :=
  match String.index 0 "sleep" path with
  | None => 0
  | Some pos =>
      match suffix (pos + String.length "sleep") path with
      | EmptyString => 0
      | String c rest as s => if negb (isdigit c) then 0 else Z.min (parse_loop s 0) MAX_SLEEP_MS
      end
  end.

(** [path.find(key) != std::string::npos]. *)
Definition contains (key path : string) : bool := if String.index 0 key path then true else false.

Definition EvaluateSamplePath (path : string) : SampleBehavior :=
  let sleepMs := ParseSleepMs path in
  {| sb_threatLevel := if contains "virus" path || contains "eicar" path || (0 <? sleepMs) then 1 else 0;
     sb_sleepMs := sleepMs;
     sb_shouldCrash := contains "crash" path |}.

(** ** The number of milliseconds *)

(** The number written by the leading digits of [s], after [ms]. *)
Fixpoint leading_number (s : string) (ms : Z) : Z :=
  match s with
  | EmptyString => ms
  | String c s => if isdigit c then leading_number s (ms * 10 + digit c) else ms
  end.

Lemma digit_range c : isdigit c = true -> 0 <= digit c <= 9.
Proof. unfold isdigit, digit. intros Hc. bool_to_prop. lia. Qed.

Lemma parse_loop_wraps s ms : parse_loop s (u32 ms) = u32 (leading_number s ms).
Proof.
  revert ms. induction s as [|c s IH]; intros ms; [done|]. cbn. destruct (isdigit c); [|done]. rewrite <- IH. f_equal.
  unfold u32. by rewrite <- (Zplus_mod_idemp_l (ms * 10)), <- (Zmult_mod_idemp_l ms), Zplus_mod_idemp_l.
Qed.

Lemma leading_number_nonneg s ms : 0 <= ms -> 0 <= leading_number s ms.
Proof.
  revert ms. induction s as [|c s IH]; intros ms Hm; [done|]. cbn. destruct (isdigit c) eqn:E; [|done].
  apply IH. pose proof (digit_range c E). lia.
Qed.

(** What a path asks for: the number after the first "sleep", if there is one. *)
Definition requested_sleep (path : string) : Z :=
  match String.index 0 "sleep" path with
  | None => 0
  | Some pos => leading_number (suffix (pos + 5) path) 0
  end.

Lemma ParseSleepMs_eq path : ParseSleepMs path = Z.min (u32 (requested_sleep path)) MAX_SLEEP_MS.
Proof.
  unfold ParseSleepMs, requested_sleep. destruct (String.index 0 "sleep" path) as [pos|]; [|done]. cbn [String.length].
  destruct (suffix (pos + 5) path) as [|c rest] eqn:E; [done|]. destruct (isdigit c) eqn:Ec; cbn [negb].
  - rewrite <- (parse_loop_wraps (String c rest) 0). done.
  - cbn. by rewrite Ec.
Qed.

(** A scan never sleeps longer than five seconds; it sleeps as long as
    the path asks for, up to that limit, when the number fits 32 bits, and
    then a path that asks for a sleep is reported as a threat.  Larger numbers
    are taken modulo 2^32: a path that asks for a multiple of it is not slept
    on, and is a threat only for its name, although every sample with a sleep
    is meant to be one. *)
Theorem sample_sleep_bounded path :
  0 <= sb_sleepMs (EvaluateSamplePath path) <= MAX_SLEEP_MS /\
  (requested_sleep path < 2 ^ 32 ->
   sb_sleepMs (EvaluateSamplePath path) = Z.min (requested_sleep path) MAX_SLEEP_MS /\
   (0 < requested_sleep path -> sb_threatLevel (EvaluateSamplePath path) = 1)) /\
  ((2 ^ 32 | requested_sleep path) ->
   sb_sleepMs (EvaluateSamplePath path) = 0 /\
   (sb_threatLevel (EvaluateSamplePath path) = 1 <-> contains "virus" path || contains "eicar" path = true)).
Proof.
  cbn. rewrite ParseSleepMs_eq. pose proof (u32_range (requested_sleep path)) as Hr. unfold is_u32 in Hr.
  assert (Hn : 0 <= requested_sleep path).
  { unfold requested_sleep. destruct (String.index _ _ _); [|done]. by apply leading_number_nonneg. }
  unfold MAX_SLEEP_MS. split; [lia|]. split.
  - intros Hs. rewrite u32_id by (split; lia). split; [done|].
    intros Hp. rewrite (proj2 (Z.ltb_lt 0 _)) by lia. by rewrite orb_true_r.
  - intros Hd. unfold u32 in *. rewrite (Znumtheory.Zdivide_mod _ _ Hd). split; [done|]. cbn.
    rewrite orb_false_r. by destruct (contains "virus" path || contains "eicar" path).
Qed.

Example sleep_wraps :
  requested_sleep "/data/sleep4294967296" = 2 ^ 32 /\
  EvaluateSamplePath "/data/sleep4294967296" = {| sb_threatLevel := 0; sb_sleepMs := 0; sb_shouldCrash := false |}.
Proof. split; reflexivity. Qed.
