(* ===== verification/VesHandlers.v ===== *)
(** * Handlers of the virus executor service

    Typed handlers (service/rpc_handler_registrar.h,
    ves/ves_handler_registration.h), the scan engine
    (service/ves_engine_service.cpp) and the test kit's service
    (testkit/testkit_service.cpp).  A handler acts on the state of the
    services; what it does is an [outcome]. *)

From Stdlib Require Import Lia String.
From S2P Require Import Prelude Types ByteCodec ServerState VesMessages VesRules.

(** ** Registration *)

Section Registrar.
Context {U : Type}.

(** [MemRpc::RpcHandler], on services with state [U]. *)
Definition handler : Type := RpcServerCall -> RpcReply -> U -> outcome U RpcReply.

(** The interface [RpcHandlerSink]; an empty function removes the handler. *)
Class RpcHandlerSink (S : Type) : Type := sink_RegisterHandler : Z -> option handler -> S -> S.

(** [AnyCallHandlerSinkImpl]: a map from opcodes to handlers. *)
#[export] Instance AnyCallHandlerSinkImpl : RpcHandlerSink (gmap Z handler) := fun opcode handler handlers =>
  match handler with
  | None => delete (u16 opcode) handlers
  | Some h => <[u16 opcode := h]> handlers
  end.

Definition MakeTypedHandlerWithDecoder {Request Reply} `{CodecTraits Reply}
    (decode : RpcServerCall -> outptr -> read_result Request) (h : Request -> U -> outcome U Reply) : handler :=
  fun call reply u =>
    match decode call Ptr with
    | ReadOutOfBounds => Misbehaves
    | ReadFail _ => Finishes 0 {| rp_status := ProtocolMismatch; rp_payload := rp_payload reply |} u
    | ReadOk request _ =>
        match h request u with
        | Finishes delayMs result u =>
            match EncodeMessage result Ptr with
            | Defined (true, payload) => Finishes delayMs {| rp_status := rp_status reply; rp_payload := payload |} u
            | Defined (false, _) => Finishes delayMs {| rp_status := EngineInternalError; rp_payload := [] |} u
            | Undefined => Misbehaves
            end
        | Aborts => Aborts
        | Hangs => Hangs
        | Misbehaves => Misbehaves
        end
    end.

(** [MakeTypedHandler] and [MakeVesTypedHandler]. *)
Definition MakeTypedHandler {Request Reply} `{CodecTraits Request} `{CodecTraits Reply}
    (h : Request -> U -> outcome U Reply) : handler :=
  MakeTypedHandlerWithDecoder (fun call => DecodeMessage (sc_payload call)) h.

(** [RegisterTypedHandler] and [RegisterVesTypedHandler]. *)
Definition RegisterTypedHandler {S} `{RpcHandlerSink S} {Request Reply} `{CodecTraits Request} `{CodecTraits Reply}
    (opcode : Z) (h : Request -> U -> outcome U Reply) (sink : S) : S :=
  sink_RegisterHandler opcode (Some (MakeTypedHandler h)) sink.

(** A call with the encoding of a request runs [h] on the request and answers
    with the encoding of its result; any other payload is answered with
    [ProtocolMismatch] and [h] is not run. *)
Lemma typed_handler_spec {Request Reply} `{CodecLaws Request} `{CodecLaws Reply}
    (h : Request -> U -> outcome U Reply) call u :
  Zlen (sc_payload call) < 2 ^ 63 ->
  match DecodeMessage (sc_payload call) Ptr with
  | ReadOk request _ =>
      match h request u with
      | Finishes delayMs result u' =>
          exists b, EncodeMessage result Ptr = Defined (true, b) /\
            MakeTypedHandler h call RpcReply_default u = Finishes delayMs {| rp_status := Ok; rp_payload := b |} u'
      | Aborts => MakeTypedHandler h call RpcReply_default u = Aborts
      | Hangs => MakeTypedHandler h call RpcReply_default u = Hangs
      | Misbehaves => MakeTypedHandler h call RpcReply_default u = Misbehaves
      end
  | _ => MakeTypedHandler h call RpcReply_default u = Finishes 0 (reply_of_status ProtocolMismatch) u
  end.
Proof.
  intros Hl. unfold MakeTypedHandler, MakeTypedHandlerWithDecoder.
  destruct (DecodeMessage (sc_payload call) Ptr) as [request r|r|] eqn:E; [|done|].
  - destruct (h request u) as [d result u'| | |]; [|done..]. destruct (encode_total result) as [b Hb].
    exists b. unfold EncodeMessage. by rewrite Hb.
  - exfalso. pose proof (Zlen_nonneg (sc_payload call)). by apply (decode_in_bounds (sc_payload call) (Zlen (sc_payload call)) Ptr) in E.
Qed.

End Registrar.
Arguments handler : clear implicits.

(** ** The scan engine *)

Record VesEngineService : Type := {
  es_initialized : bool;
  es_configuredEngineKinds : list Z;
  es_enginesConfigured : bool;
}.

#[export] Instance VesEngineService_eta : Eta VesEngineService := fun r =>
  Build_VesEngineService (es_initialized r) (es_configuredEngineKinds r) (es_enginesConfigured r).

Definition VesEngineService_default : VesEngineService :=
  {| es_initialized := false; es_configuredEngineKinds := []; es_enginesConfigured := false |}.

Definition Initialize (e : VesEngineService) : VesEngineService := e <| es_initialized := true |>.

Definition ResolveEngineKinds (request : VesOpenSessionRequest) : list Z :=
  let engineKinds := NormalizeVesEngineKinds (os_engineKinds request) in
  if bool_decide (engineKinds = []) then [VesEngineKind_Scan] else engineKinds.

Definition ConfigureEngines (request : VesOpenSessionRequest) (e : VesEngineService) : StatusCode * VesEngineService :=
  if negb (IsValidVesOpenSessionRequest request) then (InvalidArgument, e) else
  let resolvedEngineKinds := ResolveEngineKinds request in
  if negb (es_enginesConfigured e)
  then (Ok, e <| es_configuredEngineKinds := resolvedEngineKinds |> <| es_enginesConfigured := true |>)
  else if bool_decide (es_configuredEngineKinds e <> resolvedEngineKinds) then (InvalidArgument, e) else (Ok, e).

Definition ResetEngines (e : VesEngineService) : VesEngineService :=
  e <| es_configuredEngineKinds := [] |> <| es_enginesConfigured := false |>.

Definition IsScanEngineEnabled (e : VesEngineService) : bool :=
  negb (es_enginesConfigured e) || bool_decide (VesEngineKind_Scan ∈ es_configuredEngineKinds e).

(** The result of a scan, the time it takes, or the end of the process. *)
Definition ScanFile {U} (e : VesEngineService) (request : ScanTask) (u : U) : outcome U ScanFileReply :=
  if negb (es_initialized e) || negb (IsScanEngineEnabled e)
  then Finishes 0 {| sr_code := -1; sr_threatLevel := 0 |} u
  else
    let behavior := EvaluateSamplePath (st_path request) in
    if sb_shouldCrash behavior then Aborts
    else Finishes (sb_sleepMs behavior) {| sr_code := 0; sr_threatLevel := sb_threatLevel behavior |} u.

(** ** The test kit's service *)

Definition Echo (request : EchoRequest) : EchoReply := {| er_text := eq_text request |}.

Definition Add (request : AddRequest) : AddReply := {| ar_sum := i32 (u32 (u32 (aq_lhs request) + u32 (aq_rhs request))) |}.

Definition Sleep {U} (request : SleepRequest) (u : U) : outcome U SleepReply :=
  Finishes (sq_delayMs request) {| sp_status := 0 |} u.

(** The services of the engine process. *)
Record Services : Type := {
  svc_engine : VesEngineService;
  svc_enableFaultInjection : bool;                            (* TestkitServiceOptions *)
}.

#[export] Instance Services_eta : Eta Services := fun r => Build_Services (svc_engine r) (svc_enableFaultInjection r).

Section Services.
Context {S : Type} {sink_ops : RpcHandlerSink (U := Services) S}.

Definition VesEngineService_RegisterHandlers (sink : S) : S :=
  RegisterTypedHandler VesOpcode_ScanFile (fun (request : ScanTask) u => ScanFile (svc_engine u) request u) sink.

Definition RegisterCoreHandlers (sink : S) : S :=
  let sink := RegisterTypedHandler TestkitOpcode_Echo (fun (r : EchoRequest) (u : Services) => Finishes 0 (Echo r) u) sink in
  let sink := RegisterTypedHandler TestkitOpcode_Add (fun (r : AddRequest) (u : Services) => Finishes 0 (Add r) u) sink in
  RegisterTypedHandler TestkitOpcode_Sleep (fun (r : SleepRequest) (u : Services) => Sleep r u) sink.

(** Allocating without end and recursing without end both end the process. *)
Definition RegisterFaultInjectionHandlers (sink : S) : S :=
  let sink := sink_RegisterHandler TestkitOpcode_CrashForTest (Some (fun _ _ _ => Aborts)) sink in
  let sink := sink_RegisterHandler TestkitOpcode_HangForTest (Some (fun _ _ _ => Hangs)) sink in
  let sink := sink_RegisterHandler TestkitOpcode_OomForTest (Some (fun _ _ _ => Aborts)) sink in
  sink_RegisterHandler TestkitOpcode_StackOverflowForTest (Some (fun _ _ _ => Aborts)) sink.

Definition RegisterAllHandlers (enableFaultInjection : bool) (sink : S) : S :=
  let sink := RegisterCoreHandlers sink in
  if enableFaultInjection then RegisterFaultInjectionHandlers sink else sink.

Definition TestkitService_RegisterHandlers (services : Services) (sink : S) : S :=
  RegisterAllHandlers (svc_enableFaultInjection services) sink.

End Services.

(** ** Engine lists *)

(** The kinds a request names; none means the scan engine. *)
Definition requested_kinds (request : VesOpenSessionRequest) : list Z :=
  if bool_decide (os_engineKinds request = []) then [VesEngineKind_Scan] else os_engineKinds request.

Lemma ResolveEngineKinds_eq request : ResolveEngineKinds request = NormalizeVesEngineKinds (requested_kinds request).
Proof.
  unfold ResolveEngineKinds, requested_kinds. destruct (os_engineKinds request) as [|k ks]; [done|].
  rewrite (bool_decide_eq_false_2 (k :: ks = [])) by done. rewrite bool_decide_eq_false_2; [done|]. intros He.
  assert (k ∈ NormalizeVesEngineKinds (k :: ks)) as Hk by (apply elem_of_normalize; by left). rewrite He in Hk. by apply elem_of_nil in Hk.
Qed.

(** The first session fixes the engines.  Afterwards a request is
    accepted exactly when it is well-formed and names the same set of kinds,
    in whatever order and however often (no kind at all stands for the scan
    engine), and no request changes the engines before they are reset; a
    malformed request is refused in every state and changes nothing. *)
Theorem engines_fixed_by_first_session e first e1 second :
  es_enginesConfigured e = false -> ConfigureEngines first e = (Ok, e1) ->
  es_enginesConfigured e1 = true /\ snd (ConfigureEngines second e1) = e1 /\
  (fst (ConfigureEngines second e1) = Ok <->
   IsValidVesOpenSessionRequest second = true /\
   forall k, k ∈ requested_kinds second <-> k ∈ requested_kinds first) /\
  (IsValidVesOpenSessionRequest second = false ->
   ConfigureEngines second e1 = (InvalidArgument, e1) /\ ConfigureEngines second e = (InvalidArgument, e)).
Proof.
  intros He H1. unfold ConfigureEngines in *. destruct (IsValidVesOpenSessionRequest first); [|done].
  rewrite He in H1. injection H1 as <-. cbn. rewrite !ResolveEngineKinds_eq.
  destruct (IsValidVesOpenSessionRequest second); cbn; [|by intuition].
  case_bool_decide as Hd; cbn; split_and!; try done.
  - split; [done|]. intros [_ Hk]. destruct Hd. by apply normalize_eq.
  - symmetry in Hd. by rewrite normalize_eq in Hd.
Qed.

(** Two engine lists that differ in order and repetitions. *)
Lemma engines_fixed_by_first_session_witness :
  let first := {| os_version := 1; os_engineKinds := [7; 1; 7] |} in
  let e1 := snd (ConfigureEngines first VesEngineService_default) in
  fst (ConfigureEngines {| os_version := 1; os_engineKinds := [1; 1; 7] |} e1) = Ok /\
  ConfigureEngines {| os_version := 1; os_engineKinds := [0] |} e1 = (InvalidArgument, e1).
Proof.
  intros first e1.
  pose proof (engines_fixed_by_first_session VesEngineService_default first e1 {| os_version := 1; os_engineKinds := [1; 1; 7] |} eq_refl eq_refl) as (_ & _ & H1 & _).
  pose proof (engines_fixed_by_first_session VesEngineService_default first e1 {| os_version := 1; os_engineKinds := [0] |} eq_refl eq_refl) as (_ & _ & _ & H2).
  split; [apply H1; split; [reflexivity|]|by apply H2]. intros k. unfold requested_kinds. cbn. set_solver.
Defined.

(** ** What the handlers do *)

(** The handlers of the engine process, as [EnsureInitialized] registers them. *)
Definition service_handlers (services : Services) : gmap Z (handler Services) :=
  TestkitService_RegisterHandlers services (VesEngineService_RegisterHandlers ∅).

(** A typed handler whose function returns or ends the process does the same,
    whatever the payload. *)
Lemma typed_handler_outcome {U Request Reply} `{CodecLaws Request} `{CodecLaws Reply}
    (h : Request -> U -> outcome U Reply) call u (P : outcome U RpcReply -> Prop) :
  Zlen (sc_payload call) < 2 ^ 63 ->
  (forall d reply, P (Finishes d reply u)) ->
  (forall request r, DecodeMessage (sc_payload call) Ptr = ReadOk request r ->
     match h request u with Finishes _ _ u' => u' = u | Aborts => P Aborts | Hangs => P Hangs | Misbehaves => P Misbehaves end) ->
  P (MakeTypedHandler h call RpcReply_default u).
Proof.
  intros Hl HF Hh. pose proof (typed_handler_spec h call u Hl) as Hs.
  destruct (DecodeMessage (sc_payload call) Ptr) as [request r|r|] eqn:E; [|by rewrite Hs..].
  specialize (Hh request r eq_refl). destruct (h request u) as [d result u'| | |]; [|by rewrite Hs..].
  subst u'. by destruct Hs as (b & _ & ->).
Qed.

(** No peer can make the engine hang or misbehave through its handlers:
    with fault injection off, every registered handler returns a reply on any
    payload, except that the scan of a path containing the word "crash" ends
    the process. *)
Theorem service_handlers_return services opcode h call u :
  svc_enableFaultInjection services = false -> service_handlers services !! opcode = Some h ->
  Zlen (sc_payload call) < 2 ^ 63 ->
  (exists d reply, h call RpcReply_default u = Finishes d reply u) \/
  (h call RpcReply_default u = Aborts /\ opcode = VesOpcode_ScanFile /\
   exists path r, DecodeMessage (sc_payload call) Ptr = ReadOk {| st_path := path |} r /\ contains "crash" path = true).
Proof.
  intros Hoff Hh Hl. unfold service_handlers, TestkitService_RegisterHandlers, RegisterAllHandlers in Hh. rewrite Hoff in Hh.
  set (P := fun o : outcome Services RpcReply => (exists d reply, o = Finishes d reply u) \/
    (o = Aborts /\ opcode = VesOpcode_ScanFile /\
     exists path r, DecodeMessage (sc_payload call) Ptr = ReadOk {| st_path := path |} r /\ contains "crash" path = true)).
  assert (HF : forall d reply, P (Finishes d reply u)) by (intros d reply; left; eauto). change (P (h call RpcReply_default u)).
  unfold RegisterCoreHandlers, VesEngineService_RegisterHandlers, RegisterTypedHandler, sink_RegisterHandler, AnyCallHandlerSinkImpl in Hh.
  repeat rewrite lookup_insert_Some in Hh. destruct Hh as [[<- <-]|[_ [[<- <-]|[_ [[<- <-]|[_ [[<- <-]|[_ Hh]]]]]]]].
  5:{ by rewrite lookup_empty in Hh. }
  all: apply typed_handler_outcome; [done|done|]; intros request r Hr; cbn; try done.
  unfold ScanFile. destruct (_ || _); [done|]. destruct (sb_shouldCrash _) eqn:E; [|done].
  right. split; [done|]. split; [done|]. destruct request as [path]. by exists path, r.
Qed.

(** A scan that reports a threat, and one that ends the process. *)
Definition scan_call (path : string) : RpcServerCall :=
  {| sc_opcode := VesOpcode_ScanFile; sc_priority := Normal; sc_execTimeoutMs := 0;
     sc_payload := string_wire path |}.

Definition demo_services : Services :=
  {| svc_engine := Initialize VesEngineService_default; svc_enableFaultInjection := false |}.

Lemma service_handlers_return_witness :
  let h := MakeTypedHandler (fun (request : ScanTask) u => ScanFile (svc_engine u) request u) in
  (exists d reply, h (scan_call "/data/virus.bin") RpcReply_default demo_services = Finishes d reply demo_services) /\
  h (scan_call "crash") RpcReply_default demo_services = Aborts.
Proof.
  intros h. split.
  - destruct (service_handlers_return demo_services VesOpcode_ScanFile h (scan_call "/data/virus.bin") demo_services)
      as [H|(H & _)]; [reflexivity|reflexivity|vm_compute; reflexivity|exact H|].
    vm_compute in H. discriminate H.
  - destruct (service_handlers_return demo_services VesOpcode_ScanFile h (scan_call "crash") demo_services)
      as [(d & reply & H)|(H & _)]; [reflexivity|reflexivity|vm_compute; reflexivity| |exact H].
    vm_compute in H. discriminate H.
Defined.
