(* ===== verification/Registry.v ===== *)
(** * The service registry

    transport/registry_protocol.cpp, registry_server.cpp, registry_client.cpp
    and registry_backend.cpp of virus_executor_service: the messages of the
    registry, what the server does with a request, and the client's side of an
    exchange.  The server is a table and the kernel; [Supervisor] has the
    thread that accepts connections, one after the other. *)

From Stdlib Require Import Lia String.
From S2P Require Import Prelude Types Sockets.

(** ** registry_protocol.h *)

Inductive RegistryOp : Type :=
| RegistryRegister
| RegistryGet
| RegistryLoad
| RegistryUnload
| RegistryUnnamed (raw : Z).

Definition RegistryOp_to_u8 (op : RegistryOp) : Z :=
  match op with
  | RegistryRegister => 1 | RegistryGet => 2 | RegistryLoad => 3 | RegistryUnload => 4 | RegistryUnnamed raw => raw
  end.

Definition RegistryOp_of_u8 (v : Z) : RegistryOp :=
  if v =? 1 then RegistryRegister else if v =? 2 then RegistryGet else if v =? 3 then RegistryLoad
  else if v =? 4 then RegistryUnload else RegistryUnnamed v.

Record RegistryRequest : Type := {
  rr_op : RegistryOp;
  rr_sa_id : Z;
  rr_payload : string;
}.

Record RegistryResponse : Type := {
  rn_err_code : Z;
  rn_payload : string;
}.

Definition RegistryResponse_default : RegistryResponse := {| rn_err_code := 0; rn_payload := "" |}.

(** Wire: [Op:1][SaId:4][PayloadLen:2][Payload:N]. *)
Definition EncodeRegistryRequest (req : RegistryRequest) (out : outptr) : bool * bytes :=
  let payload := to_bytes (rr_payload req) in
  match out with
  | Null => (false, [])
  | Ptr =>
      if 0xFFFF <? Zlen payload then (false, []) else
      (true, le_bytes 1 (RegistryOp_to_u8 (rr_op req)) ++ le_bytes 4 (rr_sa_id req) ++
             le_bytes 2 (u16 (Zlen payload)) ++ payload)
  end.

Definition DecodeRegistryRequest (data : option bytes) (len : Z) (req : outptr) : defined (option RegistryRequest) :=
  match data, req with
  | Some mem, Ptr =>
      if len <? 7 then Defined None else
      if Zlen mem <? 7 then Undefined else
      let plen := le_value (Zslice 5 2 mem) in
      if len <? 7 + plen then Defined None else
      if Zlen mem <? 7 + plen then Undefined else
      Defined (Some {| rr_op := RegistryOp_of_u8 (le_value (Zslice 0 1 mem));
                       rr_sa_id := i32 (le_value (Zslice 1 4 mem));
                       rr_payload := of_bytes (Zslice 7 plen mem) |})
  | _, _ => Defined None
  end.

(** Wire: [ErrCode:4][PayloadLen:2][Payload:N]. *)
Definition EncodeRegistryResponse (resp : RegistryResponse) (out : outptr) : bool * bytes :=
  let payload := to_bytes (rn_payload resp) in
  match out with
  | Null => (false, [])
  | Ptr =>
      if 0xFFFF <? Zlen payload then (false, []) else
      (true, le_bytes 4 (rn_err_code resp) ++ le_bytes 2 (u16 (Zlen payload)) ++ payload)
  end.

Definition DecodeRegistryResponse (data : option bytes) (len : Z) (resp : outptr) : defined (option RegistryResponse) :=
  match data, resp with
  | Some mem, Ptr =>
      if len <? 6 then Defined None else
      if Zlen mem <? 6 then Undefined else
      let plen := le_value (Zslice 4 2 mem) in
      if len <? 6 + plen then Defined None else
      if Zlen mem <? 6 + plen then Undefined else
      Defined (Some {| rn_err_code := i32 (le_value (Zslice 0 4 mem)); rn_payload := of_bytes (Zslice 6 plen mem) |})
  | _, _ => Defined None
  end.

(** ** The server *)

Section Server.
Context {K : Type} {SK : Sockets K}.

Record RegistryServer : Type := {
  rv_services : gmap Z string;
  rv_kernel : K;
}.

#[export] Instance RegistryServer_eta : Eta RegistryServer := fun r => Build_RegistryServer (rv_services r) (rv_kernel r).

(** The callbacks set by [SetLoadCallback] and [SetUnloadCallback]; the first
    starts a service, which registers itself. *)
Variable load_cb : option (Z -> RegistryServer -> bool * RegistryServer).
Variable unload_cb : option (Z -> RegistryServer -> RegistryServer).

Definition IsReachableServiceSocket (socketPath : string) (k : K) : bool * K :=
  if bool_decide (socketPath = "") then (false, k) else
  let '(fd, k) := sk_socket k in
  if fd <? 0 then (false, k) else
  let '(rc, k) := sk_connect fd (sun_path socketPath) k in
  (rc =? 0, sk_close fd k).

Definition RegisterService (sa_id : Z) (path : string) (s : RegistryServer) : RegistryServer :=
  s <| rv_services := <[sa_id := path]> (rv_services s) |>.

Definition UnregisterService (sa_id : Z) (s : RegistryServer) : RegistryServer :=
  s <| rv_services := delete sa_id (rv_services s) |>.

Definition TryGetServicePath (sa_id : Z) (s : RegistryServer) : option string := rv_services s !! sa_id.

Definition RemoveStaleService (sa_id : Z) (path : string) (s : RegistryServer) : bool * RegistryServer :=
  match rv_services s !! sa_id with
  | None => (false, s)
  | Some found => if bool_decide (found <> path) then (false, s) else (true, UnregisterService sa_id s)
  end.

Definition TryLoadService (sa_id : Z) (s : RegistryServer) : bool * RegistryServer :=
  match load_cb with None => (false, s) | Some cb => cb sa_id s end.

Definition PopulateServiceResponse (sa_id : Z) (resp : RegistryResponse) (s : RegistryServer) : bool * RegistryResponse :=
  match TryGetServicePath sa_id s with
  | None => (false, resp)
  | Some path => (true, {| rn_err_code := 0; rn_payload := path |})
  end.

Definition HandleLoadRequest (req : RegistryRequest) (s : RegistryServer) : RegistryResponse * RegistryServer :=
  let sa_id := rr_sa_id req in
  let '(found, s) :=
    match TryGetServicePath sa_id s with
    | None => (false, s)
    | Some path =>
        let '(reachable, k) := IsReachableServiceSocket path (rv_kernel s) in
        let s := s <| rv_kernel := k |> in
        if reachable then (true, s) else (false, snd (RemoveStaleService sa_id path s))
    end in
  let '(found, s) := if found : bool then (true, s) else TryLoadService sa_id s in
  if negb found then ({| rn_err_code := -1; rn_payload := "" |}, s) else
  let '(populated, resp) := PopulateServiceResponse sa_id RegistryResponse_default s in
  (if populated then resp else {| rn_err_code := -1; rn_payload := rn_payload resp |}, s).

(** An operation the switch does not name falls through. *)
Definition ProcessRequest (req : RegistryRequest) (s : RegistryServer) : RegistryResponse * RegistryServer :=
  match rr_op req with
  | RegistryRegister => (RegistryResponse_default, RegisterService (rr_sa_id req) (rr_payload req) s)
  | RegistryGet =>
      let '(populated, resp) := PopulateServiceResponse (rr_sa_id req) RegistryResponse_default s in
      ({| rn_err_code := if populated then 0 else -1; rn_payload := rn_payload resp |}, s)
  | RegistryLoad => HandleLoadRequest req s
  | RegistryUnload =>
      let s := UnregisterService (rr_sa_id req) s in
      (RegistryResponse_default, match unload_cb with None => s | Some cb => cb (rr_sa_id req) s end)
  | RegistryUnnamed _ => (RegistryResponse_default, s)
  end.

Definition DecodeClientRequest (fuel : nat) (client_fd : Z) (s : RegistryServer)
    : run (option RegistryRequest * RegistryServer) :=
  let! (ok, msg, k) := RecvMessage fuel client_fd Ptr (rv_kernel s) in
  let s := s <| rv_kernel := k |> in
  if negb ok then Returns (None, s) else
  let! req := run_of_defined (DecodeRegistryRequest (Some msg) (Zlen msg) Ptr) in
  Returns (req, s).

Definition SendClientResponse (fuel : nat) (client_fd : Z) (resp : RegistryResponse) (s : RegistryServer)
    : run RegistryServer :=
  let '(encoded, resp_msg) := EncodeRegistryResponse resp Ptr in
  if negb encoded then Returns s else
  let! (_, k) := SendMessage fuel client_fd resp_msg (rv_kernel s) in
  Returns (s <| rv_kernel := k |>).

Definition HandleClient (fuel : nat) (client_fd : Z) (s : RegistryServer) : run RegistryServer :=
  let! (req, s) := DecodeClientRequest fuel client_fd s in
  match req with
  | None => Returns s
  | Some req => let '(resp, s) := ProcessRequest req s in SendClientResponse fuel client_fd resp s
  end.

End Server.
Arguments RegistryServer : clear implicits.

(** ** The client *)

Section Client.
Context {K : Type} {SK : Sockets K}.

Definition REGISTRY_REQUEST_FAILED : string := String (Ascii.ascii_of_nat 1) EmptyString.

Definition SendRegistryRequestMessage (fuel : nat) (fd : Z) (op : RegistryOp) (saId : Z) (payload : string) (k : K)
    : run (bool * K) :=
  let '(encoded, msg) := EncodeRegistryRequest {| rr_op := op; rr_sa_id := saId; rr_payload := payload |} Ptr in
  if encoded then SendMessage fuel fd msg k else Returns (false, k).

Definition DecodeRegistryResponsePayload (respMsg : bytes) : defined (option string) :=
  match DecodeRegistryResponse (Some respMsg) (Zlen respMsg) Ptr with
  | Undefined => Undefined
  | Defined None => Defined None
  | Defined (Some resp) => Defined (if rn_err_code resp =? 0 then Some (rn_payload resp) else None)
  end.

Definition SendRequest (fuel : nat) (registrySocketPath : string) (op : RegistryOp) (sa_id : Z) (payload : string) (k : K)
    : run (string * K) :=
  let '(fd, k) := ConnectToService registrySocketPath k in
  if fd <? 0 then Returns (REGISTRY_REQUEST_FAILED, k) else
  let! (sent, k) := SendRegistryRequestMessage fuel fd op sa_id payload k in
  if negb sent then Returns (REGISTRY_REQUEST_FAILED, sk_close fd k) else
  let! (received, resp_msg, k) := RecvMessage fuel fd Ptr k in
  let k := sk_close fd k in
  if negb received then Returns (REGISTRY_REQUEST_FAILED, k) else
  let! responsePayload := run_of_defined (DecodeRegistryResponsePayload resp_msg) in
  Returns (match responsePayload with None => REGISTRY_REQUEST_FAILED | Some p => p end, k).

Definition GetServicePath (fuel : nat) (path : string) (sa_id : Z) (k : K) : run (string * K) :=
  let! (r, k) := SendRequest fuel path RegistryGet sa_id "" k in
  Returns (if bool_decide (r = REGISTRY_REQUEST_FAILED) then "" else r, k).

Definition LoadServicePath (fuel : nat) (path : string) (sa_id : Z) (k : K) : run (string * K) :=
  let! (r, k) := SendRequest fuel path RegistryLoad sa_id "" k in
  Returns (if bool_decide (r = REGISTRY_REQUEST_FAILED) then "" else r, k).

Definition UnloadService (fuel : nat) (path : string) (sa_id : Z) (k : K) : run (bool * K) :=
  let! (r, k) := SendRequest fuel path RegistryUnload sa_id "" k in
  Returns (bool_decide (r <> REGISTRY_REQUEST_FAILED), k).

(** [RegistryClient::RegisterService]. *)
Definition RegistryClient_RegisterService (fuel : nat) (path : string) (sa_id : Z) (servicePath : string) (k : K)
    : run (bool * K) :=
  let! (r, k) := SendRequest fuel path RegistryRegister sa_id servicePath k in
  Returns (bool_decide (r <> REGISTRY_REQUEST_FAILED), k).

End Client.

(** ** Messages *)

Definition named_op (op : RegistryOp) : Prop :=
  match op with RegistryUnnamed raw => 4 < raw < 256 | _ => True end.

Definition request_valid (req : RegistryRequest) : Prop := named_op (rr_op req) /\ is_i32 (rr_sa_id req).

Lemma RegistryOp_of_to_u8 op : named_op op -> RegistryOp_of_u8 (u8 (RegistryOp_to_u8 op)) = op.
Proof.
  destruct op as [| | | |raw]; intros Hop; [reflexivity..|]. cbn in *. unfold u8. rewrite Z.mod_small by lia.
  unfold RegistryOp_of_u8. rewrite !(proj2 (Z.eqb_neq _ _)) by lia. done.
Qed.

(** The fields of a message, one after the other. *)
Lemma registry_request_fields op id payload rest :
  let b := le_bytes 1 op ++ le_bytes 4 id ++ le_bytes 2 (Zlen payload) ++ payload ++ rest in
  Zslice 0 1 b = le_bytes 1 op /\ Zslice 1 4 b = le_bytes 4 id /\ Zslice 5 2 b = le_bytes 2 (Zlen payload) /\
  Zslice 7 (Zlen payload) b = payload.
Proof.
  intros b. unfold b. split_and!.
  - apply (Zslice_app_mid 0 1 []); by rewrite ?Zlen_le_bytes.
  - apply (Zslice_app_mid 1 4 (le_bytes 1 op)); by rewrite ?Zlen_le_bytes.
  - rewrite (app_assoc (le_bytes 1 op)). apply Zslice_app_mid; by autorewrite with memrpc.
  - rewrite (app_assoc (le_bytes 1 op)), (app_assoc (_ ++ _)). apply Zslice_app_mid; by autorewrite with memrpc.
Qed.

Lemma registry_response_fields err payload rest :
  let b := le_bytes 4 err ++ le_bytes 2 (Zlen payload) ++ payload ++ rest in
  Zslice 0 4 b = le_bytes 4 err /\ Zslice 4 2 b = le_bytes 2 (Zlen payload) /\ Zslice 6 (Zlen payload) b = payload.
Proof.
  intros b. unfold b. split_and!.
  - apply (Zslice_app_mid 0 4 []); by rewrite ?Zlen_le_bytes.
  - apply Zslice_app_mid; by rewrite ?Zlen_le_bytes.
  - rewrite (app_assoc (le_bytes 4 err)). apply Zslice_app_mid; by autorewrite with memrpc.
Qed.

Lemma registry_request_roundtrip req msg :
  request_valid req -> EncodeRegistryRequest req Ptr = (true, msg) ->
  DecodeRegistryRequest (Some msg) (Zlen msg) Ptr = Defined (Some req).
Proof.
  intros [Hop Hid]. unfold EncodeRegistryRequest. set (payload := to_bytes (rr_payload req)).
  destruct (Z.ltb_spec 0xFFFF (Zlen payload)) as [|Hl]; [done|]. intros [= <-]. pose proof (Zlen_nonneg payload).
  assert (u16 (Zlen payload) = Zlen payload) as -> by (unfold u16; apply Z.mod_small; lia).
  pose proof (registry_request_fields (RegistryOp_to_u8 (rr_op req)) (rr_sa_id req) payload []) as Hf.
  rewrite app_nil_r in Hf. destruct Hf as (H0 & H1 & H5 & H7). unfold DecodeRegistryRequest.
  set (b := le_bytes 1 _ ++ _) in *. assert (Hb : Zlen b = 7 + Zlen payload) by (unfold b; autorewrite with memrpc; lia).
  rewrite Hb, H0, H1, H5. rewrite le_value_bytes2, le_value_bytes1, le_value_bytes4.
  assert (u16 (Zlen payload) = Zlen payload) as -> by (unfold u16; apply Z.mod_small; lia).
  rewrite H7, RegistryOp_of_to_u8, i32_u32 by done.
  assert (of_bytes payload = rr_payload req) as -> by apply of_to_bytes.
  rewrite (proj2 (Z.ltb_ge _ 7)), Z.ltb_irrefl by lia. by destruct req.
Qed.

Lemma registry_response_roundtrip resp msg :
  is_i32 (rn_err_code resp) -> EncodeRegistryResponse resp Ptr = (true, msg) ->
  DecodeRegistryResponse (Some msg) (Zlen msg) Ptr = Defined (Some resp).
Proof.
  intros He. unfold EncodeRegistryResponse. set (payload := to_bytes (rn_payload resp)).
  destruct (Z.ltb_spec 0xFFFF (Zlen payload)) as [|Hl]; [done|]. intros [= <-]. pose proof (Zlen_nonneg payload).
  assert (Hu : u16 (Zlen payload) = Zlen payload) by (unfold u16; apply Z.mod_small; lia). rewrite Hu.
  pose proof (registry_response_fields (rn_err_code resp) payload []) as Hf.
  rewrite app_nil_r in Hf. destruct Hf as (H0 & H4 & H6). unfold DecodeRegistryResponse.
  set (b := le_bytes 4 _ ++ _) in *. assert (Hb : Zlen b = 6 + Zlen payload) by (unfold b; autorewrite with memrpc; lia).
  rewrite Hb, H0, H4, le_value_bytes2, le_value_bytes4, Hu, H6, i32_u32 by done.
  assert (of_bytes payload = rn_payload resp) as -> by apply of_to_bytes. rewrite (proj2 (Z.ltb_ge _ 6)), Z.ltb_irrefl by lia. by destruct resp.
Qed.

(** Whatever a peer sends, the decoders read no byte outside the message. *)
Lemma DecodeRegistryRequest_safe msg : DecodeRegistryRequest (Some msg) (Zlen msg) Ptr <> Undefined.
Proof. unfold DecodeRegistryRequest. repeat case_branch; try done; bool_to_prop; lia. Qed.

Lemma DecodeRegistryResponse_safe msg : DecodeRegistryResponse (Some msg) (Zlen msg) Ptr <> Undefined.
Proof. unfold DecodeRegistryResponse. repeat case_branch; try done; bool_to_prop; lia. Qed.

Lemma EncodeRegistryResponse_length resp msg : EncodeRegistryResponse resp Ptr = (true, msg) -> Zlen msg <= 65541.
Proof.
  unfold EncodeRegistryResponse. destruct (Z.ltb_spec 0xFFFF (Zlen (to_bytes (rn_payload resp)))); [done|].
  intros [= <-]. rewrite !Zlen_app, !Zlen_le_bytes. lia.
Qed.

(** ** An exchange *)

Section Exchange.
Context {K : Type} {SK : Sockets K} {SL : SocketLaws K}.
Variable load_cb : option (Z -> RegistryServer K -> bool * RegistryServer K).
Variable unload_cb : option (Z -> RegistryServer K -> RegistryServer K).


(** The two sides of the registry protocol disagree about the size of a
    message.  A payload of 65530 to 65535 bytes is accepted by the encoder and
    sent, but the receiver refuses any message of more than 65536 bytes, and
    the header takes seven. *)
Theorem registry_long_payload_refused fuel fd req (k : K) rest :
  65530 <= Zlen (to_bytes (rr_payload req)) <= 65535 ->
  exists msg, EncodeRegistryRequest req Ptr = (true, msg) /\
    (sk_pending k fd = frame msg ++ rest -> exists k', RecvMessage fuel fd Ptr k = Returns (false, [], k')).
Proof.
  intros Hl. unfold EncodeRegistryRequest. rewrite (proj2 (Z.ltb_ge 0xFFFF _)) by lia. eexists. split; [done|].
  intros Hp. apply (RecvMessage_too_long _ _ _ _ _ Hp). unfold MAX_MESSAGE_BYTES. rewrite !Zlen_app, !Zlen_le_bytes. lia.
Qed.

End Exchange.

(** ** Concrete exchanges *)

(** A service is registered, over a connection that moves three bytes at a time. *)
Definition demo_request : RegistryRequest :=
  {| rr_op := RegistryRegister; rr_sa_id := 1251; rr_payload := "/run/ves.sock" |}.

Definition demo_message : bytes := snd (EncodeRegistryRequest demo_request Ptr).

Definition demo_registry : RegistryServer MemSockets.t :=
  {| rv_services := ∅;
     rv_kernel := {| MemSockets.sent := ∅; MemSockets.pending := {[5 := frame demo_message]}; MemSockets.next_fd := 6 |} |}.


Definition long_request : RegistryRequest :=
  {| rr_op := RegistryRegister; rr_sa_id := 1; rr_payload := of_bytes (repeat Byte.x41 (Z.to_nat 65532)) |}.

Lemma registry_long_payload_refused_witness :
  let k := {| MemSockets.sent := ∅; MemSockets.pending := {[5 := frame (snd (EncodeRegistryRequest long_request Ptr))]};
              MemSockets.next_fd := 6 |} in
  fst (EncodeRegistryRequest long_request Ptr) = true /\ exists k', RecvMessage (Z.to_nat 70000) 5 Ptr k = Returns (false, [], k').
Proof.
  intros k. destruct (registry_long_payload_refused (Z.to_nat 70000) 5 long_request k []) as (msg & H & HR).
  - cbn [rr_payload long_request]. rewrite to_of_bytes. unfold Zlen. rewrite repeat_length. lia.
  - split; [by rewrite H|]. apply HR. unfold k. rewrite H. cbn. by rewrite app_nil_r.
Defined.
