(* ===== verification/VesTyping.v ===== *)
(** * Types of the messages on the wire

    Decoders return only values in the domain of their codec: integers in the
    range of their C++ type, strings a length field can describe, no more
    engine kinds than allowed.  With that, each handler of the service is
    typed: it turns a payload of its request type into one of its reply type. *)

From Stdlib Require Import Lia String.
From S2P Require Import Prelude Types ByteCodec ServerState VesMessages VesRules VesHandlers.

(** What a codec promises to those who decode with it. *)
Class CodecTyped (T : Type) `{CodecTraits T} : Prop :=
  decode_valid : forall mem size v r, Decode mem size Ptr = ReadOk v r -> codec_valid v.

(** ** Readers *)

(** Every value [m] reads satisfies [P]. *)
Definition yields {A} (m : reader A) (P : A -> Prop) : Prop := forall r a r', m r = ReadOk a r' -> P a.

Lemma yields_ret {A} (a : A) (P : A -> Prop) : P a -> yields (rd_ret a) P.
Proof. by intros Ha r a' r' [= <- _]. Qed.

Lemma yields_fail {A} (P : A -> Prop) : yields rd_fail P.
Proof. by intros r a r'. Qed.

Lemma yields_bind {A B} (m : reader A) (k : A -> reader B) (P : A -> Prop) (Q : B -> Prop) :
  yields m P -> (forall a, P a -> yields (k a) Q) -> yields (rd_bind m k) Q.
Proof.
  intros Hm Hk r b r'. unfold rd_bind. destruct (m r) as [a r1| |] eqn:E; [|done..]. intros Hb.
  by eapply Hk; [eapply Hm|].
Qed.

Lemma yields_take size : yields (take_bytes size) (fun b => Zlen b <= Z.max 0 size).
Proof.
  intros r b r'. unfold take_bytes. destruct (br_bytes r) as [mem|]; [|done]. repeat case_match; try done.
  intros [= <- _]. unfold Zslice, Ztake, Zlen. rewrite length_take. lia.
Qed.

Lemma i32_range z : is_i32 (i32 z).
Proof. unfold is_i32, i32. pose proof (Z.mod_pos_bound (z + 2 ^ 31) (2 ^ 32)). lia. Qed.

Create HintDb typing.

Lemma yields_uint32 : yields (ReadUint32 Ptr) is_u32.
Proof. eapply yields_bind; [apply yields_take|]. intros b Hb. apply yields_ret, le_value_short. unfold Zlen in Hb. lia. Qed.

Lemma yields_int32 : yields (ReadInt32 Ptr) is_i32.
Proof. eapply yields_bind; [apply yields_take|]. intros b _. apply yields_ret, i32_range. Qed.

Lemma yields_string : yields (ReadString Ptr) wire_string.
Proof.
  eapply yields_bind; [apply yields_uint32|]. intros size Hs. eapply yields_bind; [apply yields_take|]. intros b Hb.
  apply yields_ret. unfold wire_string, is_u32 in *. rewrite to_of_bytes. lia.
Qed.

Lemma yields_kinds n : yields (read_kinds n) (fun l => Forall is_u32 l /\ length l = n).
Proof.
  induction n as [|n IH]; cbn; [apply yields_ret; by split|].
  eapply yields_bind; [apply yields_uint32|]. intros k Hk. eapply yields_bind; [exact IH|]. intros l [Hl Hn].
  apply yields_ret. split; [by constructor|]. cbn. by rewrite Hn.
Qed.

#[export] Hint Resolve yields_ret yields_fail yields_uint32 yields_int32 yields_string : typing.

(** A decoder made of such a reader. *)
Lemma decode_with_valid {A} (m : reader A) (P : A -> Prop) mem size v r :
  yields m P -> decode_with m mem size Ptr = ReadOk v r -> P v.
Proof. intros Hm. apply Hm. Qed.

Ltac typed_fields :=
  intros mem size v r; apply decode_with_valid; repeat (eapply yields_bind; [eauto with typing|intros ? ?]);
  apply yields_ret; cbn; auto.

#[export] Instance InitReply_typed : CodecTyped InitReply.
Proof. typed_fields. Qed.
#[export] Instance ScanTask_typed : CodecTyped ScanTask.
Proof. typed_fields. Qed.
#[export] Instance ScanFileReply_typed : CodecTyped ScanFileReply.
Proof. typed_fields. Qed.
#[export] Instance EchoRequest_typed : CodecTyped EchoRequest.
Proof. typed_fields. Qed.
#[export] Instance EchoReply_typed : CodecTyped EchoReply.
Proof. typed_fields. Qed.
#[export] Instance AddRequest_typed : CodecTyped AddRequest.
Proof. typed_fields. Qed.
#[export] Instance AddReply_typed : CodecTyped AddReply.
Proof. typed_fields. Qed.
#[export] Instance SleepRequest_typed : CodecTyped SleepRequest.
Proof. typed_fields. Qed.
#[export] Instance SleepReply_typed : CodecTyped SleepReply.
Proof. typed_fields. Qed.

#[export] Instance VesOpenSessionRequest_typed : CodecTyped VesOpenSessionRequest.
Proof.
  intros mem size v r. apply decode_with_valid. eapply yields_bind; [apply yields_uint32|]. intros version Hv.
  eapply yields_bind; [apply yields_uint32|]. intros count Hc. unfold is_u32 in Hc.
  destruct (Z.ltb_spec VES_OPEN_SESSION_MAX_ENGINE_KINDS count) as [|Hle]; [apply yields_fail|].
  eapply yields_bind; [apply yields_kinds|]. intros kinds [Hk Hn]. apply yields_ret. split; [done|]. split; [done|].
  cbn. unfold Zlen. rewrite Hn. lia.
Qed.

(** ** Handlers *)

(** The payload is one of type [T]. *)
Definition has_type (T : Type) `{CodecTraits T} (payload : bytes) : Prop :=
  exists v r, DecodeMessage payload Ptr = ReadOk (v : T) r /\ codec_valid v.

Lemma encoding_has_type {T} `{CodecLaws T} (v : T) b : codec_valid v -> EncodeMessage v Ptr = Defined (true, b) -> has_type T b.
Proof. intros Hv He. destruct (decode_encode v b Hv He) as [r Hr]. by exists v, r. Qed.

(** The types of a call. *)
Inductive signature : Type :=
| Sig (Request Reply : Type) (request_codec : CodecTraits Request) (reply_codec : CodecTraits Reply).

Definition request_of (s : signature) : bytes -> Prop := match s with Sig Request _ c _ => @has_type Request c end.
Definition reply_of (s : signature) : bytes -> Prop := match s with Sig _ Reply _ c => @has_type Reply c end.

(** The operations of the service and their types. *)
Definition service_signature (opcode : Z) : option signature :=
  if opcode =? VesOpcode_ScanFile then Some (Sig ScanTask ScanFileReply _ _)
  else if opcode =? TestkitOpcode_Echo then Some (Sig EchoRequest EchoReply _ _)
  else if opcode =? TestkitOpcode_Add then Some (Sig AddRequest AddReply _ _)
  else if opcode =? TestkitOpcode_Sleep then Some (Sig SleepRequest SleepReply _ _)
  else None.

(** What a handler of type [s] does with a call: it answers a payload of the
    request type with one of the reply type, any other payload with
    [ProtocolMismatch], asks for a pause that fits 32 bits, and leaves the
    state alone; or it ends the process. *)
Definition handles {U} (s : signature) (h : handler U) (call : RpcServerCall) (u : U) : Prop :=
  match h call RpcReply_default u with
  | Finishes d reply u' =>
      u' = u /\ is_u32 d /\
      ((rp_status reply = Ok /\ request_of s (sc_payload call) /\ reply_of s (rp_payload reply)) \/
       (reply = reply_of_status ProtocolMismatch /\ ~ request_of s (sc_payload call)))
  | Aborts => request_of s (sc_payload call)
  | Hangs | Misbehaves => False
  end.

Lemma typed_handler_typed {U Request Reply} `{CodecLaws Request} `{CodecLaws Reply} {HT : CodecTyped Request}
    (h : Request -> U -> outcome U Reply) call u :
  Zlen (sc_payload call) < 2 ^ 63 ->
  (forall request, codec_valid request ->
     match h request u with Finishes d v u' => u' = u /\ is_u32 d /\ codec_valid v | Aborts => True | _ => False end) ->
  handles (Sig Request Reply _ _) (MakeTypedHandler h) call u.
Proof.
  intros Hl Hh. unfold handles. pose proof (typed_handler_spec h call u Hl) as Hs.
  destruct (DecodeMessage (sc_payload call) Ptr) as [request r|r|] eqn:E.
  2,3: rewrite Hs; split; [done|]; split; [done|]; right; split; [done|]; intros (v & r' & E' & _); congruence.
  pose proof (decode_valid _ _ _ _ E) as Hv. specialize (Hh request Hv).
  assert (Hreq : has_type Request (sc_payload call)) by (by exists request, r).
  destruct (h request u) as [d v u'| | |]; [|by rewrite Hs|done|done]. destruct Hh as (-> & Hd & Hvv).
  destruct Hs as (b & Hb & ->). split; [done|]. split; [done|]. left. split; [done|]. split; [done|].
  by eapply encoding_has_type.
Qed.


