(* ===== verification/FailureMonitor.v ===== *)
(** * The failure monitor of the test kit

    testkit/testkit_failure_monitor.h: a callback that fires when a peer
    disconnects, or when enough calls have timed out within a window of time.
    Times are in nanoseconds of the steady clock; an operation is one critical
    section, and returns whether the callback is called after it. *)

From Stdlib Require Import Lia Sorting.Sorted.
From S2P Require Import Prelude Types.

Record FailureMonitorOptions : Type := {
  fo_windowMs : Z;
  fo_execTimeoutThreshold : Z;
  fo_triggerOnDisconnect : bool;
}.

Definition FailureMonitorOptions_default : FailureMonitorOptions :=
  {| fo_windowMs := 60000; fo_execTimeoutThreshold := 3; fo_triggerOnDisconnect := true |}.

Record FailureMonitor : Type := {
  fm_options : FailureMonitorOptions;
  fm_callback : bool;                             (* it is set *)
  fm_execTimeouts : list Z;                       (* the oldest first *)
}.

#[export] Instance FailureMonitor_eta : Eta FailureMonitor := fun r =>
  Build_FailureMonitor (fm_options r) (fm_callback r) (fm_execTimeouts r).

Definition FailureMonitor_new (options : FailureMonitorOptions) (callback : bool) : FailureMonitor :=
  {| fm_options := options; fm_callback := callback; fm_execTimeouts := [] |}.

Definition SetThresholdCallback (callback : bool) (m : FailureMonitor) : FailureMonitor := m <| fm_callback := callback |>.

Definition FailureMonitor_Reset (m : FailureMonitor) : FailureMonitor := m <| fm_execTimeouts := [] |>.

(** [duration_cast<milliseconds>] of a difference, compared with the window. *)
Definition outside_window (options : FailureMonitorOptions) (now t : Z) : bool :=
  fo_windowMs options <? Z.quot (now - t) 1000000.

Fixpoint pop_old (options : FailureMonitorOptions) (now : Z) (timeouts : list Z) : list Z :=
  match timeouts with
  | [] => []
  | t :: rest => if outside_window options now t then pop_old options now rest else timeouts
  end.

Definition OnFailure (status : StatusCode) (now : Z) (m : FailureMonitor) : bool * FailureMonitor :=
  if status_is status PeerDisconnected || status_is status ProtocolMismatch
  then (fo_triggerOnDisconnect (fm_options m) && fm_callback m, m)
  else if status_is status ExecTimeout then
    let timeouts := pop_old (fm_options m) now (fm_execTimeouts m ++ [now]) in
    if (fo_execTimeoutThreshold (fm_options m) <=? Zlen timeouts) && fm_callback m
    then (true, m <| fm_execTimeouts := [] |>)
    else (false, m <| fm_execTimeouts := timeouts |>)
  else (false, m).

(** ** What it is to do

    The monitor without the queue: all timeouts since the last time it has
    fired, of which those in the window count. *)

Definition in_window (options : FailureMonitorOptions) (now : Z) (timeouts : list Z) : list Z :=
  filter (fun t => outside_window options now t = false) timeouts.

Definition monitor_spec (options : FailureMonitorOptions) (callback : bool) (status : StatusCode) (now : Z) (history : list Z)
    : bool * list Z :=
  if status_is status PeerDisconnected || status_is status ProtocolMismatch
  then (fo_triggerOnDisconnect options && callback, history)
  else if status_is status ExecTimeout then
    if (fo_execTimeoutThreshold options <=? Zlen (in_window options now (history ++ [now]))) && callback
    then (true, []) else (false, history ++ [now])
  else (false, history).

Fixpoint monitor_run (events : list (StatusCode * Z)) (m : FailureMonitor) : list bool :=
  match events with
  | [] => []
  | (status, now) :: events => let '(fired, m) := OnFailure status now m in fired :: monitor_run events m
  end.

Fixpoint spec_run (options : FailureMonitorOptions) (callback : bool) (events : list (StatusCode * Z)) (history : list Z) : list bool :=
  match events with
  | [] => []
  | (status, now) :: events =>
      let '(fired, history) := monitor_spec options callback status now history in
      fired :: spec_run options callback events history
  end.

(** What is outside the window stays outside. *)
Lemma outside_window_mono options now now' t t' :
  now <= now' -> t' <= t -> outside_window options now t = true -> outside_window options now' t' = true.
Proof.
  unfold outside_window. rewrite !Z.ltb_lt. intros Hn Ht Ho.
  assert (Z.quot (now - t) 1000000 <= Z.quot (now' - t') 1000000) by (apply Z.quot_le_mono; lia). lia.
Qed.

Lemma filter_all (Q : Z -> Prop) `{!forall x, Decision (Q x)} (l : list Z) : (forall x, x ∈ l -> Q x) -> filter Q l = l.
Proof.
  induction l as [|x l IH]; intros Hq; [done|]. rewrite filter_cons_True by (apply Hq; left). f_equal. apply IH.
  intros y Hy. apply Hq. by right.
Qed.

(** On a queue in order, popping from the front is filtering. *)
Lemma pop_old_filter options now timeouts :
  StronglySorted Z.le timeouts -> pop_old options now timeouts = in_window options now timeouts.
Proof.
  induction 1 as [|t rest Hs IH Ht]; [done|]. cbn [pop_old]. unfold in_window in *. rewrite filter_cons.
  destruct (outside_window options now t) eqn:E; case_decide; try done. f_equal. symmetry. apply filter_all.
  intros x Hx. rewrite Forall_forall in Ht. apply not_true_is_false. intros Hx'. apply Ht in Hx.
  rewrite (outside_window_mono options now now x t) in E; [done|lia|done|done].
Qed.

Lemma in_window_twice options now now' history :
  now <= now' -> in_window options now' (in_window options now history) = in_window options now' history.
Proof.
  intros Hn. unfold in_window. rewrite list_filter_filter. apply list_filter_iff. intros t. split; [by intros []|].
  intros Ho. split; [done|]. apply not_true_is_false. intros Ht.
  rewrite (outside_window_mono options now now' t t) in Ho; [done|done|lia|done].
Qed.

Lemma StronglySorted_snoc timeouts now :
  StronglySorted Z.le timeouts -> Forall (fun t => t <= now) timeouts -> StronglySorted Z.le (timeouts ++ [now]).
Proof.
  induction 1 as [|t rest Hs IH Ht]; cbn; [by repeat constructor|]. rewrite Forall_cons. intros [Hn Hr].
  constructor; [auto|]. apply Forall_app. by split; [|constructor].
Qed.

(** The queue holds the timeouts of the history that are in the window. *)
Definition monitor_related (last : Z) (history : list Z) (m : FailureMonitor) : Prop :=
  StronglySorted Z.le history /\ Forall (fun t => t <= last) history /\
  exists now, now <= last /\ fm_execTimeouts m = in_window (fm_options m) now history.

Lemma sorted_filter (Q : Z -> Prop) `{!forall x, Decision (Q x)} (l : list Z) : StronglySorted Z.le l -> StronglySorted Z.le (filter Q l).
Proof.
  induction 1 as [|t rest Hs IH Ht]; [constructor|]. rewrite filter_cons. case_decide; [|done]. constructor; [done|].
  apply Forall_forall. intros x Hx. apply list_elem_of_filter in Hx as [_ Hx]. rewrite Forall_forall in Ht. by apply Ht.
Qed.

Lemma OnFailure_related status now last history m :
  monitor_related last history m -> last <= now ->
  let '(fired, history') := monitor_spec (fm_options m) (fm_callback m) status now history in
  exists m', OnFailure status now m = (fired, m') /\ monitor_related now history' m' /\
    fm_options m' = fm_options m /\ fm_callback m' = fm_callback m.
Proof.
  intros (Hs & Hl & t & Ht & Hq) Hn. unfold monitor_spec, OnFailure.
  assert (Hl' : Forall (fun t => t <= now) history) by (eapply Forall_impl; [exact Hl|]; intros x; cbn; lia).
  assert (Hsame : monitor_related now history m) by (split; [done|]; split; [done|]; exists t; split; [lia|done]).
  destruct (_ || _); [by exists m|]. destruct (status_is status ExecTimeout); [|by exists m].
  assert (Hp : pop_old (fm_options m) now (fm_execTimeouts m ++ [now]) = in_window (fm_options m) now (history ++ [now])).
  { rewrite Hq, pop_old_filter.
    - unfold in_window at 1 3. rewrite !filter_app. f_equal. apply in_window_twice. lia.
    - apply StronglySorted_snoc; [by apply sorted_filter|]. apply Forall_forall. intros x Hx.
      apply list_elem_of_filter in Hx as [_ Hx]. rewrite Forall_forall in Hl'. by apply Hl'. }
  rewrite Hp. destruct (_ && _).
  - eexists. split; [done|]. split; [|done]. split; [constructor|]. split; [constructor|]. by exists now.
  - eexists. split; [done|]. split; [|done]. split; [by apply StronglySorted_snoc|].
    split; [apply Forall_app; split; [done|by constructor]|]. by exists now.
Qed.

(** The monitor fires exactly when it should: for failures in the order of
    their times, it fires on a timeout when the timeouts since it has last
    fired that are in the window reach the threshold, and on a disconnect when
    it is told to. *)
Theorem monitor_counts_window options callback events :
  StronglySorted Z.le (map snd events) ->
  monitor_run events (FailureMonitor_new options callback) = spec_run options callback events [].
Proof.
  enough (H : forall last history m, monitor_related last history m -> fm_options m = options -> fm_callback m = callback ->
    Forall (fun e => last <= e.2) events -> StronglySorted Z.le (map snd events) ->
    monitor_run events m = spec_run options callback events history).
  { intros Hs. destruct events as [|[status now] events]; [done|]. apply (H now); try done.
    - split; [constructor|]. split; [constructor|]. by exists now.
    - cbn in Hs. apply StronglySorted_inv in Hs as [_ Hs]. constructor; [done|]. rewrite Forall_map in Hs. exact Hs. }
  induction events as [|[status now] events IH]; intros last history m Hr Ho Hc Hl Hs; [done|].
  apply Forall_cons in Hl as [Hl _]. cbn in Hs. apply StronglySorted_inv in Hs as [Hs Hn]. cbn [monitor_run spec_run].
  pose proof (OnFailure_related status now last history m Hr Hl) as H. rewrite Ho, Hc in H.
  destruct (monitor_spec options callback status now history) as [fired history']. destruct H as (m' & -> & Hr' & Ho' & Hc').
  f_equal. apply (IH now); try congruence. rewrite Forall_map in Hn. exact Hn.
Qed.

(** Three timeouts in a second fire, and the count starts again. *)
Lemma monitor_counts_window_example :
  monitor_run [(ExecTimeout, 0); (ExecTimeout, 10 ^ 9); (ExecTimeout, 2 * 10 ^ 9); (ExecTimeout, 3 * 10 ^ 9)]
    (FailureMonitor_new FailureMonitorOptions_default true) = [false; false; true; false].
Proof. vm_compute. reflexivity. Qed.
