(* ===== verification/Supervisor.v ===== *)
(** * The supervisor

    app/ves_supervisor_main.cpp of virus_executor_service with the parts of
    transport/registry_server.cpp that run in its process: the program that
    starts the registry, the engine and a client, starts the engine again when
    the registry is asked to load it, and ends it when it is asked to unload
    it.  Its main thread and the accept thread of the registry interleave; a
    request is handled with the operations of [Registry].  Processes are those
    of the kernel: [fork] followed by [exec] in the child, [kill] and
    [waitpid] are parameters. *)

From Stdlib Require Import Lia String.
From stdpp Require Import pretty.
From S2P Require Import Prelude Machine Threads Pool Types Sockets VesMessages Registry.
#[local] Open Scope thread_scope.

(** [fork], with what the child does: variables it adds to its environment,
    the program it executes, its arguments.  [kill], with a signal.
    [waitpid], with the status it reports. *)
Class Processes (P : Type) : Type := {
  pr_fork : list (string * string) -> string -> list string -> P -> Z * P;
  pr_kill : Z -> Z -> P -> P;
  pr_waitpid : Z -> P -> Z * P;
}.

(** The children that were not waited for: the number of a process is not
    used again before that. *)
Class ProcessLaws (P : Type) `{Processes P} : Type := {
  pr_children : P -> gset Z;
  fork_law env program args p pid p' : pr_fork env program args p = (pid, p') ->
    (pid = -1 /\ pr_children p' = pr_children p) \/
    (0 < pid /\ (pid ∉ pr_children p) /\ pr_children p' = {[pid]} ∪ pr_children p);
  kill_law pid signal p : pr_children (pr_kill pid signal p) = pr_children p;
  waitpid_law pid p status p' : pr_waitpid pid p = (status, p') -> pr_children p' = pr_children p ∖ {[pid]};
}.

Definition NO_CHILD_PID : Z := -1.
Definition SIGTERM : Z := 15.
Definition WEXITSTATUS (status : Z) : Z := Z.land (Z.shiftr status 8) 255.

(** The position of the last occurrence. *)
Fixpoint rfind (c : Ascii.ascii) (s : string) : option nat :=
  match s with
  | EmptyString => None
  | String c' s =>
      match rfind c s with
      | Some pos => Some (S pos)
      | None => if Ascii.eqb c c' then Some 0%nat else None
      end
  end.

Definition ResolveBinaryDir (argv0 : string) : string :=
  match rfind (Ascii.ascii_of_nat 47) argv0 with
  | Some pos => substring 0 pos argv0
  | None => "."
  end.

Definition MakeSocketPath (prefix : string) (pid : Z) : string := prefix +:+ "_" +:+ pretty pid +:+ ".sock".

Section Supervisor.
Context {K P : Type} {SK : Sockets K} {LK : ListenSockets K} {PP : Processes P}.

(** What is not the table of the registry: its other members, the global
    variables of the program, the kernel.  [wo_signalled] records every process
    that is signalled or waited for, with the processes there are then. *)
Record world : Type := {
  wo_sockets : K;
  wo_processes : P;
  wo_running : bool;
  wo_listen_fd : Z;
  wo_accept_thread : bool;                 (* [accept_thread_] is joinable *)
  wo_accepting : bool;                     (* it has not returned *)
  wo_engine_pid : Z;
  wo_client_pid : Z;
  wo_signalled : list (Z * P);             (* the latest first *)
}.

#[export] Instance world_eta : Eta world := fun r =>
  Build_world (wo_sockets r) (wo_processes r) (wo_running r) (wo_listen_fd r) (wo_accept_thread r) (wo_accepting r)
    (wo_engine_pid r) (wo_client_pid r) (wo_signalled r).

Definition on_sockets {A} (f : K -> A * K) (w : world) : A * world :=
  let '(a, k) := f (wo_sockets w) in (a, w <| wo_sockets := k |>).

Definition sockets_do (f : K -> K) (w : world) : world := w <| wo_sockets := f (wo_sockets w) |>.

#[export] Instance world_sockets : Sockets world := {|
  sk_socket := on_sockets sk_socket; sk_connect fd path := on_sockets (sk_connect fd path);
  sk_send fd data := on_sockets (sk_send fd data); sk_recv fd want := on_sockets (sk_recv fd want);
  sk_recv_waitall fd want := on_sockets (sk_recv_waitall fd want); sk_peek fd := on_sockets (sk_peek fd);
  sk_recvmsg fd want := on_sockets (sk_recvmsg fd want); sk_sendmsg fd data fds := on_sockets (sk_sendmsg fd data fds);
  sk_poll fd timeout := on_sockets (sk_poll fd timeout); sk_shutdown fd := sockets_do (sk_shutdown fd);
  sk_close fd := sockets_do (sk_close fd) |}.

#[export] Instance world_listen : ListenSockets world := {|
  sk_unlink path := sockets_do (sk_unlink path); sk_bind fd path := on_sockets (sk_bind fd path);
  sk_listen fd backlog := on_sockets (sk_listen fd backlog); sk_accept fd := on_sockets (sk_accept fd) |}.

#[local] Abbreviation state := (RegistryServer world).
Inductive supervisor_worker : Type := AcceptThread (enginePath registrySocket serviceSocket : string) (listen_fd : Z).
#[local] Abbreviation supervisor := (machine state).
#[local] Abbreviation supervisor_thread := (thread state supervisor_worker).

#[export] Instance supervisor_clock : Clock state := fun _ => 0.

(** ** Steps *)

Definition worldly {A} (f : world -> A * world) : supervisor A := fun s =>
  let '(a, w) := f (rv_kernel s) in Returns (a, s <| rv_kernel := w |>).

Definition update (f : world -> world) : supervisor unit := modify (fun s => s <| rv_kernel := f (rv_kernel s) |>).

Definition look {A} (f : world -> A) : supervisor A := gets (fun s => f (rv_kernel s)).

Definition of_registry {A} (f : state -> A * state) : supervisor A := fun s => Returns (f s).

Definition LoadPid : supervisor Z := look wo_engine_pid.
Definition StorePid (pid : Z) : supervisor unit := update (fun w => w <| wo_engine_pid := pid |>).
Definition StoreClientPid (pid : Z) : supervisor unit := update (fun w => w <| wo_client_pid := pid |>).
Definition TakePid : supervisor Z := worldly (fun w => (wo_engine_pid w, w <| wo_engine_pid := NO_CHILD_PID |>)).

(** [compare_exchange_strong] from [NO_CHILD_PID]: whether it stored, and what
    it found. *)
Definition ExchangePid (pid : Z) : supervisor (bool * Z) := worldly (fun w =>
  if wo_engine_pid w =? NO_CHILD_PID then ((true, NO_CHILD_PID), w <| wo_engine_pid := pid |>)
  else ((false, wo_engine_pid w), w)).

Definition fork (env : list (string * string)) (program : string) (args : list string) : supervisor Z :=
  worldly (fun w => let '(pid, p) := pr_fork env program args (wo_processes w) in (pid, w <| wo_processes := p |>)).

Definition SpawnEngine (enginePath registrySocket serviceSocket : string) : supervisor Z :=
  fork [] enginePath [enginePath; registrySocket; serviceSocket].

Definition SpawnClient (clientPath registrySocket : string) : supervisor Z :=
  fork [("OHOS_SA_MOCK_REGISTRY_SOCKET", registrySocket)] clientPath [clientPath].

Definition note_signalled (pid : Z) (w : world) : world :=
  w <| wo_signalled := (pid, wo_processes w) :: wo_signalled w |>.

Definition waitpid (pid : Z) : supervisor Z := worldly (fun w =>
  let '(status, p) := pr_waitpid pid (wo_processes w) in (status, (note_signalled pid w) <| wo_processes := p |>)).

Definition KillAndWait (pid : Z) : supervisor_thread unit :=
  if 0 <? pid then
    update (fun w => (note_signalled pid w) <| wo_processes := pr_kill pid SIGTERM (wo_processes w) |>);;
    yield;;
    waitpid pid;;
    mret tt
  else mret tt.

(** ** The callbacks *)

Section Callbacks.
Variables enginePath registrySocket serviceSocket : string.

(** The callback of [SetLoadCallback] in [ConfigureRegistry]. *)
Definition load_callback (sa_id : Z) : supervisor_thread bool :=
  if negb (sa_id =? VIRUS_PROTECTION_EXECUTOR_SA_ID) then mret false else
  pid ← LoadPid;
  if 0 <? pid then mret true else
  yield;;
  enginePid ← SpawnEngine enginePath registrySocket serviceSocket;
  if enginePid <? 0 then mret false else
  yield;;
  ' (stored, expected) ← ExchangePid enginePid;
  if negb stored then KillAndWait enginePid;; mret (0 <? expected) else
  yield;;
  mret true.

(** The callback of [SetUnloadCallback]. *)
Definition unload_callback (sa_id : Z) : supervisor_thread unit :=
  if negb (sa_id =? VIRUS_PROTECTION_EXECUTOR_SA_ID) then mret tt else
  enginePid ← TakePid;
  yield;;
  KillAndWait enginePid.

(** ** The registry's thread *)

(** [HandleLoadRequest], with a callback that takes several steps: whether a
    reachable service is registered, and the rest. *)
Definition find_service (sa_id : Z) : supervisor_thread bool :=
  path ← gets (TryGetServicePath sa_id);
  match path with
  | None => mret false
  | Some path =>
      yield;;
      reachable ← of_registry (fun s =>
        let '(reachable, w) := IsReachableServiceSocket path (rv_kernel s) in (reachable, s <| rv_kernel := w |>));
      if reachable : bool then mret true else
      of_registry (RemoveStaleService sa_id path);;
      mret false
  end.

Definition serve_load (req : RegistryRequest) : supervisor_thread RegistryResponse :=
  let sa_id := rr_sa_id req in
  found ← find_service sa_id;
  yield;;
  found ← if found : bool then mret true else load_callback sa_id;
  if negb found then mret {| rn_err_code := -1; rn_payload := "" |} else
  yield;;
  ' (populated, resp) ← gets (PopulateServiceResponse sa_id RegistryResponse_default);
  mret (if populated : bool then resp else {| rn_err_code := -1; rn_payload := rn_payload resp |}).

(** [ProcessRequest]. *)
Definition serve_request (req : RegistryRequest) : supervisor_thread RegistryResponse :=
  match rr_op req with
  | RegistryRegister =>
      modify (RegisterService (rr_sa_id req) (rr_payload req));;
      mret RegistryResponse_default
  | RegistryGet =>
      ' (populated, resp) ← gets (PopulateServiceResponse (rr_sa_id req) RegistryResponse_default);
      mret {| rn_err_code := if populated : bool then 0 else -1; rn_payload := rn_payload resp |}
  | RegistryLoad => serve_load req
  | RegistryUnload =>
      modify (UnregisterService (rr_sa_id req));;
      yield;;
      unload_callback (rr_sa_id req);;
      mret RegistryResponse_default
  | RegistryUnnamed _ => mret RegistryResponse_default
  end.

(** [HandleClient]. *)
Definition serve_client (fuel : nat) (client_fd : Z) : supervisor_thread unit :=
  req ← (DecodeClientRequest fuel client_fd : supervisor _);
  match req with
  | None => mret tt
  | Some req =>
      yield;;
      resp ← serve_request req;
      yield;;
      (fun s => let! s := SendClientResponse fuel client_fd resp s in Returns (tt, s)) : supervisor unit
  end.

Fixpoint RegistryServer_AcceptLoop (fuel : nat) (listen_fd : Z) : supervisor_thread unit :=
  match fuel with
  | O => tdiverge
  | S fuel =>
      running ← look wo_running;
      if negb running then mret tt else
      yield;;
      client_fd ← worldly (sk_accept listen_fd);
      yield;;
      if client_fd <? 0 then
        running ← look wo_running;
        if running : bool then RegistryServer_AcceptLoop fuel listen_fd else mret tt
      else
      serve_client fuel client_fd;;
      yield;;
      update (sk_close client_fd);;
      RegistryServer_AcceptLoop fuel listen_fd
  end.

(** ** The main thread *)

Definition RegistryServer_Start : supervisor_thread bool :=
  update (sk_unlink registrySocket);;
  listen_fd ← worldly sk_socket;
  update (fun w => w <| wo_listen_fd := listen_fd |>);;
  if listen_fd <? 0 then mret false else
  rc ← worldly (sk_bind listen_fd (sun_path registrySocket));
  if rc <? 0 then update (fun w => (sk_close listen_fd w) <| wo_listen_fd := -1 |>);; mret false else
  rc ← worldly (sk_listen listen_fd 8);
  if rc <? 0 then update (fun w => (sk_close listen_fd w) <| wo_listen_fd := -1 |>);; mret false else
  joinable ← look wo_accept_thread;
  if joinable : bool then TAbort else
  update (fun w => w <| wo_running := true |> <| wo_accept_thread := true |> <| wo_accepting := true |>);;
  spawn (AcceptThread enginePath registrySocket serviceSocket listen_fd);;
  mret true.

Definition RegistryServer_Stop : supervisor_thread unit :=
  update (fun w => w <| wo_running := false |>);;
  yield;;
  listen_fd ← look wo_listen_fd;
  (if 0 <=? listen_fd then update (fun w => (sk_close listen_fd (sk_shutdown listen_fd w)) <| wo_listen_fd := -1 |>)
   else mret tt);;
  joinable ← look wo_accept_thread;
  (if joinable : bool then
     TPause None (fun s => negb (wo_accepting (rv_kernel s))) (mret tt);;
     update (fun w => w <| wo_accept_thread := false |>)
   else mret tt);;
  update (sk_unlink registrySocket).

Definition StartRegistryAndEngine : supervisor_thread bool :=
  started ← RegistryServer_Start;
  if negb started then mret false else
  yield;;
  enginePid ← SpawnEngine enginePath registrySocket serviceSocket;
  yield;;
  if enginePid <? 0 then RegistryServer_Stop;; mret false else
  StorePid enginePid;;
  yield;;
  mret true.

Definition RunClientSession (clientPath : string) : supervisor_thread Z :=
  clientPid ← SpawnClient clientPath registrySocket;
  yield;;
  if clientPid <? 0 then mret 1 else
  StoreClientPid clientPid;;
  yield;;
  clientStatus ← waitpid clientPid;
  StoreClientPid NO_CHILD_PID;;
  mret (WEXITSTATUS clientStatus).

Definition ShutdownSupervisor : supervisor_thread unit :=
  pid ← TakePid;
  yield;;
  KillAndWait pid;;
  yield;;
  RegistryServer_Stop.

End Callbacks.

Definition supervisor_run_worker (fuel : nat) (worker : supervisor_worker) : supervisor_thread unit :=
  match worker with
  | AcceptThread enginePath registrySocket serviceSocket listen_fd =>
      RegistryServer_AcceptLoop enginePath registrySocket serviceSocket fuel listen_fd;;
      update (fun w => w <| wo_accepting := false |>)
  end.

(** The destructor of the registry stops it once more. *)
Definition main (argv0 : string) (pid : Z) : supervisor_thread Z :=
  let dir := ResolveBinaryDir argv0 in
  let enginePath := dir +:+ "/VirusExecutorService" in
  let clientPath := dir +:+ "/virus_executor_service_client" in
  let registrySocket := MakeSocketPath "/tmp/virus_executor_service_registry" pid in
  let serviceSocket := MakeSocketPath "/tmp/virus_executor_service_service" pid in
  started ← StartRegistryAndEngine enginePath registrySocket serviceSocket;
  if negb started then RegistryServer_Stop registrySocket;; mret 1 else
  clientStatus ← RunClientSession registrySocket clientPath;
  ShutdownSupervisor registrySocket;;
  RegistryServer_Stop registrySocket;;
  mret clientStatus.

End Supervisor.
Arguments world : clear implicits.

(** ** All its threads *)

Section Invariant.
Context {K P : Type} {SK : Sockets K} {LK : ListenSockets K} {PP : Processes P} {PL : ProcessLaws P}.

#[local] Abbreviation state := (RegistryServer (world K P)).
#[local] Abbreviation supervisor := (machine state).
#[local] Abbreviation supervisor_thread := (thread state supervisor_worker).

(** The program; and the public operations of its registry. *)
Inductive supervisor_op : Type :=
| OpMain (argv0 : string) (pid : Z)
| OpRegister (sa_id : Z) (path : string)
| OpUnregister (sa_id : Z).

Definition supervisor_perform (op : supervisor_op) : supervisor_thread unit :=
  match op with
  | OpMain argv0 pid => main argv0 pid;; mret tt
  | OpRegister sa_id path => atomic (modify (RegisterService sa_id path))
  | OpUnregister sa_id => atomic (modify (UnregisterService sa_id))
  end.

(** Clients connect and processes end, but a child remains until it is waited
    for. *)
Definition supervisor_environment (s s' : state) : Prop :=
  exists k p, pr_children p = pr_children (wo_processes (rv_kernel s)) /\
    s' = s <| rv_kernel := ((rv_kernel s) <| wo_sockets := k |> <| wo_processes := p |>) |>.

Lemma supervisor_time (n : nat) s : supervisor_environment s s.
Proof. exists (wo_sockets (rv_kernel s)), (wo_processes (rv_kernel s)). split; [done|]. by destruct s as [? []]. Qed.

Definition world_new (k : K) (p : P) : world K P := {|
  wo_sockets := k; wo_processes := p; wo_running := false; wo_listen_fd := -1; wo_accept_thread := false;
  wo_accepting := false; wo_engine_pid := NO_CHILD_PID; wo_client_pid := NO_CHILD_PID; wo_signalled := [] |}.

#[export] Instance supervisor_system : System state supervisor_worker := {|
  sys_op_role op := match op with OpMain _ _ => ExclusiveRole | _ => SharedRole end;
  sys_perform := supervisor_perform; sys_invoke := fun call : Empty_set => match call with end;
  sys_run_worker := supervisor_run_worker; sys_environment := supervisor_environment; sys_tick := fun _ s => s;
  sys_tick_environment := supervisor_time;
  sys_initial := fun s => exists k p, s = {| rv_services := ∅; rv_kernel := world_new k p |} |}.

(** A process that a thread, or the variable, is to end. *)
Definition held (pid : Z) : list Z := if 0 <? pid then [pid] else [].

Definition owned (ls : list (list Z)) (s : state) : list Z := held (wo_engine_pid (rv_kernel s)) ++ concat ls.

Definition children (s : state) : gset Z := pr_children (wo_processes (rv_kernel s)).

(** What was signalled or waited for was a child then. *)
Definition signals_children (s : state) : Prop :=
  Forall (fun x => x.1 ∈ pr_children x.2) (wo_signalled (rv_kernel s)).

Definition supervisor_inv (ls : list (list Z)) (s : state) : Prop :=
  NoDup (owned ls s) /\ Forall (fun pid => pid ∈ children s) (owned ls s) /\ signals_children s.

Definition srest (_ : role) (l : list Z) (others : list (list Z)) (s : state) : Prop := supervisor_inv (l :: others) s.

(** Only what is owned, the children and the record matter. *)
Lemma supervisor_inv_owned ls ls' s s' :
  owned ls' s' ⊆+ owned ls s -> children s' = children s -> wo_signalled (rv_kernel s') = wo_signalled (rv_kernel s) ->
  supervisor_inv ls s -> supervisor_inv ls' s'.
Proof.
  intros Ho Hc Hs (Hn & Hk & Hg). split.
  { apply submseteq_Permutation in Ho as [k Ho]. rewrite Ho in Hn. by apply NoDup_app in Hn as [? _]. }
  unfold signals_children. rewrite Hs, Hc.
  split; [|done]. apply Forall_forall. rewrite Forall_forall in Hk. intros x Hx. apply Hk. by eapply elem_of_submseteq.
Qed.

Section Threads.
Variable r : role.
#[local] Abbreviation sstays := (stays (W := supervisor_worker) (srest r)).
#[local] Abbreviation stwp := (twp (W := supervisor_worker) (srest r)).

(** What the invariant does not mention. *)
Definition same_processes (s s' : state) : Prop :=
  wo_engine_pid (rv_kernel s') = wo_engine_pid (rv_kernel s) /\ wo_processes (rv_kernel s') = wo_processes (rv_kernel s) /\
  wo_signalled (rv_kernel s') = wo_signalled (rv_kernel s).

Lemma supervisor_inv_same ls s s' : same_processes s s' -> supervisor_inv ls s -> supervisor_inv ls s'.
Proof. intros (He & Hp & Hs). apply supervisor_inv_owned; unfold owned, children; [by rewrite He|by rewrite Hp|done]. Qed.

Lemma sstays_same l {A} (m : supervisor A) :
  (forall s a s', m s = Returns (a, s') -> same_processes s s') -> sstays l (atomic m).
Proof. intros Hm. apply stays_atomic. intros fr s a s' Hs E. by eapply supervisor_inv_same; [eapply Hm|]. Qed.

Lemma sstays_gets l {A} (f : state -> A) : sstays l (atomic (gets f)).
Proof. apply sstays_same. by intros s a s' [= _ <-]. Qed.

Lemma sstays_update l (f : world K P -> world K P) :
  (forall w, wo_engine_pid (f w) = wo_engine_pid w /\ wo_processes (f w) = wo_processes w /\ wo_signalled (f w) = wo_signalled w) ->
  sstays l (atomic (update f)).
Proof. intros Hf. apply sstays_same. intros s a s' [= _ <-]. apply Hf. Qed.

Lemma sstays_services l (f : state -> state) : (forall s, rv_kernel (f s) = rv_kernel s) -> sstays l (atomic (modify f)).
Proof. intros Hf. apply sstays_same. intros s a s' [= _ <-]. unfold same_processes. by rewrite Hf. Qed.

(** Calls on sockets. *)
Definition socket_call {A} (f : world K P -> A * world K P) : Prop := forall w, exists k, (f w).2 = w <| wo_sockets := k |>.

Lemma on_sockets_call {A} (f : K -> A * K) : socket_call (on_sockets f).
Proof. intros w. unfold on_sockets. destruct (f (wo_sockets w)) as [a k]. by exists k. Qed.

Lemma sstays_worldly l {A} (f : world K P -> A * world K P) : socket_call f -> sstays l (atomic (worldly f)).
Proof.
  intros Hf. apply sstays_same. intros s a s'. unfold worldly. destruct (Hf (rv_kernel s)) as [k Hk].
  destruct (f (rv_kernel s)) as [x w]. cbn in Hk. subst. by intros [= _ <-].
Qed.

(** ** Processes change hands *)

(** What a thread has got from [fork]. *)
Definition spawned (pid : Z) : list Z := if pid <? 0 then [] else [pid].

Lemma twp_fork env program args :
  stwp (srest r []) (atomic (fork env program args)) (fun pid => srest r (spawned pid)).
Proof.
  apply twp_atomic. intros fr s pid s' (Hn & Hk & Hg). unfold fork, worldly, spawned.
  destruct (pr_fork env program args (wo_processes (rv_kernel s))) as [pid' p] eqn:E. intros [= <- <-].
  apply fork_law in E as [(-> & Hc)|(Hp & Hnew & Hc)].
  - split; [done|]. split; [|done]. unfold children. cbn. by rewrite Hc.
  - rewrite (proj2 (Z.ltb_ge _ _)) by lia. unfold srest, supervisor_inv, owned. cbn.
    assert (Hch : forall x, x ∈ owned ([] :: fr) s -> x ∈ children s) by by apply Forall_forall.
    split; [|split; [|done]].
    + rewrite <- Permutation_middle. constructor; [|done]. intros Hin. apply Hnew. by apply Hch.
    + rewrite <- Permutation_middle. unfold children. cbn. rewrite Hc. constructor; [set_solver|].
      apply Forall_forall. intros x Hx. apply Hch in Hx. unfold children in Hx. set_solver.
Qed.

Lemma held_submseteq pid : held pid ⊆+ [pid].
Proof. unfold held. destruct (0 <? pid); [done|apply submseteq_nil_l]. Qed.

Lemma twp_StorePid pid : stwp (srest r [pid]) (atomic (StorePid pid)) (fun _ => srest r []).
Proof.
  apply twp_modify_end. intros fr s. apply supervisor_inv_owned; [|done|done]. unfold owned. cbn.
  apply (submseteq_inserts_l (held _)). apply (submseteq_app (held pid) [pid] (concat fr) (concat fr)); [apply held_submseteq|done].
Qed.

Lemma twp_TakePid : stwp (srest r []) (atomic TakePid) (fun pid => srest r (held pid)).
Proof.
  apply twp_atomic. intros fr s pid s' Hs [= <- <-]. revert Hs. apply supervisor_inv_owned; [|done|done].
  unfold owned. cbn. done.
Qed.

Lemma twp_ExchangePid pid :
  stwp (srest r [pid]) (atomic (ExchangePid pid)) (fun x => srest r (if x.1 then [] else [pid])).
Proof.
  apply twp_atomic. intros fr s [stored found] s' Hs. unfold ExchangePid, worldly.
  destruct (Z.eqb_spec (wo_engine_pid (rv_kernel s)) NO_CHILD_PID) as [E|_]; intros [= <- <- <-]; cbn [fst].
  - revert Hs. apply supervisor_inv_owned; [|done|done]. unfold owned. cbn. rewrite E.
    apply (submseteq_app (held pid) [pid] (concat fr) (concat fr)); [apply held_submseteq|done].
  - revert Hs. by apply supervisor_inv_same.
Qed.

(** A process in one's own hand is a child, and no one else's. *)
Lemma held_child pid fr s : srest r [pid] fr s -> pid ∈ children s /\ pid ∉ owned fr s.
Proof.
  unfold srest, supervisor_inv, owned. cbn. rewrite <- !Permutation_middle.
  intros (Hn & Hk & _). apply NoDup_cons in Hn as [? _]. by apply Forall_cons in Hk as [? _].
Qed.

Lemma twp_kill pid : stwp (srest r [pid])
  (atomic (update (fun w => (note_signalled pid w) <| wo_processes := pr_kill pid SIGTERM (wo_processes w) |>)))
  (fun _ => srest r [pid]).
Proof.
  apply twp_modify_end. intros fr s Hs. destruct (held_child _ _ _ Hs) as [Hc _]. destruct Hs as (Hn & Hk & Hg).
  split; [done|]. split; [|by constructor]. unfold children. cbn. by rewrite kill_law.
Qed.

Lemma twp_waitpid pid : stwp (srest r [pid]) (atomic (waitpid pid)) (fun _ => srest r []).
Proof.
  apply twp_atomic. intros fr s status s' Hs. destruct (held_child _ _ _ Hs) as [Hc Hno]. destruct Hs as (Hn & Hk & Hg).
  unfold waitpid, worldly. destruct (pr_waitpid pid (wo_processes (rv_kernel s))) as [st p] eqn:E. intros [= <- <-].
  apply waitpid_law in E. revert Hn Hk. unfold owned. cbn. rewrite <- !Permutation_middle. intros Hn Hk.
  apply NoDup_cons in Hn as [_ Hn]. apply Forall_cons in Hk as [_ Hk]. split; [done|]. split; [|by constructor].
  unfold children. cbn. rewrite E. apply Forall_forall. rewrite Forall_forall in Hk. intros x Hx.
  apply elem_of_difference. split; [by apply Hk|]. apply not_elem_of_singleton. intros ->. by apply Hno.
Qed.

Lemma twp_KillAndWait pid : stwp (srest r (held pid)) (KillAndWait pid) (fun _ => srest r []).
Proof.
  unfold KillAndWait, held. destruct (0 <? pid); [|apply twp_ret; by intros fr s Hs].
  tw (apply twp_kill). tw (apply twp_yield). tw (apply twp_waitpid). apply twp_ret. by intros fr s Hs.
Qed.

Lemma twp_kill_spawned pid : stwp (srest r [pid]) (KillAndWait pid) (fun _ => srest r []).
Proof.
  eapply twp_pre; [|apply twp_KillAndWait]. intros fr s. apply supervisor_inv_owned; [|done|done]. unfold owned. cbn.
  apply submseteq_app; [done|]. apply (submseteq_app (held pid) [pid] (concat fr) (concat fr)); [apply held_submseteq|done].
Qed.

Section Program.
Variables enginePath registrySocket serviceSocket : string.

Lemma sstays_load_callback sa_id : sstays [] (load_callback enginePath registrySocket serviceSocket sa_id).
Proof.
  unfold load_callback. destruct (negb _); [apply stays_ret|]. apply stays_then; [apply sstays_gets|]. intros pid.
  destruct (0 <? pid); [apply twp_ret; by intros fr s Hs|]. tw (apply twp_yield). tw (apply twp_fork) as enginePid.
  unfold spawned. destruct (enginePid <? 0); [apply twp_ret; by intros fr s Hs|]. tw (apply twp_yield).
  tw (apply twp_ExchangePid) as [stored expected]. destruct stored; cbn [fst negb].
  - tw (apply twp_yield). apply twp_ret. by intros fr s Hs.
  - tw (apply twp_kill_spawned). apply twp_ret. by intros fr s Hs.
Qed.

Lemma sstays_unload_callback sa_id : sstays [] (unload_callback sa_id).
Proof.
  unfold unload_callback. destruct (negb _); [apply stays_ret|]. tw (apply twp_TakePid) as pid. tw (apply twp_yield).
  apply twp_KillAndWait.
Qed.

Lemma sstays_find_service sa_id : sstays [] (find_service sa_id).
Proof.
  unfold find_service. apply stays_bind; [apply sstays_gets|]. intros path.
  destruct path as [path|]; [|apply stays_ret]. apply stays_bind; [apply stays_yield|]. intros ?. apply stays_bind.
  - apply sstays_same. intros s x s' [= Hs]. revert Hs. unfold IsReachableServiceSocket.
    destruct (bool_decide _); [by intros [= _ <-]|]. cbn. unfold on_sockets. destruct (sk_socket _) as [fd k].
    destruct (fd <? 0); [by intros [= _ <-]|]. cbn. destruct (sk_connect _ _ _) as [rc k']. by intros [= _ <-].
  - intros reachable. destruct reachable; [apply stays_ret|]. apply stays_bind; [|intros ?; apply stays_ret].
    apply sstays_same. intros s x s' [= Hs]. revert Hs. unfold RemoveStaleService.
    destruct (_ !! _); [|by intros [= _ <-]]. destruct (bool_decide _); by intros [= _ <-].
Qed.

Lemma sstays_serve_request req : sstays [] (serve_request enginePath registrySocket serviceSocket req).
Proof.
  unfold serve_request, serve_load. destruct (rr_op req).
  - apply stays_bind; [by apply sstays_services|intros ?; apply stays_ret].
  - apply stays_bind; [apply sstays_gets|]. intros [populated resp]. apply stays_ret.
  - apply stays_bind; [apply sstays_find_service|].
    intros found. apply stays_bind; [apply stays_yield|]. intros ?.
    apply stays_bind; [destruct found; [apply stays_ret|apply sstays_load_callback]|]. intros found'.
    destruct (negb found'); [apply stays_ret|]. apply stays_bind; [apply stays_yield|]. intros ?.
    apply stays_bind; [apply sstays_gets|]. intros [populated resp]. apply stays_ret.
  - apply stays_bind; [by apply sstays_services|]. intros ?. apply stays_bind; [apply stays_yield|]. intros ?.
    apply stays_bind; [apply sstays_unload_callback|]. intros ?. apply stays_ret.
  - apply stays_ret.
Qed.

(** The descriptors' calls leave the processes alone. *)
Definition only_sockets (w w' : world K P) : Prop := exists k, w' = w <| wo_sockets := k |>.

#[local] Instance only_sockets_preorder : PreOrder only_sockets.
Proof.
  split; [intros w; exists (wo_sockets w); by destruct w|]. intros w1 w2 w3 [k ->] [k' ->]. by exists k'.
Qed.

Lemma on_sockets_only {A} (f : K -> A * K) w x w' : on_sockets f w = (x, w') -> only_sockets w w'.
Proof. unfold on_sockets. destruct (f (wo_sockets w)) as [a k]. intros [= _ <-]. by exists k. Qed.

Lemma only_sockets_same s w : only_sockets (rv_kernel s) w -> same_processes s (s <| rv_kernel := w |>).
Proof. intros [k ->]. by repeat split. Qed.

Lemma sstays_serve_client fuel fd : sstays [] (serve_client enginePath registrySocket serviceSocket fuel fd).
Proof.
  unfold serve_client. apply stays_bind.
  - apply sstays_same. intros s x s'. unfold DecodeClientRequest.
    destruct (RecvMessage fuel fd Ptr (rv_kernel s)) as [[[ok msg] w]| |] eqn:E; [|done..].
    apply (RecvMessage_frame only_sockets) in E; [|intros *; apply on_sockets_only..].
    apply only_sockets_same in E. cbn [run_bind]. destruct (negb ok); [by intros [= _ <-]|].
    destruct (DecodeRegistryRequest _ _ _); [|done]. by intros [= _ <-].
  - intros [req|]; [|apply stays_ret]. apply stays_bind; [apply stays_yield|]. intros ?.
    apply stays_bind; [apply sstays_serve_request|]. intros resp. apply stays_bind; [apply stays_yield|]. intros ?.
    apply sstays_same. intros s x s'. unfold SendClientResponse. destruct (EncodeRegistryResponse resp Ptr) as [encoded msg].
    destruct (negb encoded); [by intros [= _ <-]|]. destruct (SendMessage fuel fd msg (rv_kernel s)) as [[ok w]| |] eqn:E; [|done..].
    intros [= _ <-]. apply only_sockets_same. apply (SendMessage_frame only_sockets) in E; [done|].
    intros *. apply on_sockets_only.
Qed.

Lemma sstays_AcceptLoop fuel fd : sstays [] (RegistryServer_AcceptLoop enginePath registrySocket serviceSocket fuel fd).
Proof.
  induction fuel as [|fuel IH]; cbn [RegistryServer_AcceptLoop]; [apply stays_diverge|].
  repeat first [exact IH|apply sstays_serve_client|apply stays_ret|apply stays_yield|apply sstays_gets
    |apply sstays_worldly, on_sockets_call|apply sstays_update; by repeat split|apply stays_bind; [|intros ?]|case_match].
Qed.

Lemma sstays_Start : sstays [] (RegistryServer_Start enginePath registrySocket serviceSocket).
Proof.
  unfold RegistryServer_Start.
  repeat first [apply stays_ret|apply stays_yield|apply sstays_gets|apply stays_spawn|apply twp_abort; exact I
    |apply sstays_worldly, on_sockets_call|apply sstays_update; by repeat split|apply stays_bind; [|intros ?]|case_match].
Qed.

Lemma sstays_Stop : sstays [] (RegistryServer_Stop registrySocket).
Proof.
  unfold RegistryServer_Stop.
  repeat first [apply stays_ret|apply stays_yield|apply sstays_gets|apply stays_pause
    |apply sstays_worldly, on_sockets_call|apply sstays_update; by repeat split|apply stays_bind; [|intros ?]|case_match].
Qed.

Lemma sstays_StartRegistryAndEngine : sstays [] (StartRegistryAndEngine enginePath registrySocket serviceSocket).
Proof.
  unfold StartRegistryAndEngine. apply stays_bind; [apply sstays_Start|]. intros started.
  destruct (negb started); [apply stays_ret|]. apply stays_bind; [apply stays_yield|]. intros ?.
  tw (apply twp_fork) as pid. tw (apply twp_yield). unfold spawned. destruct (pid <? 0).
  - apply stays_bind; [apply sstays_Stop|intros ?; apply stays_ret].
  - tw (apply twp_StorePid). apply stays_bind; [apply stays_yield|]. intros ?. apply stays_ret.
Qed.

Lemma sstays_RunClientSession clientPath : sstays [] (RunClientSession registrySocket clientPath).
Proof.
  unfold RunClientSession. tw (apply twp_fork) as pid. tw (apply twp_yield). unfold spawned.
  destruct (pid <? 0); [apply twp_ret; by intros fr s Hs|].
  apply stays_then; [apply sstays_update; by repeat split|]. intros ?. tw (apply twp_yield). tw (apply twp_waitpid).
  apply stays_bind; [apply sstays_update; by repeat split|]. intros ?. apply stays_ret.
Qed.

Lemma sstays_ShutdownSupervisor : sstays [] (ShutdownSupervisor registrySocket).
Proof.
  unfold ShutdownSupervisor. tw (apply twp_TakePid) as pid. tw (apply twp_yield). tw (apply twp_KillAndWait).
  apply stays_bind; [apply stays_yield|]. intros ?. apply sstays_Stop.
Qed.

End Program.

Lemma sstays_main argv0 pid : sstays [] (main argv0 pid).
Proof.
  unfold main. apply stays_bind; [apply sstays_StartRegistryAndEngine|]. intros started. destruct (negb started).
  - apply stays_bind; [apply sstays_Stop|intros ?; apply stays_ret].
  - apply stays_bind; [apply sstays_RunClientSession|]. intros status. apply stays_bind; [apply sstays_ShutdownSupervisor|].
    intros ?. apply stays_bind; [apply sstays_Stop|intros ?; apply stays_ret].
Qed.

End Threads.

Definition supervisor_compat (_ : list nat) (_ : role) (l1 l2 : list (role * list Z)) (fr : list (list Z)) : Prop :=
  fr = map snd l1 ++ map snd l2.

Definition supervisor_global (_ : list nat) (ls : list (role * list Z)) (s : state) : Prop := supervisor_inv (map snd ls) s.

Lemma supervisor_inv_permutation ls ls' s : ls ≡ₚ ls' -> supervisor_inv ls s -> supervisor_inv ls' s.
Proof. intros Hp. apply supervisor_inv_owned; [|done|done]. unfold owned. by rewrite Hp. Qed.

Lemma supervisor_split calls l1 r l l2 s :
  supervisor_global calls (l1 ++ (r, l) :: l2) s <-> exists fr, supervisor_compat calls r l1 l2 fr /\ srest r l fr s.
Proof.
  unfold supervisor_global, supervisor_compat, srest. rewrite map_app. cbn. split.
  - intros H. eexists. split; [done|]. eapply supervisor_inv_permutation, H. symmetry. apply Permutation_middle.
  - intros (fr & -> & H). eapply supervisor_inv_permutation, H. apply Permutation_middle.
Qed.

#[export] Instance supervisor_invariant : Invariant srest [] supervisor_compat supervisor_global.
Proof.
  split.
  - apply supervisor_split.
  - intros calls ls r s _ H. apply supervisor_split. eexists. split; [done|]. by rewrite app_nil_r.
  - intros calls l1 r l2 s (fr & -> & H)%supervisor_split. unfold supervisor_global. by rewrite map_app.
  - intros [argv0 pid|sa_id path|sa_id]; cbn [sys_perform supervisor_system supervisor_perform].
    + apply stays_bind; [apply sstays_main|intros ?; apply stays_ret].
    + by apply sstays_services.
    + by apply sstays_services.
  - intros fuel [enginePath registrySocket serviceSocket fd]. cbn [sys_run_worker supervisor_system supervisor_run_worker].
    apply stays_bind; [apply sstays_AcceptLoop|]. intros ?. apply sstays_update. by repeat split.
  - intros calls ls s s' (k & p & Hp & ->). by apply supervisor_inv_owned.
  - done.
Qed.

(** C13: Whatever the clients of the registry ask for and in every
    interleaving of the main thread and the registry's, the supervisor
    signals and waits for no process but a child it has started and not
    waited for yet, so that no signal can reach a process that was given the
    number of a child that is gone; and the process in the variable is such a
    child. *)
Theorem supervisor_signals_own_children cfg :
  reachable cfg -> signals_children (cf_state cfg) /\
  (0 < wo_engine_pid (rv_kernel (cf_state cfg)) -> wo_engine_pid (rv_kernel (cf_state cfg)) ∈ children (cf_state cfg)).
Proof.
  intros Hr. destruct (reachable_ok _ _ _ _ cfg) with (2 := Hr) as (ls & _ & _ & Hk & Hs).
  { intros s (k & p & ->). by repeat split; constructor. }
  split; [done|]. intros Hp. unfold owned, held in Hk. rewrite (proj2 (Z.ltb_lt _ _)) in Hk by done.
  by apply Forall_cons in Hk as [? _].
Qed.

End Invariant.

(** ** The registry's thread on its own *)

Section Alone.
Context {K P : Type} {SK : Sockets K} {LK : ListenSockets K} {PP : Processes P}.
Variables enginePath registrySocket serviceSocket : string.

#[local] Abbreviation state := (RegistryServer (world K P)).
#[local] Abbreviation supervisor_thread := (thread state supervisor_worker).

(** The callbacks, when no other thread runs. *)
Definition load_now (sa_id : Z) (s : state) : bool * state :=
  match alone (load_callback enginePath registrySocket serviceSocket sa_id) s with Returns x => x | _ => (false, s) end.

Definition unload_now (sa_id : Z) (s : state) : state :=
  match alone (unload_callback sa_id) s with Returns (_, s') => s' | _ => s end.

Lemma alone_worldly {A B} (f : world K P -> A * world K P) (k : A -> supervisor_thread B) s :
  alone (tbind (atomic (worldly f)) k) s = alone (k (f (rv_kernel s)).1) (s <| rv_kernel := (f (rv_kernel s)).2 |>).
Proof. rewrite alone_atomic. unfold bind, worldly. by destruct (f (rv_kernel s)). Qed.

Lemma alone_of_registry {A B} (f : state -> A * state) (k : A -> supervisor_thread B) s :
  alone (tbind (atomic (of_registry f)) k) s = alone (k (f s).1) (f s).2.
Proof. rewrite alone_atomic. unfold bind, of_registry. by destruct (f s). Qed.

Lemma alone_KillAndWait pid (s : state) : exists s', alone (KillAndWait pid) s = Returns (tt, s').
Proof.
  unfold KillAndWait, update, waitpid. destruct (0 <? pid); [|by eexists]. rewrite alone_modify, alone_yield, alone_worldly. by eexists.
Qed.

Lemma alone_load_callback sa_id s :
  alone (load_callback enginePath registrySocket serviceSocket sa_id) s = Returns (load_now sa_id s).
Proof.
  assert (H : exists x, alone (load_callback enginePath registrySocket serviceSocket sa_id) s = Returns x).
  { unfold load_callback, LoadPid, look, SpawnEngine, fork, ExchangePid. destruct (negb _); [by eexists|].
    rewrite alone_gets. destruct (0 <? _); [by eexists|]. rewrite alone_yield, alone_worldly.
    destruct (_ <? 0); [by eexists|]. rewrite alone_yield, alone_worldly. destruct (_ =? _) ; cbn -[KillAndWait]; [by eexists|].
    edestruct alone_KillAndWait as [s' Hs]. rewrite (alone_returns _ _ _ _ _ Hs). by eexists. }
  unfold load_now. destruct H as [x Hx]. by rewrite Hx.
Qed.

Lemma alone_unload_callback sa_id s : alone (unload_callback sa_id) s = Returns (tt, unload_now sa_id s).
Proof.
  assert (H : exists s', alone (unload_callback sa_id) s = Returns (tt, s')).
  { unfold unload_callback, TakePid. destruct (negb _); [by eexists|]. rewrite alone_worldly, alone_yield. apply alone_KillAndWait. }
  unfold unload_now. destruct H as [x Hx]. by rewrite Hx.
Qed.

(** The first part of [HandleLoadRequest]. *)
Definition service_found (sa_id : Z) (s : state) : bool * state :=
  match TryGetServicePath sa_id s with
  | None => (false, s)
  | Some path =>
      let '(reachable, k) := IsReachableServiceSocket path (rv_kernel s) in
      let s := s <| rv_kernel := k |> in
      if reachable then (true, s) else (false, snd (RemoveStaleService sa_id path s))
  end.

Lemma alone_find_service sa_id s : alone (find_service sa_id) s = Returns (service_found sa_id s).
Proof.
  unfold find_service, service_found. rewrite alone_gets. destruct (TryGetServicePath sa_id s) as [path|]; [|done].
  rewrite alone_yield, alone_of_registry. destruct (IsReachableServiceSocket path (rv_kernel s)) as [[] w]; cbn [fst snd]; [done|].
  by rewrite alone_of_registry.
Qed.

(** Handled by one thread, a request is handled as [Registry] says. *)
Lemma serve_request_alone req s :
  alone (serve_request enginePath registrySocket serviceSocket req) s =
  Returns (ProcessRequest (Some load_now) (Some unload_now) req s).
Proof.
  unfold serve_request, ProcessRequest. destruct (rr_op req).
  - by rewrite alone_modify.
  - rewrite alone_gets. by destruct (PopulateServiceResponse _ _ _).
  - unfold serve_load, HandleLoadRequest. fold (service_found (rr_sa_id req) s).
    assert (Hf := alone_find_service (rr_sa_id req) s). destruct (service_found (rr_sa_id req) s) as [found s1].
    rewrite (alone_returns _ _ _ _ _ Hf), alone_yield. unfold TryLoadService.
    assert (Hl : alone (if found : bool then mret true else load_callback enginePath registrySocket serviceSocket (rr_sa_id req)) s1 =
                 Returns (if found then (true, s1) else load_now (rr_sa_id req) s1))
      by (destruct found; [done|apply alone_load_callback]).
    destruct (if found then (true, s1) else load_now (rr_sa_id req) s1) as [found' s2].
    rewrite (alone_returns _ _ _ _ _ Hl). destruct found'; cbn [negb]; [|done].
    rewrite alone_yield, alone_gets. by destruct (PopulateServiceResponse _ _ _).
  - by rewrite alone_modify, alone_yield, (alone_returns _ _ _ _ _ (alone_unload_callback _ _)).
  - done.
Qed.

(** The engine has died: the variable still has its number, and what it
    registered, if anything, cannot be reached. *)
Definition engine_lost (s : state) : Prop :=
  0 < wo_engine_pid (rv_kernel s) /\ (service_found VIRUS_PROTECTION_EXECUTOR_SA_ID s).1 = false.

Definition load_request : RegistryRequest :=
  {| rr_op := RegistryLoad; rr_sa_id := VIRUS_PROTECTION_EXECUTOR_SA_ID; rr_payload := "" |}.

(** Requests to load the engine, one after the other. *)
Fixpoint load_requests (n : nat) : supervisor_thread (list RegistryResponse) :=
  match n with
  | O => mret []
  | S n =>
      resp ← serve_request enginePath registrySocket serviceSocket load_request;
      resps ← load_requests n;
      mret (resp :: resps)
  end.

Lemma reachable_check_state path (w : world K P) :
  wo_engine_pid (IsReachableServiceSocket path w).2 = wo_engine_pid w /\
  wo_processes (IsReachableServiceSocket path w).2 = wo_processes w.
Proof.
  unfold IsReachableServiceSocket. destruct (bool_decide _); [done|]. cbn. unfold on_sockets.
  destruct (sk_socket _) as [fd k]. destruct (fd <? 0); [done|]. cbn. by destruct (sk_connect _ _ _).
Qed.

(** Looking for the engine keeps the processes, and forgets it when it is not
    found. *)
Lemma service_found_state sa_id s :
  wo_engine_pid (rv_kernel (service_found sa_id s).2) = wo_engine_pid (rv_kernel s) /\
  wo_processes (rv_kernel (service_found sa_id s).2) = wo_processes (rv_kernel s) /\
  ((service_found sa_id s).1 = false -> rv_services (service_found sa_id s).2 !! sa_id = None).
Proof.
  unfold service_found. destruct (TryGetServicePath sa_id s) as [path|] eqn:E; [|by repeat split].
  destruct (reachable_check_state path (rv_kernel s)) as (He & Hp). destruct (IsReachableServiceSocket path (rv_kernel s)) as [[] w]; [done|].
  unfold RemoveStaleService. cbn. unfold TryGetServicePath in E. rewrite E, bool_decide_eq_false_2 by tauto. cbn.
  by rewrite lookup_delete_eq.
Qed.

Lemma load_when_lost s : engine_lost s ->
  exists s', alone (serve_request enginePath registrySocket serviceSocket load_request) s =
    Returns ({| rn_err_code := -1; rn_payload := "" |}, s') /\
    engine_lost s' /\ wo_processes (rv_kernel s') = wo_processes (rv_kernel s).
Proof.
  intros [Hp Hf]. destruct (service_found_state VIRUS_PROTECTION_EXECUTOR_SA_ID s) as (He & Hpr & Hno).
  specialize (Hno Hf). rewrite serve_request_alone. unfold ProcessRequest, HandleLoadRequest. cbn [rr_op rr_sa_id load_request].
  fold (service_found VIRUS_PROTECTION_EXECUTOR_SA_ID s).
  destruct (service_found VIRUS_PROTECTION_EXECUTOR_SA_ID s) as [found s1]. cbn [fst snd] in *. subst found.
  assert (Hl : TryLoadService (Some load_now) VIRUS_PROTECTION_EXECUTOR_SA_ID s1 = (true, s1)).
  { unfold TryLoadService, load_now, load_callback, LoadPid, look. cbn [Z.eqb Pos.eqb negb VIRUS_PROTECTION_EXECUTOR_SA_ID].
    rewrite alone_gets, He, (proj2 (Z.ltb_lt _ _)) by done. done. }
  rewrite Hl. cbn [negb]. unfold PopulateServiceResponse, TryGetServicePath. rewrite Hno.
  exists s1. split; [done|]. split; [|done]. split; [by rewrite He|]. unfold service_found, TryGetServicePath. by rewrite Hno.
Qed.


End Alone.

(** ** A supervisor in a concrete environment *)
Module SupervisorDemo.

(** Every connection brings a request to load the engine; no service can be
    reached. *)
Definition request : bytes := le_bytes 4 7 ++ (EncodeRegistryRequest load_request Ptr).2.

#[global] Instance sockets : Sockets bytes := {|
  sk_socket k := (3, k); sk_connect _ _ k := (-1, k); sk_send _ data k := (Zlen data, k);
  sk_recv _ want k := ((want, Ztake want k), Zdrop want k); sk_recv_waitall _ want k := ((want, Ztake want k), Zdrop want k);
  sk_peek _ k := ((1, 0), k); sk_recvmsg _ _ k := ((0, [], None), k); sk_sendmsg _ _ _ k := (-1, k);
  sk_poll _ _ k := (1, k); sk_shutdown _ k := k; sk_close _ k := k |}.

#[global] Instance listen_sockets : ListenSockets bytes := {|
  sk_unlink _ k := k; sk_bind _ _ k := (0, k); sk_listen _ _ k := (0, k); sk_accept _ k := (5, request) |}.

(** The children, and the number of the next one. *)
Record table : Type := { tb_children : gset Z; tb_next : positive }.

#[global] Instance processes : Processes table := {|
  pr_fork _ _ _ p := if bool_decide (Z.pos (tb_next p) ∈ tb_children p) then (-1, p)
    else (Z.pos (tb_next p), {| tb_children := {[Z.pos (tb_next p)]} ∪ tb_children p; tb_next := Pos.succ (tb_next p) |});
  pr_kill _ _ p := p;
  pr_waitpid pid p := (0, {| tb_children := tb_children p ∖ {[pid]}; tb_next := tb_next p |}) |}.

#[global] Instance process_laws : ProcessLaws table.
Proof.
  refine {| pr_children := tb_children |}.
  - intros env program args p pid p'. cbn. destruct (bool_decide _) eqn:E; intros [= <- <-]; [by left|].
    apply bool_decide_eq_false in E. by right.
  - done.
  - by intros pid p status p' [= _ <-].
Defined.

Abbreviation state := (RegistryServer (world bytes table)).

Definition start : config state supervisor_worker :=
  {| cf_state := {| rv_services := ∅; rv_kernel := world_new [] {| tb_children := ∅; tb_next := 100 |} |};
     cf_pool := []; cf_calls := [] |}.

Definition after (ms : list move) : config state supervisor_worker :=
  match exec ms start with Some cfg => cfg | None => start end.

Definition is_some {A} (x : option A) : bool := match x with Some _ => true | None => false end.

Lemma supervisor_reachable ms : is_some (exec ms start) = true -> reachable (after ms).
Proof.
  intros Hms. exists (cf_state start). split; [by eexists _, _|]. unfold after.
  destruct (exec ms start) eqn:E; [|done]. by apply exec_steps in E.
Qed.

Definition runs (threads : list nat) : list move := map (fun i => MRun i 50) threads.

Definition program : move := MCall (OpMain "/usr/bin/supervisor" 42).

(** The registry's thread takes a request after the main thread has ended the
    engine and before it stops the registry. *)
Definition late_request : list move :=
  program :: runs (repeat 0%nat 8 ++ repeat 1%nat 9 ++ [0; 0; 1; 1; 0; 0]%nat).

(** The engine was started and has died. *)
Definition died : state :=
  {| rv_services := {[VIRUS_PROTECTION_EXECUTOR_SA_ID := "/tmp/gone"]};
     rv_kernel := (world_new [] {| tb_children := {[7]}; tb_next := 100 |}) <| wo_engine_pid := 7 |> |}.

End SupervisorDemo.

Lemma supervisor_signals_own_children_witness :
  let cfg := SupervisorDemo.after SupervisorDemo.late_request in
  map fst (wo_signalled (rv_kernel (cf_state cfg))) = [100; 100; 101] /\ signals_children (cf_state cfg) /\
  (0 < wo_engine_pid (rv_kernel (cf_state cfg)) -> wo_engine_pid (rv_kernel (cf_state cfg)) ∈ children (cf_state cfg)).
Proof.
  intros cfg. split; [vm_compute; reflexivity|]. apply supervisor_signals_own_children, SupervisorDemo.supervisor_reachable.
  vm_compute. reflexivity.
Defined.


(** The supervisor ends the engine before it stops the registry.  A request to
    load the engine that comes in between starts another one; the supervisor
    then returns and leaves it running, without a parent and without a
    registry. *)
Theorem supervisor_leaves_engine :
  let cfg := SupervisorDemo.after SupervisorDemo.late_request in
  reachable cfg /\ cf_pool cfg = [] /\ wo_accept_thread (rv_kernel (cf_state cfg)) = false /\
  102 ∈ children (cf_state cfg).
Proof.
  intros cfg. split; [apply SupervisorDemo.supervisor_reachable; vm_compute; reflexivity|].
  split; [vm_compute; reflexivity|]. split; [vm_compute; reflexivity|].
  apply (bool_decide_eq_true_1 (102 ∈ children (cf_state cfg))). vm_compute. reflexivity.
Qed.
