(* ===== verification/SystemAbility.v ===== *)
(** * System abilities

    third_party/ohos_sa_mock: remote objects with their death recipients
    (iremote_object.cpp), brokers (iremote_broker_registry.cpp,
    iremote_broker.h, iremote_stub.h), the two managers of system abilities
    and the publication of one (system_ability_manager.cpp), with the backend
    of transport/registry_backend.cpp.  The objects of a process are numbered;
    a weak pointer is a number that may have been destroyed.  Calls of
    [OnRemoteDied] are recorded. *)

From Stdlib Require Import Lia String.
From S2P Require Import Prelude Machine Types Sockets VesMessages Registry.

Definition ERR_OK : Z := 0.
Definition ERR_INVALID_VALUE : Z := -1.
Definition ERR_NULL_OBJECT : Z := -2.
Definition ERR_NAME_NOT_FOUND : Z := -3.

(** [IRemoteObject::Impl]. *)
Record RemoteObject : Type := {
  ro_is_dead : bool;
  ro_recipients : list nat;
  ro_broker : option nat;
  ro_sa_id : Z;
  ro_service_path : string;
  ro_request_handler : option nat;                (* the stub that handles requests *)
}.

#[export] Instance RemoteObject_eta : Eta RemoteObject := fun r =>
  Build_RemoteObject (ro_is_dead r) (ro_recipients r) (ro_broker r) (ro_sa_id r) (ro_service_path r) (ro_request_handler r).

Definition RemoteObject_new : RemoteObject := {|
  ro_is_dead := false; ro_recipients := []; ro_broker := None; ro_sa_id := -1; ro_service_path := "";
  ro_request_handler := None |}.

(** The objects of a process; which of the recipients, brokers and stubs are
    not destroyed; the number of the next object; the table of the local
    manager; the factories of [BrokerRegistration]. *)
Record Process : Type := {
  pc_objects : gmap nat RemoteObject;
  pc_live : gset nat;
  pc_next : nat;
  pc_abilities : gmap Z nat;
  pc_creators : gset Z;
  pc_notified : list (nat * nat);                 (* recipient and object, in order *)
}.

#[export] Instance Process_eta : Eta Process := fun r =>
  Build_Process (pc_objects r) (pc_live r) (pc_next r) (pc_abilities r) (pc_creators r) (pc_notified r).

Definition Process_new (live : gset nat) : Process := {|
  pc_objects := ∅; pc_live := live; pc_next := 0; pc_abilities := ∅; pc_creators := ∅; pc_notified := [] |}.

(** [lock] of a weak pointer. *)
Definition locked (p : Process) (x : nat) : bool := bool_decide (x ∈ pc_live p).

Definition the_object (o : nat) (p : Process) : RemoteObject := default RemoteObject_new (pc_objects p !! o).

Definition change_object (o : nat) (f : RemoteObject -> RemoteObject) (p : Process) : Process :=
  p <| pc_objects := alter f o (pc_objects p) |>.

(** [make_shared<IRemoteObject>]. *)
Definition new_object (p : Process) : nat * Process :=
  (pc_next p, p <| pc_objects := <[pc_next p := RemoteObject_new]> (pc_objects p) |> <| pc_next := S (pc_next p) |>).

(** ** Remote objects *)

Definition IsObjectDead (o : nat) (p : Process) : bool := ro_is_dead (the_object o p).

Definition AddDeathRecipient (o : nat) (recipient : option nat) (p : Process) : bool * Process :=
  match recipient with
  | None => (false, p)
  | Some x => (true, change_object o (fun r => r <| ro_recipients := ro_recipients r ++ [x] |>) p)
  end.

(** It also forgets recipients that were destroyed. *)
Definition RemoveDeathRecipient (o : nat) (recipient : option nat) (p : Process) : bool * Process :=
  match recipient with
  | None => (false, p)
  | Some x =>
      let kept := filter (fun y => y ∈ pc_live p /\ y <> x) (ro_recipients (the_object o p)) in
      (negb (length kept =? length (ro_recipients (the_object o p)))%nat,
       change_object o (fun r => r <| ro_recipients := kept |>) p)
  end.

Definition NotifyRemoteDiedForTest (o : nat) (p : Process) : Process :=
  let recipients := filter (fun y => y ∈ pc_live p) (ro_recipients (the_object o p)) in
  (change_object o (fun r => r <| ro_is_dead := true |>) p)
    <| pc_notified := pc_notified p ++ map (fun x => (x, o)) recipients |>.

Definition AttachBroker (o : nat) (broker : option nat) (p : Process) : Process :=
  change_object o (fun r => r <| ro_broker := broker |>) p.

Definition GetBroker (o : nat) (p : Process) : option nat :=
  match ro_broker (the_object o p) with
  | Some b => if locked p b then Some b else None
  | None => None
  end.

Definition SetSaId (o : nat) (saId : Z) (p : Process) : Process := change_object o (fun r => r <| ro_sa_id := saId |>) p.
Definition GetSaId (o : nat) (p : Process) : Z := ro_sa_id (the_object o p).

Definition SetServicePath (o : nat) (path : string) (p : Process) : Process :=
  change_object o (fun r => r <| ro_service_path := path |>) p.
Definition IRemoteObject_GetServicePath (o : nat) (p : Process) : string := ro_service_path (the_object o p).

Definition SetRequestHandler (o : nat) (handler : option nat) (p : Process) : Process :=
  change_object o (fun r => r <| ro_request_handler := handler |>) p.

(** ** Brokers *)

Definition BrokerRegistration_Register (saId : Z) (p : Process) : Process := p <| pc_creators := {[saId]} ∪ pc_creators p |>.

(** The factories construct a proxy for the object, which is then alive. *)
Definition CreateBroker (saId : Z) (remote : option nat) (p : Process) : option nat * Process :=
  match remote with
  | None => (None, p)
  | Some _ =>
      if bool_decide (saId ∈ pc_creators p)
      then (Some (pc_next p), p <| pc_live := {[pc_next p]} ∪ pc_live p |> <| pc_next := S (pc_next p) |>)
      else (None, p)
  end.

Definition iface_cast (object : option nat) (p : Process) : option nat * Process :=
  match object with
  | None => (None, p)
  | Some o =>
      match GetBroker o p with
      | Some b => (Some b, p)
      | None =>
          if 0 <=? GetSaId o p then
            let '(broker, p) := CreateBroker (GetSaId o p) (Some o) p in
            match broker with
            | Some b => (Some b, AttachBroker o (Some b) p)
            | None => (None, p)
            end
          else (None, p)
      end
  end.

(** [AsObject] of a stub that has the object [remote], if any. *)
Definition IRemoteStub_AsObject (stub : nat) (remote : option nat) (p : Process) : nat * Process :=
  match remote with
  | Some o => (o, p)
  | None => let '(o, p) := new_object p in (o, SetRequestHandler o (Some stub) (AttachBroker o (Some stub) p))
  end.

(** The destructor of a stub. *)
Definition IRemoteStub_destroy (stub : nat) (remote : option nat) (p : Process) : Process :=
  let p := match remote with Some o => SetRequestHandler o None p | None => p end in
  p <| pc_live := pc_live p ∖ {[stub]} |>.

(** The handler a request reaches: the stub, unless it was destroyed. *)
Definition HandleRequest (o : nat) (p : Process) : option nat :=
  match ro_request_handler (the_object o p) with
  | Some stub => if locked p stub then Some stub else None
  | None => None
  end.

(** ** The manager of one process *)

Definition Local_AddSystemAbility (saId : Z) (object : option nat) (p : Process) : Z * Process :=
  match object with
  | None => (ERR_NULL_OBJECT, p)
  | Some o => (ERR_OK, p <| pc_abilities := <[saId := o]> (pc_abilities p) |>)
  end.

Definition Local_CheckSystemAbility (saId : Z) (p : Process) : option nat := pc_abilities p !! saId.

Definition Local_LoadSystemAbility (saId timeout : Z) (p : Process) : option nat := Local_CheckSystemAbility saId p.

Definition Local_UnloadSystemAbility (saId : Z) (p : Process) : Z * Process :=
  match pc_abilities p !! saId with
  | None => (ERR_NAME_NOT_FOUND, p)
  | Some o => (ERR_OK, NotifyRemoteDiedForTest o (p <| pc_abilities := delete saId (pc_abilities p) |>))
  end.

(** ** The manager that asks a registry *)

(** [ISamBackend], with the clock. *)
Class SamBackend (B : Type) : Type := {
  bk_GetServicePath : Z -> B -> run (string * B);
  bk_LoadService : Z -> B -> run (string * B);
  bk_AddService : Z -> string -> B -> run (bool * B);
  bk_UnloadService : Z -> B -> run (bool * B);
  bk_now : B -> Z;
  bk_sleep : Z -> B -> B;
}.

Section Remote.
Context {B : Type} {BK : SamBackend B}.

Definition Remote_AddSystemAbility (saId : Z) (object : option nat) (p : Process) (b : B) : run (Z * B) :=
  match object with
  | None => Returns (ERR_NULL_OBJECT, b)
  | Some o =>
      let! (ok, b) := bk_AddService saId (IRemoteObject_GetServicePath o p) b in
      Returns (if ok : bool then ERR_OK else ERR_INVALID_VALUE, b)
  end.

(** A new object for the service at a path. *)
Definition object_at (saId : Z) (path : string) (p : Process) : nat * Process :=
  let '(o, p) := new_object p in (o, SetServicePath o path (SetSaId o saId p)).

Definition Remote_CheckSystemAbility (saId : Z) (p : Process) (b : B) : run (option nat * Process * B) :=
  let! (path, b) := bk_GetServicePath saId b in
  if bool_decide (path = "") then Returns (None, p, b) else
  let '(o, p) := object_at saId path p in Returns (Some o, p, b).

Fixpoint load_loop (fuel : nat) (saId timeout deadline : Z) (p : Process) (b : B) : run (option nat * Process * B) :=
  match fuel with
  | O => OutOfFuel
  | S fuel =>
      let! (path, b) := bk_LoadService saId b in
      if bool_decide (path <> "") then let '(o, p) := object_at saId path p in Returns (Some o, p, b) else
      if (timeout <=? 0) || (deadline <=? bk_now b) then Returns (None, p, b) else
      load_loop fuel saId timeout deadline p (bk_sleep 20 b)
  end.

Definition Remote_LoadSystemAbility (fuel : nat) (saId timeout : Z) (p : Process) (b : B) : run (option nat * Process * B) :=
  load_loop fuel saId timeout (bk_now b + (if 0 <? timeout then timeout else 0)) p b.

Definition Remote_UnloadSystemAbility (saId : Z) (b : B) : run (Z * B) :=
  let! (ok, b) := bk_UnloadService saId b in Returns (if ok : bool then ERR_OK else ERR_NAME_NOT_FOUND, b).

(** ** The manager of the process

    [GetSystemAbilityManager]: the one that asks the backend when there is
    one, and otherwise the local one. *)

Definition AddSystemAbility (saId : Z) (object : option nat) (p : Process) (backend : option B) : run (Z * Process * option B) :=
  match backend with
  | Some b => let! (err, b) := Remote_AddSystemAbility saId object p b in Returns (err, p, Some b)
  | None => let '(err, p) := Local_AddSystemAbility saId object p in Returns (err, p, None)
  end.

Definition CheckSystemAbility (saId : Z) (p : Process) (backend : option B) : run (option nat * Process * option B) :=
  match backend with
  | Some b => let! (o, p, b) := Remote_CheckSystemAbility saId p b in Returns (o, p, Some b)
  | None => Returns (Local_CheckSystemAbility saId p, p, None)
  end.

Definition LoadSystemAbility (fuel : nat) (saId timeout : Z) (p : Process) (backend : option B)
    : run (option nat * Process * option B) :=
  match backend with
  | Some b => let! (o, p, b) := Remote_LoadSystemAbility fuel saId timeout p b in Returns (o, p, Some b)
  | None => Returns (Local_LoadSystemAbility saId timeout p, p, None)
  end.

Definition UnloadSystemAbility (saId : Z) (p : Process) (backend : option B) : run (Z * Process * option B) :=
  match backend with
  | Some b => let! (err, b) := Remote_UnloadSystemAbility saId b in Returns (err, p, Some b)
  | None => let '(err, p) := Local_UnloadSystemAbility saId p in Returns (err, p, None)
  end.

(** [SystemAbility::Publish], with the [Start] of its transport. *)
Definition Publish {T} (transport_Start : string -> nat -> T -> bool * T) (saId : Z) (object : option nat) (p : Process)
    (backend : option B) (t : T) : run (bool * Process * option B * T) :=
  match object with
  | None => Returns (false, p, backend, t)
  | Some o =>
      let! (err, p, backend) := AddSystemAbility saId (Some o) p backend in
      if negb (err =? ERR_OK) then Returns (false, p, backend, t) else
      let path := IRemoteObject_GetServicePath o p in
      if bool_decide (path = "") then Returns (true, p, backend, t) else
      let '(started, t) := transport_Start path o t in Returns (started, p, backend, t)
  end.

End Remote.

(** [RegistryBackend]: the backend that talks to a registry over its socket. *)
Definition RegistryBackend {K} {SK : Sockets K} (fuel : nat) (registrySocketPath : string) (now : K -> Z) (sleep : Z -> K -> K)
    : SamBackend K := {|
  bk_GetServicePath := GetServicePath fuel registrySocketPath; bk_LoadService := LoadServicePath fuel registrySocketPath;
  bk_AddService := RegistryClient_RegisterService fuel registrySocketPath;
  bk_UnloadService := UnloadService fuel registrySocketPath; bk_now := now; bk_sleep := sleep |}.

(** ** Objects *)

Lemma the_object_change o f p o' : is_Some (pc_objects p !! o) ->
  the_object o' (change_object o f p) = if bool_decide (o' = o) then f (the_object o' p) else the_object o' p.
Proof.
  intros [r Hr]. unfold the_object, change_object. cbn. case_bool_decide as E.
  - subst. by rewrite lookup_alter_eq, Hr.
  - by rewrite lookup_alter_ne by done.
Qed.

(** The objects a process has. *)
Definition known (o : nat) (p : Process) : Prop := is_Some (pc_objects p !! o).

(** An object for the service at a path that was not cast yet. *)
Definition object_fresh (o : nat) (saId : Z) (path : string) (p : Process) : Prop :=
  known o p /\ GetSaId o p = saId /\ IRemoteObject_GetServicePath o p = path /\ IsObjectDead o p = false /\
  ro_broker (the_object o p) = None.

Lemma object_at_fresh saId path p o p' : object_at saId path p = (o, p') -> object_fresh o saId path p'.
Proof.
  unfold object_at, new_object. intros [= <- <-]. unfold object_fresh, known, GetSaId, IRemoteObject_GetServicePath, IsObjectDead, the_object.
  cbn. rewrite !lookup_alter_eq, lookup_insert_eq. cbn. by repeat split.
Qed.

(** ** Loading an ability *)

Section Loading.
Context {B : Type} {BK : SamBackend B}.

(** The backend answers, and time does not go backwards. *)
Class BackendAnswers : Prop := {
  get_answers saId b : exists path b', bk_GetServicePath saId b = Returns (path, b');
  load_answers saId b : exists path b', bk_LoadService saId b = Returns (path, b') /\ bk_now b <= bk_now b';
  sleep_advances ms b : bk_now b + ms <= bk_now (bk_sleep ms b);
}.

Context {BA : BackendAnswers}.

Lemma load_loop_spec fuel saId timeout deadline p b :
  deadline - bk_now b <= 20 * (Z.of_nat fuel - 1) -> 0 < Z.of_nat fuel ->
  exists o p' b', load_loop fuel saId timeout deadline p b = Returns (o, p', b') /\
    match o with
    | None => p' = p /\ (timeout <= 0 \/ deadline <= bk_now b')
    | Some o => exists path, path <> "" /\ object_at saId path p = (o, p')
    end.
Proof.
  revert b. induction fuel as [|fuel IH]; intros b Hf Hpos; [lia|]. cbn [load_loop].
  destruct (load_answers saId b) as (path & b1 & -> & Hb1). cbn [run_bind]. case_bool_decide as Hpath.
  { destruct (object_at saId path p) as [o p'] eqn:E. eexists _, _, _. split; [done|]. by exists path. }
  destruct (Z.leb_spec timeout 0); cbn [orb]; [by eexists _, _, _; split; [done|]; split; [done|]; left|].
  destruct (Z.leb_spec deadline (bk_now b1)); [by eexists _, _, _; split; [done|]; split; [done|]; right|].
  pose proof (sleep_advances 20 b1). apply IH; lia.
Qed.

Lemma load_ability_new saId timeout p b :
  exists o p' b', Remote_LoadSystemAbility (Z.to_nat (timeout / 20) + 2) saId timeout p b = Returns (o, p', b') /\
    match o with
    | None => p' = p /\ (0 < timeout -> bk_now b + timeout <= bk_now b')
    | Some o => exists path, path <> "" /\ object_at saId path p = (o, p')
    end.
Proof.
  unfold Remote_LoadSystemAbility.
  destruct (load_loop_spec (Z.to_nat (timeout / 20) + 2) saId timeout (bk_now b + (if 0 <? timeout then timeout else 0)) p b)
    as (o & p' & b' & -> & H); [|lia|].
  - destruct (Z.ltb_spec 0 timeout); [|lia]. pose proof (Z.div_mod timeout 20 ltac:(lia)). pose proof (Z.mod_pos_bound timeout 20 ltac:(lia)).
    assert (0 <= timeout / 20) by (apply Z.div_pos; lia). lia.
  - exists o, p', b'. split; [done|]. destruct o; [done|]. destruct H as [-> Hd]. split; [done|]. intros Ht.
    rewrite (proj2 (Z.ltb_lt _ _)) in Hd by done. lia.
Qed.

(** Loading a system ability from the registry returns, whatever the
    registry answers: after at most one attempt for every twenty milliseconds
    of its time-out, it has an object for the service at the path the registry
    gave, or the time is up. *)
Theorem load_ability_returns saId timeout p b :
  exists o p' b', Remote_LoadSystemAbility (Z.to_nat (timeout / 20) + 2) saId timeout p b = Returns (o, p', b') /\
    match o with
    | None => p' = p /\ (0 < timeout -> bk_now b + timeout <= bk_now b')
    | Some o => exists path, path <> "" /\ object_fresh o saId path p'
    end.
Proof.
  destruct (load_ability_new saId timeout p b) as (o & p' & b' & -> & H). exists o, p', b'. split; [done|].
  destruct o; [|done]. destruct H as (path & Hp & Ho). exists path. split; [done|by eapply object_at_fresh].
Qed.

End Loading.

(** ** What can happen to a process *)

Section Operations.
Context {B : Type} {BK : SamBackend B}.

Inductive process_op : Type :=
| OpNewObject
| OpAddRecipient (o : nat) (recipient : option nat)
| OpRemoveRecipient (o : nat) (recipient : option nat)
| OpSetServicePath (o : nat) (path : string)
| OpRegisterBroker (saId : Z)
| OpIfaceCast (object : option nat)
| OpAsObject (stub : nat) (remote : option nat)
| OpDestroyStub (stub : nat) (remote : option nat)
| OpAddAbility (saId : Z) (object : option nat)
| OpCheckAbility (saId : Z)
| OpLoadAbility (fuel : nat) (saId timeout : Z)
| OpUnloadAbility (saId : Z)
| OpOutside (f : B -> B).                         (* services start, end and crash *)

Definition process_do (op : process_op) (p : Process) (backend : option B) : run (Process * option B) :=
  match op with
  | OpNewObject => Returns (snd (new_object p), backend)
  | OpAddRecipient o x => Returns (snd (AddDeathRecipient o x p), backend)
  | OpRemoveRecipient o x => Returns (snd (RemoveDeathRecipient o x p), backend)
  | OpSetServicePath o path => Returns (SetServicePath o path p, backend)
  | OpRegisterBroker saId => Returns (BrokerRegistration_Register saId p, backend)
  | OpIfaceCast object => Returns (snd (iface_cast object p), backend)
  | OpAsObject stub remote => Returns (snd (IRemoteStub_AsObject stub remote p), backend)
  | OpDestroyStub stub remote => Returns (IRemoteStub_destroy stub remote p, backend)
  | OpAddAbility saId object => let! (_, p, backend) := AddSystemAbility saId object p backend in Returns (p, backend)
  | OpCheckAbility saId => let! (_, p, backend) := CheckSystemAbility saId p backend in Returns (p, backend)
  | OpLoadAbility fuel saId timeout =>
      let! (_, p, backend) := LoadSystemAbility fuel saId timeout p backend in Returns (p, backend)
  | OpUnloadAbility saId => let! (_, p, backend) := UnloadSystemAbility saId p backend in Returns (p, backend)
  | OpOutside f => Returns (p, f <$> backend)
  end.

Fixpoint process_run (ops : list process_op) (p : Process) (backend : option B) : run (Process * option B) :=
  match ops with
  | [] => Returns (p, backend)
  | op :: ops => let! (p, backend) := process_do op p backend in process_run ops p backend
  end.

(** No object is dead and no recipient was told. *)
Definition all_alive (p : Process) : Prop :=
  pc_notified p = [] /\ map_Forall (fun _ r => ro_is_dead r = false) (pc_objects p).

Lemma all_alive_change o f p :
  (forall r, ro_is_dead (f r) = ro_is_dead r) -> all_alive p -> all_alive (change_object o f p).
Proof.
  intros Hf [Hn Ha]. split; [done|]. intros o' r. cbn. rewrite lookup_alter. case_decide as E; [|apply Ha]. subst.
  destruct (pc_objects p !! o') as [r0|] eqn:Hr; cbn; [|done]. intros [= <-]. rewrite Hf. by eapply Ha.
Qed.

Lemma all_alive_new p : all_alive p -> all_alive (snd (new_object p)).
Proof. intros [Hn Ha]. split; [done|]. apply map_Forall_insert_2; [done|exact Ha]. Qed.

Lemma all_alive_object_at saId path p o p' : object_at saId path p = (o, p') -> all_alive p -> all_alive p'.
Proof. intros [= _ <-] Ha. unfold SetServicePath, SetSaId. apply all_alive_change, all_alive_change, all_alive_new; done. Qed.

Lemma all_alive_load fuel saId timeout deadline p b o p' b' :
  load_loop fuel saId timeout deadline p b = Returns (o, p', b') -> all_alive p -> all_alive p'.
Proof.
  revert b. induction fuel as [|fuel IH]; intros b; [done|]. cbn [load_loop].
  destruct (bk_LoadService saId b) as [[path b1]| |]; [|done..]. cbn [run_bind]. destruct (bool_decide _).
  - destruct (object_at saId path p) as [o1 p1] eqn:E. intros [= _ <- _]. by eapply all_alive_object_at.
  - destruct (_ || _); [by intros [= _ <- _]|apply IH].
Qed.

Lemma all_alive_cast object p : all_alive p -> all_alive (snd (iface_cast object p)).
Proof.
  intros Ha. unfold iface_cast, CreateBroker. destruct object as [o|]; [|done]. destruct (GetBroker o p); [done|].
  destruct (0 <=? _); [|done]. destruct (bool_decide _); [|done]. cbn. unfold AttachBroker. by apply all_alive_change.
Qed.

Lemma process_do_alive op p b p' backend' :
  process_do op p (Some b) = Returns (p', backend') -> all_alive p -> all_alive p' /\ is_Some backend'.
Proof.
  intros Hdo Ha.
  assert (Hret : forall q, all_alive q -> Returns (q, Some b) = Returns (p', backend') -> all_alive p' /\ is_Some backend')
    by (intros q Hq [= <- <-]; by split).
  destruct op; cbn [process_do] in Hdo; try (eapply Hret, Hdo).
  - by apply all_alive_new.
  - destruct recipient; cbn; [by apply all_alive_change|done].
  - destruct recipient; cbn; [by apply all_alive_change|done].
  - by apply all_alive_change.
  - done.
  - by apply all_alive_cast.
  - destruct remote; [done|]. apply all_alive_new in Ha. cbn [IRemoteStub_AsObject new_object snd] in *.
    unfold SetRequestHandler, AttachBroker. by apply all_alive_change, all_alive_change.
  - destruct remote as [o|]; [|done]. by apply (all_alive_change o (fun r => r <| ro_request_handler := None |>)) in Ha.
  - cbn in Hdo. unfold Remote_AddSystemAbility in Hdo. destruct object; [|by injection Hdo as <- <-].
    destruct (bk_AddService _ _ b) as [[ok b1]| |]; [|done..]. by injection Hdo as <- <-.
  - cbn in Hdo. unfold Remote_CheckSystemAbility in Hdo. destruct (bk_GetServicePath _ b) as [[path b1]| |]; [|done..].
    cbn [run_bind] in Hdo. destruct (bool_decide _); [by injection Hdo as <- <-|].
    destruct (object_at saId path p) as [o p1] eqn:E. injection Hdo as <- <-. split; [by eapply all_alive_object_at|done].
  - cbn in Hdo. unfold Remote_LoadSystemAbility in Hdo. destruct (load_loop _ _ _ _ _ _) as [[[o p1] b1]| |] eqn:E; [|done..].
    injection Hdo as <- <-. split; [by eapply all_alive_load|done].
  - cbn in Hdo. unfold Remote_UnloadSystemAbility in Hdo. destruct (bk_UnloadService _ b) as [[ok b1]| |]; [|done..].
    by injection Hdo as <- <-.
  - injection Hdo as <- <-. by split.
Qed.

(** With a registry, the death of a service is never noticed: whatever a
    process does with its managers, objects and brokers, and whatever happens
    to the services outside, no object of it is ever dead and no death
    recipient is ever called.  Only unloading an ability of the local manager
    does that. *)
Theorem remote_death_never_reported ops live b p' backend' :
  process_run ops (Process_new live) (Some b) = Returns (p', backend') ->
  pc_notified p' = [] /\ forall o, IsObjectDead o p' = false.
Proof.
  intros Hr. enough (Ha : all_alive p').
  { split; [apply Ha|]. intros o. unfold IsObjectDead, the_object. destruct (pc_objects p' !! o) eqn:E; [|done]. by eapply Ha. }
  assert (H0 : all_alive (Process_new live)) by (split; [done|apply map_Forall_empty]).
  revert b Hr H0. generalize (Process_new live). induction ops as [|op ops IH]; intros p b; cbn [process_run]; [by intros [= <- _]|].
  destruct (process_do op p (Some b)) as [[p1 backend1]| |] eqn:E; [|done..]. intros Hr Ha.
  destruct (process_do_alive _ _ _ _ _ E Ha) as [Ha1 [b1 ->]]. by eapply IH.
Qed.

End Operations.

(** ** The local manager *)

(** Unloading an ability of the local manager marks its object as dead and
    tells every registered recipient that still exists, in the order they were
    added; nothing else changes. *)
Theorem unload_tells_recipients saId o p :
  pc_abilities p !! saId = Some o -> known o p ->
  exists p', Local_UnloadSystemAbility saId p = (ERR_OK, p') /\ IsObjectDead o p' = true /\
    Local_CheckSystemAbility saId p' = None /\ (forall saId', saId' <> saId -> Local_CheckSystemAbility saId' p' = Local_CheckSystemAbility saId' p) /\
    (forall o', o' <> o -> the_object o' p' = the_object o' p) /\
    pc_notified p' = pc_notified p ++ map (fun x => (x, o)) (filter (fun x => x ∈ pc_live p) (ro_recipients (the_object o p))).
Proof.
  intros Ho Hk. unfold Local_UnloadSystemAbility. rewrite Ho. eexists. split; [done|]. unfold NotifyRemoteDiedForTest, IsObjectDead.
  assert (Hk' : known o (p <| pc_abilities := delete saId (pc_abilities p) |>)) by done.
  pose proof (fun o' => the_object_change o (fun r => r <| ro_is_dead := true |>) _ o' Hk') as Hobj.
  split; [|split; [|split; [|split]]].
  - change (ro_is_dead (the_object o (change_object o (fun r => r <| ro_is_dead := true |>)
      (p <| pc_abilities := delete saId (pc_abilities p) |>))) = true). by rewrite Hobj, bool_decide_eq_true_2 by done.
  - apply lookup_delete_eq.
  - intros saId' Hne. by apply lookup_delete_ne.
  - intros o' Hne. change (the_object o' (change_object o (fun r => r <| ro_is_dead := true |>)
      (p <| pc_abilities := delete saId (pc_abilities p) |>)) = the_object o' p). by rewrite Hobj, bool_decide_eq_false_2 by done.
  - done.
Qed.

(** A recipient that was added is told, and one that was removed is not. *)
Lemma added_recipient_registered o x p : known o p ->
  ro_recipients (the_object o (AddDeathRecipient o (Some x) p).2) = ro_recipients (the_object o p) ++ [x].
Proof. intros Hk. cbn [AddDeathRecipient snd]. rewrite the_object_change by done. by rewrite bool_decide_eq_true_2. Qed.

Lemma removed_recipient_gone o x p : known o p ->
  x ∉ ro_recipients (the_object o (RemoveDeathRecipient o (Some x) p).2) /\
  forall y, y <> x -> y ∈ pc_live p -> y ∈ ro_recipients (the_object o p) ->
    y ∈ ro_recipients (the_object o (RemoveDeathRecipient o (Some x) p).2).
Proof.
  intros Hk. cbn [RemoveDeathRecipient snd]. rewrite the_object_change, bool_decide_eq_true_2 by done. cbn. split.
  - rewrite list_elem_of_filter. naive_solver.
  - intros y Hne Hl Hy. by apply list_elem_of_filter.
Qed.

(** ** Casting *)

(** While the proxy of an object lives, casting the object returns it again. *)
Theorem cast_returns_same_proxy o p b p1 :
  known o p -> iface_cast (Some o) p = (Some b, p1) -> locked p1 b = true -> iface_cast (Some o) p1 = (Some b, p1).
Proof.
  intros Hk Hc Hl. enough (Hb : GetBroker o p1 = Some b) by (unfold iface_cast; by rewrite Hb).
  revert Hc. unfold iface_cast, CreateBroker. destruct (GetBroker o p) as [b0|] eqn:E; [by intros [= <- <-]|].
  destruct (0 <=? _); [|done]. destruct (bool_decide _); [|done]. intros [= <- <-]. unfold GetBroker.
  assert (Hb : forall q, known o q -> ro_broker (the_object o (AttachBroker o (Some (pc_next p)) q)) = Some (pc_next p))
    by (intros q Hq; unfold AttachBroker; by rewrite the_object_change, bool_decide_eq_true_2).
  by rewrite Hb, Hl.
Qed.

(** Casting a new object makes its proxy. *)
Lemma cast_new_object saId path p o p' :
  object_at saId path p = (o, p') -> saId ∈ pc_creators p -> 0 <= saId ->
  exists b p'', iface_cast (Some o) p' = (Some b, p'') /\ GetBroker o p'' = Some b /\
    IRemoteObject_GetServicePath o p'' = path /\ IsObjectDead o p'' = false /\ saId ∈ pc_creators p''.
Proof.
  intros Ho Hc Hid. pose proof (object_at_fresh _ _ _ _ _ Ho) as (Hk & Hs & Hp & Hd & Hb).
  assert (Hcr : saId ∈ pc_creators p') by (revert Ho; unfold object_at, new_object; by intros [= _ <-]).
  unfold iface_cast, CreateBroker, GetBroker at 1. rewrite Hb, Hs, (proj2 (Z.leb_le _ _)), bool_decide_eq_true_2 by done.
  eexists _, _. split; [done|]. unfold GetBroker, IRemoteObject_GetServicePath, IsObjectDead, AttachBroker in *.
  rewrite !the_object_change, bool_decide_eq_true_2 by done. cbn. unfold locked. cbn.
  by rewrite bool_decide_eq_true_2 by set_solver.
Qed.

(** ** Two processes and a registry *)

Section Registry.
Context {K : Type} {SK : Sockets K}.
Variable load_cb : option (Z -> RegistryServer K -> bool * RegistryServer K).
Variable unload_cb : option (Z -> RegistryServer K -> RegistryServer K).
Variables (now : RegistryServer K -> Z) (sleep : Z -> RegistryServer K -> RegistryServer K).

(** What a client of the registry gets when no exchange fails. *)
Definition answer (op : RegistryOp) (saId : Z) (payload : string) (s : RegistryServer K) : option string * RegistryServer K :=
  let '(resp, s) := ProcessRequest load_cb unload_cb {| rr_op := op; rr_sa_id := saId; rr_payload := payload |} s in
  (if rn_err_code resp =? 0 then Some (rn_payload resp) else None, s).

#[local] Instance server_backend : SamBackend (RegistryServer K) := {|
  bk_GetServicePath saId s := let '(r, s) := answer RegistryGet saId "" s in Returns (default "" r, s);
  bk_LoadService saId s := let '(r, s) := answer RegistryLoad saId "" s in Returns (default "" r, s);
  bk_AddService saId path s := let '(r, s) := answer RegistryRegister saId path s in Returns (bool_decide (is_Some r), s);
  bk_UnloadService saId s := let '(r, s) := answer RegistryUnload saId "" s in Returns (bool_decide (is_Some r), s);
  bk_now := now; bk_sleep := sleep |}.


End Registry.

(** ** A service, a client and the local manager *)
Module AbilityDemo.

(** The service's process has an object with a path. *)
Definition service : Process := SetServicePath 0 "/tmp/ves.sock" (snd (new_object (Process_new ∅))).

Definition registry : RegistryServer MemSockets.t :=
  {| rv_services := ∅; rv_kernel := {| MemSockets.sent := ∅; MemSockets.pending := ∅; MemSockets.next_fd := 3 |} |}.

Definition registered : RegistryServer MemSockets.t := registry <| rv_services := {[1251 := "/tmp/ves.sock"]} |>.

(** A client that watches the object of a service, which then fails. *)
Definition watching : list (process_op (B := RegistryServer MemSockets.t)) :=
  [OpCheckAbility 1251; OpAddRecipient 0 (Some 7%nat); OpOutside (fun s => s <| rv_services := ∅ |>); OpLoadAbility 1 1251 0].

(** The same with the local manager, whose ability is unloaded. *)
Definition local_watching : list (process_op (B := RegistryServer MemSockets.t)) :=
  [OpNewObject; OpAddAbility 1251 (Some 0%nat); OpAddRecipient 0 (Some 7%nat); OpUnloadAbility 1251].

End AbilityDemo.


(** The local manager reports what the other one does not. *)
Lemma local_death_reported :
  let backend := server_backend None None (fun _ => 0) (fun _ (s : RegistryServer MemSockets.t) => s) in
  (exists p b, process_run (BK := backend) AbilityDemo.watching (Process_new {[7%nat]}) (Some AbilityDemo.registered) = Returns (p, b) /\
    pc_notified p = []) /\
  (exists p b, process_run (BK := backend) AbilityDemo.local_watching (Process_new {[7%nat]}) None = Returns (p, b) /\
    pc_notified p = [(7%nat, 0%nat)]).
Proof. split; eexists _, _; (split; [reflexivity|reflexivity]). Qed.
