(* ===== verification/VesControl.v ===== *)
(** * The control channel of the virus executor service

    The messages of the control channel (transport/ves_control_interface.h),
    their encoding on the service's side (transport/ves_control_stub.h) and on
    the client's side ([VesControlProxy] of transport/ves_control_proxy.cpp),
    and the exchange over a socket. *)

From Stdlib Require Import Lia String.
From S2P Require Import Prelude Types ByteCodec Sockets VesMessages.

(** ** ves_control_interface.h *)

Definition VesHeartbeatStatus_OkIdle : Z := 0.
Definition VesHeartbeatStatus_OkBusy : Z := 1.
Definition VesHeartbeatStatus_DegradedLongRunning : Z := 2.
Definition VesHeartbeatStatus_UnhealthyNoSession : Z := 3.
Definition VesHeartbeatStatus_UnhealthyStopping : Z := 4.
Definition VesHeartbeatStatus_UnhealthyInternalError : Z := 5.

Definition VesHeartbeatReasonCode_None : Z := 0.
Definition VesHeartbeatReasonCode_Busy : Z := 1.
Definition VesHeartbeatReasonCode_LongRunning : Z := 2.
Definition VesHeartbeatReasonCode_NoSession : Z := 3.
Definition VesHeartbeatReasonCode_Stopping : Z := 4.
Definition VesHeartbeatReasonCode_InternalError : Z := 5.

Definition VES_HEARTBEAT_FLAG_HAS_SESSION : Z := Z.shiftl 1 0.
Definition VES_HEARTBEAT_FLAG_INITIALIZED : Z := Z.shiftl 1 1.
Definition VES_HEARTBEAT_FLAG_BUSY : Z := Z.shiftl 1 2.
Definition VES_HEARTBEAT_FLAG_LONG_RUNNING : Z := Z.shiftl 1 3.

Record VesHeartbeatReply : Type := {
  hb_version : Z;
  hb_status : Z;
  hb_reasonCode : Z;
  hb_sessionId : Z;
  hb_inFlight : Z;
  hb_lastTaskAgeMs : Z;
  hb_currentTask : bytes;                                    (* char[64] *)
  hb_flags : Z;
  hb_reserved : Z * Z * Z;
}.

#[export] Instance VesHeartbeatReply_eta : Eta VesHeartbeatReply := fun r =>
  Build_VesHeartbeatReply (hb_version r) (hb_status r) (hb_reasonCode r) (hb_sessionId r) (hb_inFlight r)
    (hb_lastTaskAgeMs r) (hb_currentTask r) (hb_flags r) (hb_reserved r).

Definition VesHeartbeatReply_default : VesHeartbeatReply := {|
  hb_version := 2; hb_status := VesHeartbeatStatus_UnhealthyNoSession;
  hb_reasonCode := VesHeartbeatReasonCode_NoSession; hb_sessionId := 0; hb_inFlight := 0; hb_lastTaskAgeMs := 0;
  hb_currentTask := zero_payload 64; hb_flags := 0; hb_reserved := (0, 0, 0) |}.

Record VesAnyCallRequest : Type := {
  ac_opcode : Z;
  ac_priority : Z;
  ac_timeoutMs : Z;
  ac_payload : bytes;                                        (* std::string *)
}.

Record VesAnyCallReply : Type := {
  ay_status : StatusCode;
  ay_payload : bytes;
}.

Definition VesAnyCallReply_default : VesAnyCallReply := {| ay_status := Ok; ay_payload := [] |}.

(** ** Objects in memory

    [memcpy] of a structure: its fields at their offsets, with the padding the
    compiler puts between them. *)

(** [AnyCallRequestHeader]: opcode, priority, timeoutMs, payloadSize. *)
Definition ANY_CALL_REQUEST_HEADER_BYTES : Z := 12.
(** [AnyCallReplyHeader]: status, payloadSize. *)
Definition ANY_CALL_REPLY_HEADER_BYTES : Z := 8.
(** [SessionMetadata]: protocolVersion, four bytes of padding, sessionId. *)
Definition SESSION_METADATA_BYTES : Z := 16.
(** [VesHeartbeatReply]: four bytes of padding before sessionId. *)
Definition HEARTBEAT_BYTES : Z := 112.

Definition heartbeat_image (pad : bytes) (r : VesHeartbeatReply) : bytes :=
  let '(r0, r1, r2) := hb_reserved r in
  le_bytes 4 (hb_version r) ++ le_bytes 4 (hb_status r) ++ le_bytes 4 (hb_reasonCode r) ++ pad ++
  le_bytes 8 (hb_sessionId r) ++ le_bytes 4 (hb_inFlight r) ++ le_bytes 4 (hb_lastTaskAgeMs r) ++ hb_currentTask r ++
  le_bytes 4 (hb_flags r) ++ le_bytes 4 r0 ++ le_bytes 4 r1 ++ le_bytes 4 r2.

Definition heartbeat_of_image (b : bytes) : VesHeartbeatReply := {|
  hb_version := le_value (Zslice 0 4 b); hb_status := le_value (Zslice 4 4 b);
  hb_reasonCode := le_value (Zslice 8 4 b); hb_sessionId := le_value (Zslice 16 8 b);
  hb_inFlight := le_value (Zslice 24 4 b); hb_lastTaskAgeMs := le_value (Zslice 28 4 b);
  hb_currentTask := Zslice 32 64 b; hb_flags := le_value (Zslice 96 4 b);
  hb_reserved := (le_value (Zslice 100 4 b), le_value (Zslice 104 4 b), le_value (Zslice 108 4 b)) |}.

Definition metadata_image (pad : bytes) (h : BootstrapHandles) : bytes :=
  le_bytes 4 (bh_protocolVersion h) ++ pad ++ le_bytes 8 (bh_sessionId h).

(** ** The service's side *)

Definition DecodeAnyCallRequest (data : bytes) (out : outptr) : option VesAnyCallRequest :=
  match out with
  | Null => None
  | Ptr =>
      if Zlen data <? ANY_CALL_REQUEST_HEADER_BYTES then None else
      let payloadSize := le_value (Zslice 8 4 data) in
      if negb (Zlen data =? ANY_CALL_REQUEST_HEADER_BYTES + payloadSize) then None else
      Some {| ac_opcode := le_value (Zslice 0 2 data); ac_priority := le_value (Zslice 2 2 data);
              ac_timeoutMs := le_value (Zslice 4 4 data);
              ac_payload := Zslice ANY_CALL_REQUEST_HEADER_BYTES payloadSize data |}
  end.

Definition DecodeOpenSessionRequest (data : bytes) (out : outptr) : option VesOpenSessionRequest :=
  match out with
  | Null => None
  | Ptr =>
      match DecodeMessage data Ptr with
      | ReadOk request _ => if IsValidVesOpenSessionRequest request then Some request else None
      | _ => None
      end
  end.

Definition EncodeAnyCallReply (reply : VesAnyCallReply) : bytes :=
  le_bytes 4 (StatusCode_to_u32 (ay_status reply)) ++ le_bytes 4 (u32 (Zlen (ay_payload reply))) ++ ay_payload reply.

(** ** The client's side *)

Definition EncodeAnyCallWire (request : VesAnyCallRequest) : bytes :=
  le_bytes 2 (ac_opcode request) ++ le_bytes 2 (ac_priority request) ++ le_bytes 4 (ac_timeoutMs request) ++
  le_bytes 4 (u32 (Zlen (ac_payload request))) ++ ac_payload request.

Definition DecodeAnyCallWire (payload : bytes) (reply : VesAnyCallReply) : StatusCode * VesAnyCallReply :=
  if Zlen payload <? ANY_CALL_REPLY_HEADER_BYTES then (ProtocolMismatch, reply) else
  let payloadSize := le_value (Zslice 4 4 payload) in
  if negb (Zlen payload =? ANY_CALL_REPLY_HEADER_BYTES + payloadSize) then (ProtocolMismatch, reply) else
  (Ok, {| ay_status := StatusCode_of_u32 (le_value (Zslice 0 4 payload));
          ay_payload := Zslice ANY_CALL_REPLY_HEADER_BYTES payloadSize payload |}).

Definition IsHealthyHeartbeatStatus (status : Z) : bool :=
  (status =? VesHeartbeatStatus_OkIdle) || (status =? VesHeartbeatStatus_OkBusy) ||
  (status =? VesHeartbeatStatus_DegradedLongRunning).

Definition ToHealthResult (reply : VesHeartbeatReply) (expectedSessionId : Z) : ChannelHealthResult :=
  if negb (expectedSessionId =? 0) && negb (hb_sessionId reply =? 0) && negb (hb_sessionId reply =? expectedSessionId)
  then {| chr_status := ChannelHealth.SessionMismatch; chr_sessionId := hb_sessionId reply |}
  else {| chr_status := if IsHealthyHeartbeatStatus (hb_status reply) then ChannelHealth.Healthy else ChannelHealth.Unhealthy;
          chr_sessionId := hb_sessionId reply |}.

Definition DEFAULT_HEARTBEAT_TIMEOUT_MS : Z := 500.
Definition FD_COUNT : Z := 6.

Section Proxy.
Context {K : Type} {SK : Sockets K}.

Definition SendCommand (fuel : nat) (fd cmd : Z) (payload : bytes) (k : K) : run (bool * K) :=
  let '(rc, k) := sk_send fd (le_bytes 1 cmd) k in
  if negb (rc =? 1) then Returns (false, k) else
  let! (ok, k) := SendAll fuel fd (le_bytes 4 (u32 (Zlen payload))) k in
  if negb ok then Returns (false, k) else
  match payload with [] => Returns (true, k) | _ => SendAll fuel fd payload k end.

Definition ReceiveSizedReply (fuel : nat) (fd : Z) (payload : outptr) (timeoutMs : Z) (k : K)
    : run (StatusCode * bytes * K) :=
  match payload with
  | Null => Returns (InvalidArgument, [], k)
  | Ptr =>
      let '(pollResult, k) := if 0 <? timeoutMs then sk_poll fd timeoutMs k else (1, k) in
      if pollResult <=? 0 then Returns (PeerDisconnected, [], k) else
      let! (ok, size, k) := RecvAll fuel fd 4 [] k in
      if negb ok then Returns (PeerDisconnected, [], k) else
      let replySize := le_value size in
      let! (ok, data, k) := RecvAll fuel fd replySize [] k in
      if negb ok then Returns (PeerDisconnected, [], k) else Returns (Ok, data, k)
  end.

(** The service's side: what [MockServiceSocket::AcceptLoop] of
    ohos_sa_mock/src/mock_service_socket.cpp reads from a new connection. *)
Definition receive_command (fuel : nat) (client_fd : Z) (k : K) : run (option (Z * bytes) * K) :=
  let '((n, data), k) := sk_recv client_fd 1 k in
  if negb (n =? 1) then Returns (None, k) else
  let cmd := le_value data in
  let cmd := if cmd <? 128 then cmd else cmd - 256 in
  let! (ok, size, k) := RecvAll fuel client_fd 4 [] k in
  if negb ok then Returns (None, k) else
  let request_size := le_value size in
  let! (ok, request, k) := RecvAll fuel client_fd request_size [] k in
  if negb ok then Returns (None, k) else Returns (Some (cmd, request), k).

(** [RecvFds] of ohos_sa_mock/src/scm_rights.cpp. *)
Definition RecvFds (sock_fd max_fds data_len : Z) (k : K) : list Z * Z * bytes * K :=
  let '((n, data, fds), k) := sk_recvmsg sock_fd data_len k in
  if n <=? 0 then ([], data_len, data, k) else
  match fds with
  | None => ([], n, data, k)
  | Some fds => (Ztake max_fds fds, n, data, k)
  end.

Definition close_all (fds : list Z) (k : K) : K := fold_left (fun k fd => sk_close fd k) fds k.

Definition ReceiveSessionHandles (fd : Z) (k : K) : StatusCode * BootstrapHandles * K :=
  let '(fds, data_len, meta, k) := RecvFds fd FD_COUNT SESSION_METADATA_BYTES k in
  match fds with
  | [f0; f1; f2; f3; f4; f5] =>
      if data_len =? SESSION_METADATA_BYTES
      then (Ok, {| shmFd := f0; highReqEventFd := f1; normalReqEventFd := f2; respEventFd := f3;
                   reqCreditEventFd := f4; respCreditEventFd := f5;
                   bh_protocolVersion := le_value (Zslice 0 4 meta); bh_sessionId := le_value (Zslice 8 8 meta) |}, k)
      else (ProtocolMismatch, MakeDefaultBootstrapHandles, close_all fds k)
  | _ => (ProtocolMismatch, MakeDefaultBootstrapHandles, close_all fds k)
  end.

Definition EAGAIN : Z := 11.

Definition IsPeerDisconnected (fd : Z) (k : K) : bool * K :=
  let '((received, errno), k) := sk_peek fd k in
  ((received =? 0) || ((received <? 0) && negb (errno =? EAGAIN)), k).

Definition HeartbeatWithTimeout (fuel : nat) (path : string) (reply : VesHeartbeatReply) (timeoutMs : Z) (k : K)
    : run (StatusCode * VesHeartbeatReply * K) :=
  let '(hb_fd, k) := ConnectToService path k in
  if hb_fd <? 0 then Returns (PeerDisconnected, reply, k) else
  let! (sent, k) := SendCommand fuel hb_fd 3 [] k in
  if negb sent then Returns (PeerDisconnected, reply, sk_close hb_fd k) else
  let! (receiveStatus, payload, k) := ReceiveSizedReply fuel hb_fd Ptr timeoutMs k in
  let k := sk_close hb_fd k in
  if negb (status_is receiveStatus Ok) then Returns (receiveStatus, reply, k) else
  if negb (Zlen payload =? HEARTBEAT_BYTES) then Returns (ProtocolMismatch, reply, k) else
  Returns (Ok, heartbeat_of_image payload, k).

Definition Heartbeat (fuel : nat) (path : string) (reply : VesHeartbeatReply) (k : K)
    : run (StatusCode * VesHeartbeatReply * K) :=
  HeartbeatWithTimeout fuel path reply DEFAULT_HEARTBEAT_TIMEOUT_MS k.

Definition AnyCall (fuel : nat) (path : string) (request : VesAnyCallRequest) (reply : VesAnyCallReply) (k : K)
    : run (StatusCode * VesAnyCallReply * K) :=
  let wire := EncodeAnyCallWire request in
  let '(fd, k) := ConnectToService path k in
  if fd <? 0 then Returns (PeerDisconnected, reply, k) else
  let! (sent, k) := SendCommand fuel fd 4 wire k in
  if negb sent then Returns (PeerDisconnected, reply, sk_close fd k) else
  let! (receiveStatus, payload, k) :=
    ReceiveSizedReply fuel fd Ptr (if 0 <? ac_timeoutMs request then i32 (ac_timeoutMs request) else 0) k in
  let k := sk_close fd k in
  if negb (status_is receiveStatus Ok) then Returns (receiveStatus, reply, k) else
  let '(status, reply) := DecodeAnyCallWire payload reply in
  Returns (status, reply, k).

(** The exchange of [CloseSession], after the connection was reset. *)
Definition send_close (fuel : nat) (path : string) (k : K) : run (StatusCode * K) :=
  let '(close_fd, k) := ConnectToService path k in
  if close_fd <? 0 then Returns (PeerDisconnected, k) else
  let! (sent, k) := SendCommand fuel close_fd 2 [] k in
  Returns (if sent then Ok else PeerDisconnected, sk_close close_fd k).

(** The exchange of [OpenSession]: the handles and the descriptor to monitor. *)
Definition send_open (fuel : nat) (path : string) (request : VesOpenSessionRequest) (handles : BootstrapHandles) (k : K)
    : run (StatusCode * BootstrapHandles * Z * K) :=
  match EncodeMessage request Ptr with
  | Undefined => RunUndefined
  | Defined (false, _) => Returns (ProtocolMismatch, handles, -1, k)
  | Defined (true, payload) =>
      let '(fd, k) := ConnectToService path k in
      if fd <? 0 then Returns (PeerDisconnected, handles, -1, k) else
      let! (sent, k) := SendCommand fuel fd 1 payload k in
      if negb sent then Returns (PeerDisconnected, handles, -1, sk_close fd k) else
      let '(receive_status, handles, k) := ReceiveSessionHandles fd k in
      if negb (status_is receive_status Ok) then Returns (receive_status, handles, -1, sk_close fd k) else
      Returns (Ok, handles, fd, k)
  end.

End Proxy.

(** ** What is encoded is decoded *)

Ltac wire_len :=
  rewrite ?Zlen_app, ?Zlen_le_bytes; cbn [Z.of_nat Pos.of_succ_nat Pos.succ];
  try match goal with H : Zlen ?b = _ |- context [Zlen ?b] => rewrite H end.

Definition is_u16 (z : Z) : Prop := 0 <= z < 2 ^ 16.
Definition is_u64 (z : Z) : Prop := 0 <= z < 2 ^ 64.

Lemma u16_id z : is_u16 z -> u16 z = z.
Proof. unfold is_u16, u16. intros. by apply Z.mod_small. Qed.

Definition any_call_valid (r : VesAnyCallRequest) : Prop :=
  is_u16 (ac_opcode r) /\ is_u16 (ac_priority r) /\ is_u32 (ac_timeoutMs r) /\ Zlen (ac_payload r) < 2 ^ 32.

Lemma any_call_request_roundtrip r :
  any_call_valid r -> DecodeAnyCallRequest (EncodeAnyCallWire r) Ptr = Some r.
Proof.
  intros (H1 & H2 & H3 & H4). pose proof (Zlen_nonneg (ac_payload r)). unfold DecodeAnyCallRequest, EncodeAnyCallWire.
  rewrite (u32_id (Zlen _)) by (split; lia).
  set (b := le_bytes 2 _ ++ _). assert (Hb : Zlen b = 12 + Zlen (ac_payload r)) by (unfold b; wire_len; lia).
  rewrite Hb. rewrite (proj2 (Z.ltb_ge _ _)) by (unfold ANY_CALL_REQUEST_HEADER_BYTES; lia).
  assert (Zslice 8 4 b = le_bytes 4 (Zlen (ac_payload r))) as -> by (unfold b; by find_field wire_len).
  rewrite le_value_bytes4, u32_id by (split; lia). unfold ANY_CALL_REQUEST_HEADER_BYTES. rewrite Z.eqb_refl. cbn [negb].
  unfold b. find_field wire_len. rewrite !le_value_bytes2, le_value_bytes4, !u16_id, u32_id by done. by destruct r.
Qed.

Lemma any_call_reply_roundtrip y y0 :
  status_named (ay_status y) = true -> Zlen (ay_payload y) < 2 ^ 32 ->
  DecodeAnyCallWire (EncodeAnyCallReply y) y0 = (Ok, y).
Proof.
  intros Hs H4. pose proof (Zlen_nonneg (ay_payload y)). unfold DecodeAnyCallWire, EncodeAnyCallReply.
  rewrite (u32_id (Zlen _)) by (split; lia).
  set (b := le_bytes 4 _ ++ _). assert (Hb : Zlen b = 8 + Zlen (ay_payload y)) by (unfold b; wire_len; lia).
  rewrite Hb. rewrite (proj2 (Z.ltb_ge _ _)) by (unfold ANY_CALL_REPLY_HEADER_BYTES; lia).
  assert (Zslice 4 4 b = le_bytes 4 (Zlen (ay_payload y))) as -> by (unfold b; by find_field wire_len).
  rewrite le_value_bytes4, u32_id by (split; lia). unfold ANY_CALL_REPLY_HEADER_BYTES. rewrite Z.eqb_refl. cbn [negb].
  unfold b. find_field wire_len. rewrite le_value_bytes4.
  replace (u32 (StatusCode_to_u32 (ay_status y))) with (StatusCode_to_u32 (ay_status y))
    by (destruct (ay_status y); done).
  rewrite StatusCode_of_to_u32 by done. by destruct y.
Qed.

Definition heartbeat_valid (r : VesHeartbeatReply) : Prop :=
  let '(r0, r1, r2) := hb_reserved r in
  Forall is_u32 [hb_version r; hb_status r; hb_reasonCode r; hb_inFlight r; hb_lastTaskAgeMs r; hb_flags r; r0; r1; r2] /\
  is_u64 (hb_sessionId r) /\ Zlen (hb_currentTask r) = 64.

Lemma heartbeat_roundtrip pad r :
  heartbeat_valid r -> Zlen pad = 4 ->
  Zlen (heartbeat_image pad r) = HEARTBEAT_BYTES /\ heartbeat_of_image (heartbeat_image pad r) = r.
Proof.
  destruct r as [v st rc id fl age task flags [[r0 r1] r2]]. unfold heartbeat_valid. cbn. intros (Hf & Hid & Ht) Hp.
  repeat (apply Forall_cons in Hf as [? Hf]). split.
  { unfold heartbeat_image. cbn. rewrite ?Zlen_app, ?Zlen_le_bytes, Hp, Ht. reflexivity. }
  unfold heartbeat_of_image, heartbeat_image. cbn. find_field wire_len.
  rewrite !le_value_bytes4, le_value_bytes8, !u32_id by done. by rewrite u64_id.
Qed.

(** ** An exchange over a socket *)

(** A command on the wire: its number, the size of the payload, the payload. *)
Definition command_frame (cmd : Z) (payload : bytes) : bytes := le_bytes 1 cmd ++ frame payload.

Section Exchange.
Context {K : Type} {SK : Sockets K} {SL : SocketLaws K}.

Lemma SendCommand_spec fuel fd cmd payload k :
  (4 <= fuel)%nat -> (length payload <= fuel)%nat -> SocketsReliable K ->
  exists k', SendCommand fuel fd cmd payload k = Returns (true, k') /\
    sk_sent k' fd = sk_sent k fd ++ command_frame cmd payload /\ sk_pending k' fd = sk_pending k fd.
Proof.
  intros H4 Hf Hrel. unfold SendCommand. destruct (sk_send fd (le_bytes 1 cmd) k) as [rc k1] eqn:ES.
  destruct (send_law _ _ _ _ _ ES) as (_ & Hs & Hp & _). pose proof (send_whole fd (le_bytes 1 cmd) k) as Hw.
  rewrite ES, Zlen_le_bytes in Hw. cbn in Hw. rewrite Hw in * by lia. cbn [Z.eqb negb].
  destruct (SendAll_spec fuel fd (le_bytes 4 (u32 (Zlen payload))) k1) as (ok & k2 & -> & Hp2 & _ & Hs2 & Hr2);
    [by rewrite length_le_bytes|]. rewrite (Hr2 Hrel) in *. cbn [run_bind negb].
  assert (Hk2 : sk_sent k2 fd = sk_sent k fd ++ le_bytes 1 cmd ++ le_bytes 4 (u32 (Zlen payload))).
  { rewrite (Hs2 eq_refl), Hs, <- app_assoc. do 2 f_equal. }
  destruct payload as [|b payload].
  { exists k2. split; [done|]. split; [|by rewrite Hp2]. by rewrite Hk2. }
  destruct (SendAll_spec fuel fd (b :: payload) k2 Hf) as (ok' & k3 & -> & Hp3 & _ & Hs3 & Hr3). rewrite (Hr3 Hrel) in *.
  exists k3. split; [done|]. split; [|by rewrite Hp3, Hp2].
  rewrite (Hs3 eq_refl), Hk2. unfold command_frame, frame. by rewrite <- !app_assoc.
Qed.

Lemma ReceiveSizedReply_spec fuel fd data rest k timeoutMs :
  SocketsReliable K -> (4 <= fuel)%nat -> (length data <= fuel)%nat -> Zlen data < 2 ^ 32 ->
  sk_pending k fd = frame data ++ rest ->
  exists k', ReceiveSizedReply fuel fd Ptr timeoutMs k = Returns (Ok, data, k') /\ sk_sent k' fd = sk_sent k fd.
Proof.
  intros Hrel H4 Hf Hl Hpend0. pose proof (Zlen_nonneg data). pose proof (Zlen_nonneg rest). unfold ReceiveSizedReply.
  assert (exists n k1, 0 < n /\ (if 0 <? timeoutMs then sk_poll fd timeoutMs k else (1, k)) = (n, k1) /\
            sk_pending k1 fd = frame data ++ rest /\ sk_sent k1 fd = sk_sent k fd) as (n & k1 & Hn & -> & Hpend & Hs1).
  { destruct (0 <? timeoutMs); [|by exists 1, k]. destruct (sk_poll fd timeoutMs k) as [n k1] eqn:EP. exists n, k1.
    destruct (poll_law _ _ _ _ _ EP fd) as [Hs Hp]. split_and!; [|done|by rewrite Hp|done].
    pose proof (poll_reliable fd timeoutMs k) as Hr. rewrite EP, Hpend0 in Hr. apply Hr. unfold frame.
    intros He. apply (f_equal Zlen) in He. rewrite !Zlen_app, Zlen_le_bytes, Zlen_nil in He. lia. }
  rewrite (proj2 (Z.leb_gt n 0)) by lia.
  destruct (RecvAll_spec fuel fd 4 [] k1) as (ok & d & k2 & -> & Hs2 & Hok & Hr); [lia|].
  assert (ok = true) as ->. { apply Hr; [done|]. rewrite Hpend. unfold frame. rewrite !Zlen_app, Zlen_le_bytes. lia. }
  destruct (Hok eq_refl) as (-> & _ & Hp2). rewrite Hpend in Hp2 |- *. unfold frame in *. rewrite <- app_assoc in Hp2 |- *.
  rewrite Zdrop_app_exact in Hp2 by (by rewrite Zlen_le_bytes).
  rewrite Ztake_app_exact by (by rewrite Zlen_le_bytes). cbn [run_bind negb app].
  rewrite le_value_bytes4, (u32_id (u32 _)), u32_id by (apply u32_range || (split; lia)).
  destruct (RecvAll_spec fuel fd (Zlen data) [] k2) as (ok & d & k3 & -> & Hs3 & Hok3 & Hr3); [unfold Zlen; lia|].
  assert (ok = true) as ->. { apply Hr3; [done|]. rewrite Hp2, Zlen_app. lia. }
  destruct (Hok3 eq_refl) as (-> & _ & Hp3). rewrite Hp2 in *. cbn [run_bind negb app].
  exists k3. rewrite Ztake_app_exact by done. split; [done|]. by rewrite Hs3, Hs2.
Qed.

Lemma receive_command_spec fuel fd cmd payload rest k :
  SocketsReliable K -> 0 <= cmd < 128 -> (4 <= fuel)%nat -> (length payload <= fuel)%nat -> Zlen payload < 2 ^ 32 ->
  sk_pending k fd = command_frame cmd payload ++ rest ->
  exists k', receive_command fuel fd k = Returns (Some (cmd, payload), k') /\ sk_sent k' fd = sk_sent k fd.
Proof.
  intros Hrel Hc H4 Hf Hl Hpend. pose proof (Zlen_nonneg payload). pose proof (Zlen_nonneg rest). unfold receive_command.
  destruct (sk_recv fd 1 k) as [[n data] k1] eqn:ER.
  destruct (recv_law fd 1 k n data k1 ltac:(lia) (or_introl ER)) as (Hn & Hd & _ & Hp1 & Hs1).
  pose proof (recv_reliable fd 1 k ltac:(lia)) as Hr. rewrite ER, Hpend in Hr. cbn [fst] in Hr.
  assert (n = 1) as ->.
  { enough (0 < n) by lia. apply Hr. unfold command_frame. intros He. apply (f_equal Zlen) in He.
    rewrite !Zlen_app, Zlen_le_bytes, Zlen_nil in He. pose proof (Zlen_nonneg (frame payload)). lia. }
  rewrite Hpend in Hd, Hp1. unfold command_frame, frame in Hd, Hp1. rewrite <- !app_assoc in Hd, Hp1.
  rewrite Ztake_app_exact in Hd by (by rewrite Zlen_le_bytes). rewrite Zdrop_app_exact in Hp1 by (by rewrite Zlen_le_bytes).
  subst data. rewrite le_value_bytes1. unfold u8. rewrite Z.mod_small by lia. cbn [Z.eqb Pos.eqb negb].
  rewrite (proj2 (Z.ltb_lt cmd 128)) by lia.
  destruct (RecvAll_spec fuel fd 4 [] k1) as (ok & d & k2 & -> & Hs2 & Hok & Hrec); [lia|].
  assert (ok = true) as ->. { apply Hrec; [done|]. rewrite Hp1, !Zlen_app, Zlen_le_bytes. lia. }
  destruct (Hok eq_refl) as (-> & _ & Hp2). rewrite Hp1 in Hp2 |- *.
  rewrite Zdrop_app_exact in Hp2 by (by rewrite Zlen_le_bytes). rewrite Ztake_app_exact by (by rewrite Zlen_le_bytes).
  cbn [run_bind negb app]. rewrite le_value_bytes4, (u32_id (u32 _)), u32_id by (apply u32_range || (split; lia)).
  destruct (RecvAll_spec fuel fd (Zlen payload) [] k2) as (ok & d & k3 & -> & Hs3 & Hok3 & Hr3); [unfold Zlen; lia|].
  assert (ok = true) as ->. { apply Hr3; [done|]. rewrite Hp2, Zlen_app. lia. }
  destruct (Hok3 eq_refl) as (-> & _ & _). rewrite Hp2. cbn [run_bind negb app]. rewrite Ztake_app_exact by done.
  exists k3. by rewrite Hs3, Hs2, Hs1.
Qed.

(** C35: a control call reaches the service and its reply comes back.  Over a
    connection that does not fail, what [AnyCall] sends is read by the service
    as the same command and decoded as the same request, and when the service
    answers with the encoding of a reply, [AnyCall] returns that reply; a
    heartbeat, whatever the padding of the structure, is returned field by
    field. *)
Theorem control_exchange fuel path fd rest (k k1 : K) :
  SocketsReliable K -> (4 <= fuel)%nat -> ConnectToService path k = (fd, k1) -> 0 <= fd ->
  (forall request resp reply0,
     any_call_valid request -> Zlen (EncodeAnyCallWire request) < 2 ^ 32 -> status_named (ay_status resp) = true ->
     Zlen (EncodeAnyCallReply resp) < 2 ^ 32 ->
     (length (EncodeAnyCallWire request) <= fuel)%nat -> (length (EncodeAnyCallReply resp) <= fuel)%nat ->
     sk_pending k1 fd = frame (EncodeAnyCallReply resp) ++ rest ->
     exists k', AnyCall fuel path request reply0 k = Returns (Ok, resp, k') /\
       sk_sent k' fd = sk_sent k1 fd ++ command_frame 4 (EncodeAnyCallWire request) /\
       forall ks fds rests, sk_pending ks fds = command_frame 4 (EncodeAnyCallWire request) ++ rests ->
         exists ks', receive_command fuel fds ks = Returns (Some (4, EncodeAnyCallWire request), ks') /\
           DecodeAnyCallRequest (EncodeAnyCallWire request) Ptr = Some request) /\
  (forall hb hb0 pad, heartbeat_valid hb -> Zlen pad = 4 -> (length (heartbeat_image pad hb) <= fuel)%nat ->
     sk_pending k1 fd = frame (heartbeat_image pad hb) ++ rest ->
     exists k', Heartbeat fuel path hb0 k = Returns (Ok, hb, k')).
Proof.
  intros Hrel H4 Hc Hfd. split.
  - intros request resp reply0 Hv Hwl Hst Hrl Hf1 Hf2 Hpend. unfold AnyCall. rewrite Hc, (proj2 (Z.ltb_ge fd 0)) by done.
    destruct (SendCommand_spec fuel fd 4 (EncodeAnyCallWire request) k1 H4 Hf1 Hrel) as (k2 & -> & Hs2 & Hp2).
    rewrite Hpend in Hp2. cbn [run_bind negb].
    destruct (ReceiveSizedReply_spec fuel fd (EncodeAnyCallReply resp) rest k2
      (if 0 <? ac_timeoutMs request then i32 (ac_timeoutMs request) else 0)) as (k3 & -> & Hs3); try done.
    cbn [run_bind]. rewrite status_is_refl. cbn [negb].
    assert (Zlen (ay_payload resp) < 2 ^ 32).
    { unfold EncodeAnyCallReply in Hrl. rewrite !Zlen_app, !Zlen_le_bytes in Hrl. lia. }
    rewrite any_call_reply_roundtrip by done. eexists. split; [done|]. split; [by rewrite close_law, Hs3|].
    intros ks fds rests Hps. destruct (receive_command_spec fuel fds 4 (EncodeAnyCallWire request) rests ks) as (ks' & HR & _);
      [done|lia|done|done|done|done|]. exists ks'. split; [done|by apply any_call_request_roundtrip].
  - intros hb hb0 pad Hv Hp Hf Hpend. destruct (heartbeat_roundtrip pad hb Hv Hp) as [Hlen Hr].
    unfold Heartbeat, HeartbeatWithTimeout. rewrite Hc, (proj2 (Z.ltb_ge fd 0)) by done.
    destruct (SendCommand_spec fuel fd 3 [] k1 H4 ltac:(cbn; lia) Hrel) as (k2 & -> & _ & Hp2). rewrite Hpend in Hp2.
    cbn [run_bind negb].
    destruct (ReceiveSizedReply_spec fuel fd (heartbeat_image pad hb) rest k2 DEFAULT_HEARTBEAT_TIMEOUT_MS)
      as (k3 & -> & _); try done; [by rewrite Hlen|]. cbn [run_bind]. rewrite status_is_refl, Hlen, Z.eqb_refl. cbn [negb].
    rewrite Hr. by eexists.
Qed.

End Exchange.

(** An exchange over a connection that moves three bytes at a time. *)
Lemma control_exchange_witness :
  let request := {| ac_opcode := 201; ac_priority := 0; ac_timeoutMs := 5; ac_payload := [Byte.x01; Byte.x02] |} in
  let resp := {| ay_status := QueueFull; ay_payload := [Byte.x07] |} in
  let k := {| MemSockets.sent := ∅; MemSockets.pending := {[6 := frame (EncodeAnyCallReply resp)]}; MemSockets.next_fd := 6 |} in
  exists k', AnyCall 30 "/run/ves.sock" request VesAnyCallReply_default k = Returns (Ok, resp, k').
Proof.
  intros request resp k.
  destruct (control_exchange 30 "/run/ves.sock" 6 [] k (snd (ConnectToService "/run/ves.sock" k))) as [HA _];
    [exact MemSockets.reliable|lia|reflexivity|lia|].
  destruct (HA request resp VesAnyCallReply_default) as (k' & H & _);
    [repeat split; vm_compute; discriminate|vm_compute; reflexivity|reflexivity|vm_compute; reflexivity|
     apply Nat.leb_le; vm_compute; reflexivity|apply Nat.leb_le; vm_compute; reflexivity|cbn; by rewrite app_nil_r|].
  exists k'. exact H.
Defined.
