(* ===== verification/ServiceSocket.v ===== *)
(** * The service's end of the control socket

    third_party/ohos_sa_mock/src/mock_service_socket.cpp and [SendFds] of
    scm_rights.cpp: the socket a system ability listens on, the thread that
    serves one connection after the other, and the end of both.  The handler
    is a step on the state of its own; a connection is read and answered with
    the functions of [Sockets] and [VesControl].  A receive waits until the
    kernel has something to return. *)

From Stdlib Require Import Lia String.
From S2P Require Import Prelude Machine Threads Pool Types Sockets VesControl.
#[local] Open Scope thread_scope.

Record MockIpcReply : Type := {
  mr_fds : list Z;                                            (* the first fd_count of them *)
  mr_data : bytes;
  mr_close_after_reply : bool;
}.

(** Whether a receive on the descriptor returns at once. *)
Class ReadySockets (K : Type) : Type := sk_ready : Z -> K -> bool.

Fixpoint remove_one (fd : Z) (fds : list Z) : list Z :=
  match fds with
  | [] => []
  | fd' :: fds => if fd' =? fd then fds else fd' :: remove_one fd fds
  end.

Section ServiceSocket.
Context {K U : Type} {SK : Sockets K} {LK : ListenSockets K} {RK : ReadySockets K}.

Definition MockIpcHandler : Type := Z -> bytes -> U -> option MockIpcReply * U.

(** [so_connections]: the connections that were accepted and not closed;
    [so_stray]: what was closed without being one of them. *)
Record MockServiceSocket : Type := {
  so_handler : option MockIpcHandler;
  so_socket_path : string;
  so_client_fds : list Z;
  so_listen_fd : Z;
  so_stop : bool;
  so_accept_thread : bool;                 (* it is joinable *)
  so_accepting : bool;                     (* it has not returned *)
  so_user : U;
  so_kernel : K;
  so_connections : list Z;
  so_stray : list Z;
}.

#[export] Instance MockServiceSocket_eta : Eta MockServiceSocket := fun r =>
  Build_MockServiceSocket (so_handler r) (so_socket_path r) (so_client_fds r) (so_listen_fd r) (so_stop r)
    (so_accept_thread r) (so_accepting r) (so_user r) (so_kernel r) (so_connections r) (so_stray r).

Definition MockServiceSocket_new (user : U) (k : K) : MockServiceSocket := {|
  so_handler := None; so_socket_path := ""; so_client_fds := []; so_listen_fd := -1; so_stop := false;
  so_accept_thread := false; so_accepting := false; so_user := user; so_kernel := k; so_connections := []; so_stray := [] |}.

Inductive socket_worker : Type := SocketAcceptThread.
#[local] Abbreviation socket := (machine MockServiceSocket).
#[local] Abbreviation socket_thread := (thread MockServiceSocket socket_worker).

#[export] Instance socket_clock : Clock MockServiceSocket := fun _ => 0.

(** ** Steps *)

Definition SendFds (sock_fd : Z) (fds : list Z) (data : bytes) (k : K) : bool * K :=
  match fds with
  | [] => (false, k)
  | _ =>
      let '(rc, k) := sk_sendmsg sock_fd (match data with [] => le_bytes 1 0 | _ => data end) fds k in
      (0 <=? rc, k)
  end.

(** The reply; failures are only logged. *)
Definition send_reply (fuel : nat) (client_fd : Z) (reply : MockIpcReply) (k : K) : run (bool * K) :=
  match mr_fds reply with
  | _ :: _ => Returns (SendFds client_fd (mr_fds reply) (mr_data reply) k)
  | [] =>
      let reply_size := u32 (Zlen (mr_data reply)) in
      let! (ok, k) := SendAll fuel client_fd (le_bytes 4 reply_size) k in
      if negb ok then Returns (false, k) else
      if 0 <? reply_size then SendAll fuel client_fd (mr_data reply) k else Returns (true, k)
  end.

Definition kernel_step {A} (f : K -> A * K) : socket A := fun s =>
  let '(a, k) := f (so_kernel s) in Returns (a, s <| so_kernel := k |>).

Definition kernel_run {A} (f : K -> run (A * K)) : socket A := fun s =>
  let! (a, k) := f (so_kernel s) in Returns (a, s <| so_kernel := k |>).

Definition kernel_do (f : K -> K) : socket unit := modify (fun s => s <| so_kernel := f (so_kernel s) |>).

Definition close_connection (fd : Z) : socket unit := modify (fun s =>
  s <| so_kernel := sk_close fd (so_kernel s) |> <| so_connections := remove_one fd (so_connections s) |>
    <| so_stray := if bool_decide (fd ∈ so_connections s) then so_stray s else fd :: so_stray s |>).

Definition accept_connection (listen_fd : Z) : socket Z := fun s =>
  let '(fd, k) := sk_accept listen_fd (so_kernel s) in
  Returns (fd, s <| so_kernel := k |> <| so_connections := if fd <? 0 then so_connections s else fd :: so_connections s |>).

Definition call_handler (handler : MockIpcHandler) (cmd : Z) (request : bytes) : socket (option MockIpcReply) := fun s =>
  let '(reply, u) := handler cmd request (so_user s) in Returns (reply, s <| so_user := u |>).

(** ** The accept thread *)

(** What the loop does with a new connection. *)
Definition serve_connection (fuel : nat) (client_fd : Z) : socket_thread unit :=
  TPause None (fun s => sk_ready client_fd (so_kernel s)) (mret tt);;
  command ← kernel_run (receive_command fuel client_fd);
  match command with
  | None => atomic (close_connection client_fd)
  | Some (cmd, request) =>
      yield;;
      handler ← gets so_handler;
      yield;;
      match handler with
      | None => atomic (close_connection client_fd)
      | Some handler =>
          reply ← call_handler handler cmd request;
          yield;;
          match reply with
          | None => atomic (close_connection client_fd)
          | Some reply =>
              kernel_run (send_reply fuel client_fd reply);;
              yield;;
              if mr_close_after_reply reply then close_connection client_fd
              else modify (fun s => s <| so_client_fds := so_client_fds s ++ [client_fd] |>)
          end
      end
  end.

Fixpoint AcceptLoop (fuel : nat) : socket_thread unit :=
  match fuel with
  | O => tdiverge
  | S fuel =>
      stop ← gets so_stop;
      if stop : bool then mret tt else
      yield;;
      listen_fd ← gets so_listen_fd;
      yield;;
      if listen_fd <? 0 then mret tt else
      client_fd ← accept_connection listen_fd;
      yield;;
      if client_fd <? 0 then mret tt else
      serve_connection fuel client_fd;;
      yield;;
      AcceptLoop fuel
  end.

Definition socket_run_worker (fuel : nat) (_ : socket_worker) : socket_thread unit :=
  AcceptLoop fuel;; modify (fun s => s <| so_accepting := false |>).

(** ** Start and stop *)

Definition Socket_Start (path : string) (handler : option MockIpcHandler) : socket_thread bool :=
  modify (fun s => s <| so_handler := handler |> <| so_socket_path := path |>);;
  yield;;
  kernel_do (sk_unlink path);;
  listen_fd ← kernel_step sk_socket;
  if listen_fd <? 0 then mret false else
  rc ← kernel_step (sk_bind listen_fd (sun_path path));
  if rc <? 0 then kernel_do (sk_close listen_fd);; mret false else
  rc ← kernel_step (sk_listen listen_fd 4);
  if rc <? 0 then kernel_do (sk_close listen_fd);; mret false else
  yield;;
  modify (fun s => s <| so_stop := false |>);;
  yield;;
  modify (fun s => s <| so_listen_fd := listen_fd |>);;
  yield;;
  joinable ← gets so_accept_thread;
  if joinable : bool then TAbort else
  modify (fun s => s <| so_accept_thread := true |> <| so_accepting := true |>);;
  spawn SocketAcceptThread;;
  mret true.

(** The critical section of [Stop]. *)
Definition take_socket : socket (Z * string * list Z) := fun s =>
  Returns ((so_listen_fd s, so_socket_path s, so_client_fds s),
           s <| so_listen_fd := -1 |> <| so_socket_path := "" |> <| so_client_fds := [] |>).

Fixpoint close_clients (fds : list Z) : socket_thread unit :=
  match fds with
  | [] => mret tt
  | fd :: fds =>
      (if 0 <=? fd then kernel_do (sk_shutdown fd);; atomic (close_connection fd) else mret tt);;
      yield;;
      close_clients fds
  end.

Definition Socket_Stop : socket_thread unit :=
  modify (fun s => s <| so_stop := true |>);;
  yield;;
  ' (listen_fd, socket_path, clientFds) ← take_socket;
  yield;;
  (if 0 <=? listen_fd then kernel_do (fun k => sk_close listen_fd (sk_shutdown listen_fd k)) else mret tt);;
  joinable ← gets so_accept_thread;
  (if joinable : bool then
     TPause None (fun s => negb (so_accepting s)) (mret tt);;
     atomic (modify (fun s => s <| so_accept_thread := false |>))
   else mret tt);;
  (if bool_decide (socket_path <> "") then kernel_do (sk_unlink socket_path) else mret tt);;
  yield;;
  close_clients clientFds;;
  modify (fun s => s <| so_handler := None |>).

End ServiceSocket.
Arguments MockIpcHandler : clear implicits.
Arguments MockServiceSocket : clear implicits.

(** ** All its threads *)

Section Invariant.
Context {K U : Type} {SK : Sockets K} {LK : ListenSockets K} {RK : ReadySockets K}.

#[local] Abbreviation state := (MockServiceSocket K U).
#[local] Abbreviation socket := (machine state).
#[local] Abbreviation socket_thread := (thread state socket_worker).

Inductive socket_op : Type :=
| OpStart (path : string) (handler : option (MockIpcHandler U))
| OpStop.

Definition socket_perform (op : socket_op) : socket_thread unit :=
  match op with
  | OpStart path handler => Socket_Start path handler;; mret tt
  | OpStop => Socket_Stop
  end.

(** Clients act, and so does what the handler works on. *)
Definition socket_environment (s s' : state) : Prop := exists k u, s' = s <| so_kernel := k |> <| so_user := u |>.

Lemma socket_time (n : nat) s : socket_environment s s.
Proof. exists (so_kernel s), (so_user s). by destruct s. Qed.

#[export] Instance socket_system : System state socket_worker := {|
  sys_op_role := fun _ : socket_op => SharedRole; sys_perform := socket_perform;
  sys_invoke := fun call : Empty_set => match call with end;
  sys_run_worker := socket_run_worker; sys_environment := socket_environment; sys_tick := fun _ s => s;
  sys_tick_environment := socket_time;
  sys_initial := fun s => exists user k, s = MockServiceSocket_new user k |}.

(** Every connection is kept for [Stop] or in the hand of one thread. *)
Definition socket_inv (ls : list (list Z)) (s : state) : Prop :=
  so_connections s ≡ₚ so_client_fds s ++ concat ls /\ Forall (fun fd => 0 <= fd) (so_connections s) /\ so_stray s = [].

Definition krest (_ : role) (l : list Z) (others : list (list Z)) (s : state) : Prop := socket_inv (l :: others) s.

Definition same_connections (s s' : state) : Prop :=
  so_connections s' = so_connections s /\ so_client_fds s' = so_client_fds s /\ so_stray s' = so_stray s.

Lemma socket_inv_same ls s s' : same_connections s s' -> socket_inv ls s -> socket_inv ls s'.
Proof. intros (E1 & E2 & E3). unfold socket_inv. by rewrite E1, E2, E3. Qed.

Lemma remove_one_perm fd fds : fd ∈ fds -> fds ≡ₚ fd :: remove_one fd fds.
Proof.
  induction fds as [|fd' fds IH]; [by intros ?%not_elem_of_nil|]. cbn. destruct (Z.eqb_spec fd' fd) as [->|Hne]; [done|].
  intros [?|Hin]%elem_of_cons; [done|]. rewrite (IH Hin) at 1. apply Permutation_swap.
Qed.

Section Threads.
Variable r : role.
#[local] Abbreviation kstays := (stays (W := socket_worker) (krest r)).
#[local] Abbreviation ktwp := (twp (W := socket_worker) (krest r)).

Lemma kstays_same l {A} (m : socket A) :
  (forall s a s', m s = Returns (a, s') -> same_connections s s') -> kstays l (atomic m).
Proof. intros Hm. apply stays_atomic. intros fr s a s' Hs E. by eapply socket_inv_same; [eapply Hm|]. Qed.

Lemma kstays_gets l {A} (f : state -> A) : kstays l (atomic (gets f)).
Proof. apply kstays_same. by intros s a s' [= _ <-]. Qed.

Lemma kstays_modify l (f : state -> state) : (forall s, same_connections s (f s)) -> kstays l (atomic (modify f)).
Proof. intros Hf. apply kstays_same. by intros s a s' [= _ <-]. Qed.

Lemma kstays_kernel_step l {A} (f : K -> A * K) : kstays l (atomic (kernel_step f)).
Proof. apply kstays_same. intros s a s'. unfold kernel_step. destruct (f (so_kernel s)). by intros [= _ <-]. Qed.

Lemma kstays_kernel_run l {A} (f : K -> run (A * K)) : kstays l (atomic (kernel_run f)).
Proof. apply kstays_same. intros s a s'. unfold kernel_run. destruct (f (so_kernel s)) as [[? ?]| |]; [|done..]. by intros [= _ <-]. Qed.

Lemma kstays_kernel_do l (f : K -> K) : kstays l (atomic (kernel_do f)).
Proof. by apply kstays_modify. Qed.

Lemma kstays_call_handler l h cmd request : kstays l (atomic (call_handler h cmd request)).
Proof. apply kstays_same. intros s a s'. unfold call_handler. destruct (h cmd request (so_user s)). by intros [= _ <-]. Qed.

(** A connection in one's hand is open, and is closed once. *)
Lemma twp_close_connection fd l : ktwp (krest r (fd :: l)) (atomic (close_connection fd)) (fun _ => krest r l).
Proof.
  apply twp_modify_end. intros fr s (Hp & Hn & Hs).
  assert (Hin : fd ∈ so_connections s) by (rewrite Hp; cbn; set_solver). pose proof (remove_one_perm _ _ Hin) as Hr.
  unfold krest, socket_inv. cbn. rewrite bool_decide_eq_true_2 by done. split; [|split; [|done]].
  - apply (Permutation_cons_inv (a := fd)). rewrite <- Hr, Hp. cbn. by rewrite <- Permutation_middle.
  - rewrite Hr in Hn. by apply Forall_cons in Hn as [_ ?].
Qed.

Lemma twp_accept listen_fd :
  ktwp (krest r []) (atomic (accept_connection listen_fd)) (fun fd => krest r (if fd <? 0 then [] else [fd])).
Proof.
  apply twp_atomic. intros fr s fd s' (Hp & Hn & Hs). unfold accept_connection.
  destruct (sk_accept listen_fd (so_kernel s)) as [fd' k]. intros [= <- <-]. unfold krest, socket_inv. cbn.
  destruct (Z.ltb_spec fd' 0); [done|]. cbn. split; [|split; [by constructor|done]]. by rewrite Hp, Permutation_middle.
Qed.

Lemma twp_keep fd :
  ktwp (krest r [fd]) (atomic (modify (fun s => s <| so_client_fds := so_client_fds s ++ [fd] |>))) (fun _ => krest r []).
Proof.
  apply twp_modify_end. intros fr s (Hp & Hn & Hs). split; [|done]. cbn in *. by rewrite Hp, <- app_assoc.
Qed.

Lemma twp_serve_connection fuel fd : ktwp (krest r [fd]) (serve_connection fuel fd) (fun _ => krest r []).
Proof.
  unfold serve_connection. apply stays_then; [apply stays_pause, stays_ret|]. intros ?.
  apply stays_then; [apply kstays_kernel_run|]. intros [[cmd request]|]; [|apply twp_close_connection].
  apply stays_then; [apply stays_yield|]. intros ?. apply stays_then; [apply kstays_gets|]. intros handler.
  apply stays_then; [apply stays_yield|]. intros ?. destruct handler as [handler|]; [|apply twp_close_connection].
  apply stays_then; [apply kstays_call_handler|]. intros reply. apply stays_then; [apply stays_yield|]. intros ?.
  destruct reply as [reply|]; [|apply twp_close_connection]. apply stays_then; [apply kstays_kernel_run|]. intros ?.
  apply stays_then; [apply stays_yield|]. intros ?.
  destruct (mr_close_after_reply reply); [apply twp_close_connection|apply twp_keep].
Qed.

Lemma kstays_AcceptLoop fuel : kstays [] (AcceptLoop fuel).
Proof.
  induction fuel as [|fuel IH]; cbn [AcceptLoop]; [apply stays_diverge|].
  apply stays_bind; [apply kstays_gets|]. intros stop. destruct stop; [apply stays_ret|].
  apply stays_bind; [apply stays_yield|]. intros ?. apply stays_bind; [apply kstays_gets|]. intros listen_fd.
  apply stays_bind; [apply stays_yield|]. intros ?. destruct (listen_fd <? 0); [apply stays_ret|].
  tw (apply twp_accept) as fd. tw (apply twp_yield). destruct (fd <? 0); [apply twp_ret; by intros fr s Hs|].
  tw (apply twp_serve_connection). apply stays_then; [apply stays_yield|]. intros ?. exact IH.
Qed.

Lemma kstays_Start path handler : kstays [] (Socket_Start path handler).
Proof.
  unfold Socket_Start.
  repeat first [apply stays_ret|apply stays_yield|apply kstays_gets|apply stays_spawn|apply twp_abort; exact I
    |apply kstays_kernel_step|apply kstays_kernel_do|apply kstays_modify; by repeat split|apply stays_bind; [|intros ?]|case_match].
Qed.

Lemma twp_take_socket : ktwp (krest r []) (atomic take_socket) (fun x => krest r x.2).
Proof. apply twp_atomic. by intros fr s x s' (Hp & Hn & Hs) [= <- <-]. Qed.

Lemma twp_close_clients fds : ktwp (krest r fds) (close_clients fds) (fun _ => krest r []).
Proof.
  induction fds as [|fd fds IH]; cbn [close_clients]; [apply twp_ret; by intros fr s Hs|].
  eapply (twp_bind _ _ _ _ (fun _ => krest r fds)).
  - destruct (Z.leb_spec 0 fd) as [H|H].
    + apply stays_then; [apply kstays_kernel_do|]. intros ?. apply twp_close_connection.
    + apply twp_ret. intros fr s (Hp & Hn & _). rewrite Hp in Hn. apply Forall_app in Hn as [_ Hn]. apply Forall_cons in Hn as [? _]. lia.
  - intros ?. tw (apply twp_yield). exact IH.
Qed.

Lemma kstays_Stop : kstays [] Socket_Stop.
Proof.
  unfold Socket_Stop. apply stays_bind; [by apply kstays_modify|]. intros ?. apply stays_bind; [apply stays_yield|]. intros ?.
  tw (apply twp_take_socket) as [[listen_fd path] fds]. cbn [snd]. tw (apply twp_yield).
  apply stays_then; [destruct (0 <=? listen_fd); [apply kstays_kernel_do|apply stays_ret]|]. intros ?.
  apply stays_then; [apply kstays_gets|]. intros joinable. apply stays_then.
  { destruct joinable; [|apply stays_ret]. apply stays_bind; [apply stays_pause, stays_ret|]. intros ?. by apply kstays_modify. }
  intros ?. apply stays_then; [destruct (bool_decide _); [apply kstays_kernel_do|apply stays_ret]|]. intros ?.
  tw (apply twp_yield). tw (apply twp_close_clients). by apply kstays_modify.
Qed.

End Threads.

Definition socket_compat (_ : list nat) (_ : role) (l1 l2 : list (role * list Z)) (fr : list (list Z)) : Prop :=
  fr = map snd l1 ++ map snd l2.

Definition socket_global (_ : list nat) (ls : list (role * list Z)) (s : state) : Prop := socket_inv (map snd ls) s.

Lemma socket_inv_permutation ls ls' s : ls ≡ₚ ls' -> socket_inv ls s -> socket_inv ls' s.
Proof. unfold socket_inv. by intros ->. Qed.

Lemma socket_split calls l1 r l l2 s :
  socket_global calls (l1 ++ (r, l) :: l2) s <-> exists fr, socket_compat calls r l1 l2 fr /\ krest r l fr s.
Proof.
  unfold socket_global, socket_compat, krest. rewrite map_app. cbn. split.
  - intros H. eexists. split; [done|]. eapply socket_inv_permutation, H. symmetry. apply Permutation_middle.
  - intros (fr & -> & H). eapply socket_inv_permutation, H. apply Permutation_middle.
Qed.

#[export] Instance socket_invariant : Invariant krest [] socket_compat socket_global.
Proof.
  split.
  - apply socket_split.
  - intros calls ls r s _ H. apply socket_split. eexists. split; [done|]. by rewrite app_nil_r.
  - intros calls l1 r l2 s (fr & -> & H)%socket_split. unfold socket_global. by rewrite map_app.
  - intros [path handler|]; cbn [sys_perform socket_system socket_perform].
    + apply stays_bind; [apply kstays_Start|intros ?; apply stays_ret].
    + apply kstays_Stop.
  - intros fuel []. apply stays_bind; [apply kstays_AcceptLoop|]. intros ?. by apply kstays_modify.
  - intros calls ls s s' (k & u & ->). by apply socket_inv_same.
  - done.
Qed.

(** Closing a list of connections, with no other thread. *)
Lemma alone_close_clients fds (s : state) : Forall (fun fd => 0 <= fd) fds -> so_connections s ≡ₚ fds ->
  exists s', alone (close_clients fds) s = Returns (tt, s') /\ so_connections s' = [] /\ so_client_fds s' = so_client_fds s.
Proof.
  revert s. induction fds as [|fd fds IH]; intros s Hf Hp; cbn [close_clients].
  { exists s. apply Permutation_nil_r in Hp. by rewrite Hp. }
  apply Forall_cons in Hf as [Hfd Hf]. rewrite (proj2 (Z.leb_le _ _)) by done. unfold kernel_do, close_connection.
  rewrite alone_bind. unfold bind. rewrite alone_modify. cbn -[close_clients remove_one].
  match goal with |- context [alone (close_clients fds) ?s1] => destruct (IH s1) as (s' & H1 & H2 & H3) end; [done| |by exists s'].
  cbn -[remove_one]. apply (Permutation_cons_inv (a := fd)). rewrite <- remove_one_perm, Hp; [done|]. rewrite Hp. by left.
Qed.

Lemma alone_unless {A} (b : bool) (m : state -> state) (t : socket_thread A) s :
  alone ((if b then atomic (modify m) else mret tt);; t) s = alone t (if b then m s else s).
Proof. by destruct b. Qed.

Lemma alone_Stop (s : state) : so_accepting s = false -> Forall (fun fd => 0 <= fd) (so_client_fds s) ->
  so_connections s ≡ₚ so_client_fds s ->
  exists s', alone Socket_Stop s = Returns (tt, s') /\ so_connections s' = [] /\ so_client_fds s' = [] /\ so_handler s' = None.
Proof.
  intros Ha Hn Hp. unfold Socket_Stop, take_socket, kernel_do. rewrite alone_modify, alone_yield, alone_atomic. unfold bind.
  cbn [run_bind so_listen_fd so_client_fds so_socket_path]. rewrite alone_yield, alone_unless, alone_gets.
  assert (Hrest : forall s0 : state, so_connections s0 ≡ₚ so_client_fds s -> so_client_fds s0 = [] ->
    exists s', alone ((if bool_decide (so_socket_path s <> "") then atomic (modify (fun s0 => s0 <| so_kernel := sk_unlink (so_socket_path s) (so_kernel s0) |>)) else mret tt);;
      yield;; close_clients (so_client_fds s);; modify (fun s => s <| so_handler := None |>)) s0 = Returns (tt, s') /\
      so_connections s' = [] /\ so_client_fds s' = [] /\ so_handler s' = None).
  { intros s0 Hp0 Hc0. rewrite alone_unless, alone_yield.
    destruct (alone_close_clients (so_client_fds s)
      (if bool_decide (so_socket_path s <> "") then s0 <| so_kernel := sk_unlink (so_socket_path s) (so_kernel s0) |> else s0))
      as (s2 & Hs2 & Hc2 & Hf2); [done|by destruct (bool_decide _)|].
    rewrite (alone_returns _ _ _ _ _ Hs2). eexists. split; [done|]. split; [done|]. split; [|done].
    cbn. rewrite Hf2. by destruct (bool_decide _). }
  match goal with |- context [so_accept_thread ?s1] => set (s0 := s1) end.
  assert (H0 : so_accepting s0 = false /\ so_connections s0 = so_connections s /\ so_client_fds s0 = [])
    by (unfold s0; by destruct (0 <=? _)).
  clearbody s0. destruct H0 as (H1 & H2 & H3). rewrite <- H2 in Hp. destruct (so_accept_thread s0); [|by apply Hrest].
  rewrite alone_bind. unfold bind. rewrite alone_pause by (by rewrite H1). cbn. by apply Hrest.
Qed.

(** C12: Whatever clients and callers do, and in every interleaving of
    [Start], [Stop] and the accept thread: the service closes no descriptor
    but a connection that is open, none of them twice, and every open
    connection is kept for [Stop] or in the hand of a running thread; so that
    a [Stop] with no other thread around closes them all. *)
Theorem connections_closed_once cfg :
  reachable cfg -> so_stray (cf_state cfg) = [] /\
  (cf_pool cfg = [] -> so_connections (cf_state cfg) ≡ₚ so_client_fds (cf_state cfg) /\
   (so_accepting (cf_state cfg) = false ->
    exists s', alone Socket_Stop (cf_state cfg) = Returns (tt, s') /\ so_connections s' = [] /\ so_client_fds s' = [] /\
      so_handler s' = None)).
Proof.
  intros Hr. destruct (reachable_ok _ _ _ _ cfg) with (2 := Hr) as (ls & Hls & Hp & Hn & Hs).
  { intros s (user & k & ->). by repeat split; constructor. }
  split; [done|]. intros Hpool. rewrite Hpool in Hls. apply Forall2_nil_inv_l in Hls as ->.
  cbn in Hp. rewrite app_nil_r in Hp. split; [done|]. intros Ha. rewrite Hp in Hn. by apply alone_Stop.
Qed.

End Invariant.

(** ** One connection *)

Section Answer.
Context {K U : Type} {SK : Sockets K} {LK : ListenSockets K} {RK : ReadySockets K} {SL : SocketLaws K}.

Lemma send_reply_spec fuel fd reply k :
  SocketsReliable K -> mr_fds reply = [] -> Zlen (mr_data reply) < 2 ^ 32 -> (4 <= fuel)%nat ->
  (length (mr_data reply) <= fuel)%nat ->
  exists k', send_reply fuel fd reply k = Returns (true, k') /\ sk_sent k' fd = sk_sent k fd ++ frame (mr_data reply).
Proof.
  intros Hrel Hfds Hl H4 Hf. unfold send_reply. rewrite Hfds. pose proof (Zlen_nonneg (mr_data reply)).
  destruct (SendAll_spec fuel fd (le_bytes 4 (u32 (Zlen (mr_data reply)))) k) as (ok & k1 & -> & _ & _ & Hs1 & Hr1); [by cbn|].
  rewrite (Hr1 Hrel) in *. specialize (Hs1 eq_refl). cbn [run_bind negb]. unfold frame. rewrite u32_id in * by (split; lia).
  destruct (Z.ltb_spec 0 (Zlen (mr_data reply))).
  - destruct (SendAll_spec fuel fd (mr_data reply) k1 Hf) as (ok2 & k2 & -> & _ & _ & Hs2 & Hr2). rewrite (Hr2 Hrel) in *.
    exists k2. split; [done|]. by rewrite Hs2, Hs1, <- app_assoc.
  - exists k1. split; [done|]. rewrite Hs1. destruct (mr_data reply) as [|b data]; [by rewrite app_nil_r|]. rewrite Zlen_cons in *.
    pose proof (Zlen_nonneg data). lia.
Qed.

(** A command on a connection that does not fail is handled once, and what the
    handler replies is sent as one frame; the connection is then closed or
    kept, as the reply says.  When the handler refuses, nothing is sent and
    the connection is closed. *)
Theorem connection_answered fuel fd cmd request rest h u reply (s : MockServiceSocket K U) :
  SocketsReliable K -> sk_ready fd (so_kernel s) = true -> sk_pending (so_kernel s) fd = command_frame cmd request ++ rest ->
  0 <= cmd < 128 -> (4 <= fuel)%nat -> (length request <= fuel)%nat -> Zlen request < 2 ^ 32 ->
  so_handler s = Some h -> h cmd request (so_user s) = (reply, u) ->
  (forall r, reply = Some r -> mr_fds r = [] /\ Zlen (mr_data r) < 2 ^ 32 /\ (length (mr_data r) <= fuel)%nat) ->
  exists s', alone (serve_connection fuel fd) s = Returns (tt, s') /\ so_user s' = u /\
    sk_sent (so_kernel s') fd = sk_sent (so_kernel s) fd ++ from_option (fun r => frame (mr_data r)) [] reply /\
    so_connections s' = (if from_option mr_close_after_reply true reply then remove_one fd (so_connections s) else so_connections s) /\
    so_client_fds s' = (if from_option mr_close_after_reply true reply then so_client_fds s else so_client_fds s ++ [fd]).
Proof.
  intros Hrel Hready Hpend Hc H4 Hf Hl Hh Hcall Hreply. unfold serve_connection. rewrite alone_pause by done.
  destruct (receive_command_spec fuel fd cmd request rest (so_kernel s)) as (k1 & HR & Hs1); try done.
  rewrite alone_atomic. unfold bind, kernel_run at 1. rewrite HR. cbn [run_bind]. rewrite alone_yield, alone_gets, alone_yield.
  change (so_handler (s <| so_kernel := k1 |>)) with (so_handler s). rewrite Hh. rewrite alone_atomic. unfold bind, call_handler. change (so_user (s <| so_kernel := k1 |>)) with (so_user s). rewrite Hcall. cbn [run_bind].
  rewrite alone_yield. destruct reply as [reply|].
  2:{ eexists. split; [done|]. cbn -[remove_one]. rewrite close_law, Hs1, app_nil_r. done. }
  destruct (Hreply reply eq_refl) as (Hr1 & Hr2 & Hr3).
  destruct (send_reply_spec fuel fd reply k1 Hrel Hr1 Hr2 H4 Hr3) as (k2 & HS & Hs2).
  rewrite alone_atomic. unfold bind, kernel_run.
  change (so_kernel (s <| so_kernel := k1 |> <| so_user := u |>)) with k1. rewrite HS. cbn [run_bind]. rewrite alone_yield.
  cbn [from_option]. destruct (mr_close_after_reply reply); (eexists; split; [done|]); cbn -[remove_one frame];
    rewrite ?close_law, Hs2, Hs1; done.
Qed.

End Answer.

(** ** A socket and its clients *)
Module SocketDemo.

(** What the next connections send, and what is left to receive from the
    current one. *)
Record t : Type := { clients : list bytes; pending : bytes }.

Definition receive (want : Z) (k : t) : (Z * bytes) * t :=
  ((Zlen (Ztake want (pending k)), Ztake want (pending k)), {| clients := clients k; pending := Zdrop want (pending k) |}).

#[global] Instance sockets : Sockets t := {|
  sk_socket k := (3, k); sk_connect _ _ k := (0, k); sk_send _ data k := (Zlen data, k); sk_recv _ := receive;
  sk_recv_waitall _ := receive; sk_peek _ k := ((1, 0), k); sk_recvmsg _ _ k := ((0, [], None), k);
  sk_sendmsg _ _ _ k := (1, k); sk_poll _ _ k := (1, k); sk_shutdown _ k := k; sk_close _ k := k |}.

#[global] Instance listen_sockets : ListenSockets t := {|
  sk_unlink _ k := k; sk_bind _ _ k := (0, k); sk_listen _ _ k := (0, k);
  sk_accept _ k := match clients k with
                   | [] => (-1, k)
                   | sends :: clients => (10 + Z.of_nat (length clients), {| clients := clients; pending := sends |})
                   end |}.

#[global] Instance ready_sockets : ReadySockets t := fun _ k => match pending k with [] => false | _ => true end.

(** Command 1 is answered and its connection kept, others are answered and
    theirs closed. *)
Definition handler : MockIpcHandler nat := fun cmd request n =>
  (Some {| mr_fds := []; mr_data := request; mr_close_after_reply := negb (cmd =? 1) |}, S n).

Definition start (clients : list bytes) : config (MockServiceSocket t nat) socket_worker :=
  {| cf_state := MockServiceSocket_new 0%nat {| clients := clients; pending := [] |}; cf_pool := []; cf_calls := [] |}.

Definition after (clients : list bytes) (ms : list move) : config (MockServiceSocket t nat) socket_worker :=
  match exec ms (start clients) with Some cfg => cfg | None => start clients end.

Definition is_some {A} (x : option A) : bool := match x with Some _ => true | None => false end.

Lemma socket_reachable clients ms : is_some (exec ms (start clients)) = true -> reachable (after clients ms).
Proof.
  intros Hms. exists (cf_state (start clients)). split; [by eexists _, _|]. unfold after.
  destruct (exec ms (start clients)) eqn:E; [|done]. by apply exec_steps in E.
Qed.

Definition runs (threads : list nat) : list (@move (MockServiceSocket t nat) _ _ _) := map (fun i => MRun i 50) threads.

Definition start_call : move := MCall (OpStart "/tmp/ves" (Some handler)).

(** Two clients are served. *)
Definition two_clients : list bytes := [command_frame 1 []; command_frame 3 []].
Definition served : list move := start_call :: runs (repeat 0%nat 28).

(** A client connects and sends nothing; the service is stopped. *)
Definition silent_client : list move := start_call :: runs (repeat 0%nat 10) ++ MCall OpStop :: runs (repeat 1%nat 4).

End SocketDemo.

Lemma connections_closed_once_witness :
  let s := cf_state (SocketDemo.after SocketDemo.two_clients SocketDemo.served) in
  so_connections s = [11] /\ so_stray s = [] /\
  exists s', alone Socket_Stop s = Returns (tt, s') /\ so_connections s' = [] /\ so_client_fds s' = [] /\ so_handler s' = None.
Proof.
  intros s. split; [vm_compute; reflexivity|].
  destruct (connections_closed_once (SocketDemo.after SocketDemo.two_clients SocketDemo.served)) as [Hs H].
  - apply SocketDemo.socket_reachable. vm_compute. reflexivity.
  - split; [exact Hs|]. apply H; vm_compute; reflexivity.
Defined.

(** [Stop] can wait for ever.  It shuts down the connections that were
    answered and kept, but not the one the accept thread reads from: when a
    client has connected and sends nothing, the accept thread waits for it and
    [Stop] waits for the accept thread. *)
Theorem silent_client_blocks_stop :
  let cfg := SocketDemo.after [[]] SocketDemo.silent_client in
  reachable cfg /\ so_stop (cf_state cfg) = true /\ length (cf_pool cfg) = 2%nat /\
  forallb (blocked (cf_state cfg)) (cf_pool cfg) = true.
Proof.
  intros cfg. split; [apply SocketDemo.socket_reachable; vm_compute; reflexivity|].
  split; [vm_compute; reflexivity|]. split; vm_compute; reflexivity.
Qed.
