(* ===== verification/VesProxy.v ===== *)
(** * The connection of the control proxy

    [VesControlProxy] of transport/ves_control_proxy.cpp as a program with
    several threads: [OpenSession] keeps the socket of its exchange open and
    starts a thread that watches it for the end of the service; the next
    [OpenSession] or [CloseSession] stops that thread and closes the socket.
    The exchanges themselves are those of [VesControl], one step each.
    [operationMutex_] is held across steps; the other mutexes of the proxy
    protect single steps.  The callback does not call the proxy. *)

From Stdlib Require Import Lia String.
From S2P Require Import Prelude Machine Threads Pool Types ByteCodec Session Sockets VesMessages VesControl.
#[local] Open Scope thread_scope.

(** [poll] of one descriptor for POLLIN, POLLHUP and POLLERR: the result and
    [revents]. *)
Class MonitorSockets (K : Type) : Type := mk_poll : Z -> Z -> K -> (Z * Z) * K.

Definition POLLIN : Z := 1.
Definition POLLERR : Z := 8.
Definition POLLHUP : Z := 16.

Definition HasDisconnectSignal (revents : Z) : bool := negb (Z.land revents (Z.lor (Z.lor POLLHUP POLLERR) POLLIN) =? 0).

Section Proxy.
Context {K U : Type} {SK : Sockets K} {MK : MonitorSockets K}.
Variable service_socket_path : string.

Record VesControlProxy : Type := {
  px_operating : bool;                            (* operationMutex_ is held *)
  px_sock_fd : Z;
  px_stop_monitor : bool;
  px_monitor_thread : option nat;                 (* the thread the thread object holds *)
  px_sessionId : Z;
  px_deathCallback : option (Z -> U -> U);
  px_user : U;                                    (* what the callback acts on *)
  px_kernel : K;
  px_started : nat;                               (* how many monitor threads there were *)
  px_alive : gset nat;                            (* those that have not returned *)
  px_open : list Z;                               (* the sockets of sessions that are not closed yet *)
}.

#[export] Instance VesControlProxy_eta : Eta VesControlProxy := fun r =>
  Build_VesControlProxy (px_operating r) (px_sock_fd r) (px_stop_monitor r) (px_monitor_thread r) (px_sessionId r)
    (px_deathCallback r) (px_user r) (px_kernel r) (px_started r) (px_alive r) (px_open r).

Definition VesControlProxy_new (user : U) (k : K) : VesControlProxy := {|
  px_operating := false; px_sock_fd := -1; px_stop_monitor := false; px_monitor_thread := None; px_sessionId := 0;
  px_deathCallback := None; px_user := user; px_kernel := k; px_started := 0; px_alive := ∅; px_open := [] |}.

Inductive proxy_worker : Type := MonitorThread (i : nat).

#[local] Abbreviation proxy := (machine VesControlProxy).
#[local] Abbreviation proxy_thread := (thread VesControlProxy proxy_worker).

#[export] Instance proxy_clock : Clock VesControlProxy := fun _ => 0.

(** ** Steps *)

Definition on_kernel {A} (f : K -> A * K) : proxy A := fun p =>
  let '(a, k) := f (px_kernel p) in Returns (a, p <| px_kernel := k |>).

Definition lock_operation : proxy_thread unit :=
  cv_wait (fun p => negb (px_operating p));; modify (fun p => p <| px_operating := true |>).

Definition unlock_operation : proxy unit := modify (fun p => p <| px_operating := false |>).

(** The first critical section of [StopMonitorThread]. *)
Definition take_connection : proxy (Z * option nat) := fun p =>
  Returns ((px_sock_fd p, px_monitor_thread p),
           p <| px_stop_monitor := true |> <| px_sock_fd := -1 |> <| px_sessionId := 0 |> <| px_monitor_thread := None |>).

(** Joining a thread that is not the caller. *)
Definition JoinThread (worker : option nat) : proxy_thread unit :=
  match worker with
  | None => mret tt
  | Some i => TPause None (fun p => bool_decide (i ∉ px_alive p)) (mret tt)
  end.

Definition close_socket (fd : Z) : proxy unit :=
  modify (fun p => p <| px_kernel := sk_close fd (px_kernel p) |> <| px_open := filter (fun fd' => fd' <> fd) (px_open p) |>).

Definition StopMonitorThread : proxy_thread unit :=
  ' (fd, monitorThread) ← take_connection;
  (if 0 <=? fd then modify (fun p => p <| px_kernel := sk_shutdown fd (px_kernel p) |>) else mret tt);;
  JoinThread monitorThread;;
  if 0 <=? fd then close_socket fd else mret tt.

Definition ResetSocketConnection : proxy_thread unit := StopMonitorThread.

(** The exchange of [OpenSession]; its socket stays open on success. *)
Definition exchange_open (fuel : nat) (request : VesOpenSessionRequest) (handles : BootstrapHandles)
    : proxy (StatusCode * BootstrapHandles * Z) := fun p =>
  let! (status, handles, fd, k) := send_open fuel service_socket_path request handles (px_kernel p) in
  Returns ((status, handles, fd),
           p <| px_kernel := k |> <| px_open := if status_is status Ok then fd :: px_open p else px_open p |>).

(** The last critical section of [OpenSession].  Assigning to a thread object
    that still holds a thread ends the process. *)
Definition start_monitor (fd sessionId : Z) : proxy_thread unit :=
  holds ← gets px_monitor_thread;
  match holds with
  | Some _ => TAbort
  | None =>
      i ← gets px_started;
      modify (fun p => p <| px_stop_monitor := false |> <| px_sock_fd := fd |> <| px_sessionId := sessionId |>
                         <| px_monitor_thread := Some i |> <| px_started := S i |> <| px_alive := {[i]} ∪ px_alive p |>);;
      spawn (MonitorThread i)
  end.

Definition Proxy_OpenSession (fuel : nat) (request : VesOpenSessionRequest) (handles : BootstrapHandles)
    : proxy_thread (StatusCode * BootstrapHandles) :=
  if negb (IsValidVesOpenSessionRequest request) then mret (InvalidArgument, handles) else
  match EncodeMessage request Ptr with
  | Undefined => (lift_run RunUndefined : proxy _)
  | Defined (false, _) => mret (ProtocolMismatch, handles)
  | Defined (true, _) =>
      lock_operation;;
      ResetSocketConnection;;
      yield;;
      ' (status, handles, fd) ← exchange_open fuel request handles;
      yield;;
      if negb (status_is status Ok) then unlock_operation;; mret (status, handles) else
      start_monitor fd (bh_sessionId handles);;
      unlock_operation;;
      mret (Ok, handles)
  end.

Definition Proxy_CloseSession (fuel : nat) : proxy_thread StatusCode :=
  lock_operation;;
  ResetSocketConnection;;
  yield;;
  status ← (fun p => let! (status, k) := send_close fuel service_socket_path (px_kernel p) in
                     Returns (status, p <| px_kernel := k |>)) : proxy StatusCode;
  yield;;
  unlock_operation;;
  mret status.

Definition Proxy_SetEngineDeathCallback (callback : option (Z -> U -> U)) : proxy unit :=
  modify (fun p => p <| px_deathCallback := callback |>).

(** ** The thread that watches the socket *)

Definition NotifyPeerDisconnected : proxy_thread unit :=
  stop ← gets px_stop_monitor;
  if stop : bool then mret tt else
  yield;;
  sessionId ← gets px_sessionId;
  yield;;
  callback ← gets px_deathCallback;
  yield;;
  match callback with
  | Some f => modify (fun p => p <| px_user := f sessionId (px_user p) |>)
  | None => mret tt
  end.

Fixpoint monitor_loop (fuel : nat) (fd : Z) : proxy_thread unit :=
  match fuel with
  | O => tdiverge
  | S fuel =>
      stop ← gets px_stop_monitor;
      if stop : bool then mret tt else
      yield;;
      ' (poll_result, revents) ← on_kernel (mk_poll fd 500);
      yield;;
      stop ← gets px_stop_monitor;
      if stop : bool then mret tt else
      yield;;
      if poll_result <? 0 then monitor_loop fuel fd else
      if (poll_result <=? 0) || negb (HasDisconnectSignal revents) then monitor_loop fuel fd else
      disconnected ← on_kernel (IsPeerDisconnected fd);
      yield;;
      if negb disconnected then monitor_loop fuel fd else
      NotifyPeerDisconnected
  end.

Definition MonitorSocket (fuel : nat) : proxy_thread unit :=
  monitoredFd ← gets px_sock_fd;
  if monitoredFd <? 0 then mret tt else
  yield;;
  monitor_loop fuel monitoredFd.

Definition proxy_run_worker (fuel : nat) (w : proxy_worker) : proxy_thread unit :=
  match w with
  | MonitorThread i => MonitorSocket fuel;; modify (fun p => p <| px_alive := px_alive p ∖ {[i]} |>)
  end.

End Proxy.
Arguments VesControlProxy : clear implicits.

(** ** All its threads *)

Section Invariant.
Context {K U : Type} {SK : Sockets K} {MK : MonitorSockets K}.
Variable path : string.

Inductive proxy_op : Type :=
| OpOpenSession (fuel : nat) (request : VesOpenSessionRequest) (handles : BootstrapHandles)
| OpCloseSession (fuel : nat)
| OpHeartbeat (fuel : nat) (reply : VesHeartbeatReply)
| OpAnyCall (fuel : nat) (request : VesAnyCallRequest) (reply : VesAnyCallReply)
| OpSetDeathCallback (callback : option (Z -> U -> U)).

#[local] Abbreviation proxy := (machine (VesControlProxy K U)).
#[local] Abbreviation proxy_thread := (thread (VesControlProxy K U) proxy_worker).

(** An exchange on a socket of its own. *)
Definition exchange {A} (f : K -> run (A * K)) : proxy A := fun p =>
  let! (a, k) := f (px_kernel p) in Returns (a, p <| px_kernel := k |>).

Definition proxy_perform (op : proxy_op) : proxy_thread unit :=
  match op with
  | OpOpenSession fuel request handles => Proxy_OpenSession path fuel request handles;; mret tt
  | OpCloseSession fuel => Proxy_CloseSession path fuel;; mret tt
  | OpHeartbeat fuel reply => exchange (Heartbeat fuel path reply);; mret tt
  | OpAnyCall fuel request reply => exchange (AnyCall fuel path request reply);; mret tt
  | OpSetDeathCallback callback => atomic (Proxy_SetEngineDeathCallback callback)
  end.

(** The service and the kernel act. *)
Definition proxy_environment (p p' : VesControlProxy K U) : Prop := exists k, p' = p <| px_kernel := k |>.

Lemma proxy_time_environment (n : nat) p : proxy_environment p p.
Proof. exists (px_kernel p). by destruct p. Qed.

#[export] Instance proxy_system : System (VesControlProxy K U) proxy_worker := {|
  sys_op_role := fun _ : proxy_op => SharedRole; sys_perform := proxy_perform;
  sys_invoke := fun call : Empty_set => match call with end;
  sys_run_worker := proxy_run_worker; sys_environment := proxy_environment; sys_tick := fun _ p => p;
  sys_tick_environment := proxy_time_environment;
  sys_initial := fun p => exists user k, p = VesControlProxy_new user k |}.

(** There is a connection, its socket is the only one open, and no monitor
    runs but its own. *)
Definition connected (p : VesControlProxy K U) : Prop :=
  0 <= px_sock_fd p /\ px_open p = [px_sock_fd p] /\
  exists i, px_monitor_thread p = Some i /\ px_alive p ⊆ {[i]}.

Definition no_connection (p : VesControlProxy K U) : Prop :=
  px_sock_fd p = -1 /\ px_monitor_thread p = None /\ px_sessionId p = 0.

Definition disconnected (p : VesControlProxy K U) : Prop := no_connection p /\ px_open p = [] /\ px_alive p = ∅.

(** What a thread does while it pauses: nothing with the connection; or it
    holds [operationMutex_] and waits for the monitor, has no connection, has
    a socket it did not publish yet, or has just published it. *)
Inductive proxy_label : Type :=
| PIdle
| PStopping (fd : Z) (monitor : option nat)
| PClear
| PGot (fd : Z)
| PConnected.

Definition locks (l : proxy_label) : nat := match l with PIdle => 0 | _ => 1 end.

Definition proxy_knows (l : proxy_label) (p : VesControlProxy K U) : Prop :=
  match l with
  | PIdle => True
  | PStopping fd monitor =>
      no_connection p /\ px_open p = (if 0 <=? fd then [fd] else []) /\
      px_alive p ⊆ match monitor with Some i => {[i]} | None => ∅ end
  | PClear => disconnected p
  | PGot fd => no_connection p /\ 0 <= fd /\ px_open p = [fd] /\ px_alive p = ∅
  | PConnected => connected p
  end.

Definition proxy_inv (ls : list proxy_label) (p : VesControlProxy K U) : Prop :=
  sum_of locks ls = Nat.b2n (px_operating p) /\ Forall (fun l => proxy_knows l p) ls /\
  (px_operating p = false -> connected p \/ disconnected p).

Definition prest (_ : role) (l : proxy_label) (others : list proxy_label) (p : VesControlProxy K U) : Prop :=
  proxy_inv (l :: others) p.

(** Who holds the mutex may change the connection. *)
Lemma proxy_change l l' fr p p' :
  proxy_inv (l :: fr) p -> sum_of locks fr = 0%nat -> locks l' = Nat.b2n (px_operating p') -> proxy_knows l' p' ->
  (px_operating p' = false -> connected p' \/ disconnected p') -> proxy_inv (l' :: fr) p'.
Proof.
  intros _ Hfr Hl' Hk' Hidle. split; [rewrite sum_of_cons; lia|]. split; [|done]. constructor; [done|].
  apply Forall_forall. intros x Hx. pose proof (sum_of_zero _ _ _ Hfr Hx). by destruct x.
Qed.

Lemma proxy_alone l fr p :
  proxy_inv (l :: fr) p -> locks l = 1%nat -> px_operating p = true /\ sum_of locks fr = 0%nat /\ proxy_knows l p.
Proof.
  intros (Hs & Hk & _) Hl. apply Forall_cons_1 in Hk as [Hk _]. rewrite sum_of_cons in Hs.
  destruct (px_operating p); cbn in Hs; repeat split; done || lia.
Qed.

Lemma proxy_free fr p : proxy_inv (PIdle :: fr) p -> px_operating p = false ->
  sum_of locks fr = 0%nat /\ (connected p \/ disconnected p).
Proof. intros (Hs & _ & Hidle) Ho. rewrite sum_of_cons, Ho in Hs. split; [cbn in Hs; lia|auto]. Qed.

(** What the invariant does not mention, except that monitors end. *)
Definition same_connection (p p' : VesControlProxy K U) : Prop :=
  px_operating p' = px_operating p /\ px_sock_fd p' = px_sock_fd p /\ px_monitor_thread p' = px_monitor_thread p /\
  px_sessionId p' = px_sessionId p /\ px_open p' = px_open p /\ px_alive p' ⊆ px_alive p.

Lemma proxy_inv_same ls p p' : same_connection p p' -> proxy_inv ls p -> proxy_inv ls p'.
Proof.
  intros (E1 & E2 & E3 & E4 & E5 & E6).
  assert (Hc : connected p -> connected p').
  { intros (? & ? & i & ? & ?). unfold connected. rewrite E2, E3, E5. split; [done|]. split; [done|]. exists i. split; [done|]. set_solver. }
  assert (Hn : no_connection p -> no_connection p') by (unfold no_connection; by rewrite E2, E3, E4).
  assert (Ha : px_alive p = ∅ -> px_alive p' = ∅) by set_solver.
  assert (Hd : disconnected p -> disconnected p') by (intros (? & ? & ?); unfold disconnected; rewrite E5; auto).
  intros (Hs & Hk & Hi). rewrite <- E1 in Hs. split; [done|]. split; [|rewrite E1; intuition].
  eapply Forall_impl; [exact Hk|]. intros l. destruct l; cbn; rewrite ?E5; intuition. set_solver.
Qed.

(** ** Every thread keeps it, and none ends the process *)

#[local] Existing Instance aborts_refused.

Section Threads.
Variable r : role.

#[local] Abbreviation pstays := (stays (W := proxy_worker) (prest r)).

Lemma pstays_same l {A} (m : proxy A) :
  (forall p a p', m p = Returns (a, p') -> same_connection p p') -> pstays l (atomic m).
Proof. intros Hm. apply stays_atomic. intros fr p a p' Hp E. by eapply proxy_inv_same; [eapply Hm|]. Qed.

Lemma same_connection_refl p : same_connection p p.
Proof. by repeat split. Qed.

Lemma pstays_gets l {A} (f : VesControlProxy K U -> A) : pstays l (atomic (gets f)).
Proof. apply pstays_same. intros p a p' [= _ <-]. apply same_connection_refl. Qed.

Lemma pstays_modify l (f : VesControlProxy K U -> VesControlProxy K U) :
  (forall p, same_connection p (f p)) -> pstays l (atomic (modify f)).
Proof. intros Hf. apply pstays_same. by intros p a p' [= _ <-]. Qed.

Lemma pstays_on_kernel l {A} (f : K -> A * K) : pstays l (atomic (on_kernel f)).
Proof. apply pstays_same. intros p a p'. unfold on_kernel. destruct (f (px_kernel p)). intros [= _ <-]. by repeat split. Qed.

Lemma pstays_exchange l {A} (f : K -> run (A * K)) : pstays l (atomic (exchange f)).
Proof.
  apply pstays_same. intros p a p'. unfold exchange. destruct (f (px_kernel p)) as [[? ?]| |]; [|done..].
  intros [= _ <-]. by repeat split.
Qed.

(** The mutex was just taken. *)
Definition entered (fr : list proxy_label) (p : VesControlProxy K U) : Prop :=
  px_operating p = true /\ sum_of locks fr = 0%nat /\ (connected p \/ disconnected p).

Lemma twp_lock_operation : twp (W := proxy_worker) (prest r) (prest r PIdle) lock_operation (fun _ => entered).
Proof.
  eapply twp_bind; [apply twp_cv_wait|]. intros ?. apply twp_modify, twp_ret. intros fr ? (p & [Hp Ho] & ->).
  apply negb_true_iff in Ho. destruct (proxy_free _ _ Hp Ho) as [Hfr Hc]. by split.
Qed.

(** A thread with the mutex whose knowledge follows from what it did. *)
Lemma entered_knows l fr p :
  locks l = 1%nat -> px_operating p = true -> sum_of locks fr = 0%nat -> proxy_knows l p -> prest r l fr p.
Proof.
  intros Hl Ho Hfr Hk. split; [rewrite sum_of_cons, Ho, Hl, Hfr; done|]. split; [|by rewrite Ho]. constructor; [done|].
  apply Forall_forall. intros x Hx. pose proof (sum_of_zero _ _ _ Hfr Hx). by destruct x.
Qed.

Lemma twp_reset : twp (W := proxy_worker) (prest r) entered ResetSocketConnection (fun _ => prest r PClear).
Proof.
  unfold ResetSocketConnection, StopMonitorThread. apply twp_step. intros [fd monitor].
  eapply (twp_bind _ _ _ _ (fun _ => prest r (PStopping fd monitor))).
  { eapply twp_pre with (P := prest r (PStopping fd monitor)).
    - intros fr p (p0 & (Ho & Hfr & Hc) & [= <- <- <-]). apply entered_knows; try done. cbn.
      destruct Hc as [(Hf & Hop & i & Hm & Ha)|((Hf & Hm & _) & Hop & Ha)]; rewrite Hm, Hop, ?Ha.
      + rewrite (proj2 (Z.leb_le _ _)) by done. by repeat split.
      + rewrite Hf. by repeat split.
    - destruct (0 <=? fd); [apply pstays_modify; by repeat split|apply twp_ret; by intros fr p Hp]. }
  intros ?. eapply (twp_bind _ _ _ _ (fun _ => prest r (PStopping fd None))).
  { destruct monitor as [i|]; [|apply twp_ret; by intros fr p Hp]. exists (PStopping fd (Some i)). split; [done|].
    intros fr p [Hp Hw]. unfold awake in Hw. cbn [deadline_passed] in Hw. rewrite orb_false_r in Hw. apply bool_decide_eq_true in Hw.
    destruct (proxy_alone _ _ _ Hp eq_refl) as (Ho & Hfr & Hn & Hop & Ha).
    apply entered_knows; try done. cbn. split; [done|]. split; [done|]. set_solver. }
  intros ?. destruct (0 <=? fd) eqn:Efd.
  - apply twp_modify_end. intros fr p Hp.
    destruct (proxy_alone _ _ _ Hp eq_refl) as (Ho & Hfr & Hn & Hop & Ha).
    apply entered_knows; try done. cbn. rewrite Efd in Hop. rewrite Hop. split; [done|]. split; [|set_solver].
    cbn. by rewrite decide_False by tauto.
  - apply twp_ret. intros fr p Hp.
    destruct (proxy_alone _ _ _ Hp eq_refl) as (Ho & Hfr & Hn & Hop & Ha).
    apply entered_knows; try done. cbn. rewrite Efd in Hop. split; [done|]. split; [done|]. set_solver.
Qed.

Lemma send_open_fd fuel request handles k status handles' fd k' :
  send_open fuel path request handles k = Returns (status, handles', fd, k') -> status_is status Ok = true -> 0 <= fd.
Proof.
  unfold send_open. destruct (EncodeMessage request Ptr) as [[[] payload]|]; [|by intros [= <- _ _ _]|done].
  destruct (ConnectToService path k) as [fd0 k0]. destruct (Z.ltb_spec fd0 0); [by intros [= <- _ _ _]|].
  destruct (SendCommand fuel fd0 1 payload k0) as [[[] k1]| |]; [|by intros [= <- _ _ _]|done..]. cbn.
  destruct (ReceiveSessionHandles fd0 k1) as [[st hs] k2]. destruct (status_is st Ok) eqn:E; cbn; [by intros [= _ _ <- _]|].
  intros [= <- _ _ _]. congruence.
Qed.

(** Giving the mutex back. *)
Lemma twp_unlock l : locks l = 1%nat -> (forall p, proxy_knows l p -> connected p \/ disconnected p) ->
  twp (W := proxy_worker) (prest r) (prest r l) (atomic unlock_operation) (fun _ => prest r PIdle).
Proof.
  intros Hl Hk. apply twp_modify_end. intros fr p Hp. destruct (proxy_alone _ _ _ Hp Hl) as (Ho & Hfr & Hkn).
  eapply proxy_change; [exact Hp|done|done|done|]. intros _. by apply Hk in Hkn as [?|?]; [left|right].
Qed.

(** The socket of the exchange becomes the connection; the thread object is
    empty. *)
Lemma twp_start_monitor fd sessionId :
  twp (W := proxy_worker) (prest r) (prest r (PGot fd)) (start_monitor fd sessionId) (fun _ => prest r PConnected).
Proof.
  apply twp_gets. intros [j|].
  { intros fr p [Hp Hj]. destruct (proxy_alone _ _ _ Hp eq_refl) as (_ & _ & (_ & Hn & _) & _). congruence. }
  apply twp_gets. intros i. apply twp_modify. eapply twp_pre; [|apply twp_spawn]. intros fr ? (p & ((Hp & _) & _) & ->).
  destruct (proxy_alone _ _ _ Hp eq_refl) as (Ho & Hfr & _ & Hfd & Hop & Ha). apply entered_knows; try done.
  split; [done|]. split; [done|]. exists i. split; [done|]. cbn. rewrite Ha. set_solver.
Qed.

Lemma pstays_OpenSession fuel request handles : pstays PIdle (Proxy_OpenSession path fuel request handles).
Proof.
  unfold Proxy_OpenSession. destruct (negb _); [apply stays_ret|].
  destruct (EncodeMessage request Ptr) as [[[] payload]|]; [|apply stays_ret|by apply pstays_same].
  eapply twp_bind; [apply twp_lock_operation|]. intros ?. tw (apply twp_reset). tw (apply twp_yield).
  apply twp_step. intros [[status handles'] fd]. destruct (status_is status Ok) eqn:Est; cbn [negb].
  - eapply twp_bind.
    { eapply twp_pre; [|apply (twp_yield _ (PGot fd))]. intros fr p' (p & Hp & Hx). unfold exchange_open in Hx.
      destruct (send_open fuel path request handles (px_kernel p)) as [[[[st hs] fd'] k]| |] eqn:E; [|done..].
      injection Hx as -> -> -> <-. apply send_open_fd in E; [|done].
      destruct (proxy_alone _ _ _ Hp eq_refl) as (Ho & Hfr & Hn & Hop & Ha). apply entered_knows; try done.
      unfold proxy_knows. cbn [px_open px_alive]. rewrite Est, Hop. done. }
    intros ?. tw (apply twp_start_monitor). tw (apply (twp_unlock PConnected); [done|by left]).
    apply twp_ret. by intros fr p Hp.
  - eapply twp_bind.
    { eapply twp_pre; [|apply (twp_yield _ PClear)]. intros fr p' (p & Hp & Hx). unfold exchange_open in Hx.
      destruct (send_open fuel path request handles (px_kernel p)) as [[[[st hs] fd'] k]| |] eqn:E; [|done..].
      injection Hx as -> -> -> <-. destruct (proxy_alone _ _ _ Hp eq_refl) as (Ho & Hfr & Hn & Hop & Ha).
      apply entered_knows; try done. unfold proxy_knows, disconnected. cbn [px_open px_alive]. rewrite Est. done. }
    intros ?. tw (apply (twp_unlock PClear); [done|by right]). apply twp_ret. by intros fr p Hp.
Qed.

Lemma pstays_CloseSession fuel : pstays PIdle (Proxy_CloseSession path fuel).
Proof.
  unfold Proxy_CloseSession. eapply twp_bind; [apply twp_lock_operation|]. intros ?. tw (apply twp_reset).
  tw (apply twp_yield). tw (apply (pstays_exchange PClear (send_close fuel path))). tw (apply twp_yield).
  tw (apply (twp_unlock PClear); [done|by right]). apply twp_ret. by intros fr p Hp.
Qed.

(** The monitor only reads the connection. *)
Lemma pstays_monitor fuel i : pstays PIdle (proxy_run_worker fuel (MonitorThread i)).
Proof.
  assert (Hno : pstays PIdle NotifyPeerDisconnected).
  { unfold NotifyPeerDisconnected. repeat first [apply stays_ret|apply stays_yield|apply pstays_gets
      |apply pstays_modify; by repeat split|apply stays_bind; [|intros ?]|case_match]. }
  unfold proxy_run_worker. apply stays_bind; [|intros ?; apply pstays_modify; intros p; repeat split; cbn; set_solver].
  unfold MonitorSocket. apply stays_bind; [apply pstays_gets|]. intros fd. destruct (fd <? 0); [apply stays_ret|].
  apply stays_bind; [apply stays_yield|]. intros ?. induction fuel as [|fuel IH]; cbn [monitor_loop]; [apply stays_diverge|].
  repeat first [exact IH|exact Hno|apply stays_ret|apply stays_yield|apply pstays_gets|apply pstays_on_kernel
    |apply stays_bind; [|intros ?]|case_match].
Qed.

End Threads.

Lemma pstays_proxy_op op : stays (prest (sys_op_role op)) PIdle (sys_perform op).
Proof.
  destruct op; cbn [sys_perform proxy_system proxy_perform]; try (apply stays_bind; [|intros ?; apply stays_ret]).
  - apply pstays_OpenSession.
  - apply pstays_CloseSession.
  - apply pstays_exchange.
  - apply pstays_exchange.
  - apply pstays_modify. by repeat split.
Qed.

(** ** The invariant *)

Definition proxy_compat (_ : list nat) (_ : role) (l1 l2 : list (role * proxy_label)) (fr : list proxy_label) : Prop :=
  fr = map snd l1 ++ map snd l2.

Definition proxy_global (_ : list nat) (ls : list (role * proxy_label)) (p : VesControlProxy K U) : Prop :=
  proxy_inv (map snd ls) p.

Lemma proxy_inv_permutation ls ls' p : ls ≡ₚ ls' -> proxy_inv ls p -> proxy_inv ls' p.
Proof. intros Hp (Hs & Hk & Hi). split; [by rewrite <- (sum_of_permutation _ _ _ Hp)|]. by rewrite <- Hp. Qed.

Lemma proxy_split calls l1 r l l2 p :
  proxy_global calls (l1 ++ (r, l) :: l2) p <-> exists fr, proxy_compat calls r l1 l2 fr /\ prest r l fr p.
Proof.
  unfold proxy_global, proxy_compat, prest. rewrite map_app. cbn. split.
  - intros H. eexists. split; [done|]. eapply proxy_inv_permutation, H. symmetry. apply Permutation_middle.
  - intros (fr & -> & H). eapply proxy_inv_permutation, H. apply Permutation_middle.
Qed.

#[export] Instance proxy_invariant : Invariant prest PIdle proxy_compat proxy_global.
Proof.
  split.
  - apply proxy_split.
  - intros calls ls r p _ (? & ? & ?). apply proxy_split. eexists. split; [done|]. rewrite app_nil_r.
    split; [by rewrite sum_of_cons|]. split; [by constructor|done].
  - intros calls l1 r l2 p (fr & -> & (Hs & Hk & Hi))%proxy_split. unfold proxy_global. rewrite map_app.
    apply Forall_cons_1 in Hk as [_ ?]. rewrite sum_of_cons in Hs. by split; [|split].
  - apply pstays_proxy_op.
  - intros fuel [i]. apply pstays_monitor.
  - intros calls ls p p' (k & ->). apply proxy_inv_same. by repeat split.
  - done.
Qed.

(** Between two operations that change the connection, and in any case. *)
Definition proxy_ok (p : VesControlProxy K U) : Prop :=
  (px_operating p = false -> connected p \/ disconnected p) /\ (size (px_alive p) <= 1)%nat /\ (length (px_open p) <= 1)%nat.

Lemma size_at_most_one (X : gset nat) i : X ⊆ {[i]} -> (size X <= 1)%nat.
Proof. intros H. apply subseteq_size in H. by rewrite size_singleton in H. Qed.

Lemma connected_bounds p : connected p -> (size (px_alive p) <= 1)%nat /\ (length (px_open p) <= 1)%nat.
Proof. intros (_ & -> & i & _ & Hi). split; [by eapply size_at_most_one|done]. Qed.

Lemma disconnected_bounds p : disconnected p -> (size (px_alive p) <= 1)%nat /\ (length (px_open p) <= 1)%nat.
Proof. intros (_ & -> & ->). rewrite size_empty. split; cbn; lia. Qed.

Lemma knows_bounds l p : locks l = 1%nat -> proxy_knows l p -> (size (px_alive p) <= 1)%nat /\ (length (px_open p) <= 1)%nat.
Proof.
  destruct l as [|fd monitor| |fd|]; cbn; [done|intros _..].
  - intros (_ & -> & Hm). split; [|by destruct (0 <=? fd); cbn; lia].
    apply size_at_most_one with (default 0%nat monitor). destruct monitor; set_solver.
  - apply disconnected_bounds.
  - intros (_ & _ & -> & ->). rewrite size_empty. split; cbn; lia.
  - apply connected_bounds.
Qed.

Lemma holder_exists ls : sum_of locks ls = 1%nat -> exists l, l ∈ ls /\ locks l = 1%nat.
Proof.
  induction ls as [|l ls IH]; [done|]. rewrite sum_of_cons. intros Hs.
  destruct l; [|eexists; split; [left|done]..]. destruct IH as (l & ? & ?); [done|]. exists l. split; [by right|done].
Qed.

Lemma proxy_inv_ok ls p : proxy_inv ls p -> proxy_ok p.
Proof.
  intros (Hs & Hk & Hi). split; [done|]. destruct (px_operating p).
  - apply holder_exists in Hs as (l & Hl & Hlock). rewrite Forall_forall in Hk. by apply (knows_bounds l); [|apply Hk].
  - destruct (Hi eq_refl); [by apply connected_bounds|by apply disconnected_bounds].
Qed.

Lemma proxy_initial p : sys_initial p -> proxy_global [] [] p.
Proof. intros (user & k & ->). split; [done|]. split; [constructor|]. intros _. right. by repeat split. Qed.


End Invariant.

(** ** A proxy and a service that answers *)
Module ProxyDemo.

(** The kernel counts the descriptors; the service answers every message with
    a session, and does not disconnect. *)
#[global] Instance sockets : Sockets Z := {|
  sk_socket k := (k, k + 1); sk_connect _ _ k := (0, k); sk_send _ data k := (Zlen data, k);
  sk_recv _ _ k := ((0, []), k); sk_recv_waitall _ _ k := ((0, []), k); sk_peek _ k := ((1, 0), k);
  sk_recvmsg _ _ k := ((SESSION_METADATA_BYTES, le_bytes 8 1 ++ le_bytes 8 42, Some [k; k + 1; k + 2; k + 3; k + 4; k + 5]), k + 6);
  sk_sendmsg _ _ _ k := (-1, k); sk_poll _ _ k := (1, k); sk_shutdown _ k := k; sk_close _ k := k |}.

#[global] Instance monitor_sockets : MonitorSockets Z := fun _ _ k => ((0, 0), k).

Definition start : config (VesControlProxy Z unit) proxy_worker :=
  {| cf_state := VesControlProxy_new tt 3; cf_pool := []; cf_calls := [] |}.

#[global] Instance demo_system : System (VesControlProxy Z unit) proxy_worker := proxy_system "/tmp/ves"%string.

Definition after (ms : list move) : config (VesControlProxy Z unit) proxy_worker :=
  match exec ms start with Some cfg => cfg | None => start end.

Definition open_op : sys_op :=
  OpOpenSession 20 DefaultVesOpenSessionRequest MakeDefaultBootstrapHandles.

Definition runs (threads : list nat) : list (@move _ _ _ demo_system) := map (fun i => MRun i 50) threads.

(** A session is opened, and once more while its monitor runs. *)
Definition opened_again : list move :=
  MCall open_op :: runs (repeat 0%nat 5) ++ MCall open_op :: runs (repeat 1%nat 2) ++ runs (repeat 0%nat 5).

Definition is_some {A} (x : option A) : bool := match x with Some _ => true | None => false end.

Lemma proxy_reachable ms : is_some (exec ms start) = true -> reachable (after ms).
Proof.
  intros Hms. exists (cf_state start). split; [by exists tt, 3|]. unfold after.
  destruct (exec ms start) eqn:E; [|done]. by apply exec_steps in E.
Qed.

End ProxyDemo.

