(* ===== verification/VesChannel.v ===== *)
(** * The bootstrap channel of the virus executor service

    [VesBootstrapChannel] of transport/ves_control_proxy.cpp: the channel
    through which the client of the service opens its sessions.  It binds a
    control object, watches it for its death, replaces it when it died or when
    a session could not be opened, and gives up for good when no control can
    be loaded.

    What is behind the control objects (the proxies, the services they talk
    to and the loader) is the parameter [ControlEnv].  A control is a number;
    controls may share a remote object.  The access policy is a function of
    variables of the user, of type [Shared]; an operation of the channel is one
    step and sees one value of them. *)

From Stdlib Require Import Lia.
From S2P Require Import Prelude Types ShmLayout Ring FilePayload EventFd Os Platform Session VesMessages VesControl.
From S2P Require Import ClientState ClientLive.

Class ControlEnv : Type := {
  Remote : Type;
  ctl_object : nat -> option nat;                            (* AsObject *)
  ctl_dead : nat -> Remote -> bool;                          (* IsObjectDead, of an object *)
  ctl_load : Remote -> option nat * Remote;                  (* controlLoader_ *)
  ctl_OpenSession : nat -> VesOpenSessionRequest -> BootstrapHandles -> Remote -> World ->
                    StatusCode * BootstrapHandles * Remote * World;
  ctl_CloseSession : nat -> Remote -> World -> StatusCode * Remote * World;
  ctl_Heartbeat : nat -> VesHeartbeatReply -> Remote -> StatusCode * VesHeartbeatReply * Remote;
}.

(** What the client relies on: a session that was opened has an id, and a
    control holds no locks of the client's process. *)
Class ControlLaws `{ControlEnv} : Prop := {
  control_open c request h r w status h' r' w' : ctl_OpenSession c request h r w = (status, h', r', w') ->
    w_held w' = w_held w /\ (status = Ok -> bh_sessionId h' <> 0);
  control_close c r w status r' w' : ctl_CloseSession c r w = (status, r', w') -> w_held w' = w_held w;
}.

Section Channel.
Context {VE : ControlEnv} {Shared : Type}.

Record VesBootstrapChannelState : Type := {
  bc_control : option nat;
  bc_watched : list nat;                                     (* the objects with our death recipient *)
  bc_accessPolicy : option (Shared -> bool);
  bc_deathCallback : bool;
  bc_sessionId : Z;
  bc_openSessionRequest : VesOpenSessionRequest;
  bc_fatalControlLoadFailure : bool;
  bc_remote : Remote;
}.

#[export] Instance VesBootstrapChannelState_eta : Eta VesBootstrapChannelState := fun r =>
  Build_VesBootstrapChannelState (bc_control r) (bc_watched r) (bc_accessPolicy r) (bc_deathCallback r) (bc_sessionId r)
    (bc_openSessionRequest r) (bc_fatalControlLoadFailure r) (bc_remote r).

#[local] Notation channel := VesBootstrapChannelState.

(** The constructor, with a control loader, and [InitializeDeathRecipient]. *)
Definition MakeChannel (request : VesOpenSessionRequest) (accessPolicy : option (Shared -> bool)) (remote : Remote) : channel := {|
  bc_control := None; bc_watched := []; bc_accessPolicy := accessPolicy; bc_deathCallback := false; bc_sessionId := 0;
  bc_openSessionRequest := request <| os_engineKinds := NormalizeVesEngineKinds (os_engineKinds request) |>;
  bc_fatalControlLoadFailure := false; bc_remote := remote |}.

Definition AccessAllowed (sh : Shared) (c : channel) : bool :=
  match bc_accessPolicy c with None => true | Some allowed => allowed sh end.

Definition object_of (control : option nat) : option nat := control ≫= ctl_object.

Definition IsDeadRemoteObject (control : option nat) (c : channel) : bool :=
  match object_of control with None => false | Some o => ctl_dead o (bc_remote c) end.

Definition RebindControlLocked (nextControl : option nat) (c : channel) : channel :=
  let previousObject := object_of (bc_control c) in
  let nextObject := object_of nextControl in
  let watched := match previousObject with
                 | Some p => if bool_decide (previousObject <> nextObject) then filter (fun o => o <> p) (bc_watched c)
                             else bc_watched c
                 | None => bc_watched c
                 end in
  let c := c <| bc_control := nextControl |> in
  c <| bc_watched := match nextObject with
                     | Some n => if bool_decide (nextObject <> previousObject) then watched ++ [n] else watched
                     | None => watched
                     end |>.

Definition RefreshControlLocked (sh : Shared) (c : channel) : option nat * channel :=
  if negb (AccessAllowed sh c) then (None, c) else
  if bc_fatalControlLoadFailure c then (None, c) else
  let '(nextControl, remote) := ctl_load (bc_remote c) in
  let c := c <| bc_remote := remote |> in
  match nextControl with
  | Some _ => let c := RebindControlLocked nextControl c in (bc_control c, c)
  | None => (None, (RebindControlLocked None c) <| bc_fatalControlLoadFailure := true |>)
  end.

Definition EnsureControlBoundLocked (sh : Shared) (c : channel) : option nat * channel :=
  if negb (AccessAllowed sh c) then (None, (RebindControlLocked None c) <| bc_sessionId := 0 |>) else
  match bc_control c with
  | Some control => (Some control, c)
  | None => RefreshControlLocked sh c
  end.

(** The control, whether the first one was dead, and the channel. *)
Definition LoadOpenSessionControl (sh : Shared) (c : channel) : option nat * bool * channel :=
  let '(control, c) := EnsureControlBoundLocked sh c in
  let deadBeforeOpen := IsDeadRemoteObject control c in
  let '(control, c) := if deadBeforeOpen then RefreshControlLocked sh c else (control, c) in
  (control, deadBeforeOpen, c).

Definition ShouldRetryOpenSessionAfterRefresh (status : StatusCode) : bool :=
  status_is status PeerDisconnected || status_is status CrashedDuringExecution.

(** [control->OpenSession(request, handles)] and the id of the new session. *)
Definition open_on (control : nat) (request : VesOpenSessionRequest) (handles : BootstrapHandles) (c : channel) (w : World)
    : StatusCode * BootstrapHandles * channel * World :=
  let '(status, handles, remote, w) := ctl_OpenSession control request handles (bc_remote c) w in
  let c := c <| bc_remote := remote |> in
  (status, handles, if status_is status Ok then c <| bc_sessionId := bh_sessionId handles |> else c, w).

Definition RetryOpenSessionAfterRefresh (sh : Shared) (request : VesOpenSessionRequest) (handles : BootstrapHandles)
    (initialStatus : StatusCode) (c : channel) (w : World) : StatusCode * BootstrapHandles * channel * World :=
  let '(control, c) := RefreshControlLocked sh c in
  match control with
  | None => (if bc_fatalControlLoadFailure c then ClientClosed else initialStatus, MakeDefaultBootstrapHandles, c, w)
  | Some control => open_on control request handles c w
  end.

Definition OpenSession (sh : Shared) (c : channel) (w : World) : StatusCode * BootstrapHandles * channel * World :=
  if negb (AccessAllowed sh c) then (PeerDisconnected, MakeDefaultBootstrapHandles, c, w) else
  let request := bc_openSessionRequest c in
  let '(control, deadBeforeOpen, c) := LoadOpenSessionControl sh c in
  let handles := MakeDefaultBootstrapHandles in
  match control with
  | None => (if bc_fatalControlLoadFailure c then ClientClosed
             else if deadBeforeOpen then PeerDisconnected else InvalidArgument, handles, c, w)
  | Some control =>
      if deadBeforeOpen && IsDeadRemoteObject (Some control) c then (PeerDisconnected, handles, c, w) else
      let '(status, handles, c, w) := open_on control request handles c w in
      if status_is status Ok || negb (ShouldRetryOpenSessionAfterRefresh status) then (status, handles, c, w)
      else RetryOpenSessionAfterRefresh sh request handles status c w
  end.

Definition CloseSession (sh : Shared) (c : channel) (w : World) : StatusCode * channel * World :=
  let control := bc_control c in
  let unbound := (RebindControlLocked None c) <| bc_sessionId := 0 |> in
  if negb (AccessAllowed sh c) then (Ok, unbound, w) else
  match control with
  | None => (Ok, unbound, w)
  | Some control =>
      let '(status, remote, w) := ctl_CloseSession control (bc_remote unbound) w in
      (status, unbound <| bc_remote := remote |>, w)
  end.

Definition health (status : ChannelHealth.status) (sessionId : Z) : ChannelHealthResult :=
  {| chr_status := status; chr_sessionId := sessionId |}.

Definition CheckHealth (sh : Shared) (expectedSessionId : Z) (c : channel) : ChannelHealthResult * channel :=
  let sessionId := bc_sessionId c in
  if negb (AccessAllowed sh c)
  then (health (if negb (sessionId =? 0) then ChannelHealth.Unhealthy else ChannelHealth.Healthy) sessionId, c) else
  match bc_control c with
  | None => (if negb (sessionId =? 0) then health ChannelHealth.Unhealthy sessionId else ChannelHealthResult_default, c)
  | Some control =>
      if IsDeadRemoteObject (Some control) c then (health ChannelHealth.Unhealthy sessionId, c) else
      let '(status, reply, remote) := ctl_Heartbeat control VesHeartbeatReply_default (bc_remote c) in
      let c := c <| bc_remote := remote |> in
      if status_is status Ok then (ToHealthResult reply expectedSessionId, c) else
      if status_is status ProtocolMismatch then (health ChannelHealth.Malformed 0, c) else
      (health ChannelHealth.Timeout 0, c)
  end.

Definition CurrentControl (sh : Shared) (c : channel) : option nat * channel :=
  if negb (AccessAllowed sh c) then (None, (RebindControlLocked None c) <| bc_sessionId := 0 |>)
  else EnsureControlBoundLocked sh c.

Definition SetEngineDeathCallback (callback : bool) (c : channel) : channel := c <| bc_deathCallback := callback |>.

(** The session whose death is reported, when there is a callback. *)
Definition HandleRemoteDied (c : channel) : option Z * channel :=
  let c' := RebindControlLocked None c in
  (if bc_deathCallback c then Some (bc_sessionId c) else None, c').

Definition Shutdown (c : channel) : channel :=
  (RebindControlLocked None (c <| bc_deathCallback := false |>)) <| bc_sessionId := 0 |>.

(** ** What holds in every state *)

(** The operations of the channel, the death of the watched object, and what
    happens outside the channel. *)
Inductive channel_step : channel -> channel -> Prop :=
| step_open sh c w status h c' w' : OpenSession sh c w = (status, h, c', w') -> channel_step c c'
| step_close sh c w status c' w' : CloseSession sh c w = (status, c', w') -> channel_step c c'
| step_health sh id c result c' : CheckHealth sh id c = (result, c') -> channel_step c c'
| step_control sh c control c' : CurrentControl sh c = (control, c') -> channel_step c c'
| step_callback b c : channel_step c (SetEngineDeathCallback b c)
| step_died c session c' : HandleRemoteDied c = (session, c') -> channel_step c c'
| step_shutdown c : channel_step c (Shutdown c)
| step_remote c r : channel_step c (c <| bc_remote := r |>).

Definition channel_reachable (c : channel) : Prop :=
  exists request accessPolicy remote, rtc channel_step (MakeChannel request accessPolicy remote) c.

(** The death recipient is registered with the object of the bound control and
    with no other; a channel that gave up has no control. *)
Definition channel_ok (c : channel) : Prop :=
  bc_watched c = option_list (object_of (bc_control c)) /\
  (bc_fatalControlLoadFailure c = true -> bc_control c = None).

#[local] Arguments object_of : simpl never.

Lemma filter_watched (p : nat) : filter (fun o => o <> p) (option_list (Some p)) = [].
Proof. cbn. destruct (decide (p <> p)) as [H|]; [by destruct H|done]. Qed.

Lemma Rebind_ok next c :
  channel_ok c -> (bc_fatalControlLoadFailure c = true -> next = None) ->
  channel_ok (RebindControlLocked next c) /\ bc_control (RebindControlLocked next c) = next /\
  bc_fatalControlLoadFailure (RebindControlLocked next c) = bc_fatalControlLoadFailure c.
Proof.
  intros [Hw _] Hf. split; [|done]. split; [|done]. cbn. rewrite Hw.
  destruct (object_of (bc_control c)) as [p|], (object_of next) as [n|]; try done.
  - destruct (decide (p = n)) as [->|Hne].
    + by rewrite !bool_decide_eq_false_2 by (intros H; by apply H).
    + rewrite !bool_decide_eq_true_2 by congruence. by rewrite filter_watched.
  - by rewrite filter_watched.
Qed.

(** A field the invariant does not mention. *)
Lemma channel_ok_same c c' :
  bc_watched c' = bc_watched c -> bc_control c' = bc_control c ->
  bc_fatalControlLoadFailure c' = bc_fatalControlLoadFailure c -> channel_ok c -> channel_ok c'.
Proof. unfold channel_ok. by intros -> -> ->. Qed.

Lemma Unbind_ok c : channel_ok c -> channel_ok ((RebindControlLocked None c) <| bc_sessionId := 0 |>).
Proof. intros Hc. eapply channel_ok_same; [..|by apply (Rebind_ok None c)]; done. Qed.

Lemma Refresh_ok sh c control c' : channel_ok c -> RefreshControlLocked sh c = (control, c') -> channel_ok c'.
Proof.
  unfold RefreshControlLocked. intros Hc. destruct (negb _); [by intros [= _ <-]|].
  destruct (bc_fatalControlLoadFailure c) eqn:Ef; [by intros [= _ <-]|].
  destruct (ctl_load (bc_remote c)) as [[next|] remote]; intros [= _ <-].
  - apply Rebind_ok; [by eapply channel_ok_same; [..|exact Hc]|]. cbn. by rewrite Ef.
  - destruct (Rebind_ok None (c <| bc_remote := remote |>)) as [[Hw _] _]; [by eapply channel_ok_same; [..|exact Hc]|done|].
    split; [exact Hw|done].
Qed.

Lemma EnsureControlBound_ok sh c control c' : channel_ok c -> EnsureControlBoundLocked sh c = (control, c') -> channel_ok c'.
Proof.
  unfold EnsureControlBoundLocked. intros Hc. destruct (negb _); [intros [= _ <-]; by apply Unbind_ok|].
  destruct (bc_control c); [by intros [= _ <-]|by apply Refresh_ok].
Qed.

Lemma LoadOpenSessionControl_ok sh c control dead c' :
  channel_ok c -> LoadOpenSessionControl sh c = (control, dead, c') -> channel_ok c'.
Proof.
  unfold LoadOpenSessionControl. intros Hc. destruct (EnsureControlBoundLocked sh c) as [x c1] eqn:E.
  apply EnsureControlBound_ok in E; [|done]. destruct (IsDeadRemoteObject x c1); [|by intros [= _ _ <-]].
  destruct (RefreshControlLocked sh c1) as [y c2] eqn:E2. intros [= _ _ <-]. by eapply Refresh_ok.
Qed.

Lemma open_on_ok control request h c w status h' c' w' :
  channel_ok c -> open_on control request h c w = (status, h', c', w') -> channel_ok c'.
Proof.
  unfold open_on. intros Hc. destruct (ctl_OpenSession _ _ _ _ _) as [[[st h1] r1] w1]. intros [= _ _ <- _].
  destruct (status_is st Ok); by eapply channel_ok_same; [..|exact Hc].
Qed.

Lemma OpenSession_ok sh c w status h c' w' : channel_ok c -> OpenSession sh c w = (status, h, c', w') -> channel_ok c'.
Proof.
  unfold OpenSession. intros Hc. destruct (negb _); [by intros [= _ _ <- _]|].
  destruct (LoadOpenSessionControl sh c) as [[control dead] c1] eqn:EL. apply LoadOpenSessionControl_ok in EL; [|done].
  destruct control as [control|]; [|by intros [= _ _ <- _]]. destruct (_ && _); [by intros [= _ _ <- _]|].
  destruct (open_on control _ _ c1 w) as [[[st h1] c2] w1] eqn:EO. apply open_on_ok in EO; [|done].
  destruct (_ || _); [by intros [= _ _ <- _]|]. unfold RetryOpenSessionAfterRefresh.
  destruct (RefreshControlLocked sh c2) as [[y|] c3] eqn:ER; apply Refresh_ok in ER; [|done| |done].
  - by apply open_on_ok.
  - by intros [= _ _ <- _].
Qed.

Lemma channel_step_ok c c' : channel_step c c' -> channel_ok c -> channel_ok c'.
Proof.
  intros Hs Hc. destruct Hs as [sh c w st h c' w' H|sh c w st c' w' H|sh id c r c' H|sh c x c' H|b c|c se c' H|c|c r].
  - by eapply OpenSession_ok.
  - unfold CloseSession in H. destruct (negb _); [injection H as _ <- _; by apply Unbind_ok|].
    destruct (bc_control c); [|injection H as _ <- _; by apply Unbind_ok].
    destruct (ctl_CloseSession _ _ _) as [[st1 r1] w1]. injection H as _ <- _.
    eapply channel_ok_same; [..|by apply (Unbind_ok c)]; done.
  - unfold CheckHealth in H. destruct (negb _); [by injection H as _ <-|].
    destruct (bc_control c); [|by injection H as _ <-]. destruct (IsDeadRemoteObject _ _); [by injection H as _ <-|].
    destruct (ctl_Heartbeat _ _ _) as [[st1 y] r1]. repeat case_match; injection H as _ <-;
      by eapply channel_ok_same; [..|exact Hc].
  - unfold CurrentControl in H. destruct (negb _); [injection H as _ <-; by apply Unbind_ok|by eapply EnsureControlBound_ok].
  - by eapply channel_ok_same; [..|exact Hc].
  - injection H as _ <-. by apply Rebind_ok.
  - apply Unbind_ok. by eapply channel_ok_same; [..|exact Hc].
  - by eapply channel_ok_same; [..|exact Hc].
Qed.

Lemma channel_reachable_ok c : channel_reachable c -> channel_ok c.
Proof.
  intros (request & p & r & Hs). assert (H0 : channel_ok (MakeChannel request p r)) by done. revert H0.
  induction Hs as [c|c1 c2 c3 Hs _ IH]; [done|]. intros H1. by eapply IH, channel_step_ok.
Qed.

(** C36: the channel always watches the control it uses: in every state its
    death recipient is registered with the remote object of the bound control,
    once, and with no other object; the death of that object unbinds the
    control, keeps the id of the session for the report, and removes the
    registration. *)
Theorem channel_watches_its_control c :
  channel_reachable c ->
  bc_watched c = option_list (object_of (bc_control c)) /\
  bc_control (snd (HandleRemoteDied c)) = None /\ bc_watched (snd (HandleRemoteDied c)) = [] /\
  (bc_deathCallback c = true -> fst (HandleRemoteDied c) = Some (bc_sessionId c)).
Proof.
  intros Hc. apply channel_reachable_ok in Hc. destruct (Rebind_ok None c Hc) as ([Hw _] & Hn & _); [done|].
  split; [apply Hc|]. unfold HandleRemoteDied. cbn [fst snd]. rewrite Hn in *. split; [done|]. split; [exact Hw|]. by intros ->.
Qed.

(** A control that cannot be loaded is given up for good.  Once the loader
    has failed, opening a session returns [ClientClosed] without calling the
    loader or any control, as long as the access policy allows anything at
    all, and every later operation leaves the channel in that condition. *)
Theorem channel_gives_up_for_good sh c c' w :
  channel_reachable c -> bc_fatalControlLoadFailure c = true -> channel_step c c' ->
  bc_fatalControlLoadFailure c' = true /\
  OpenSession sh c w = (if AccessAllowed sh c then ClientClosed else PeerDisconnected, MakeDefaultBootstrapHandles, c, w).
Proof.
  intros Hr Hf Hs. apply channel_reachable_ok in Hr. pose proof (proj2 Hr Hf) as Hn.
  assert (HO : forall sh w, OpenSession sh c w =
    (if AccessAllowed sh c then ClientClosed else PeerDisconnected, MakeDefaultBootstrapHandles, c, w)).
  { intros sh0 w0. unfold OpenSession, LoadOpenSessionControl, EnsureControlBoundLocked, RefreshControlLocked.
    destruct (AccessAllowed sh0 c); cbn [negb]; [|done]. rewrite Hn, Hf. unfold IsDeadRemoteObject, object_of. cbn. by rewrite Hf. }
  split; [|apply HO]. destruct Hs as [sh1 c w1 st h c' w' H|sh1 c w1 st c' w' H|sh1 id c r c' H|sh1 c x c' H|b c|c se c' H|c|c r].
  - rewrite HO in H. by injection H as _ _ <- _.
  - unfold CloseSession in H. rewrite Hn in H. destruct (negb _); by injection H as _ <- _.
  - unfold CheckHealth in H. rewrite Hn in H. destruct (negb _); by injection H as _ <-.
  - unfold CurrentControl, EnsureControlBoundLocked, RefreshControlLocked in H. rewrite Hn, Hf in H.
    destruct (negb (AccessAllowed sh1 c)); by injection H as _ <-.
  - done.
  - by injection H as _ <-.
  - done.
  - done.
Qed.

(** ** The channel as the client's bootstrap channel *)

Section Client.
Context {PF : Platform} {VL : ControlLaws} {PL : PlatformLaws}.
Variables (U : Type) (shared : U -> Shared) (peer : nat -> World -> World).
Hypothesis peer_held : forall n w, w_held (peer n w) = w_held w.

(** The environment of an [RpcClient] whose channel is this one; [shared] are
    the variables the access policy reads. *)
Definition ves_client_env : ClientEnv := {|
  User := U; Channel := channel; env_peer := peer;
  ch_OpenSession u := OpenSession (shared u); ch_CloseSession u := CloseSession (shared u);
  ch_CheckHealth u := CheckHealth (shared u);
  ch_SetEngineDeathCallback := SetEngineDeathCallback |}.

Lemma open_on_laws control request h c w status h' c' w' :
  open_on control request h c w = (status, h', c', w') -> w_held w' = w_held w /\ (status = Ok -> bh_sessionId h' <> 0).
Proof.
  unfold open_on. destruct (ctl_OpenSession _ _ _ _ _) as [[[st h1] r1] w1] eqn:E. intros [= <- <- _ <-].
  by apply control_open in E.
Qed.

(** The channel gives the client what the client relies on. *)
Lemma ves_client_laws : ClientLaws (H0 := ves_client_env).
Proof.
  split; cbn; [done| | |done].
  - intros u c w status h c' w'. unfold OpenSession. destruct (negb _); [by intros [= <- _ _ <-]|].
    destruct (LoadOpenSessionControl _ c) as [[control dead] c1]. destruct control as [control|];
      [|intros [= <- _ _ <-]; by split; [|repeat case_match]].
    destruct (_ && _); [by intros [= <- _ _ <-]|].
    destruct (open_on control _ _ c1 w) as [[[st h1] c2] w1] eqn:EO. apply open_on_laws in EO as [Hw Hid].
    destruct (_ || _) eqn:Est; [by intros [= <- <- _ <-]|]. unfold RetryOpenSessionAfterRefresh.
    destruct (RefreshControlLocked _ c2) as [[y|] c3].
    + intros HR. apply open_on_laws in HR as [Hw' Hid']. by rewrite Hw', Hw.
    + intros [= <- _ _ <-]. split; [done|]. destruct (bc_fatalControlLoadFailure c3); [done|]. intros ->. by rewrite status_is_refl in Est.
  - intros u c w status c' w'. unfold CloseSession. destruct (negb _); [by intros [= _ _ <-]|].
    destruct (bc_control c); [|by intros [= _ _ <-]]. destruct (ctl_CloseSession _ _ _) as [[st r1] w1] eqn:E.
    intros [= _ _ <-]. by eapply control_close.
Qed.

End Client.

End Channel.

(** ** A concrete channel

    The loader returns what is on a list; the controls open the session 42; the
    access policy reads a flag. *)
Module ChannelDemo.

#[global] Instance env : ControlEnv := {|
  Remote := list (option nat); ctl_object c := Some (c + 100)%nat; ctl_dead _ _ := false;
  ctl_load r := (match r with [] => None | x :: _ => x end, List.tl r);
  ctl_OpenSession _ _ h r w := (Ok, h <| bh_sessionId := 42 |>, r, w);
  ctl_CloseSession _ r w := (Ok, r, w); ctl_Heartbeat _ h r := (Ok, h, r) |}.

#[global] Instance laws : ControlLaws.
Proof. split; [by intros c request h r w st h' r' w' [= <- <- <- <-]|by intros c r w st r' w' [= _ _ <-]]. Qed.

Definition world0 : World := {| w_fds := ∅; w_shm := ∅; w_maps := []; w_held := ∅; w_tick := 0 |}.

Definition channel : Type := VesBootstrapChannelState (Shared := bool).

Definition fresh (loads : list (option nat)) : channel := MakeChannel DefaultVesOpenSessionRequest (Some id) loads.

(** The channel after [OpenSession]. *)
Definition opened (c : channel) : channel :=
  let '(_, _, c, _) := OpenSession true c world0 in c.

Lemma opened_step c : channel_step c (opened c).
Proof. unfold opened. destruct (OpenSession true c world0) as [[[st h] c'] w'] eqn:E. by eapply step_open. Qed.

Lemma opened_reachable loads : channel_reachable (opened (fresh loads)).
Proof. exists DefaultVesOpenSessionRequest, (Some id), loads. apply rtc_once, opened_step. Qed.

End ChannelDemo.

Lemma channel_watches_its_control_witness :
  let c := ChannelDemo.opened (ChannelDemo.fresh [Some 3%nat]) in
  bc_control c = Some 3%nat /\ bc_sessionId c = 42 /\ bc_watched c = [103%nat].
Proof.
  intros c. split; [reflexivity|]. split; [reflexivity|].
  exact (proj1 (channel_watches_its_control c (ChannelDemo.opened_reachable [Some 3%nat]))).
Defined.

Lemma channel_gives_up_for_good_witness :
  let c := ChannelDemo.opened (ChannelDemo.fresh [None; Some 3%nat]) in
  OpenSession true c ChannelDemo.world0 = (ClientClosed, MakeDefaultBootstrapHandles, c, ChannelDemo.world0).
Proof.
  intros c. exact (proj2 (channel_gives_up_for_good true c (ChannelDemo.opened c) ChannelDemo.world0
    (ChannelDemo.opened_reachable [None; Some 3%nat]) eq_refl (ChannelDemo.opened_step c))).
Defined.
