(* ===== verification/TypedCalls.v ===== *)
(** * Typed calls

    What turns a future of the client into a typed reply: [WaitAndDecode] of
    memrpc/client/rpc_client.h and [TypedFuture] of
    memrpc/client/typed_future.h; and the clients of the test kit
    (testkit_async_client.cpp, testkit_client.cpp), which are built on them. *)

From Stdlib Require Import Lia.
From S2P Require Import Prelude Machine Threads Types ByteCodec ShmLayout Ring FilePayload EventFd Os Platform Session.
From S2P Require Import ClientState ClientRecovery ClientCore ClientWorkers VesMessages.
#[local] Open Scope thread_scope.

(** What a call has done to the object behind the pointer it was given: a
    failed decoding may have written a part of it. *)
Inductive written (A : Type) : Type :=
| Untouched
| Clobbered
| Written (a : A).
Arguments Untouched {A}.
Arguments Clobbered {A}.
Arguments Written {A} _.

Section TypedCalls.
Context {PF : Platform} {CE : ClientEnv}.

(** [RpcFuture::Wait]: blocks until the future is ready. *)
Definition await (future : option future_id) : client_thread (StatusCode * RpcReply) :=
  cv_wait (fun c => bool_decide (is_Some (Wait future Ptr c)));;
  (fun c => match Wait future Ptr c with
            | Some (status, Some reply) => Returns ((status, reply), c)
            | _ => OutOfFuel
            end) : client (StatusCode * RpcReply).

Definition WaitAndDecode {Rep} `{CodecTraits Rep} (future : option future_id) (reply : outptr)
    : client_thread (StatusCode * written Rep) :=
  match reply with
  | Null => mret (InvalidArgument, Untouched)
  | Ptr =>
      ' (status, rpcReply) ← await future;
      if negb (status_is status Ok) then mret (status, Untouched) else
      match DecodeMessage (rp_payload rpcReply) Ptr with
      | ReadOk value _ => mret (rp_status rpcReply, Written value)
      | ReadFail _ => mret (ProtocolMismatch, Clobbered)
      | ReadOutOfBounds => (lift_run RunUndefined : client _)
      end
  end.

(** [TypedFuture]: an [RpcFuture]; [Wait] is [WaitAndDecode] on it. *)
Definition TypedFuture_IsReady (future : option future_id) : client bool := IsReady future.

Definition TypedFuture_Wait {Rep} `{CodecTraits Rep} (future : option future_id) (reply : outptr)
    : client_thread (StatusCode * written Rep) :=
  WaitAndDecode future reply.

(** ** The clients of the test kit *)

(** [None] is a typed future without a state. *)
Definition InvokeTypedAsync {Request} `{CodecTraits Request} (opcode : Z) (request : Request) (priority : Priority)
    (execTimeoutMs : Z) : client (option future_id) :=
  match EncodeMessage request Ptr with
  | Undefined => lift_run RunUndefined
  | Defined (false, _) => mret None
  | Defined (true, payload) =>
      bind (InvokeAsync {| call_opcode := opcode; call_priority := priority; call_execTimeoutMs := execTimeoutMs;
                           call_payload := payload |}) (fun future => mret (Some future))
  end.

Definition DEFAULT_EXEC_TIMEOUT_MS : Z := 30000.

Definition EchoAsync (request : EchoRequest) : client (option future_id) :=
  InvokeTypedAsync TestkitOpcode_Echo request Normal DEFAULT_EXEC_TIMEOUT_MS.

Definition AddAsync (request : AddRequest) : client (option future_id) :=
  InvokeTypedAsync TestkitOpcode_Add request Normal DEFAULT_EXEC_TIMEOUT_MS.

Definition SleepAsync (request : SleepRequest) (priority : Priority) (execTimeoutMs : Z) : client (option future_id) :=
  InvokeTypedAsync TestkitOpcode_Sleep request priority execTimeoutMs.

Definition TestkitClient_Echo (text : string) (reply : outptr) : client_thread (StatusCode * written EchoReply) :=
  match reply with
  | Null => mret (InvalidArgument, Untouched)
  | Ptr => future ← EchoAsync {| eq_text := text |}; yield;; TypedFuture_Wait future Ptr
  end.

Definition TestkitClient_Add (lhs rhs : Z) (reply : outptr) : client_thread (StatusCode * written AddReply) :=
  match reply with
  | Null => mret (InvalidArgument, Untouched)
  | Ptr => future ← AddAsync {| aq_lhs := lhs; aq_rhs := rhs |}; yield;; TypedFuture_Wait future Ptr
  end.

Definition TestkitClient_Sleep (delayMs : Z) (reply : outptr) (priority : Priority) (execTimeoutMs : Z)
    : client_thread (StatusCode * written SleepReply) :=
  match reply with
  | Null => mret (InvalidArgument, Untouched)
  | Ptr => future ← SleepAsync {| sq_delayMs := delayMs |} priority execTimeoutMs; yield;; TypedFuture_Wait future Ptr
  end.

(** ** What a ready future decodes to *)

Lemma await_ready future reply c :
  cl_futures c !! future = Some (Some reply) -> alone (await (Some future)) c = Returns ((rp_status reply, reply), c).
Proof.
  intros Hf. unfold await. rewrite alone_bind. unfold bind. cbn -[bool_decide]. unfold bind, gets. rewrite Hf.
  rewrite bool_decide_eq_true_2 by done. cbn. unfold bind. by rewrite Hf.
Qed.

Lemma WaitAndDecode_ready {Rep} `{CodecTraits Rep} future reply value r c :
  cl_futures c !! future = Some (Some reply) -> rp_status reply = Ok ->
  DecodeMessage (rp_payload reply) Ptr = ReadOk value r ->
  alone (WaitAndDecode (Some future) Ptr) c = Returns ((Ok, Written value), c).
Proof.
  intros Hf Hs Hd. unfold WaitAndDecode. rewrite alone_bind. unfold bind at 1. rewrite (await_ready _ _ _ Hf).
  cbn. rewrite Hs. cbn. by rewrite Hd.
Qed.

(** A reply that is not successful is not decoded. *)
Lemma WaitAndDecode_failed {Rep} `{CodecTraits Rep} future reply c :
  cl_futures c !! future = Some (Some reply) -> rp_status reply <> Ok ->
  alone (WaitAndDecode (Rep := Rep) (Some future) Ptr) c = Returns ((rp_status reply, Untouched), c).
Proof.
  intros Hf Hs. unfold WaitAndDecode. rewrite alone_bind. unfold bind at 1. rewrite (await_ready _ _ _ Hf).
  cbn. by destruct (rp_status reply).
Qed.

End TypedCalls.
