(* ===== verification/VesClient.v ===== *)
(** * The client of the virus executor service

    client/ves_client.cpp: an [RpcClient] with the bootstrap channel of
    [VesChannel], a recovery policy that spends a budget of restarts, and the
    typed call [ScanFile].  Of the clients of one process, the one that was
    initialised last owns the service. *)

From Stdlib Require Import Lia.
From S2P Require Import Prelude Machine Threads Types ByteCodec ShmLayout Ring FilePayload EventFd Os Platform Session.
From S2P Require Import ClientState ClientRecovery ClientCore ClientWorkers VesMessages SystemAbility VesControl VesChannel TypedCalls.
#[local] Open Scope thread_scope.

Definition DEFAULT_RESTART_DELAY_MS : Z := 200.

(** ** The variables of the process *)

(** The generations are global; [engineDeathCount_] is shared by the client
    with its recovery policy and its access policy. *)
Record VesShared : Type := {
  vs_nextGeneration : Z;
  vs_activeGeneration : Z;
  vs_engineDeathCount : Z;
}.

#[export] Instance VesShared_eta : Eta VesShared := fun r =>
  Build_VesShared (vs_nextGeneration r) (vs_activeGeneration r) (vs_engineDeathCount r).

Definition EngineDeathLimitReached (limit : Z) (sh : VesShared) : bool :=
  (0 <? limit) && (limit <=? vs_engineDeathCount sh).

Definition ResetRestartBudget (sh : VesShared) : VesShared := sh <| vs_engineDeathCount := 0 |>.

Definition ApplyRestartBudget (decision : RecoveryDecision) (maxDeaths : Z) (sh : VesShared) : RecoveryDecision * VesShared :=
  if negb (bool_decide (rd_action decision = Restart)) then (decision, sh) else
  let restartCount := u32 (vs_engineDeathCount sh + 1) in
  let sh := sh <| vs_engineDeathCount := restartCount |> in
  if (0 <? maxDeaths) && (maxDeaths <=? restartCount) then ({| rd_action := Ignore; rd_delayMs := 0 |}, sh)
  else (decision, sh).

Definition ClaimProcessOwnership (instanceGeneration : Z) (sh : VesShared) : VesShared :=
  sh <| vs_activeGeneration := instanceGeneration |>.

Definition IsProcessOwner (instanceGeneration : Z) (sh : VesShared) : bool :=
  vs_activeGeneration sh =? instanceGeneration.

(** The constructor: the generation of the new client. *)
Definition VesClient_new (sh : VesShared) : Z * VesShared :=
  (vs_nextGeneration sh, sh <| vs_nextGeneration := u64 (vs_nextGeneration sh + 1) |> <| vs_engineDeathCount := 0 |>).

(** The access policy of the channel, made by [InitClient]. *)
Definition access_policy (instanceGeneration maxDeaths : Z) (sh : VesShared) : bool :=
  IsProcessOwner instanceGeneration sh && negb (EngineDeathLimitReached maxDeaths sh).

(** ** The control loader *)

(** [CloseSession] of a control and [sleep_for] act outside the process; the
    manager of system abilities is never null. *)
Definition BuildControlLoader {B} {BK : SamBackend B} (CloseSession : nat -> B -> B) (fuel : nat) (loadTimeoutMs : Z)
    (p : Process) (backend : option B) : run (option nat * Process * option B) :=
  let! (remote, p, backend) := CheckSystemAbility VIRUS_PROTECTION_EXECUTOR_SA_ID p backend in
  let '(control, p) := iface_cast remote p in
  let backend := match control with
                 | Some control => (fun b => bk_sleep 100 (CloseSession control b)) <$> backend
                 | None => backend
                 end in
  let! (remote, p, backend) := LoadSystemAbility fuel VIRUS_PROTECTION_EXECUTOR_SA_ID loadTimeoutMs p backend in
  let '(control, p) := iface_cast remote p in
  Returns (control, p, backend).

(** The loader returns: a new proxy of the service at the path the registry
    has given, or nothing. *)
Theorem control_loader_returns {B} {BK : SamBackend B} {BA : BackendAnswers} (CloseSession : nat -> B -> B) loadTimeoutMs p b :
  VIRUS_PROTECTION_EXECUTOR_SA_ID ∈ pc_creators p ->
  exists control p' b', BuildControlLoader CloseSession (Z.to_nat (loadTimeoutMs / 20) + 2) loadTimeoutMs p (Some b) =
      Returns (control, p', Some b') /\
    (forall c, control = Some c -> exists o path, path <> "" /\ GetBroker o p' = Some c /\
       IRemoteObject_GetServicePath o p' = path /\ IsObjectDead o p' = false).
Proof.
  intros Hc. unfold BuildControlLoader, CheckSystemAbility, Remote_CheckSystemAbility.
  destruct (get_answers VIRUS_PROTECTION_EXECUTOR_SA_ID b) as (path & b1 & ->). cbn [run_bind].
  assert (Hrest : forall q b2, VIRUS_PROTECTION_EXECUTOR_SA_ID ∈ pc_creators q ->
    exists control p' b', (let! (remote, p, backend) :=
        LoadSystemAbility (Z.to_nat (loadTimeoutMs / 20) + 2) VIRUS_PROTECTION_EXECUTOR_SA_ID loadTimeoutMs q (Some b2) in
      let '(control, p) := iface_cast remote p in Returns (control, p, backend)) = Returns (control, p', Some b') /\
    (forall c, control = Some c -> exists o path, path <> "" /\ GetBroker o p' = Some c /\
       IRemoteObject_GetServicePath o p' = path /\ IsObjectDead o p' = false)).
  { intros q b2 Hq. unfold LoadSystemAbility.
    destruct (load_ability_new VIRUS_PROTECTION_EXECUTOR_SA_ID loadTimeoutMs q b2) as (o & q' & b3 & -> & Ho). cbn [run_bind].
    destruct o as [o|]; [|eexists _, _, _; split; [done|]; by intros c [=]]. destruct Ho as (path2 & Hne & Ho).
    destruct (cast_new_object _ _ _ _ _ Ho Hq) as (c & q2 & -> & Hb & Hp & Hd & _); [done|]. eexists _, _, _. split; [done|].
    intros c' [= <-]. by exists o, path2. }
  destruct (bool_decide _); [cbn [run_bind iface_cast]; by apply Hrest|]. destruct (object_at _ path p) as [o q] eqn:Eo. cbn [run_bind].
  destruct (cast_new_object _ _ _ _ _ Eo Hc) as (c & q2 & -> & _ & _ & _ & Hq2); [done|]. by apply Hrest.
Qed.

Section VesClient.
Context {PF : Platform} {VE : ControlEnv}.
Variables (U : Type) (peer : nat -> World -> World).

(** What the callbacks of the client and the threads of its users act on. *)
Record VesUser : Type := {
  vu_shared : VesShared;
  vu_channel : bool;                                          (* bootstrapChannel_ is set *)
  vu_replies : gmap nat ScanFileReply;                        (* the reply objects of the callers *)
  vu_user : U;
}.

#[export] Instance VesUser_eta : Eta VesUser := fun r =>
  Build_VesUser (vu_shared r) (vu_channel r) (vu_replies r) (vu_user r).

#[export] Instance VesClientEnv : ClientEnv := ves_client_env VesUser vu_shared peer.

Record VesClientOptions : Type := {
  vo_idleShutdownTimeoutMs : Z;
  vo_maxEngineDeathsBeforePermanentStop : Z;
  vo_recoveryPolicy : RecoveryPolicy;
  vo_openSessionRequest : VesOpenSessionRequest;
}.

Definition VesClientOptions_default : VesClientOptions := {|
  vo_idleShutdownTimeoutMs := 60000; vo_maxEngineDeathsBeforePermanentStop := 100;
  vo_recoveryPolicy := RecoveryPolicy_default; vo_openSessionRequest := DefaultVesOpenSessionRequest |}.

(** ** The recovery policy *)

Definition default_onFailure (failure : RpcFailure) (u : VesUser) : RecoveryDecision * VesUser :=
  ({| rd_action := if status_is (fl_status failure) ExecTimeout then Restart else Ignore;
      rd_delayMs := if status_is (fl_status failure) ExecTimeout then DEFAULT_RESTART_DELAY_MS else 0 |}, u).

Definition default_onEngineDeath (report : EngineDeathReport) (u : VesUser) : RecoveryDecision * VesUser :=
  ({| rd_action := Restart; rd_delayMs := DEFAULT_RESTART_DELAY_MS |}, u).

Definition default_onIdle (timeout idleMs : Z) (u : VesUser) : RecoveryDecision * VesUser :=
  ({| rd_action := if idleMs <? timeout then Ignore else IdleClose; rd_delayMs := 0 |}, u).

(** A callback, then the budget. *)
Definition budgeted {R : Type} (callback : R -> VesUser -> RecoveryDecision * VesUser) (maxDeaths : Z) (report : R) (u : VesUser)
    : RecoveryDecision * VesUser :=
  let '(decision, u) := callback report u in
  let '(decision, sh) := ApplyRestartBudget decision maxDeaths (vu_shared u) in
  (decision, u <| vu_shared := sh |>).

Definition BuildRecoveryPolicy (options : VesClientOptions) : RecoveryPolicy :=
  let policy := vo_recoveryPolicy options in
  let maxDeaths := vo_maxEngineDeathsBeforePermanentStop options in
  {| onFailure := Some (budgeted (default default_onFailure (onFailure policy)) maxDeaths);
     onEngineDeath := Some (budgeted (default default_onEngineDeath (onEngineDeath policy)) maxDeaths);
     onIdle := match onIdle policy with
               | Some f => Some f
               | None => if 0 <? vo_idleShutdownTimeoutMs options
                         then Some (default_onIdle (vo_idleShutdownTimeoutMs options)) else None
               end |}.

(** ** The operations *)

Definition modify_user (f : VesUser -> VesUser) : client unit := modify (fun c => c <| cl_user := f (cl_user c) |>).
Definition modify_shared (f : VesShared -> VesShared) : client unit :=
  modify_user (fun u => u <| vu_shared := f (vu_shared u) |>).

(** [remote] is what is behind the controls when the channel is made. *)
Definition InitClient (instanceGeneration : Z) (options : VesClientOptions) (remote : Remote) (mode : ClientInitMode)
    : client_thread StatusCode :=
  modify_shared (ClaimProcessOwnership instanceGeneration);;
  yield;;
  bound ← gets (fun c => vu_channel (cl_user c));
  channel ← gets (fun c => if vu_channel (cl_user c) then cl_bootstrap c
                           else Some (MakeChannel (vo_openSessionRequest options)
                                        (Some (access_policy instanceGeneration
                                                 (vo_maxEngineDeathsBeforePermanentStop options))) remote));
  modify_user (fun u => u <| vu_channel := true |>);;
  RpcClient_SetBootstrapChannel channel bound;;
  yield;;
  SetRecoveryPolicy (BuildRecoveryPolicy options);;
  yield;;
  status ← Init mode;
  if negb (status_is status Ok) then mret status else
  yield;;
  modify_shared ResetRestartBudget;;
  mret Ok.

Definition VesClient_Init (instanceGeneration : Z) (options : VesClientOptions) (remote : Remote) : client_thread StatusCode :=
  InitClient instanceGeneration options remote EagerSession.

(** [Connect], after the constructor: whether there is a client. *)
Definition Connect (instanceGeneration : Z) (options : VesClientOptions) (remote : Remote) : client_thread bool :=
  status ← InitClient instanceGeneration options remote LazySession;
  mret (status_is status Ok).

Definition VesClient_Shutdown : client_thread unit :=
  SetRecoveryPolicy RecoveryPolicy_default;;
  yield;;
  ClientWorkers.Shutdown;;
  yield;;
  modify_user (fun u => u <| vu_channel := false |>).

Definition VesClient_CurrentControl : client (option nat) := fun c =>
  match vu_channel (cl_user c), cl_bootstrap c with
  | true, Some ch =>
      let '(control, ch) := CurrentControl (vu_shared (cl_user c)) ch in
      Returns (control, c <| cl_bootstrap := Some ch |>)
  | _, _ => Returns (None, c)
  end.

Definition HasFatalControlLoadFailure : client bool := gets (fun c =>
  vu_channel (cl_user c) && match cl_bootstrap c with Some ch => bc_fatalControlLoadFailure ch | None => false end).

Definition InvokeMemRpcApi {Reply} `{CodecTraits Reply} (opcode : Z) (priority : Priority) (execTimeoutMs : Z) (payload : bytes)
    : client_thread (StatusCode * written Reply) :=
  future ← InvokeAsync {| call_opcode := opcode; call_priority := priority; call_execTimeoutMs := execTimeoutMs;
                          call_payload := payload |};
  yield;;
  WaitAndDecode (Some future) Ptr.

(** [EncodeInvokePayload], and [PrepareInvokePayload], which calls it. *)
Definition PrepareInvokePayload {Request} `{CodecTraits Request} (request : Request) : defined (StatusCode * bytes) :=
  match EncodeMessage request Ptr with
  | Undefined => Undefined
  | Defined (false, _) => Defined (ProtocolMismatch, [])
  | Defined (true, payload) => Defined (Ok, payload)
  end.

(** [store p] writes the object at [p]; [reply] is the caller's pointer. *)
Definition InvokeApi {Request Reply} `{CodecTraits Request} `{CodecTraits Reply} (fuel : nat)
    (store : nat -> written Reply -> VesUser -> VesUser)
    (opcode : Z) (request : Request) (reply : option nat) (priority : Priority) (execTimeoutMs : Z) : client_thread StatusCode :=
  match reply with
  | None => mret InvalidArgument
  | Some p =>
      snapshot ← GetRecoveryRuntimeSnapshot;
      if bool_decide (sn_lifecycleState snapshot = Closed) then mret ClientClosed else
      match PrepareInvokePayload request with
      | Undefined => (lift_run RunUndefined : client _)
      | Defined (status, payload) =>
          if negb (status_is status Ok) then mret status else
          yield;;
          status ← RetryUntilRecoverySettles fuel (Some (
            ' (invokeStatus, value) ← InvokeMemRpcApi opcode priority execTimeoutMs payload;
            modify_user (store p value);;
            (if status_is invokeStatus Ok then modify_shared ResetRestartBudget else mret tt);;
            mret invokeStatus));
          yield;;
          fatal ← HasFatalControlLoadFailure;
          if status_is status ClientClosed && fatal then VesClient_Shutdown;; mret status else mret status
      end
  end.

(** A reply object with a missing entry has no definite contents. *)
Definition store_reply (p : nat) (value : written ScanFileReply) (u : VesUser) : VesUser :=
  match value with
  | Untouched => u
  | Clobbered => u <| vu_replies := delete p (vu_replies u) |>
  | Written reply => u <| vu_replies := <[p := reply]> (vu_replies u) |>
  end.

Definition VesClient_ScanFile (fuel : nat) (scanTask : ScanTask) (reply : option nat) (priority : Priority) (execTimeoutMs : Z)
    : client_thread StatusCode :=
  InvokeApi fuel store_reply VesOpcode_ScanFile scanTask reply priority execTimeoutMs.

(** ** The budget of restarts *)

(** What the client reports to its policy. *)
Inductive recovery_report : Type :=
| Failed (failure : RpcFailure)
| Died (report : EngineDeathReport).

(** What the callbacks of the options, or their defaults, ask for. *)
Definition asked (options : VesClientOptions) (r : recovery_report) (u : VesUser) : RecoveryDecision * VesUser :=
  match r with
  | Failed failure => default default_onFailure (onFailure (vo_recoveryPolicy options)) failure u
  | Died report => default default_onEngineDeath (onEngineDeath (vo_recoveryPolicy options)) report u
  end.

(** What the policy of the client answers. *)
Definition answered (policy : RecoveryPolicy) (r : recovery_report) (u : VesUser) : option (RecoveryDecision * VesUser) :=
  match r with
  | Failed failure => (fun callback => callback failure u) <$> onFailure policy
  | Died report => (fun callback => callback report u) <$> onEngineDeath policy
  end.

(** What was asked for and what was answered, report by report. *)
Fixpoint report_all (options : VesClientOptions) (rs : list recovery_report) (u : VesUser)
    : list (RecoveryDecision * RecoveryDecision) * VesUser :=
  match rs with
  | [] => ([], u)
  | r :: rs =>
      match answered (BuildRecoveryPolicy options) r u with
      | None => ([], u)
      | Some (given, u') =>
          let '(log, u') := report_all options rs u' in ((fst (asked options r u), given) :: log, u')
      end
  end.

Definition is_restart (d : RecoveryDecision) : bool := bool_decide (rd_action d = Restart).

Fixpoint restarts (ds : list RecoveryDecision) : Z :=
  match ds with
  | [] => 0
  | d :: ds => (if is_restart d then 1 else 0) + restarts ds
  end.

Definition deaths (u : VesUser) : Z := vs_engineDeathCount (vu_shared u).

(** The callbacks of the user do not touch the budget. *)
Definition keeps_budget (options : VesClientOptions) : Prop :=
  forall r u, deaths (snd (asked options r u)) = deaths u.

Definition ignored : RecoveryDecision := {| rd_action := Ignore; rd_delayMs := 0 |}.

(** The answer to the [n]-th demand for a restart. *)
Definition within (maxDeaths n : Z) (d : RecoveryDecision) : RecoveryDecision :=
  if is_restart d && (0 <? maxDeaths) && (maxDeaths <=? n) then ignored else d.

Lemma restarts_nonneg ds : 0 <= restarts ds.
Proof. induction ds as [|d ds IH]; cbn; [done|]. destruct (is_restart d); lia. Qed.

Lemma restarts_cons d ds : restarts (d :: ds) = restarts [d] + restarts ds.
Proof. cbn. destruct (is_restart d); lia. Qed.

Lemma restarts_within maxDeaths n d :
  0 < maxDeaths -> restarts [within maxDeaths n d] = if is_restart d && negb (maxDeaths <=? n) then 1 else 0.
Proof.
  intros Hm. unfold within. rewrite (proj2 (Z.ltb_lt 0 _)) by done.
  destruct (is_restart d) eqn:Ed; cbn [andb]; [destruct (maxDeaths <=? n)|]; cbn; by rewrite ?Ed.
Qed.

Lemma answered_spec options r u :
  keeps_budget options -> 0 <= deaths u -> deaths u + 1 < 2 ^ 32 ->
  let d := fst (asked options r u) in
  let n := deaths u + restarts [d] in
  exists u', answered (BuildRecoveryPolicy options) r u =
               Some (within (vo_maxEngineDeathsBeforePermanentStop options) n d, u') /\ deaths u' = n.
Proof.
  intros Hk H0 Hn d n. pose proof (Hk r u) as Hr.
  assert (answered (BuildRecoveryPolicy options) r u =
          Some (budgeted (fun r => asked options r) (vo_maxEngineDeathsBeforePermanentStop options) r u)) as -> by (by destruct r).
  unfold budgeted, n, d, within in *. destruct (asked options r u) as [dec u1]. cbn [fst snd restarts] in *.
  unfold ApplyRestartBudget, is_restart. rewrite Z.add_0_r.
  destruct (bool_decide (rd_action dec = Restart)); cbn [negb andb].
  - unfold deaths in *. rewrite Hr, u32_id by (unfold is_u32; lia). destruct (_ && _); by eexists.
  - eexists. split; [done|]. unfold deaths in *. cbn. lia.
Qed.

Lemma report_all_spec options rs : keeps_budget options -> forall u,
  0 <= deaths u -> deaths u + Zlen rs < 2 ^ 32 ->
  let max := vo_maxEngineDeathsBeforePermanentStop options in
  let '(log, u') := report_all options rs u in
  length log = length rs /\
  (forall i d given, log !! i = Some (d, given) ->
     given = within max (deaths u + restarts (take (S i) (map fst log))) d) /\
  deaths u' = deaths u + restarts (map fst log) /\
  (0 < max -> 0 < restarts (map snd log) -> deaths u + restarts (map snd log) < max).
Proof.
  intros Hk. induction rs as [|r rs IH]; intros u H0 Hn max; cbn [report_all].
  { split; [done|]. split; [done|]. split; [cbn; lia|]. cbn. lia. }
  rewrite Zlen_cons in Hn. pose proof (Zlen_nonneg rs).
  destruct (answered_spec options r u Hk H0) as (u1 & -> & Hu1); [lia|]. set (d := fst (asked options r u)) in *.
  assert (Hd : 0 <= restarts [d] <= 1) by (cbn; destruct (is_restart d); lia).
  specialize (IH u1). destruct (report_all options rs u1) as [log u'].
  destruct IH as (Hlen & Hlog & Hcount & Hmax); [lia..|]. rewrite Hu1 in *. cbn [map fst snd length].
  split; [by rewrite Hlen|]. split; [|split; [rewrite Hcount, (restarts_cons d (map fst log)); lia|]].
  - intros [|i] d' given; [by intros [= <- <-]|]. cbn [lookup list_lookup take]. intros Hi. rewrite (Hlog i d' given Hi).
    f_equal. rewrite (restarts_cons d (take (S i) _)). lia.
  - intros Hpos. pose proof (restarts_nonneg (map snd log)). rewrite (restarts_cons (within _ _ d) (map snd log)).
    rewrite restarts_within by done. fold max in Hmax |- *. destruct (is_restart d) eqn:Ed; cbn [andb].
    + assert (restarts [d] = 1) as E1 by (cbn; by rewrite Ed). rewrite E1 in *.
      destruct (Z.leb_spec max (deaths u + 1)), (decide (0 < restarts (map snd log))); cbn [negb]; try specialize (Hmax Hpos ltac:(done)); lia.
    + assert (restarts [d] = 0) as E0 by (cbn; by rewrite Ed). rewrite E0 in *. rewrite !Z.add_0_l, ?Z.add_0_r in *. by apply Hmax.
Qed.

(** C38: the budget of restarts.  Whatever callbacks the options have, the
    k-th demand for a restart since the budget was reset is granted as it is
    asked for while k is below [maxEngineDeathsBeforePermanentStop], and
    ignored from then on; a limit of 0 is no limit.  Other decisions pass
    unchanged.  Once the limit is reached, the channel opens no session for
    this client: it answers [PeerDisconnected] and calls no control, nor does
    the control loader run. *)
Theorem restart_budget options rs u :
  keeps_budget options -> deaths u = 0 -> Zlen rs < 2 ^ 32 ->
  let max := vo_maxEngineDeathsBeforePermanentStop options in
  let '(log, u') := report_all options rs u in
  length log = length rs /\
  (forall i d given, log !! i = Some (d, given) -> given = within max (restarts (take (S i) (map fst log))) d) /\
  (0 < max -> restarts (map snd log) < max) /\
  (0 < max <= restarts (map fst log) -> forall generation ch w,
     bc_accessPolicy ch = Some (access_policy generation max) ->
     OpenSession (vu_shared u') ch w = (PeerDisconnected, MakeDefaultBootstrapHandles, ch, w)).
Proof.
  intros Hk H0 Hn max. pose proof (report_all_spec options rs Hk u) as H. rewrite H0 in H.
  destruct (report_all options rs u) as [log u']. destruct H as (Hlen & Hlog & Hcount & Hmax); [lia..|].
  split; [done|]. split; [intros i d given Hi; by rewrite (Hlog i d given Hi)|]. fold max in Hmax. split.
  - intros Hp. pose proof (restarts_nonneg (map snd log)). destruct (decide (0 < restarts (map snd log))); [apply Hmax|]; lia.
  - intros [Hp Hle] generation ch w Ha. unfold OpenSession, AccessAllowed. rewrite Ha.
    unfold access_policy, EngineDeathLimitReached. unfold deaths in Hcount. rewrite Hcount.
    rewrite (proj2 (Z.ltb_lt 0 max)), (proj2 (Z.leb_le max _)) by lia. by rewrite andb_false_r.
Qed.

End VesClient.

(** ** A client with two lives *)

Module BudgetDemo.

Definition peer (n : nat) (w : World) : World := w.

Definition options : VesClientOptions unit peer := {|
  vo_idleShutdownTimeoutMs := 60000; vo_maxEngineDeathsBeforePermanentStop := 2;
  vo_recoveryPolicy := RecoveryPolicy_default; vo_openSessionRequest := DefaultVesOpenSessionRequest |}.

Definition user : VesUser unit := {|
  vu_shared := {| vs_nextGeneration := 2; vs_activeGeneration := 1; vs_engineDeathCount := 0 |};
  vu_channel := true; vu_replies := ∅; vu_user := tt |}.

Definition reports : list recovery_report := repeat (Died {| dr_deadSessionId := 42 |}) 3.

Definition channel : VesBootstrapChannelState := MakeChannel DefaultVesOpenSessionRequest (Some (access_policy 1 2)) [Some 3%nat].

End BudgetDemo.

(** The first death is followed by a restart, the others are not. *)
Lemma restart_budget_witness :
  let '(log, u) := report_all unit BudgetDemo.peer BudgetDemo.options BudgetDemo.reports BudgetDemo.user in
  map (fun r => rd_action (snd r)) log = [Restart; Ignore; Ignore] /\
  OpenSession (vu_shared _ u) BudgetDemo.channel ChannelDemo.world0 =
    (PeerDisconnected, MakeDefaultBootstrapHandles, BudgetDemo.channel, ChannelDemo.world0).
Proof.
  pose proof (restart_budget unit BudgetDemo.peer BudgetDemo.options BudgetDemo.reports BudgetDemo.user) as H.
  destruct H as (_ & _ & _ & H); [by intros [f|r] u|reflexivity|reflexivity|].
  split; [reflexivity|]. exact (H ltac:(split; [reflexivity|vm_compute; discriminate]) 1 BudgetDemo.channel ChannelDemo.world0 eq_refl).
Defined.
