(* ===== verification/TypedEndToEnd.v ===== *)
(** * A typed call from the caller to the service and back

    The composition of the layers: the caller's request is encoded, sent by
    the client, resolved and decoded by the server, given to a function of the
    service, and the result comes back the same way and is decoded by
    [WaitAndDecode]. *)

From Stdlib Require Import Lia.
From S2P Require Import Prelude Machine Threads Types ByteCodec ShmLayout Ring FilePayload EventFd Os Platform Session.
From S2P Require Import SessionRings Executor ClientState ClientRecovery ClientCore ClientWorkers.
From S2P Require Import ServerState ServerCore ServerThreads EndToEnd VesMessages VesRules VesHandlers TypedCalls.

Section TypedEndToEnd.
Context {PF : Platform} {FL : PosixFsLaws Fs} {CE : ClientEnv} {SE : ServerEnv}.

(** The reply of a typed handler to the encoding of a request. *)
Lemma typed_handler_finishes {Request Reply} `{CodecLaws Request} `{CodecLaws Reply}
    (h : Request -> HandlerState -> outcome HandlerState Reply) request b call u delayMs result u' :
  codec_valid request -> EncodeMessage request Ptr = Defined (true, b) -> sc_payload call = b -> Zlen b < 2 ^ 63 ->
  h request u = Finishes delayMs result u' ->
  exists rb, EncodeMessage result Ptr = Defined (true, rb) /\
    MakeTypedHandler h call RpcReply_default u = Finishes delayMs {| rp_status := Ok; rp_payload := rb |} u'.
Proof.
  intros Hv Hb Hp Hl Hh. destruct (decode_encode request b Hv Hb) as [r Hd].
  pose proof (typed_handler_spec h call u) as Hs. rewrite Hp in Hs. specialize (Hs Hl).
  unfold DecodeMessage in Hs. rewrite Hd, Hh in Hs. exact Hs.
Qed.

(** The last step of the way back. *)
Lemma typed_reply_received {Reply} `{CodecLaws Reply} result rb id status tp kind file p c :
  PosixFsReliable Fs -> Zlen tp <= RESPONSE_INLINE_PAYLOAD_BYTES -> status = Ok ->
  carries DEFAULT_FILE_PAYLOAD_DIR rb tp kind file (cl_fs c) -> (length rb + fs_interrupts (cl_fs c) < env_fuel)%nat ->
  codec_valid result -> EncodeMessage result Ptr = Defined (true, rb) ->
  cl_store c !! id = Some p -> cl_futures c !! pr_future p = Some None ->
  exists c', alone (ResolveCompletedRequest (reply_entry id status tp kind)) c = Returns (tt, c') /\
    alone (WaitAndDecode (Some (pr_future p)) Ptr) c' = Returns ((Ok, Written result), c') /\
    consumed file (cl_fs c) (cl_fs c').
Proof.
  intros Hrel Hl -> Hc Hfuel Hv Hb Hp Hf.
  destruct (Resolve_reply c id tp kind file rb p Hrel Hl Hc Hfuel Hp Hf) as (c' & HR & Hfut & _ & Hg).
  exists c'. split; [done|]. split; [|done]. destruct (decode_encode result rb Hv Hb) as [r Hd].
  eapply WaitAndDecode_ready; [by rewrite Hfut, list_lookup_insert_eq; [|eapply lookup_lt_Some]|done|exact Hd].
Qed.

(** C6: a typed call returns what the service computes.  For any pair of
    message types with their codecs and any function of the service that
    answers the request: what the client sends for the encoded request is
    accepted by the server, whose handler gives the function that very request;
    and the entry the server builds for the result makes the caller's
    [WaitAndDecode] return [Ok] and that very result, with no payload file left.
    Messages that fit the limits of the session are always sent. *)
Theorem typed_call_returns_result {Request Reply} `{CodecLaws Request} `{CodecLaws Reply}
    (h : Request -> HandlerState -> outcome HandlerState Reply) request submit c :
  PosixFsReliable Fs -> codec_valid request ->
  EncodeMessage request Ptr = Defined (true, call_payload (sb_call submit)) ->
  Zlen (call_payload (sb_call submit)) < 2 ^ 63 ->
  transportable (env_path (cl_paths c)) (call_payload (sb_call submit)) (cl_fs c) ->
  exists status tp kind c1,
    PrepareRequestPayloadForTransport submit (cl_session c) Ptr Ptr c = Returns ((status, tp, kind), c1) /\
    (Zlen (call_payload (sb_call submit)) <= Z.min (ss_maxRequestBytes (cl_session c)) REQUEST_INLINE_PAYLOAD_BYTES ->
     status = Ok) /\
    (status = Ok -> exists entry, BuildRequestEntry submit tp kind = Defined entry /\
     forall s delayMs result u,
       sv_fs s = cl_fs c1 -> ss_maxRequestBytes (sv_session s) = ss_maxRequestBytes (cl_session c) ->
       Valid (sv_session s) = true -> is_Some (ss_header (sv_session s)) ->
       sv_handlers s !! call_opcode (sb_call submit) = Some (MakeTypedHandler h) ->
       h request (sv_user s) = Finishes delayMs result u -> codec_valid result ->
       entry_rejected (sv_session s) entry = false /\
       exists rb s1, EncodeMessage result Ptr = Defined (true, rb) /\
         alone (InvokeHandler entry) s = Returns ({| rp_status := Ok; rp_payload := rb |}, s1) /\ sv_user s1 = u /\
         same_files (cl_fs c) (sv_fs s1) /\
         (transportable (env_path (sv_paths s1)) rb (sv_fs s1) -> exists rstatus rtp rkind s2,
            PrepareResponsePayloadForTransport rb Ptr Ptr s1 = Returns ((rstatus, rtp, rkind), s2) /\
            (Zlen rb <= Z.min (ss_maxResponseBytes (sv_session s)) RESPONSE_INLINE_PAYLOAD_BYTES -> rstatus = Ok) /\
            (rstatus = Ok -> exists rentry,
             BuildReplyEntry entry {| rp_status := Ok; rp_payload := rtp |} rkind = Defined rentry /\
             forall c2 p,
               cl_fs c2 = sv_fs s2 -> cl_store c2 !! sb_requestId submit = Some p ->
               cl_futures c2 !! pr_future p = Some None ->
               exists c3, alone (ResolveCompletedRequest rentry) c2 = Returns (tt, c3) /\
                 alone (WaitAndDecode (Some (pr_future p)) Ptr) c3 = Returns ((Ok, Written result), c3) /\
                 same_files (sv_fs s1) (cl_fs c3)))).
Proof.
  intros Hrel Hv Hb Hl Ht. pose proof (proj2 Ht) as Hfuel.
  destruct (PrepareRequest_carries submit (cl_session c) c Hrel Ht) as (status & tp & kind & c1 & HP & Hin & HI & Hok & _).
  exists status, tp, kind, c1. split; [done|]. split; [done|]. intros Hs. destruct (Hok Hs) as (Htp & file & Hc & Hgone).
  exists (request_entry submit tp kind). split; [apply BuildRequestEntry_fits; lia|].
  intros s delayMs result u Hfs Hm Hvalid Hhdr Hh Hfun Hrv.
  split; [eapply carried_not_rejected; [done|by rewrite Hm]|].
  destruct (typed_handler_finishes h request _ (server_call (sb_call submit)) (sv_user s) delayMs result u Hv Hb eq_refl Hl Hfun)
    as (rb & Hrb & Hhandler).
  destruct (InvokeHandler_carried s submit tp kind file (MakeTypedHandler h) delayMs {| rp_status := Ok; rp_payload := rb |} u Hrel)
    as (fs' & reads & Hg & HR); rewrite ?Hfs; try done; [lia..|].
  exists rb. eexists. split; [done|]. split; [exact HR|]. split; [done|]. split; [apply Hgone; by rewrite <- Hfs|]. intros Hrt. pose proof (proj2 Hrt) as Hrfuel.
  destruct (PrepareResponse_carries rb _ Hrel Hrt) as (rstatus & rtp & rkind & s2 & HP2 & _ & Hin2 & HI2 & Hok2 & _); [done..|].
  exists rstatus, rtp, rkind, s2. split; [done|]. split; [exact Hin2|]. intros Hs2.
  destruct (Hok2 Hs2) as (Hrtp & rfile & Hrc & Hgone2).
  eexists. split; [by apply BuildReplyEntry_fits|]. intros c2 p Hfs2 Hp Hf.
  destruct (typed_reply_received result rb (sb_requestId submit) Ok rtp rkind rfile p c2 Hrel Hrtp eq_refl) as (c3 & HR3 & HW & Hg3);
    [by rewrite Hfs2|rewrite Hfs2; lia|done..|].
  exists c3. split; [exact HR3|]. split; [done|]. apply Hgone2. by rewrite <- Hfs2.
Qed.

End TypedEndToEnd.

(** ** A scan

    The engine of the demonstration services scans a sample that is a threat. *)

From S2P Require Import ClientDemo ServerDemo.

Module ScanDemo.

#[global] Instance env : ServerEnv :=
  {| HandlerState := Services; env_client := @env_client _ ServerDemo.env; env_poll2 := @env_poll2 _ ServerDemo.env |}.

Definition task : ScanTask := {| st_path := "/data/virus.bin" |}.

Definition scan : ScanTask -> Services -> outcome Services ScanFileReply :=
  fun request u => ScanFile (svc_engine u) request u.

Definition submit : PendingSubmit := {|
  sb_call := {| call_opcode := VesOpcode_ScanFile; call_priority := Normal; call_execTimeoutMs := 5;
                call_payload := string_wire (st_path task) |};
  sb_requestId := 9; sb_future := 0%nat |}.

Definition client_state : Client := ClientDemo.fresh <| cl_session := CallDemo.session |>.

Definition server_state (fs : MemFs.t) : Server :=
  (RpcServer_new Demo.handles ServerOptions_default demo_services Demo.world fs MemKernel.demo : Server)
    <| sv_session := CallDemo.session |> <| sv_handlers := {[VesOpcode_ScanFile := MakeTypedHandler scan]} |>.

Definition pending : PendingRequest :=
  {| pr_future := 0; pr_info := Build_PendingInfo VesOpcode_ScanFile Normal 5 9 42; pr_waitDeadline := None |}.

End ScanDemo.

(** What an operation that returns has returned. *)
Lemma returned {A St B} (f : A -> St -> B) (m : run (A * St)) a s d :
  m = Returns (a, s) -> f a s = match m with Returns (a, s) => f a s | _ => d end.
Proof. by intros ->. Qed.

Lemma scan_request_sent status tp kind c1 :
  PrepareRequestPayloadForTransport ScanDemo.submit CallDemo.session Ptr Ptr ScanDemo.client_state = Returns ((status, tp, kind), c1) ->
  tp = string_wire (st_path ScanDemo.task) /\ kind = PAYLOAD_KIND_INLINE /\ cl_fs c1 = cl_fs ScanDemo.client_state.
Proof.
  intros HP.
  assert ((tp, kind, cl_fs c1) = (string_wire (st_path ScanDemo.task), PAYLOAD_KIND_INLINE, cl_fs ScanDemo.client_state)) as [=]; [|done].
  etransitivity; [exact (returned (fun a c => (snd (fst a), snd a, cl_fs c)) _ _ _ ([], 0, MemFs.empty) HP)|vm_compute; reflexivity].
Qed.

(** The state the handler leaves has room for the reply. *)
Definition has_room (s : Server) : bool :=
  (Zlen (to_bytes (MakeFilePayloadPath (env_path (sv_paths s)) DEFAULT_FILE_PAYLOAD_DIR)) <? 2 ^ 32) &&
  Nat.ltb (String.length DEFAULT_FILE_PAYLOAD_DIR + length (pair_wire 0 1) + fs_interrupts (sv_fs s)) env_fuel.

Lemma scan_handled_room :
  match alone (InvokeHandler (request_entry ScanDemo.submit (string_wire (st_path ScanDemo.task)) PAYLOAD_KIND_INLINE))
    (ScanDemo.server_state (cl_fs ScanDemo.client_state)) with Returns (_, s) => has_room s | _ => false end = true.
Proof. vm_compute. reflexivity. Qed.

Lemma scan_handled reply s1 :
  alone (InvokeHandler (request_entry ScanDemo.submit (string_wire (st_path ScanDemo.task)) PAYLOAD_KIND_INLINE))
    (ScanDemo.server_state (cl_fs ScanDemo.client_state)) = Returns (reply, s1) ->
  transportable (env_path (sv_paths s1)) (pair_wire 0 1) (sv_fs s1).
Proof.
  intros HI. pose proof scan_handled_room as H. rewrite HI in H. apply andb_true_iff in H as [H1 H2].
  split; [by apply Z.ltb_lt|by apply Nat.ltb_lt].
Qed.

Lemma scan_transportable :
  transportable (env_path (cl_paths ScanDemo.client_state)) (string_wire (st_path ScanDemo.task)) (cl_fs ScanDemo.client_state).
Proof. split; [vm_compute; reflexivity|apply Nat.ltb_lt; vm_compute; reflexivity]. Qed.

Lemma scan_fits :
  Zlen (string_wire (st_path ScanDemo.task)) <= Z.min (ss_maxRequestBytes CallDemo.session) REQUEST_INLINE_PAYLOAD_BYTES /\
  Zlen (pair_wire 0 1) <= Z.min (ss_maxResponseBytes CallDemo.session) RESPONSE_INLINE_PAYLOAD_BYTES /\
  Zlen (string_wire (st_path ScanDemo.task)) <= REQUEST_INLINE_PAYLOAD_BYTES.
Proof. vm_compute. repeat split; discriminate. Qed.

Lemma typed_call_returns_result_witness :
  exists entry rentry s1 fs c3,
    alone (InvokeHandler entry) (ScanDemo.server_state (cl_fs ScanDemo.client_state)) =
      Returns ({| rp_status := Ok; rp_payload := pair_wire 0 1 |}, s1) /\
    alone (ResolveCompletedRequest rentry)
      (ScanDemo.client_state <| cl_fs := fs |> <| cl_futures := [None] |> <| cl_store := {[9 := ScanDemo.pending]} |>)
      = Returns (tt, c3) /\
    alone (WaitAndDecode (Some 0%nat) Ptr) c3 = Returns ((Ok, Written {| sr_code := 0; sr_threatLevel := 1 |}), c3).
Proof.
  destruct (typed_call_returns_result (SE := ScanDemo.env) ScanDemo.scan ScanDemo.task ScanDemo.submit ScanDemo.client_state)
    as (status & tp & kind & c1 & HP & Hin & Hok); [exact MemFs.reliable|reflexivity..|exact scan_transportable|].
  destruct (scan_request_sent _ _ _ _ HP) as (-> & -> & Hfs). destruct scan_fits as (Hf1 & Hf2 & Hf3).
  destruct (Hok (Hin Hf1)) as (entry & HB & Hs). rewrite BuildRequestEntry_fits in HB by exact Hf3. injection HB as <-.
  destruct (Hs (ScanDemo.server_state (cl_fs ScanDemo.client_state)) 0 {| sr_code := 0; sr_threatLevel := 1 |} demo_services)
    as (_ & rb & s1 & Hrb & HI & _ & _ & Hr);
    [by rewrite Hfs|reflexivity|reflexivity|by eexists|reflexivity|vm_compute; reflexivity|vm_compute; repeat split; discriminate|].
  injection Hrb as <-. destruct (Hr (scan_handled _ _ HI)) as (rstatus & rtp & rkind & s2 & HP2 & Hin2 & Hok2).
  destruct (Hok2 (Hin2 Hf2)) as (rentry & _ & Hc).
  edestruct (Hc (ScanDemo.client_state <| cl_fs := sv_fs s2 |> <| cl_futures := [None] |> <| cl_store := {[9 := ScanDemo.pending]} |>)
    ScanDemo.pending) as (c3 & HR & HW & _); [reflexivity..|]. eexists _, rentry, s1, (sv_fs s2), c3. split; [exact HI|]. by split.
Defined.
