(* ===== verification/VesService.v ===== *)
(** * The service process

    [EngineSessionService] of service/ves_session_service.cpp, which owns the
    shared-memory session and the RPC server behind it, and
    [VirusExecutorService] of service/virus_executor_service.cpp, the service
    the control channel talks to, with the dispatch of control commands in
    transport/ves_control_stub.h.

    The process is one program with several threads: the callers of its
    operations, the thread that publishes events, and the threads of the RPC
    servers it has made, which are those of [ServerThreads] on a part of the
    state.  [initMutex_] is modelled where it is held across steps; other
    critical sections are single steps that wait for it.  [OnStart] is called
    once, before the other operations. *)

From Stdlib Require Import Lia String Ascii.
From stdpp Require Import pretty.
From S2P Require Import Prelude Machine Threads Pool Types ByteCodec ShmLayout Ring FilePayload EventFd Os Platform Session.
From S2P Require Import SessionHost Executor ServerState ServerCore ServerThreads VesMessages VesRules VesHandlers VesControl ServiceSocket.
#[local] Open Scope thread_scope.

(** ** Settings from the environment *)

Definition isspace (c : ascii) : bool :=
  let n := Z.of_N (N_of_ascii c) in ((9 <=? n) && (n <=? 13)) || (n =? 32).

Fixpoint skip_spaces (s : string) : string :=
  match s with
  | String c s' => if isspace c then skip_spaces s' else s
  | EmptyString => EmptyString
  end.

(** The digits of a number, and what follows them. *)
Fixpoint read_digits (s : string) (n : Z) : Z * string :=
  match s with
  | String c s' => if isdigit c then read_digits s' (n * 10 + digit c) else (n, s)
  | EmptyString => (n, s)
  end.

Definition ULONG_MAX : Z := 2 ^ 64 - 1.

(** [strtoul(value, &end, 10)]: the number and what [end] points to, or
    nothing when there is no number ([end == value]). *)
Definition strtoul (value : string) : option (Z * string) :=
  let s := skip_spaces value in
  let '(negative, s) := match s with
                        | String "-" s' => (true, s')
                        | String "+" s' => (false, s')
                        | _ => (false, s)
                        end in
  match s with
  | String c _ =>
      if negb (isdigit c) then None else
      let '(n, rest) := read_digits s 0 in
      Some (if ULONG_MAX <? n then ULONG_MAX else if negative then u64 (- n) else n, rest)
  | EmptyString => None
  end.

Section Environment.
Variable getenv : string -> option string.

(** [EnvFlagEnabled], and [IsTestkitFaultInjectionEnabled] with its name. *)
Definition EnvFlagEnabled (name : string) : bool := bool_decide (getenv name = Some "1").

Definition IsTestkitFaultInjectionEnabled : bool := EnvFlagEnabled "VES_ENABLE_TESTKIT_FAULTS".

Definition ReadEnvUintOrDefault (name : string) (defaultValue maxValue : Z) : Z :=
  match getenv name with
  | None | Some EmptyString => defaultValue
  | Some value =>
      match strtoul value with
      | Some (parsed, EmptyString) => u32 (Z.min parsed maxValue)
      | _ => defaultValue
      end
  end.

End Environment.

Definition EVENT_PUBLISH_PERIOD_MIN : Z := 80.
Definition EVENT_PUBLISH_PERIOD_MAX : Z := 180.
Definition DEFAULT_CLOSE_SESSION_CHAOS_YIELDS : Z := 8.
Definition MAX_CLOSE_SESSION_CHAOS_YIELDS : Z := 1024.
Definition MAX_CLOSE_SESSION_CHAOS_SLEEP_MS : Z := 1000.
Definition LONG_RUNNING_REQUEST_THRESHOLD_MS : Z := 100.

(** The default member initialisers of [SharedMemorySessionConfig]. *)
Definition SharedMemorySessionConfig_default : SharedMemorySessionConfig := {|
  cf_highRingSize := DEFAULT_HIGH_RING_SIZE; cf_normalRingSize := DEFAULT_NORMAL_RING_SIZE;
  cf_responseRingSize := DEFAULT_RESPONSE_RING_SIZE; cf_maxRequestBytes := DEFAULT_MAX_REQUEST_BYTES;
  cf_maxResponseBytes := DEFAULT_MAX_RESPONSE_BYTES; cf_shmName := EmptyString |}.

(** [snprintf(currentTask, 64, "%s", text)] into the array of the reply. *)
Definition task_text (text : string) (array : bytes) : bytes :=
  let b := to_bytes text ++ [Byte.x00] in b ++ Zdrop (Zlen b) array.

Definition PopulateHealthyReply (stats : RpcServerRuntimeStats) (sessionId : Z) (reply : VesHeartbeatReply) : VesHeartbeatReply :=
  let reply := reply <| hb_sessionId := sessionId |>
                     <| hb_flags := Z.lor VES_HEARTBEAT_FLAG_HAS_SESSION VES_HEARTBEAT_FLAG_INITIALIZED |>
                     <| hb_inFlight := st_activeRequestExecutions stats |>
                     <| hb_lastTaskAgeMs := st_oldestExecutionAgeMs stats |> in
  if st_activeRequestExecutions stats =? 0
  then reply <| hb_status := VesHeartbeatStatus_OkIdle |> <| hb_reasonCode := VesHeartbeatReasonCode_None |>
             <| hb_currentTask := task_text "idle" (hb_currentTask reply) |>
  else
    let reply := reply <| hb_flags := Z.lor (hb_flags reply) VES_HEARTBEAT_FLAG_BUSY |>
                       <| hb_currentTask := task_text "active" (hb_currentTask reply) |> in
    if LONG_RUNNING_REQUEST_THRESHOLD_MS <=? st_oldestExecutionAgeMs stats
    then reply <| hb_status := VesHeartbeatStatus_DegradedLongRunning |>
               <| hb_reasonCode := VesHeartbeatReasonCode_LongRunning |>
               <| hb_flags := Z.lor (hb_flags reply) VES_HEARTBEAT_FLAG_LONG_RUNNING |>
    else reply <| hb_status := VesHeartbeatStatus_OkBusy |> <| hb_reasonCode := VesHeartbeatReasonCode_Busy |>.

Inductive CloseSessionStage : Type := AfterMarkClosing | BeforeRpcServerStop | BeforeSessionHostClose.

(** ** The state of the process *)

(** What the service process does not define: the client and [poll], as in
    [ServerEnv], the environment variables, and the random numbers. *)
Class ServiceEnv `{Platform} : Type := {
  env_service_client : nat -> World -> World;
  env_service_poll2 : Z -> Z -> Z -> Kernel -> Z * Z * Z * Kernel;
  env_getenv : string -> option string;
  env_draw : nat -> Z -> Z -> Z;                              (* the n-th number, between two bounds *)
}.

#[export] Instance VesServerEnv `{ServiceEnv} : ServerEnv :=
  {| HandlerState := Services; env_client := env_service_client; env_poll2 := env_service_poll2 |}.

Section Service.
Context {PF : Platform} {SV : ServiceEnv}.

Record Engine : Type := {
  (* EngineSessionService *)
  eg_locked : bool;                                           (* initMutex_, while it is held across steps *)
  eg_anyCallHandlers : gmap Z RpcHandler;
  eg_sessionHost : option SessionHost;
  eg_rpcServer : option nat;                                  (* an index into eg_servers *)
  eg_initialized : bool;
  eg_closing : bool;
  eg_sessionId : Z;
  eg_publisherRunning : bool;
  eg_publisherThread : bool;                                  (* the thread object holds a thread *)
  eg_publisherAlive : bool;                                   (* the thread has not returned *)
  eg_eventSequence : Z;
  (* VirusExecutorService *)
  eg_sessionService : bool;                                   (* session_service_ is set *)
  eg_eventPublisher : bool;                                   (* eventPublisher_ of service_ is *)
  eg_stopping : bool;
  eg_published : bool;
  eg_unloadRequested : bool;
  eg_services : Services;
  (* the RPC servers made so far *)
  eg_servers : list Server;
  (* the environment's states and how often it was read *)
  eg_world : World;
  eg_fs : Fs;
  eg_kernel : Kernel;
  eg_reads : nat;
  eg_paths : nat;
  eg_draws : nat;
}.

#[export] Instance Engine_eta : Eta Engine := fun r =>
  Build_Engine (eg_locked r) (eg_anyCallHandlers r) (eg_sessionHost r) (eg_rpcServer r) (eg_initialized r) (eg_closing r)
    (eg_sessionId r) (eg_publisherRunning r) (eg_publisherThread r) (eg_publisherAlive r) (eg_eventSequence r)
    (eg_sessionService r) (eg_eventPublisher r) (eg_stopping r) (eg_published r) (eg_unloadRequested r) (eg_services r)
    (eg_servers r) (eg_world r) (eg_fs r) (eg_kernel r) (eg_reads r) (eg_paths r) (eg_draws r).

(** The background threads: those of an RPC server and the event publisher. *)
Inductive engine_worker : Type :=
| ServerWorker (i : nat) (w : server_worker)
| EventPublisherThread.

#[local] Notation engine := (machine Engine).
#[local] Notation engine_thread := (thread Engine engine_worker).

#[export] Instance engine_clock : Clock Engine := fun e => env_clock (eg_reads e).

(** The [i]-th RPC server, with the states all parts of the process share. *)
Definition server_of (i : nat) (e : Engine) : Server :=
  (default (RpcServer_default (eg_services e) (eg_world e) (eg_fs e) (eg_kernel e)) (eg_servers e !! i))
    <| sv_user := eg_services e |> <| sv_world := eg_world e |> <| sv_fs := eg_fs e |> <| sv_kernel := eg_kernel e |>
    <| sv_reads := eg_reads e |> <| sv_paths := eg_paths e |>.

Definition set_server (i : nat) (s : Server) (e : Engine) : Engine :=
  e <| eg_servers := <[i := s]> (eg_servers e) |>
    <| eg_services := sv_user s |> <| eg_world := sv_world s |> <| eg_fs := sv_fs s |> <| eg_kernel := sv_kernel s |>
    <| eg_reads := sv_reads s |> <| eg_paths := sv_paths s |>.

Definition on_server {A} (i : nat) (t : server_thread A) : engine_thread A :=
  zoom (server_of i) (set_server i) (ServerWorker i) t.

(** ** Steps *)

Definition engine_now : engine Z := fun e => Returns (env_clock (eg_reads e), e <| eg_reads := S (eg_reads e) |>).

Definition sleep_for (ms : Z) : engine_thread unit :=
  now ← engine_now; TPause (Some (now + ms * NS_PER_MS)) (fun _ => false) (mret tt).

Definition random (lo hi : Z) : engine Z := fun e =>
  Returns (env_draw (eg_draws e) lo hi, e <| eg_draws := S (eg_draws e) |>).

(** [initMutex_] is free: a critical section that is one step starts here. *)
Definition wait_lock : engine_thread unit := cv_wait (fun e => negb (eg_locked e)).

Definition set_lock (b : bool) : engine unit := modify (fun e => e <| eg_locked := b |>).

(** The calls on the session host. *)
Definition host_EnsureSession (host : SessionHost) : engine StatusCode := fun e =>
  let '(status, host, w) := SessionHost.EnsureSession host (eg_world e) in
  Returns (status, e <| eg_sessionHost := Some host |> <| eg_world := w |>).

Definition host_serverHandles (host : SessionHost) : engine BootstrapHandles := fun e =>
  let '(handles, w) := SessionHost.serverHandles host (eg_world e) in Returns (handles, e <| eg_world := w |>).

Definition host_OpenSession (host : SessionHost) (handles : BootstrapHandles) : engine (StatusCode * BootstrapHandles) := fun e =>
  let '(status, handles, host, w) := SessionHost.OpenSession host handles (eg_world e) in
  Returns ((status, handles), e <| eg_sessionHost := Some host |> <| eg_world := w |>).

(** On a host that is no longer the service's; also its destructor. *)
Definition host_CloseSession (host : SessionHost) : engine unit := fun e =>
  let '(_, _, w) := SessionHost.CloseSession host (eg_world e) in Returns (tt, e <| eg_world := w |>).

(** ** The session service *)

(** [registrar->RegisterHandlers(&sink)] for the two registrars. *)
Definition register_handlers {S} `{RpcHandlerSink (U := Services) S} (services : Services) (sink : S) : S :=
  TestkitService_RegisterHandlers services (VesEngineService_RegisterHandlers sink).

#[export] Instance RpcServerHandlerSink : RpcHandlerSink (U := Services) Server := fun opcode handler s =>
  s <| sv_handlers := match handler with
                      | None => delete (u16 opcode) (sv_handlers s)
                      | Some h => <[u16 opcode := h]> (sv_handlers s)
                      end |>.

(** [std::make_shared<RpcServer>(handles)]: the index of the new server. *)
Definition make_server (handles : BootstrapHandles) : engine nat := fun e =>
  let s := RpcServer_new handles ServerOptions_default (eg_services e) (eg_world e) (eg_fs e) (eg_kernel e) in
  Returns (length (eg_servers e), e <| eg_servers := eg_servers e ++ [s] |>).

Definition EnsureInitialized : engine_thread StatusCode :=
  wait_lock;;
  closing ← gets eg_closing;
  if closing : bool then mret PeerDisconnected else
  initialized ← gets eg_initialized;
  if initialized : bool then mret Ok else
  modify (fun e => match eg_sessionHost e with
                   | Some _ => e
                   | None => e <| eg_sessionHost := Some (make_host SharedMemorySessionConfig_default) |>
                   end);;
  host ← gets (fun e => default (make_host SharedMemorySessionConfig_default) (eg_sessionHost e));
  ensureStatus ← host_EnsureSession host;
  if negb (status_is ensureStatus Ok) then mret ensureStatus else
  host ← gets (fun e => default host (eg_sessionHost e));
  serverHandles ← host_serverHandles host;
  i ← make_server serverHandles;
  modify (fun e => e <| eg_rpcServer := Some i |> <| eg_anyCallHandlers := register_handlers (eg_services e) ∅ |>);;
  modify (fun e => set_server i (register_handlers (eg_services e) (server_of i e)) e);;
  set_lock true;;
  start_status ← on_server i Start;
  if negb (status_is start_status Ok)
  then on_server i RpcServer_delete;;
       modify (fun e => e <| eg_rpcServer := None |>);;
       host_CloseSession host;;
       modify (fun e => e <| eg_sessionHost := None |> <| eg_anyCallHandlers := ∅ |>);;
       set_lock false;; mret start_status
  else modify (fun e => e <| eg_initialized := true |>);; set_lock false;; mret Ok.

(** Assigning to a thread object that still holds a thread ends the process. *)
Definition StartEventPublisherLocked : engine_thread unit :=
  running ← gets eg_publisherRunning;
  if running : bool then mret tt else
  modify (fun e => e <| eg_publisherRunning := true |>);;
  joinable ← gets eg_publisherThread;
  if joinable : bool then TAbort else
  modify (fun e => e <| eg_publisherThread := true |> <| eg_publisherAlive := true |>);;
  spawn EventPublisherThread.

Definition SessionService_OpenSession (handles : BootstrapHandles) : engine_thread (StatusCode * BootstrapHandles) :=
  init_status ← EnsureInitialized;
  if negb (status_is init_status Ok) then mret (init_status, handles) else
  yield;;
  wait_lock;;
  host ← gets eg_sessionHost;
  match host with
  | None => mret (InvalidArgument, handles)
  | Some host =>
      ' (status, handles) ← host_OpenSession host handles;
      if negb (status_is status Ok) then mret (status, handles) else
      modify (fun e => e <| eg_sessionId := bh_sessionId handles |>);;
      StartEventPublisherLocked;;
      mret (status, handles)
  end.

Definition PublishEventBlocking (event : RpcEvent) : engine_thread StatusCode :=
  wait_lock;;
  rpcServer ← gets (fun e => if negb (eg_initialized e) || (eg_sessionId e =? 0) then None else eg_rpcServer e);
  match rpcServer with
  | None => mret PeerDisconnected
  | Some i => yield;; on_server i (PublishEvent event)
  end.

(** A handler, called on the state of the services. *)
Definition engine_call_handler (handler : RpcHandler) (call : RpcServerCall) : engine_thread RpcReply :=
  outcome ← gets (fun e => handler call RpcReply_default (eg_services e));
  match outcome with
  | Finishes delayMs reply u =>
      modify (fun e => e <| eg_services := u |>);;
      (if 0 <? delayMs then sleep_for delayMs else mret tt);;
      mret reply
  | Aborts => TAbort
  | Hangs => TPause None (fun _ => false) (mret RpcReply_default)
  | Misbehaves => (lift_run RunUndefined : engine _)
  end.

Definition InvokeAnyCallHandler (call : RpcServerCall) : engine_thread (StatusCode * RpcReply) :=
  handlers ← gets eg_anyCallHandlers;
  match handlers !! u16 (sc_opcode call) with
  | None => mret (InvalidArgument, reply_of_status InvalidArgument)
  | Some handler =>
      reply ← engine_call_handler handler call;
      mret (rp_status reply, reply)
  end.

Definition InvokeAnyCall (call : RpcServerCall) : engine_thread (StatusCode * RpcReply) :=
  initStatus ← EnsureInitialized;
  if negb (status_is initStatus Ok) then mret (initStatus, RpcReply_default) else
  yield;;
  InvokeAnyCallHandler call.

(** The pauses the environment asks for. *)
Definition RunCloseSessionChaos (stage : CloseSessionStage) : engine_thread unit :=
  yield;;
  if negb (EnvFlagEnabled env_getenv "VES_ENABLE_CLOSE_SESSION_CHAOS") then mret tt else
  let yieldCount := ReadEnvUintOrDefault env_getenv "VES_CLOSE_SESSION_CHAOS_YIELDS" DEFAULT_CLOSE_SESSION_CHAOS_YIELDS
                      MAX_CLOSE_SESSION_CHAOS_YIELDS in
  let sleepMs := ReadEnvUintOrDefault env_getenv "VES_CLOSE_SESSION_CHAOS_SLEEP_MS" 0 MAX_CLOSE_SESSION_CHAOS_SLEEP_MS in
  tfor_each (replicate (Z.to_nat yieldCount) tt) (fun _ => yield);;
  if 0 <? sleepMs then sleep_for sleepMs else mret tt.

Definition SessionService_CloseSession : engine_thread StatusCode :=
  wait_lock;;
  idle ← gets (fun e => eg_closing e || negb (eg_initialized e));
  if idle : bool then mret Ok else
  publisher ← gets eg_publisherThread;
  rpcServer ← gets eg_rpcServer;
  sessionHost ← gets eg_sessionHost;
  modify (fun e => e <| eg_closing := true |> <| eg_publisherRunning := false |> <| eg_publisherThread := false |>
                     <| eg_rpcServer := None |> <| eg_sessionHost := None |> <| eg_initialized := false |>
                     <| eg_sessionId := 0 |>);;
  RunCloseSessionChaos AfterMarkClosing;;
  (if publisher : bool then TPause None (fun e => negb (eg_publisherAlive e)) (mret tt) else mret tt);;
  RunCloseSessionChaos BeforeRpcServerStop;;
  (match rpcServer with Some i => on_server i Stop | None => mret tt end);;
  RunCloseSessionChaos BeforeSessionHostClose;;
  (match sessionHost with Some host => atomic (host_CloseSession host) | None => mret tt end);;
  yield;;
  wait_lock;;
  modify (fun e => e <| eg_closing := false |>);;
  mret Ok.

Definition session_id : engine Z := gets eg_sessionId.

Definition SessionService_GetRuntimeStats : engine_thread RpcServerRuntimeStats :=
  wait_lock;;
  rpcServer ← gets eg_rpcServer;
  match rpcServer with
  | None => mret RpcServerRuntimeStats_default
  | Some i =>
      set_lock true;;
      stats ← on_server i GetRuntimeStats;
      set_lock false;;
      mret stats
  end.

(** ** Events *)

Definition event_text (sessionId sequence eventType state : Z) : string :=
  "ves-random-event session=" ++ pretty sessionId ++ " seq=" ++ pretty sequence ++ " type=" ++ pretty eventType ++
  " state=" ++ pretty state.

Definition publish_random_event (sessionId : Z) : engine_thread unit :=
  eventType ← random VesEventType_RandomScanResult VesEventType_RandomLifecycle;
  sequence ← gets (fun e => u32 (eg_eventSequence e + 1));
  modify (fun e => e <| eg_eventSequence := sequence |>);;
  state ← random 0 99;
  yield;;
  PublishEventBlocking {| ev_eventDomain := VES_EVENT_DOMAIN_RUNTIME; ev_eventType := eventType; ev_flags := 0;
                          ev_payload := to_bytes (event_text sessionId sequence eventType state) |};;
  yield.

Fixpoint event_publisher_loop (fuel : nat) : engine_thread unit :=
  match fuel with
  | O => tdiverge
  | S fuel =>
      running ← gets eg_publisherRunning;
      if negb running then mret tt else
      delay ← random EVENT_PUBLISH_PERIOD_MIN EVENT_PUBLISH_PERIOD_MAX;
      now ← engine_now;
      stopped ← cv_wait_until (Some (now + delay * NS_PER_MS)) (fun e => negb (eg_publisherRunning e));
      if stopped : bool then mret tt else
      yield;;
      wait_lock;;
      sessionId ← gets (fun e => if negb (eg_initialized e) || bool_decide (eg_rpcServer e = None) then 0 else eg_sessionId e);
      yield;;
      (if sessionId =? 0 then mret tt else publish_random_event sessionId);;
      event_publisher_loop fuel
  end.

Definition EventPublisherLoop (fuel : nat) : engine_thread unit := event_publisher_loop fuel.

(** [VesEngineService::PublishEvent]. *)
Definition VesEngineService_PublishEvent (eventType : Z) (payload : bytes) (flags eventDomain : Z) : engine_thread StatusCode :=
  publisher ← gets eg_eventPublisher;
  if negb publisher then mret PeerDisconnected else
  yield;;
  PublishEventBlocking {| ev_eventDomain := eventDomain; ev_eventType := eventType; ev_flags := flags; ev_payload := payload |}.

Definition PublishTextEvent (eventType : Z) (payload : string) (flags eventDomain : Z) : engine_thread StatusCode :=
  VesEngineService_PublishEvent eventType (to_bytes payload) flags eventDomain.

(** ** The service *)

Definition VesService_OpenSession (request : VesOpenSessionRequest) (handles : BootstrapHandles)
    : engine_thread (StatusCode * BootstrapHandles) :=
  stopping ← gets eg_stopping;
  if stopping : bool then mret (PeerDisconnected, handles) else
  yield;;
  configStatus ← gets (fun e => fst (ConfigureEngines request (svc_engine (eg_services e))));
  modify (fun e => e <| eg_services := (eg_services e)
    <| svc_engine := snd (ConfigureEngines request (svc_engine (eg_services e))) |> |>);;
  if negb (status_is configStatus Ok) then mret (configStatus, handles) else
  yield;;
  sessionService ← gets eg_sessionService;
  if negb sessionService then mret (InvalidArgument, handles) else
  yield;;
  SessionService_OpenSession handles.

Definition VesService_CloseSession : engine_thread StatusCode :=
  sessionService ← gets eg_sessionService;
  if negb sessionService then mret Ok else
  yield;;
  SessionService_CloseSession.

Definition VesService_Heartbeat : engine_thread (StatusCode * VesHeartbeatReply) :=
  let heartbeat := VesHeartbeatReply_default in
  stopping ← gets eg_stopping;
  if stopping : bool
  then mret (Ok, heartbeat <| hb_status := VesHeartbeatStatus_UnhealthyStopping |>
                           <| hb_reasonCode := VesHeartbeatReasonCode_Stopping |>) else
  yield;;
  sessionService ← gets eg_sessionService;
  yield;;
  if negb sessionService
  then initialized ← gets (fun e => es_initialized (svc_engine (eg_services e)));
       mret (Ok, heartbeat <| hb_flags := if initialized : bool then Z.lor (hb_flags heartbeat) VES_HEARTBEAT_FLAG_INITIALIZED
                                          else hb_flags heartbeat |>
                           <| hb_currentTask := task_text "idle" (hb_currentTask heartbeat) |>)
  else
  sessionId ← session_id;
  yield;;
  initialized ← gets (fun e => es_initialized (svc_engine (eg_services e)));
  if negb initialized
  then mret (Ok, heartbeat <| hb_status := VesHeartbeatStatus_UnhealthyInternalError |>
                           <| hb_reasonCode := VesHeartbeatReasonCode_InternalError |>) else
  if sessionId =? 0
  then mret (Ok, heartbeat <| hb_flags := Z.lor (hb_flags heartbeat) VES_HEARTBEAT_FLAG_INITIALIZED |>
                           <| hb_status := VesHeartbeatStatus_UnhealthyNoSession |>
                           <| hb_reasonCode := VesHeartbeatReasonCode_NoSession |>) else
  yield;;
  stats ← SessionService_GetRuntimeStats;
  mret (Ok, PopulateHealthyReply stats sessionId heartbeat).

(** A priority without a name is as good as any: no handler reads it. *)
Definition any_call (request : VesAnyCallRequest) : RpcServerCall := {|
  sc_opcode := ac_opcode request;
  sc_priority := if u8 (ac_priority request) =? Priority_to_u8 High then High else Normal;
  sc_execTimeoutMs := 0; sc_payload := ac_payload request |}.

Definition VesService_AnyCall (request : VesAnyCallRequest) : engine_thread (StatusCode * VesAnyCallReply) :=
  let disconnected := {| ay_status := PeerDisconnected; ay_payload := [] |} in
  stopping ← gets eg_stopping;
  if stopping : bool then mret (Ok, disconnected) else
  yield;;
  initialized ← gets (fun e => es_initialized (svc_engine (eg_services e)));
  if negb initialized then mret (Ok, disconnected) else
  yield;;
  sessionService ← gets eg_sessionService;
  if negb sessionService then mret (Ok, disconnected) else
  yield;;
  ' (status, reply) ← InvokeAnyCall (any_call request);
  mret (Ok, {| ay_status := status; ay_payload := rp_payload reply |}).

(** [OnStart] of a new service; [fuel] bounds the loop over the directory. *)
Definition OnStart (fuel : nat) : engine unit := fun e =>
  let! (_, fs) := ClearFilePayloads fuel DEFAULT_FILE_PAYLOAD_DIR (eg_fs e) in
  let services := (eg_services e) <| svc_enableFaultInjection := IsTestkitFaultInjectionEnabled env_getenv |> in
  Returns (tt, e <| eg_stopping := false |> <| eg_fs := fs |> <| eg_published := false |> <| eg_unloadRequested := false |>
                 <| eg_sessionService := true |> <| eg_eventPublisher := true |>
                 <| eg_services := services <| svc_engine := Initialize (svc_engine services) |> |>).

Definition OnStop : engine_thread unit :=
  modify (fun e => e <| eg_stopping := true |>);;
  yield;;
  sessionService ← gets eg_sessionService;
  modify (fun e => e <| eg_sessionService := false |>);;
  yield;;
  (if sessionService : bool then SessionService_CloseSession;; yield else mret tt);;
  modify (fun e => e <| eg_eventPublisher := false |>);;
  yield;;
  modify (fun e => e <| eg_services := (eg_services e) <| svc_engine := ResetEngines (svc_engine (eg_services e)) |> |>).

(** ** Control commands *)

(** [pad] are the bytes between the fields of the structure. *)
Definition EncodeOpenSessionReply (pad : bytes) (handles : BootstrapHandles) : MockIpcReply :=
  {| mr_fds := handle_fds handles; mr_data := metadata_image pad handles; mr_close_after_reply := false |}.

(** [None]: the handler has returned false. *)
Definition HandleOpenSession (pad request : bytes) : engine_thread (option MockIpcReply) :=
  match DecodeOpenSessionRequest request Ptr with
  | None => mret None
  | Some openRequest =>
      ' (status, handles) ← VesService_OpenSession openRequest MakeDefaultBootstrapHandles;
      mret (if status_is status Ok then Some (EncodeOpenSessionReply pad handles) else None)
  end.

Definition HandleHeartbeat (pad : bytes) : engine_thread (option MockIpcReply) :=
  ' (status, reply) ← VesService_Heartbeat;
  mret (if status_is status Ok
        then Some {| mr_fds := []; mr_data := heartbeat_image pad reply; mr_close_after_reply := true |} else None).

Definition HandleAnyCall (request : bytes) : engine_thread (option MockIpcReply) :=
  match DecodeAnyCallRequest request Ptr with
  | None => mret None
  | Some anyRequest =>
      ' (status, reply) ← VesService_AnyCall anyRequest;
      mret (if status_is status Ok
            then Some {| mr_fds := []; mr_data := EncodeAnyCallReply reply; mr_close_after_reply := true |} else None)
  end.

Definition OnRemoteRequest (pad : bytes) (command : Z) (request : bytes) : engine_thread (option MockIpcReply) :=
  if command =? 1 then HandleOpenSession pad request else
  if command =? 2
  then status ← VesService_CloseSession;
       mret (if status_is status Ok then Some {| mr_fds := []; mr_data := []; mr_close_after_reply := true |} else None) else
  if command =? 3 then HandleHeartbeat pad else
  if command =? 4 then HandleAnyCall request else
  mret None.

(** What a background thread runs. *)
Definition engine_run_worker (fuel : nat) (w : engine_worker) : engine_thread unit :=
  match w with
  | ServerWorker i w => on_server i (run_worker fuel w)
  | EventPublisherThread => EventPublisherLoop fuel;; modify (fun e => e <| eg_publisherAlive := false |>)
  end.

End Service.

Arguments Engine {_ _}.
Abbreviation engine := (machine Engine).
Abbreviation engine_thread := (thread Engine engine_worker).
