(* ===== verification/VesServiceSpec.v ===== *)
(** * The service process: what holds of it

    The service of [VesService] as a program with several threads, an invariant
    of all its interleavings, and the behaviour of its control commands. *)

From Stdlib Require Import Lia.
From S2P Require Import Prelude Machine Threads Pool Types ByteCodec ShmLayout Ring FilePayload EventFd Os Platform Session.
From S2P Require Import SessionHost Executor ServerState ServerCore ServerThreads VesMessages VesRules VesHandlers VesControl ServiceSocket VesService.
#[local] Open Scope thread_scope.

Section Invariant.
Context {PF : Platform} {SV : ServiceEnv}.

(** ** All its threads *)

Inductive engine_op : Type :=
| OpCommand (pad : bytes) (command : Z) (request : bytes)
| OpPublish (eventType : Z) (payload : bytes) (flags eventDomain : Z)
| OpOnStop.

Definition engine_perform (op : engine_op) : engine_thread unit :=
  match op with
  | OpCommand pad command request => OnRemoteRequest pad command request;; mret tt
  | OpPublish eventType payload flags eventDomain =>
      VesEngineService_PublishEvent eventType payload flags eventDomain;; mret tt
  | OpOnStop => OnStop
  end.

(** Time passes, and the clients, the kernel and the file system act. *)
Definition engine_environment (e e' : Engine) : Prop :=
  exists reads shm fs k, (eg_reads e <= reads)%nat /\
    e' = e <| eg_reads := reads |> <| eg_world := (eg_world e) <| w_shm := shm |> |> <| eg_fs := fs |> <| eg_kernel := k |>.

Definition engine_pass_time (n : nat) (e : Engine) : Engine := e <| eg_reads := (eg_reads e + n)%nat |>.

Lemma engine_time_environment n e : engine_environment e (engine_pass_time n e).
Proof.
  exists (eg_reads e + n)%nat, (w_shm (eg_world e)), (eg_fs e), (eg_kernel e). split; [lia|].
  by destruct e as [? ? ? ? ? ? ? ? ? ? ? ? ? ? ? ? ? ? [] ? ? ? ? ?].
Qed.

(** The members of a new service. *)
Definition Engine_new (services : Services) (w : World) (fs : Fs) (k : Kernel) : Engine := {|
  eg_locked := false; eg_anyCallHandlers := ∅; eg_sessionHost := None; eg_rpcServer := None; eg_initialized := false;
  eg_closing := false; eg_sessionId := 0; eg_publisherRunning := false; eg_publisherThread := false;
  eg_publisherAlive := false; eg_eventSequence := 0; eg_sessionService := false; eg_eventPublisher := false;
  eg_stopping := false; eg_published := false; eg_unloadRequested := false; eg_services := services; eg_servers := [];
  eg_world := w; eg_fs := fs; eg_kernel := k; eg_reads := 0; eg_paths := 0; eg_draws := 0 |}.

(** A service that has started. *)
Definition engine_initial (e : Engine) : Prop :=
  exists services w fs k fuel, OnStart fuel (Engine_new services w fs k) = Returns (tt, e).

#[export] Instance engine_system : System Engine engine_worker := {|
  sys_op_role := fun _ => SharedRole; sys_perform := engine_perform;
  sys_invoke := fun call : Empty_set => match call with end;
  sys_run_worker := engine_run_worker; sys_environment := engine_environment;
  sys_tick_environment := engine_time_environment; sys_initial := engine_initial |}.

(** ** The invariant *)

(** What a thread does while it pauses: nothing in particular; it starts an
    RPC server under [initMutex_]; it reads statistics under [initMutex_]; it
    closes the session. *)
Inductive engine_label : Type := EIdle | EInit | EReading | EClosing.

Definition lock_of (l : engine_label) : nat := match l with EInit | EReading => 1 | _ => 0 end.
Definition closing_of (l : engine_label) : nat := match l with EClosing => 1 | _ => 0 end.
(** The host has a session. *)
Definition hosting (e : Engine) : Prop := exists host, eg_sessionHost e = Some host /\ ho_initialized host = true.

Record engine_ok (e : Engine) : Prop := {
  eok_initialized : eg_initialized e = true -> eg_closing e = false /\ is_Some (eg_rpcServer e) /\ hosting e;
  eok_publisher : eg_publisherThread e = eg_publisherRunning e;
  eok_session : eg_sessionId e <> 0 -> eg_publisherRunning e = true;
  eok_closing : eg_closing e = true -> eg_rpcServer e = None /\ eg_sessionHost e = None;
  eok_server : eg_initialized e = false -> eg_locked e = false -> eg_rpcServer e = None;
}.

(** What a thread knows that holds the mutex. *)
Definition knows (l : engine_label) (e : Engine) : Prop :=
  match l with
  | EInit => eg_initialized e = false /\ eg_closing e = false /\ is_Some (eg_rpcServer e) /\ hosting e
  | EReading => eg_initialized e = true
  | _ => True
  end.

(** All threads together. *)
Definition ginv (ls : list engine_label) (e : Engine) : Prop :=
  engine_ok e /\ sum_of lock_of ls = Nat.b2n (eg_locked e) /\ sum_of closing_of ls = Nat.b2n (eg_closing e) /\
  Forall (fun l => knows l e) ls.

Definition erest (_ : role) (l : engine_label) (others : list engine_label) (e : Engine) : Prop := ginv (l :: others) e.

Lemma ginv_permutation ls ls' e : ls ≡ₚ ls' -> ginv ls e -> ginv ls' e.
Proof.
  intros Hp (Hok & Hl & Hc & Hk). split; [done|].
  by rewrite <- (sum_of_permutation _ _ _ Hp), <- (sum_of_permutation _ _ _ Hp), <- Hp.
Qed.

(** A thread that is alone with the mutex may change what it protects. *)
Lemma ginv_change l l' fr e e' :
  ginv (l :: fr) e -> sum_of lock_of fr = 0%nat -> engine_ok e' -> lock_of l' = Nat.b2n (eg_locked e') ->
  (closing_of l' + sum_of closing_of fr)%nat = Nat.b2n (eg_closing e') -> knows l' e' -> ginv (l' :: fr) e'.
Proof.
  intros _ Hfr Hok Hl Hc Hk. split; [done|]. rewrite !sum_of_cons. split; [lia|]. split; [done|]. constructor; [done|].
  apply Forall_forall. intros x Hx. pose proof (sum_of_zero _ _ _ Hfr Hx). by destruct x.
Qed.

Lemma ginv_unlocked l fr e : ginv (l :: fr) e -> eg_locked e = false -> lock_of l = 0%nat /\ sum_of lock_of fr = 0%nat.
Proof. intros (_ & Hl & _) He. rewrite He, sum_of_cons in Hl. cbn in Hl. lia. Qed.

Lemma ginv_locked l fr e : ginv (l :: fr) e -> lock_of l = 1%nat -> eg_locked e = true /\ sum_of lock_of fr = 0%nat.
Proof. intros (_ & Hl & _) He. rewrite sum_of_cons in Hl. destruct (eg_locked e); cbn in Hl; split; lia || done. Qed.

(** What the invariant does not mention. *)
Definition same_session (e e' : Engine) : Prop :=
  eg_locked e' = eg_locked e /\ eg_sessionHost e' = eg_sessionHost e /\ eg_rpcServer e' = eg_rpcServer e /\
  eg_initialized e' = eg_initialized e /\ eg_closing e' = eg_closing e /\ eg_sessionId e' = eg_sessionId e /\
  eg_publisherRunning e' = eg_publisherRunning e /\ eg_publisherThread e' = eg_publisherThread e.

Lemma ginv_same ls e e' : same_session e e' -> ginv ls e -> ginv ls e'.
Proof.
  intros (E1 & E2 & E3 & E4 & E5 & E6 & E7 & E8) ([] & Hl & Hc & Hk).
  split; [split; unfold hosting; rewrite ?E1, ?E2, ?E3, ?E4, ?E5, ?E6, ?E7, ?E8; done|]. rewrite E1, E5.
  split; [done|]. split; [done|]. eapply Forall_impl; [exact Hk|]. intros l. destruct l; cbn; unfold hosting; by rewrite ?E2, ?E3, ?E4, ?E5.
Qed.

(** ** Every thread keeps it *)

Section Threads.
Variable r : role.

#[local] Notation estays := (stays (W := engine_worker) (erest r)).

#[local] Arguments server_of : simpl never.
#[local] Arguments set_server : simpl never.

Ltac unpack := repeat match goal with
  | H : exists _, _ |- _ => destruct H
  | H : _ /\ _ |- _ => destruct H
  end; subst.

Lemma stays_same l {A} (m : engine A) :
  (forall e a e', m e = Returns (a, e') -> same_session e e') -> estays l (atomic m).
Proof. intros Hm. apply stays_atomic. intros fr e a e' He E. by eapply ginv_same; [eapply Hm|]. Qed.

Lemma stays_modify l (f : Engine -> Engine) : (forall e, same_session e (f e)) -> estays l (atomic (modify f)).
Proof. intros Hf. apply stays_same. by intros e a e' [= _ <-]. Qed.

Lemma stays_gets l {A} (f : Engine -> A) : estays l (atomic (gets f)).
Proof. apply stays_same. by intros e a e' [= _ <-]. Qed.

Lemma stays_on_server l i {A} (t : server_thread A) : estays l (on_server i t).
Proof. apply stays_zoom; [exact I|]. intros fr e s. by apply ginv_same. Qed.

Lemma stays_sleep_for l ms : estays l (sleep_for ms).
Proof.
  apply stays_bind; [apply stays_same; by intros e a e' [= _ <-]|]. intros now. apply stays_pause, stays_ret.
Qed.

Lemma stays_random l lo hi : estays l (atomic (random lo hi)).
Proof. apply stays_same. by intros e a e' [= _ <-]. Qed.

(** The start of a critical section. *)
Lemma twp_wait_lock l : twp (erest r) (erest r l) wait_lock (fun _ fr e => erest r l fr e /\ eg_locked e = false).
Proof. eapply twp_post; [|apply twp_cv_wait]. intros _ fr e [He Hl]. split; [done|]. by apply negb_true_iff. Qed.

Lemma EnsureSession_hosts host w status host' w' :
  SessionHost.EnsureSession host w = (status, host', w') -> status = Ok -> ho_initialized host' = true.
Proof.
  unfold SessionHost.EnsureSession, SessionHost.EnsureInitialized, FinalizeInitializedSession. intros H ->.
  destruct (ho_initialized host) eqn:E; [by injection H as <- _|]. destruct (negb _); [done|].
  destruct (ResetHandles host w) as [h1 w1]. destruct (OpenSharedMemoryFd h1 w1) as [fd w2]. destruct (fd <? 0); [done|].
  destruct (InitializeSharedMemory h1 fd w2) as [[st sid] w3]. destruct (negb _) eqn:En; [by destruct st|].
  destruct (CreateEventFds _ w3) as [[created h2] w4]. destruct created; [by simplify_eq|].
  destruct (ResetHandles _ w4). done.
Qed.

(** While there is no session, the host may change, and a thread may take the
    mutex to start a server. *)
Lemma ginv_prepare l' fr e e' :
  erest r EIdle fr e -> eg_locked e = false -> eg_closing e = false -> eg_initialized e = false ->
  eg_initialized e' = false -> eg_closing e' = false -> eg_sessionId e' = eg_sessionId e ->
  eg_publisherRunning e' = eg_publisherRunning e -> eg_publisherThread e' = eg_publisherThread e ->
  match l' with
  | EIdle => eg_locked e' = false /\ eg_rpcServer e' = None
  | EInit => eg_locked e' = true /\ is_Some (eg_rpcServer e') /\ hosting e'
  | _ => False
  end -> erest r l' fr e'.
Proof.
  intros He Hlk Hc Hi Hi' Hc' Hs' Hr' Ht' Hl'. pose proof (proj2 (ginv_unlocked _ _ _ He Hlk)) as Hfr.
  assert (Hcl : sum_of closing_of fr = 0%nat) by (destruct He as (_ & _ & HE & _); by rewrite sum_of_cons, Hc in HE).
  destruct (proj1 He) as [_ Hpt Hsr _ _].
  eapply ginv_change; [exact He|done|split|..]; rewrite ?Hi', ?Hc', ?Hs', ?Hr', ?Ht', ?Hcl; try done.
  - intros _ Hu. destruct l'; try done; destruct Hl' as [Hlk' ?]; [done|congruence].
  - by destruct l'; try done; destruct Hl' as [-> _].
  - by destruct l'.
  - by destruct l'; try done; destruct Hl' as [_ []].
Qed.

(** A thread that started a server gives the mutex back. *)
Lemma ginv_release fr e e' :
  erest r EInit fr e -> eg_closing e' = false -> eg_locked e' = false -> engine_ok e' -> erest r EIdle fr e'.
Proof.
  intros He Hc' Hl' Hok. destruct (ginv_locked _ _ _ He eq_refl) as [_ Hfr].
  destruct He as (Hok0 & _ & Hcl & Hk). apply Forall_cons_1 in Hk as [(_ & Hc & _) _].
  rewrite Hc, sum_of_cons in Hcl. split; [done|]. rewrite !sum_of_cons, Hc', Hl'. cbn in Hcl |- *.
  split; [by rewrite Hfr|]. split; [by rewrite Hcl|]. constructor; [done|].
  apply Forall_forall. intros x Hx. pose proof (sum_of_zero _ _ _ Hfr Hx). by destruct x.
Qed.

Lemma host_EnsureSession_spec host e st e' :
  host_EnsureSession host e = Returns (st, e') ->
  exists host' w, e' = e <| eg_sessionHost := Some host' |> <| eg_world := w |> /\ (st = Ok -> ho_initialized host' = true).
Proof.
  unfold host_EnsureSession. destruct (SessionHost.EnsureSession host (eg_world e)) as [[s h] w] eqn:E. intros [= <- <-].
  exists h, w. split; [done|]. by eapply EnsureSession_hosts.
Qed.

Lemma stays_EnsureInitialized : estays EIdle EnsureInitialized.
Proof.
  unfold EnsureInitialized. tw (apply twp_wait_lock).
  apply twp_gets. intros [|]; [apply twp_ret; intros; by unpack|].
  apply twp_gets. intros [|]; [apply twp_ret; intros; by unpack|].
  apply twp_modify, twp_gets. intros host. apply twp_step. intros st. destruct (negb (status_is st Ok)) eqn:Est.
  { apply twp_ret. intros fr e Hp. unpack. apply host_EnsureSession_spec in H0 as (h & w & -> & _).
    eapply ginv_prepare; [exact H|done..| | | | | |]; try by destruct (eg_sessionHost x0).
    cbn. split; destruct (eg_sessionHost x0); try done; by apply (eok_server _ (proj1 H)). }
  apply twp_gets. intros host'. apply twp_step. intros handles. apply twp_step. intros i. apply twp_modify, twp_modify, twp_modify.
  eapply twp_bind.
  { eapply twp_pre; [|apply (stays_on_server EInit)]. intros fr e Hp. unpack.
    apply host_EnsureSession_spec in H6 as (h & w & -> & Hh). unfold host_serverHandles in H4.
    destruct (SessionHost.serverHandles _ _) as [? w'] in H4. injection H4 as -> <-. injection H3 as <- <-.
    eapply ginv_prepare; [exact H|done..| | | | | |]; try by destruct (eg_sessionHost x5).
    split; [done|]. split; [by eexists|]. exists h. split; [by destruct (eg_sessionHost x5)|]. apply Hh. by destruct st. }
  intros start. destruct (negb (status_is start Ok)).
  - tw (apply (stays_on_server EInit)). apply twp_modify, twp_step. intros []. apply twp_modify, twp_modify, twp_ret.
    intros fr e Hp. unpack. unfold host_CloseSession in H2. destruct (SessionHost.CloseSession _ _) as [[? ?] w] in H2.
    injection H2 as <-. pose proof H as (Hok & _ & _ & Hk). apply Forall_cons_1 in Hk as [(Hi & Hc & _) _].
    eapply ginv_release; [exact H|done..|]. destruct Hok. split; cbn; done || congruence.
  - apply twp_modify, twp_modify, twp_ret. intros fr e Hp. unpack.
    pose proof H as (Hok & _ & _ & Hk). apply Forall_cons_1 in Hk as [(Hi & Hc & Hs & Hh) _].
    eapply ginv_release; [exact H|done..|]. destruct Hok. by split; cbn; rewrite ?Hc.
Qed.

Lemma host_OpenSession_spec host handles e a e' :
  host_OpenSession host handles e = Returns (a, e') ->
  exists host' w, e' = e <| eg_sessionHost := Some host' |> <| eg_world := w |> /\
    (ho_initialized host = true -> ho_initialized host' = true).
Proof.
  unfold host_OpenSession, SessionHost.OpenSession.
  destruct (SessionHost.EnsureInitialized host (eg_world e)) as [[st h] w] eqn:E.
  assert (Hh : ho_initialized host = true -> ho_initialized h = true).
  { unfold SessionHost.EnsureInitialized in E. intros Hi. rewrite Hi in E. by simplify_eq. }
  destruct (negb _); [intros [= _ <-]; by exists h, w|].
  destruct (DuplicateHandles (ho_handles h) Ptr w) as [[[] hs] w']; cbn; intros [= _ <-]; by exists h, w'.
Qed.

(** An open session: the host may change as long as it keeps what it has. *)
Lemma ginv_opened fr e e' host h :
  erest r EIdle fr e -> eg_locked e = false -> eg_sessionHost e = Some host ->
  (ho_initialized host = true -> ho_initialized h = true) ->
  eg_locked e' = false -> eg_closing e' = eg_closing e -> eg_initialized e' = eg_initialized e ->
  eg_rpcServer e' = eg_rpcServer e -> eg_sessionHost e' = Some h ->
  eg_publisherThread e' = eg_publisherRunning e' -> (eg_sessionId e' <> 0 -> eg_publisherRunning e' = true) ->
  erest r EIdle fr e'.
Proof.
  intros He Hl Hh Hkeep Hl' Hc' Hi' Hr' Hh' Hp' Hs'. pose proof (proj2 (ginv_unlocked _ _ _ He Hl)) as Hfr.
  pose proof He as ([Hi Hp Hs Hc Hsv] & _ & Hcl & _).
  eapply ginv_change; [exact He|done| |by rewrite Hl'|by rewrite Hc'|done].
  split; rewrite ?Hi', ?Hr', ?Hc'; try done; [|intros Hcc; by destruct (Hc Hcc) as [_ ?]; congruence|auto].
  intros Hin. destruct (Hi Hin) as (? & ? & h0 & E & ?). split; [done|]. split; [done|]. exists h. split; [done|].
  rewrite Hh in E. injection E as <-. auto.
Qed.

Ltac opened h Hh := match goal with
  | H : host_OpenSession _ _ _ = Returns _ |- _ => apply host_OpenSession_spec in H as (h & ? & -> & Hh)
  end.

Lemma stays_SessionService_OpenSession handles : estays EIdle (SessionService_OpenSession handles).
Proof.
  unfold SessionService_OpenSession, StartEventPublisherLocked. apply stays_bind; [apply stays_EnsureInitialized|]. intros st.
  destruct (negb (status_is st Ok)); [apply stays_ret|]. apply stays_bind; [apply stays_yield|]. intros _.
  tw (apply twp_wait_lock). apply twp_gets. intros [host|]; [|apply twp_ret; intros; by unpack].
  apply twp_step. intros [s hs]. destruct (negb (status_is s Ok)).
  { apply twp_ret. intros fr e Hp. unpack. opened h Hh.
    eapply ginv_opened; [exact H|done|done|exact Hh|done..| |]; apply H. }
  apply twp_modify. eapply twp_bind; [|intros ?; apply twp_ret; intros fr e Hp; exact Hp].
  apply twp_gets. intros [|].
  { apply twp_ret. intros fr e Hp. unpack. opened h Hh.
    eapply ginv_opened; [exact H|done|done|exact Hh|done..| |done]. apply H. }
  apply twp_modify, twp_gets. intros [|]; [done|]. apply twp_modify.
  eapply twp_pre; [|apply twp_spawn]. intros fr e Hp. unpack. opened h Hh.
  by eapply ginv_opened; [exact H|done|done|exact Hh|..].
Qed.

Lemma stays_RunCloseSessionChaos l stage : estays l (RunCloseSessionChaos stage).
Proof.
  apply stays_bind; [apply stays_yield|]. intros ?. destruct (negb _); [apply stays_ret|].
  apply stays_bind; [apply stays_for_each; intros ?; apply stays_yield|]. intros ?.
  destruct (0 <? _); [apply stays_sleep_for|apply stays_ret].
Qed.

Lemma stays_host_CloseSession l host : estays l (atomic (host_CloseSession host)).
Proof.
  apply stays_same. intros e a e'. unfold host_CloseSession.
  destruct (SessionHost.CloseSession host (eg_world e)) as [[? ?] w]. by intros [= _ <-].
Qed.

Lemma stays_SessionService_CloseSession : estays EIdle SessionService_CloseSession.
Proof.
  unfold SessionService_CloseSession. tw (apply twp_wait_lock).
  apply twp_gets. intros [|] ; [apply twp_ret; intros; by unpack|].
  apply twp_gets. intros publisher. apply twp_gets. intros server. apply twp_gets. intros host. apply twp_modify.
  eapply twp_bind.
  { eapply twp_pre; [|apply (stays_RunCloseSessionChaos EClosing)]. intros fr e Hp. unpack.
    apply orb_false_iff in H4 as [Hc Hi].
    eapply ginv_change; [exact H|by eapply ginv_unlocked| |by cbn; rewrite H5| |done].
    - by split.
    - destruct H as (_ & _ & Hcl & _). rewrite sum_of_cons, Hc in Hcl. cbn in Hcl |- *. lia. }
  intros ?.
  tw (destruct publisher; [apply stays_pause, (stays_ret (W := engine_worker) (erest r) EClosing)|apply (stays_ret (W := engine_worker) (erest r) EClosing)]).
  tw (apply (stays_RunCloseSessionChaos EClosing)).
  tw (destruct server; [apply (stays_on_server EClosing)|apply (stays_ret (W := engine_worker) (erest r) EClosing)]).
  tw (apply (stays_RunCloseSessionChaos EClosing)).
  tw (destruct host; [apply (stays_host_CloseSession EClosing)|apply (stays_ret (W := engine_worker) (erest r) EClosing)]).
  tw (apply stays_yield). tw (apply (twp_wait_lock EClosing)).
  apply twp_modify, twp_ret. intros fr ? (e & (H & Hlk) & ->).
  pose proof H as ([Hi Hp Hs Hc Hsv] & _ & Hcl & _). rewrite sum_of_cons in Hcl. cbn in Hcl.
  destruct (eg_closing e) eqn:Ec; [|done]. cbn in Hcl.
  eapply ginv_change; [exact H|by eapply ginv_unlocked| |by cbn; rewrite Hlk|cbn; lia|done].
  split; cbn; try done. by intros [? _]%Hi.
Qed.

(** Reading the statistics of the server of an initialised service. *)
Lemma stays_SessionService_GetRuntimeStats : estays EIdle SessionService_GetRuntimeStats.
Proof.
  unfold SessionService_GetRuntimeStats. tw (apply twp_wait_lock).
  apply twp_gets. intros [i|]; [|apply twp_ret; intros; by unpack]. apply twp_modify. eapply twp_bind.
  { eapply twp_pre; [|apply (stays_on_server EReading)]. intros fr ? (e & ((H & Hlk) & Hsv) & ->).
    pose proof H as ([Hi Hp Hs Hc Hsv0] & _ & Hcl & _).
    assert (eg_initialized e = true) by (destruct (eg_initialized e) eqn:E; [done|]; rewrite (Hsv0 eq_refl Hlk) in Hsv; done).
    eapply ginv_change; [exact H|by eapply ginv_unlocked| |done|done|done]. split; cbn; congruence || done. }
  intros stats. apply twp_modify, twp_ret. intros fr ? (e & H & ->).
  pose proof H as ([Hi Hp Hs Hc Hsv0] & _ & Hcl & Hk). apply Forall_cons_1 in Hk as [Hk _].
  eapply ginv_change; [exact H|by eapply ginv_locked| |done|done|done]. split; cbn; congruence || done.
Qed.

(** The other operations change the session only through these. *)
Ltac estay := repeat first
  [ match goal with H : _ |- _ => by apply H end | apply stays_ret | apply stays_yield | apply stays_gets | apply stays_random | apply stays_sleep_for
  | apply stays_cv_wait | apply stays_cv_wait_until | apply stays_on_server | apply stays_diverge
  | apply stays_SessionService_OpenSession | apply stays_SessionService_CloseSession
  | apply stays_EnsureInitialized | apply stays_SessionService_GetRuntimeStats
  | apply stays_modify; done | apply stays_same; by intros ? ? ? [= _ <-]
  | apply stays_bind; [|intros ?] | case_match ].

Lemma stays_PublishEventBlocking event : estays EIdle (PublishEventBlocking event).
Proof. unfold PublishEventBlocking, wait_lock. estay. Qed.

Lemma stays_InvokeAnyCall call : estays EIdle (InvokeAnyCall call).
Proof.
  unfold InvokeAnyCall, InvokeAnyCallHandler, engine_call_handler. estay; [done|].
  by apply stays_pause, stays_ret.
Qed.

Lemma stays_event_publisher_loop fuel : estays EIdle (event_publisher_loop fuel).
Proof.
  pose proof stays_PublishEventBlocking. induction fuel; cbn [event_publisher_loop]; [apply stays_diverge|].
  unfold publish_random_event, wait_lock. estay.
Qed.

Lemma stays_OnRemoteRequest pad command request : estays EIdle (OnRemoteRequest pad command request).
Proof.
  pose proof stays_InvokeAnyCall.
  unfold OnRemoteRequest, HandleOpenSession, HandleHeartbeat, HandleAnyCall, VesService_OpenSession, VesService_CloseSession,
    VesService_Heartbeat, VesService_AnyCall, session_id. estay.
Qed.

Lemma stays_OnStop : estays EIdle OnStop.
Proof. unfold OnStop. estay. Qed.

Lemma stays_engine_op op : estays EIdle (engine_perform op).
Proof.
  pose proof stays_OnRemoteRequest. pose proof stays_PublishEventBlocking. pose proof stays_OnStop.
  destruct op; cbn [engine_perform]; unfold VesEngineService_PublishEvent; estay.
Qed.

Lemma stays_engine_worker fuel w : estays EIdle (engine_run_worker fuel w).
Proof. pose proof stays_event_publisher_loop. destruct w; cbn [engine_run_worker]; unfold EventPublisherLoop; estay. Qed.

End Threads.

Definition engine_compat (_ : list nat) (_ : role) (l1 l2 : list (role * engine_label)) (fr : list engine_label) : Prop :=
  fr = map snd l1 ++ map snd l2.

Definition engine_global (_ : list nat) (ls : list (role * engine_label)) (e : Engine) : Prop := ginv (map snd ls) e.

Lemma engine_split calls l1 r l l2 e :
  engine_global calls (l1 ++ (r, l) :: l2) e <-> exists fr, engine_compat calls r l1 l2 fr /\ erest r l fr e.
Proof.
  unfold engine_global, engine_compat, erest. rewrite map_app. cbn. split.
  - intros H. eexists. split; [done|]. eapply ginv_permutation, H. symmetry. apply Permutation_middle.
  - intros (fr & -> & H). eapply ginv_permutation, H. apply Permutation_middle.
Qed.

#[export] Instance engine_invariant : Invariant erest EIdle engine_compat engine_global.
Proof.
  split.
  - apply engine_split.
  - intros calls ls r e _ H. apply engine_split. eexists. split; [done|]. rewrite app_nil_r.
    destruct H as (? & ? & ? & ?). by split; [|split; [|split; [|constructor]]].
  - intros calls l1 r l2 e (fr & -> & (? & ? & ? & Hk))%engine_split. unfold engine_global. rewrite map_app.
    apply Forall_cons_1 in Hk as [_ ?]. by split; [|split; [|split]].
  - intros op. apply stays_engine_op.
  - intros fuel w. apply stays_engine_worker.
  - intros calls ls e e' (reads & shm & fs & k & _ & ->). by apply ginv_same.
  - done.
Qed.

(** C7: Whatever the callers of the service, its event publisher and the
    threads of its RPC servers do, in every interleaving: a service that is
    initialised is not closing and has an RPC server and a host with a
    session; a closing one has given both up; one that is not initialised has
    no RPC server unless a thread is just starting it under [initMutex_]; the
    publisher's thread object holds a thread exactly while the publisher is
    to run, so that starting it never overwrites a running thread (which
    would end the process), and a published session id comes with a running
    publisher. *)
Theorem service_consistent cfg : reachable cfg -> engine_ok (cf_state cfg).
Proof.
  intros Hr. destruct (reachable_ok _ _ _ _ cfg) with (2 := Hr) as (ls & _ & Hok & _); [|done].
  intros e (services & w & fs & k & fuel & He). unfold OnStart in He.
  destruct (ClearFilePayloads _ _ _) as [[? ?]| |]; [|done..]. injection He as <-. by repeat split.
Qed.

End Invariant.

(** ** A service in a concrete environment *)
Module ServiceDemo.

(** The platform of the other examples, but one call of the kernel fails. *)
#[global] Instance os : Os := {|
  os_mutex_size := 40; os_alloc := fun fds _ => DemoOs.fresh_fd fds; os_errno := fun n => if (n =? 37)%nat then 28 else 0;
  os_timedlock := fun _ => 0; os_kill0 := fun _ _ => 0; os_random64 := fun n => Z.of_nat n mod 2 ^ 64 |}.

#[global] Instance platform : Platform := {|
  Fs := MemFs.t; Kernel := MemKernel.t; env_os := os; env_fs := _; env_kernel := _;
  env_clock := @env_clock DemoPlatform.platform; env_path := @env_path DemoPlatform.platform;
  env_pid := 7; env_fuel := 100 |}.

#[global] Instance env : ServiceEnv := {|
  env_service_client := fun _ w => w; env_service_poll2 := fun _ _ _ k => (0, 0, 0, k);
  env_getenv := fun _ => None; env_draw := fun n lo hi => lo + Z.of_nat n mod (hi - lo + 1) |}.

Definition fresh : Engine :=
  Engine_new {| svc_engine := VesEngineService_default; svc_enableFaultInjection := false |} HostDemo.world MemFs.empty
    MemKernel.demo.

Definition start : config Engine engine_worker :=
  {| cf_state := match OnStart 10 fresh with Returns (_, e) => e | _ => fresh end; cf_pool := []; cf_calls := [] |}.

(** The configuration after a schedule. *)
Definition after (ms : list move) : config Engine engine_worker :=
  match exec ms start with Some cfg => cfg | None => start end.

Definition is_some {A} (x : option A) : bool := match x with Some _ => true | None => false end.

Lemma service_reachable ms : is_some (exec ms start) = true -> reachable (after ms).
Proof.
  intros Hms. exists (cf_state start). split.
  - assert (H : match OnStart 10 fresh with Returns _ => true | _ => false end = true) by (vm_compute; reflexivity).
    exists {| svc_engine := VesEngineService_default; svc_enableFaultInjection := false |}, HostDemo.world, MemFs.empty,
      MemKernel.demo, 10%nat. change (OnStart 10 fresh = Returns (tt, cf_state start)). unfold start. cbn [cf_state].
    by destruct (OnStart 10 fresh) as [[[] e]| |].
  - unfold after. destruct (exec ms start) eqn:E; [|done]. by apply exec_steps in E.
Qed.

(** A step of each of these threads. *)
Definition runs (threads : list nat) : list move := map (fun i => MRun i 50) threads.

Definition open_command : engine_op :=
  OpCommand [] 1 (match VesOpenSessionRequest_Encode DefaultVesOpenSessionRequest Ptr with Defined (_, b) => b | _ => [] end).

(** A client opens the session. *)
Definition opened : list move := MCall open_command :: runs (repeat 0%nat 13).

(** A second client is between the two parts of opening the session when it is
    closed, and a third one fails to open it again. *)
Definition open_race : list move :=
  MCall open_command :: runs (repeat 0%nat 11) ++ MCall (OpCommand [] 2 []) :: runs (repeat 5%nat 9) ++
  runs [6; 5; 4; 3; 2; 1; 5; 4; 3; 2; 1; 4; 3; 2; 1; 4; 3; 2; 1; 4; 3; 2; 1; 4; 3; 2; 1; 4; 3; 2; 1; 4; 3; 2; 1; 4;
        3; 2; 1; 4; 3; 2; 1; 4; 3; 2; 1; 4; 3; 2; 1; 4; 3; 2; 1; 3; 2; 1; 3; 2; 1; 2; 1; 2; 1; 2; 1; 1; 1]%nat ++
  MCall open_command :: runs (repeat 1%nat 4) ++ runs (repeat 0%nat 2).

End ServiceDemo.

Lemma service_consistent_witness :
  eg_initialized (cf_state (ServiceDemo.after ServiceDemo.opened)) = true /\
  engine_ok (cf_state (ServiceDemo.after ServiceDemo.opened)).
Proof.
  split; [vm_compute; reflexivity|]. apply service_consistent, ServiceDemo.service_reachable. vm_compute. reflexivity.
Defined.

Lemma close_uninitialized `{ServiceEnv} e :
  eg_locked e = false -> eg_initialized e = false -> alone SessionService_CloseSession e = Returns (Ok, e).
Proof.
  intros Hl Hi. unfold SessionService_CloseSession, wait_lock, cv_wait. rewrite alone_bind. cbn. unfold bind, gets. cbn.
  rewrite Hl. cbn. by rewrite Hi, orb_true_r.
Qed.

(** Opening the session is not one critical section: [OpenSession] lets
    [initMutex_] go between [EnsureInitialized] and the session host.  When
    the session is closed in between and another attempt to open it fails,
    the first caller opens the host the failed attempt has left behind: there
    is a session id and a publisher, and a heartbeat reports a healthy
    session, but the service is not initialised, no RPC server serves the
    session, and closing the session does nothing. *)
Theorem session_without_server :
  exists cfg, reachable cfg /\ length (cf_pool cfg) = 1%nat /\ eg_initialized (cf_state cfg) = false /\
    eg_rpcServer (cf_state cfg) = None /\ eg_publisherRunning (cf_state cfg) = true /\ eg_sessionId (cf_state cfg) <> 0 /\
    (exists reply e', alone VesService_Heartbeat (cf_state cfg) = Returns ((Ok, reply), e') /\
       hb_sessionId reply = eg_sessionId (cf_state cfg) /\ chr_status (ToHealthResult reply 0) = ChannelHealth.Healthy) /\
    alone SessionService_CloseSession (cf_state cfg) = Returns (Ok, cf_state cfg).
Proof.
  exists (ServiceDemo.after ServiceDemo.open_race). split; [apply ServiceDemo.service_reachable; vm_compute; reflexivity|].
  split; [vm_compute; reflexivity|]. split; [vm_compute; reflexivity|]. split; [vm_compute; reflexivity|].
  split; [vm_compute; reflexivity|]. split; [vm_compute; discriminate|].
  split; [|apply close_uninitialized; vm_compute; reflexivity].
  assert (H : match alone VesService_Heartbeat (cf_state (ServiceDemo.after ServiceDemo.open_race)) with
    | Returns ((Ok, reply), _) => (hb_sessionId reply =? eg_sessionId (cf_state (ServiceDemo.after ServiceDemo.open_race))) &&
        match chr_status (ToHealthResult reply 0) with ChannelHealth.Healthy => true | _ => false end
    | _ => false end = true) by (vm_compute; reflexivity).
  destruct (alone VesService_Heartbeat _) as [[[[] reply] e']| |]; try done. exists reply, e'.
  apply andb_true_iff in H as [Hid Hs]. split; [done|]. split; [by apply Z.eqb_eq|]. by destruct (chr_status _).
Qed.
