(* ===== verification/VesServiceCalls.v ===== *)
(** * The service process: what its control commands do

    The commands of the control channel on the service of [VesService], from
    the bytes a client sends to the bytes it gets back, when no other thread
    interferes: the heartbeat, a call of a handler, and opening the session. *)

From Stdlib Require Import Lia.
From S2P Require Import Prelude Machine Threads Pool Types ByteCodec ShmLayout Ring FilePayload EventFd Os Platform Session.
From S2P Require Import SessionHost Executor ClientState ServerState ServerCore ServerThreads.
From S2P Require Import VesMessages VesRules VesHandlers VesControl ServiceSocket VesService VesServiceSpec.
#[local] Open Scope thread_scope.

Section Calls.
Context {PF : Platform} {SV : ServiceEnv}.

Lemma alone_wait_lock {A} (t : engine_thread A) e :
  eg_locked e = false -> alone (tbind wait_lock (fun _ => t)) e = alone t e.
Proof. intros Hl. unfold wait_lock, cv_wait. cbn. unfold bind, gets. by rewrite Hl. Qed.

(** ** The heartbeat *)

Definition stats_valid (stats : RpcServerRuntimeStats) : Prop :=
  is_u32 (st_activeRequestExecutions stats) /\ is_u32 (st_oldestExecutionAgeMs stats).

Lemma execution_stats_valid stats s :
  is_u32 (st_oldestExecutionAgeMs stats) ->
  exists stats' s', execution_stats stats s = Returns (stats', s') /\ stats_valid stats'.
Proof.
  intros Hv. assert (Hu : forall z, is_u32 (u32 z)) by (intros z; apply Z.mod_pos_bound; lia).
  unfold execution_stats, bind, gets. cbn. destruct (oldest_start _) as [start|].
  - unfold MonotonicNowMs, steady_now, bind. cbn. eexists _, _. split; [done|]. split; [apply Hu|]. cbn.
    assert (Hn : forall z, 0 <= u64 z) by (intros z; apply Z.mod_pos_bound; lia).
    pose proof (Hn (u64 (env_clock (sv_reads s) / NS_PER_MS) - start)). unfold is_u32, UINT32_MAX. lia.
  - eexists _, _. split; [done|]. split; [apply Hu|done].
Qed.

Lemma GetRuntimeStats_returns i e :
  sv_completionLocked (server_of i e) = false ->
  exists stats e', alone (on_server i GetRuntimeStats) e = Returns (stats, e') /\ stats_valid stats.
Proof.
  intros Hl. unfold on_server, GetRuntimeStats, lock_completion. cbn [tbind zoom alone]. rewrite Hl. cbn [negb orb].
  apply always_alone. apply (always_zoom (server_of i) (set_server i)). cbn -[execution_stats ring_stats].
  intros c. eexists _, _. split; [done|]. split; [done|]. intros c1.
  match goal with |- context [ring_stats ?s0] =>
    assert (exists stats c', ring_stats s0 c1 = Returns (stats, c') /\ st_oldestExecutionAgeMs stats = 0)
      as (stats & c' & -> & Hage) end.
  { eexists _, _. split; [done|]. by destruct (read_header _ _). }
  exists stats, c'. split; [done|]. split; [done|]. intros c2.
  destruct (execution_stats_valid stats c2) as (stats' & c3 & -> & Hv); [by rewrite Hage|].
  exists stats', c3. split; [done|]. split; [done|]. intros c4. by eexists _, _.
Qed.

(** The service has a session to report. *)
Definition serving (e : Engine) : bool :=
  negb (eg_stopping e) && eg_sessionService e && es_initialized (svc_engine (eg_services e)) && negb (eg_sessionId e =? 0).

(** Nobody is in a critical section a heartbeat waits for. *)
Definition heartbeat_unblocked (e : Engine) : Prop :=
  eg_locked e = false /\ forall i, eg_rpcServer e = Some i -> sv_completionLocked (server_of i (e <| eg_locked := true |>)) = false.

Definition heartbeat_reports (e : Engine) (reply : VesHeartbeatReply) : Prop :=
  heartbeat_valid reply /\ hb_sessionId reply = (if serving e then eg_sessionId e else 0) /\
  IsHealthyHeartbeatStatus (hb_status reply) = serving e.

Lemma PopulateHealthyReply_spec stats sessionId :
  stats_valid stats -> is_u64 sessionId ->
  let reply := PopulateHealthyReply stats sessionId VesHeartbeatReply_default in
  heartbeat_valid reply /\ hb_sessionId reply = sessionId /\ IsHealthyHeartbeatStatus (hb_status reply) = true.
Proof.
  intros [Ha Ho] Hs. unfold PopulateHealthyReply. cbn.
  destruct (_ =? 0); [|destruct (LONG_RUNNING_REQUEST_THRESHOLD_MS <=? _)];
    (split; [|done]); (split; [|by split]); cbn; repeat (constructor; [done || by split|]); constructor.
Qed.

Lemma stats_returns e :
  heartbeat_unblocked e ->
  exists stats e', alone SessionService_GetRuntimeStats e = Returns (stats, e') /\ stats_valid stats.
Proof.
  intros [Hl Hs]. unfold SessionService_GetRuntimeStats, set_lock. rewrite alone_wait_lock, alone_gets by done.
  destruct (eg_rpcServer e) as [i|] eqn:Ei; [|by eexists _, _].
  destruct (GetRuntimeStats_returns i (e <| eg_locked := true |>)) as (stats & e1 & Hr & Hv); [auto|].
  rewrite alone_modify, (alone_returns _ _ _ _ _ Hr), alone_modify. by eexists _, _.
Qed.

Lemma heartbeat_spec e :
  heartbeat_unblocked e -> is_u64 (eg_sessionId e) ->
  exists reply e', alone VesService_Heartbeat e = Returns ((Ok, reply), e') /\ heartbeat_reports e reply.
Proof.
  intros Hu Hid. unfold VesService_Heartbeat, session_id, heartbeat_reports, serving. rewrite alone_gets.
  destruct (eg_stopping e); cbn [negb andb].
  { eexists _, _. split; [done|]. split; [|done]. split; [repeat constructor; done|by split]. }
  rewrite alone_yield, alone_gets, alone_yield. destruct (eg_sessionService e); cbn [negb andb].
  2:{ rewrite alone_gets. eexists _, _. split; [done|]. split; [|done].
      split; [destruct (es_initialized _); repeat constructor; done|by split]. }
  rewrite alone_gets, alone_yield, alone_gets. destruct (es_initialized _); cbn [negb andb].
  2:{ eexists _, _. split; [done|]. split; [|done]. split; [repeat constructor; done|by split]. }
  destruct (eg_sessionId e =? 0); cbn [negb].
  { eexists _, _. split; [done|]. split; [|done]. split; [repeat constructor; done|by split]. }
  rewrite alone_yield. destruct (stats_returns e Hu) as (stats & e' & Hr & Hv). rewrite (alone_returns _ _ _ _ _ Hr).
  eexists _, _. split; [done|]. by apply PopulateHealthyReply_spec.
Qed.

(** C9: The heartbeat command, from the service to what the client makes of
    its reply: with no thread in the critical sections it enters, the command
    is always answered with a whole heartbeat structure, and the client's
    health check finds, whatever the padding, a healthy session exactly when
    the service is not stopping, its engine is initialised and a session id is
    published; it then reports a mismatch exactly when the client expects
    another session, and in all other cases an unhealthy service without a
    session. *)
Theorem heartbeat_reports_health pad expected e :
  Zlen pad = 4 -> heartbeat_unblocked e -> is_u64 (eg_sessionId e) ->
  exists reply e', alone (OnRemoteRequest pad 3 []) e = Returns (Some reply, e') /\
    Zlen (mr_data reply) = HEARTBEAT_BYTES /\ mr_fds reply = [] /\
    ToHealthResult (heartbeat_of_image (mr_data reply)) expected =
      if serving e
      then {| chr_status := if (expected =? 0) || (expected =? eg_sessionId e) then ChannelHealth.Healthy
                            else ChannelHealth.SessionMismatch;
              chr_sessionId := eg_sessionId e |}
      else {| chr_status := ChannelHealth.Unhealthy; chr_sessionId := 0 |}.
Proof.
  intros Hp Hu Hid. destruct (heartbeat_spec e Hu Hid) as (hb & e' & Hr & Hv & Hs & Hh).
  destruct (heartbeat_roundtrip pad hb Hv Hp) as [Hlen Hrt].
  unfold OnRemoteRequest, HandleHeartbeat. cbn [Z.eqb Pos.eqb]. rewrite (alone_returns _ _ _ _ _ Hr).
  eexists _, _. split; [done|]. cbn [mr_data mr_fds]. split; [done|]. split; [done|]. rewrite Hrt.
  unfold ToHealthResult. rewrite Hs, Hh. unfold serving. destruct (eg_sessionId e =? 0) eqn:E0.
  - rewrite andb_false_r. cbn. by rewrite andb_false_r.
  - destruct (_ && _ && _ && _); [|cbn; by rewrite andb_false_r]. rewrite E0, (Z.eqb_sym (eg_sessionId e)).
    by destruct (expected =? 0), (expected =? eg_sessionId e).
Qed.

(** ** A call over the control channel *)

(** Registering with a server and with a table has the same effect on the
    server's table. *)
Lemma register_server services (s : Server) :
  sv_handlers (register_handlers services s) = register_handlers services (sv_handlers s).
Proof.
  unfold register_handlers, TestkitService_RegisterHandlers, RegisterAllHandlers.
  by destruct (svc_enableFaultInjection services).
Qed.

Lemma new_server_handlers handles options u w fs k : sv_handlers (RpcServer_new handles options u w fs k) = ∅.
Proof. done. Qed.

(** The service is open for calls. *)
Definition accepts_calls (e : Engine) : Prop :=
  eg_stopping e = false /\ es_initialized (svc_engine (eg_services e)) = true /\ eg_sessionService e = true /\
  eg_locked e = false /\ eg_closing e = false /\ eg_initialized e = true.

Lemma EnsureInitialized_done e : accepts_calls e -> alone VesService.EnsureInitialized e = Returns (Ok, e).
Proof.
  intros (_ & _ & _ & Hl & Hc & Hi). unfold VesService.EnsureInitialized.
  by rewrite alone_wait_lock, alone_gets, Hc, alone_gets, Hi.
Qed.

Lemma InvokeAnyCall_spec e call :
  accepts_calls e ->
  match eg_anyCallHandlers e !! u16 (sc_opcode call) with
  | None => alone (InvokeAnyCall call) e = Returns ((InvalidArgument, reply_of_status InvalidArgument), e)
  | Some h => forall d reply u, h call RpcReply_default (eg_services e) = Finishes d reply u ->
      exists e', alone (InvokeAnyCall call) e = Returns ((rp_status reply, reply), e') /\ eg_services e' = u
  end.
Proof.
  intros He. assert (Hi : alone (InvokeAnyCall call) e = alone (InvokeAnyCallHandler call) e).
  { unfold InvokeAnyCall. by rewrite (alone_returns _ _ _ _ _ (EnsureInitialized_done e He)). }
  rewrite Hi. unfold InvokeAnyCallHandler. rewrite alone_gets.
  destruct (eg_anyCallHandlers e !! u16 (sc_opcode call)) as [h|]; [|done]. intros d reply u Hh.
  unfold engine_call_handler. rewrite alone_bind. unfold bind at 1. rewrite alone_gets, Hh, alone_modify.
  destruct (0 <? d); by eexists.
Qed.

Lemma VesService_AnyCall_spec e request :
  accepts_calls e ->
  alone (VesService_AnyCall request) e =
    bind (alone (InvokeAnyCall (any_call request)))
      (fun '(status, reply) => mret (Ok, {| ay_status := status; ay_payload := rp_payload reply |})) e.
Proof.
  intros (Hs & Hi & Hv & _). unfold VesService_AnyCall.
  rewrite alone_gets, Hs, alone_yield, alone_gets, Hi. cbn [negb]. rewrite alone_yield, alone_gets, Hv. cbn [negb].
  rewrite alone_yield, alone_bind. apply bind_ext. by intros [] c.
Qed.

(** C8: A call over the control channel does what the same call over shared
    memory does: the service's RPC server and the table of the control channel
    are filled alike, and from the client's encoding of a request to its
    decoding of the reply, the handler that the RPC server has for the opcode
    is run once on the request's payload, the client gets its status and its
    payload, and the services are in the state the handler leaves; an opcode
    for which the server has no handler is answered with [InvalidArgument] and
    changes nothing. *)
Theorem any_call_like_rpc pad services handles request reply0 e :
  eg_anyCallHandlers e = register_handlers services ∅ -> accepts_calls e -> any_call_valid request ->
  let server := register_handlers services (RpcServer_new handles ServerOptions_default (eg_services e) (eg_world e) (eg_fs e) (eg_kernel e)) in
  let answer status payload services' := exists reply e',
    alone (OnRemoteRequest pad 4 (EncodeAnyCallWire request)) e = Returns (Some reply, e') /\ eg_services e' = services' /\
    DecodeAnyCallWire (mr_data reply) reply0 = (Ok, {| ay_status := status; ay_payload := payload |}) in
  match sv_handlers server !! u16 (ac_opcode request) with
  | None => answer InvalidArgument [] (eg_services e)
  | Some h => forall d reply u, h (any_call request) RpcReply_default (eg_services e) = Finishes d reply u ->
      status_named (rp_status reply) = true -> Zlen (rp_payload reply) < 2 ^ 32 -> answer (rp_status reply) (rp_payload reply) u
  end.
Proof.
  intros Ht He Hv server answer. pose proof (InvokeAnyCall_spec e (any_call request) He) as Hs.
  assert (Hans : forall status reply e', alone (InvokeAnyCall (any_call request)) e = Returns ((status, reply), e') ->
    status_named status = true -> Zlen (rp_payload reply) < 2 ^ 32 -> answer status (rp_payload reply) (eg_services e')).
  { intros status reply e' Hr Hn Hl. unfold answer, OnRemoteRequest, HandleAnyCall. cbn [Z.eqb Pos.eqb].
    rewrite any_call_request_roundtrip by done. rewrite alone_bind. unfold bind. rewrite VesService_AnyCall_spec by done.
    unfold bind. rewrite Hr. eexists _, _. split; [done|]. split; [done|]. by apply any_call_reply_roundtrip. }
  assert (sv_handlers server = eg_anyCallHandlers e) as -> by (rewrite Ht; apply register_server).
  cbn [any_call sc_opcode] in Hs. destruct (eg_anyCallHandlers e !! u16 (ac_opcode request)) as [h|].
  - intros d reply u Hh Hn Hl. destruct (Hs d reply u Hh) as (e' & Hr & <-). by apply Hans.
  - by apply (Hans _ _ _ Hs).
Qed.

(** ** Opening the session again and again *)

(** A service with an open session that nobody else uses. *)
Definition session_open (e : Engine) : Prop :=
  eg_locked e = false /\ eg_closing e = false /\ eg_initialized e = true /\ eg_publisherRunning e = true /\
  exists host, eg_sessionHost e = Some host /\ ho_initialized host = true /\ host_ok host (w_fds (eg_world e)).

(** The open descriptors of the process. *)
Definition open_fds (e : Engine) : nat := size (w_fds (eg_world e)).

(** [n] clients, one after another. *)
Fixpoint open_commands (n : nat) (pad request : bytes) : engine_thread (list (option MockIpcReply)) :=
  match n with
  | O => mret []
  | S n => reply ← OnRemoteRequest pad 1 request; replies ← open_commands n pad request; mret (reply :: replies)
  end.

Definition answered (replies : list (option MockIpcReply)) : nat := length (omap id replies).

Section Leak.
Context {PL : PlatformLaws}.

Lemma host_OpenSession_size host handles e :
  ho_initialized host = true -> host_ok host (w_fds (eg_world e)) ->
  exists st handles' w', host_OpenSession host handles e =
      Returns ((st, handles'), e <| eg_sessionHost := Some host |> <| eg_world := w' |>) /\
    host_ok host (w_fds w') /\
    size (w_fds w') = (size (w_fds (eg_world e)) + if status_is st Ok then 6 else 0)%nat.
Proof.
  intros Hi Hok. unfold host_OpenSession, SessionHost.OpenSession, SessionHost.EnsureInitialized. rewrite Hi.
  cbn [status_is negb]. unfold host_ok in *. rewrite Hi in *. pose proof (DuplicateHandles_spec _ _ Hok) as Hd.
  pose proof (dup_fields_size (handle_fds (ho_handles host)) [] (eg_world e)) as Hs. unfold DuplicateHandles in *.
  destruct (dup_fields _ _ _) as [[l|] w']; destruct Hd as (_ & _ & _ & Hd); cbn [negb].
  - eexists _, _, _. split; [done|]. destruct Hd as (_ & _ & _ & _ & Hmono). split.
    + eapply Forall_impl; [exact Hok|]. intros fd [o Ho]. exists o. by apply Hmono.
    + by rewrite (Hs l w' Hok eq_refl).
  - eexists _, _, _. split; [done|]. destruct Hd as [_ ->]. split; [done|]. by rewrite Nat.add_0_r.
Qed.

Lemma SessionService_OpenSession_size handles e :
  session_open e ->
  exists st handles' e', alone (SessionService_OpenSession handles) e = Returns ((st, handles'), e') /\ session_open e' /\
    open_fds e' = (open_fds e + if status_is st Ok then 6 else 0)%nat.
Proof.
  intros (Hl & Hc & Hi & Hp & host & Hh & Hin & Hok). unfold SessionService_OpenSession.
  assert (alone VesService.EnsureInitialized e = Returns (Ok, e)) as Hen.
  { unfold VesService.EnsureInitialized. by rewrite alone_wait_lock, alone_gets, Hc, alone_gets, Hi. }
  rewrite (alone_returns _ _ _ _ _ Hen). change (negb (status_is Ok Ok)) with false. cbv iota.
  rewrite alone_yield, alone_wait_lock, alone_gets, Hh by done.
  destruct (host_OpenSession_size host handles e Hin Hok) as (st & hs & w' & Hr & Hok' & Hsz).
  rewrite alone_atomic. unfold bind. rewrite Hr. cbn [run_bind].
  destruct (status_is st Ok) eqn:Est; cbn [negb].
  - rewrite alone_modify, alone_bind. unfold bind, StartEventPublisherLocked. rewrite alone_gets. cbn. rewrite Hp.
    eexists _, _, _. split; [done|]. rewrite Est. split; [|done]. repeat (split; [done|]). by exists host.
  - eexists _, _, _. split; [done|]. rewrite Est. split; [|done]. repeat (split; [done|]). by exists host.
Qed.

Lemma open_command_size pad request e :
  session_open e ->
  exists reply e', alone (OnRemoteRequest pad 1 request) e = Returns (reply, e') /\ session_open e' /\
    open_fds e' = (open_fds e + 6 * answered [reply])%nat.
Proof.
  intros He. unfold OnRemoteRequest, HandleOpenSession. cbn [Z.eqb Pos.eqb].
  assert (Hno : forall e1, open_fds e1 = open_fds e -> session_open e1 ->
    exists reply e', @Returns (option MockIpcReply * Engine) (None, e1) = Returns (reply, e') /\ session_open e' /\
      open_fds e' = (open_fds e + 6 * answered [reply])%nat).
  { intros e1 Hf H1. eexists _, _. split; [done|]. split; [done|]. cbn. lia. }
  destruct (DecodeOpenSessionRequest request Ptr) as [openRequest|]; [|by apply Hno].
  rewrite alone_bind. unfold bind, VesService_OpenSession. rewrite alone_gets.
  destruct (eg_stopping e); [by apply Hno|]. rewrite alone_yield, alone_gets, alone_modify.
  set (e1 := e <| eg_services := _ |>). assert (He1 : session_open e1) by exact He.
  destruct (negb (status_is _ Ok)) eqn:Est.
  { apply negb_true_iff in Est. cbn. rewrite Est. by apply Hno. }
  rewrite alone_yield, alone_gets. destruct (negb (eg_sessionService e1)); [by apply Hno|]. rewrite alone_yield.
  destruct (SessionService_OpenSession_size MakeDefaultBootstrapHandles e1 He1) as (st & hs & e2 & -> & He2 & Hsz).
  cbn [run_bind alone mret]. eexists _, _. split; [done|]. split; [done|]. rewrite Hsz.
  by destruct (status_is st Ok).
Qed.

(** Every answered command to open the session leaves six descriptors
    open in the service: the host duplicates its own six for the client, the
    reply refers to the duplicates, and nothing of the service closes them
    after they were sent.  A service with an open session answers or refuses
    any number of such commands and keeps its session, but what it has open
    grows by six for each answer, until descriptors run out. *)
Theorem open_commands_leak n pad request e :
  session_open e ->
  exists replies e', alone (open_commands n pad request) e = Returns (replies, e') /\ length replies = n /\
    session_open e' /\ open_fds e' = (open_fds e + 6 * answered replies)%nat.
Proof.
  revert e. induction n as [|n IH]; intros e He; cbn [open_commands].
  - eexists _, _. split; [done|]. split; [done|]. split; [done|]. cbn. lia.
  - destruct (open_command_size pad request e He) as (reply & e1 & Hr & He1 & Hs1).
    destruct (IH e1 He1) as (replies & e2 & Hr2 & Hn & He2 & Hs2).
    rewrite (alone_returns _ _ _ _ _ Hr), (alone_returns _ _ _ _ _ Hr2). exists (reply :: replies), e2.
    split; [done|]. split; [cbn; lia|]. split; [done|]. rewrite Hs2, Hs1. unfold answered. destruct reply; cbn; lia.
Qed.

End Leak.

End Calls.

(** ** The service of [ServiceDemo], with an open session *)
Module CommandDemo.
Export ServiceDemo.

Definition service : Engine := cf_state (after opened).

#[global] Instance os_laws : OsLaws (H := os).
Proof.
  split; [exact (@os_mutex_size_ok _ DemoOs.os_laws)|exact (@os_alloc_fresh _ DemoOs.os_laws)|].
  exact (@os_random64_range _ DemoOs.os_laws).
Qed.

#[global] Instance platform_laws : PlatformLaws.
Proof. split; [exact os_laws|exact (@law_clock _ DemoPlatform.platform_laws)|exact (@law_clock_range _ DemoPlatform.platform_laws)]. Qed.

Lemma server_index : eg_rpcServer service = Some 0%nat.
Proof. vm_compute. reflexivity. Qed.

Lemma unblocked : heartbeat_unblocked service.
Proof.
  split; [vm_compute; reflexivity|]. intros i Hi. rewrite server_index in Hi. injection Hi as <-. vm_compute. reflexivity.
Qed.

(** Whether the host has a session and its descriptors are open. *)
Definition host_fine : bool :=
  match eg_sessionHost service with
  | Some host => ho_initialized host &&
      forallb (fun fd => bool_decide (is_Some (w_fds (eg_world service) !! fd))) (handle_fds (ho_handles host))
  | None => false
  end.

Lemma is_open : session_open service.
Proof.
  assert (H : host_fine = true) by (vm_compute; reflexivity). repeat (split; [vm_compute; reflexivity|]).
  unfold host_fine in H. destruct (eg_sessionHost service) as [host|]; [|done]. apply andb_true_iff in H as [Hi H].
  exists host. split; [done|]. split; [done|]. unfold host_ok. rewrite Hi. apply Forall_forall. intros fd Hfd.
  rewrite forallb_forall in H. apply list_elem_of_In, H in Hfd. by apply bool_decide_eq_true in Hfd.
Qed.

Definition echo_request : VesAnyCallRequest := {|
  ac_opcode := TestkitOpcode_Echo; ac_priority := 0; ac_timeoutMs := 0;
  ac_payload := match EncodeMessage {| eq_text := "hi" |} Ptr with Defined (_, b) => b | Undefined => [] end |}.

Lemma echo_valid : any_call_valid echo_request.
Proof. repeat split; vm_compute; congruence. Qed.

(** The service with its table as [EnsureInitialized] fills it. *)
Definition registered : Engine := service <| eg_anyCallHandlers := register_handlers (eg_services service) ∅ |>.

Lemma registered_table : eg_anyCallHandlers registered = register_handlers (eg_services service) ∅.
Proof. done. Qed.

Lemma registered_accepts : accepts_calls registered.
Proof. repeat split; vm_compute; reflexivity. Qed.

(** What the handler answers. *)
Lemma echo_answered :
  match register_handlers (eg_services service) (∅ : gmap Z (handler Services)) !! u16 (ac_opcode echo_request) with
  | Some h => match h (any_call echo_request) RpcReply_default (eg_services registered) with
              | Finishes _ reply _ => status_is (rp_status reply) Ok && bool_decide (rp_payload reply = ac_payload echo_request)
              | _ => false
              end
  | None => false
  end = true.
Proof. vm_compute. reflexivity. Qed.

Definition open_request : bytes :=
  match VesOpenSessionRequest_Encode DefaultVesOpenSessionRequest Ptr with Defined (_, b) => b | Undefined => [] end.

End CommandDemo.

Lemma heartbeat_reports_health_witness :
  exists reply e', alone (OnRemoteRequest (zero_payload 4) 3 []) CommandDemo.service = Returns (Some reply, e') /\
    chr_status (ToHealthResult (heartbeat_of_image (mr_data reply)) 0) = ChannelHealth.Healthy.
Proof.
  assert (Hid : is_u64 (eg_sessionId CommandDemo.service)) by (split; vm_compute; congruence).
  destruct (heartbeat_reports_health (zero_payload 4) 0 CommandDemo.service eq_refl CommandDemo.unblocked Hid)
    as (reply & e' & Hr & _ & _ & Hh).
  exists reply, e'. split; [exact Hr|]. rewrite Hh. vm_compute. reflexivity.
Defined.

Lemma open_commands_leak_witness :
  exists replies e', alone (open_commands 3 (zero_payload 4) CommandDemo.open_request) CommandDemo.service = Returns (replies, e') /\
    answered replies = 3%nat /\ open_fds e' = (open_fds CommandDemo.service + 18)%nat.
Proof.
  destruct (open_commands_leak 3 (zero_payload 4) CommandDemo.open_request CommandDemo.service CommandDemo.is_open)
    as (replies & e' & Hr & _ & _ & Hs).
  assert (H : match alone (open_commands 3 (zero_payload 4) CommandDemo.open_request) CommandDemo.service with
    | Returns (replies, _) => answered replies | _ => O end = 3%nat) by (vm_compute; reflexivity).
  rewrite Hr in H. exists replies, e'. split; [exact Hr|]. split; [exact H|]. rewrite Hs, H. reflexivity.
Defined.

Lemma any_call_like_rpc_witness :
  exists reply e', alone (OnRemoteRequest (zero_payload 4) 4 (EncodeAnyCallWire CommandDemo.echo_request)) CommandDemo.registered =
      Returns (Some reply, e') /\
    DecodeAnyCallWire (mr_data reply) VesAnyCallReply_default =
      (Ok, {| ay_status := Ok; ay_payload := ac_payload CommandDemo.echo_request |}).
Proof.
  pose proof (any_call_like_rpc (zero_payload 4) (eg_services CommandDemo.service) MakeDefaultBootstrapHandles
    CommandDemo.echo_request VesAnyCallReply_default CommandDemo.registered CommandDemo.registered_table
    CommandDemo.registered_accepts CommandDemo.echo_valid) as H.
  cbv zeta in H. rewrite register_server, new_server_handlers in H. pose proof CommandDemo.echo_answered as Ha.
  destruct (register_handlers _ _ !! _) as [h|]; [|discriminate Ha].
  destruct (h _ _ _) as [d reply u| | |] eqn:E; try discriminate Ha. apply andb_true_iff in Ha as [Hst Hpl].
  assert (Hok : rp_status reply = Ok) by (by destruct (rp_status reply)). apply bool_decide_eq_true in Hpl.
  destruct (H d reply u eq_refl) as (r & e' & Hr & _ & Hd).
  - rewrite Hok. reflexivity.
  - rewrite Hpl. vm_compute. reflexivity.
  - exists r, e'. split; [exact Hr|]. rewrite Hd, Hok, Hpl. reflexivity.
Defined.
